(** * Cosmos reverb: a shallow embedding of the DSP core

    The C++ sources under [Source/DSP] are embedded function by function.

    Numbers.  The code computes in [float] (IEEE-754 binary32) and, wherever
    the sample rate takes part, in [double] (binary64).  Every definition
    below is written once, over an arithmetic interface [Arith], and is run
    at two instances:

    - [binary32] / [binary64]: the bit-exact semantics, built on the
      parametric operations of [SpecFloat] (round to nearest, ties to even,
      signed zeros, infinities, NaN);
    - [Q]: exact rational arithmetic, the idealisation in which the
      algebraic laws of the specification are stated.

    Results that only depend on the shape of the code are proved for every
    instance; results about clamping are proved for [binary32]; algebraic
    results are proved for [Q]; results that depend on rounding are
    evaluated at [binary32].

    Undefined behaviour.  Indexing a [std::vector] out of range, converting
    a NaN or an out-of-range value to [int], overflowing an [int] and taking
    a remainder by zero are undefined in C++: the embedded functions return
    [None] there. *)

From Stdlib Require Import ZArith QArith Qround Qabs List Bool Lia Lqa.
From Stdlib Require Import Floats.SpecFloat.
Import ListNotations.

Set Implicit Arguments.
Unset Strict Implicit.

(** ** Arithmetic interface *)

Class Arith (F : Type) : Type := {
  f_lit    : Z -> positive -> F;   (* the literal n/d, correctly rounded *)
  f_add    : F -> F -> F;
  f_sub    : F -> F -> F;
  f_mul    : F -> F -> F;
  f_div    : F -> F -> F;
  f_opp    : F -> F;
  f_abs    : F -> F;               (* std::abs *)
  f_ltb    : F -> F -> bool;       (* x < y  *)
  f_leb    : F -> F -> bool;       (* x <= y *)
  f_of_int : Z -> F;               (* static_cast<float>(int) *)
  f_to_int : F -> option Z         (* static_cast<int>(float) *)
}.

(** Conversions between [float] (F) and [double] (D). *)
Class Conv (F D : Type) : Type := {
  to_double : F -> D;
  to_float  : D -> F
}.

Declare Scope fl_scope.
Delimit Scope fl_scope with fl.
Notation "x + y" := (f_add x y) : fl_scope.
Notation "x - y" := (f_sub x y) : fl_scope.
Notation "x * y" := (f_mul x y) : fl_scope.
Notation "x / y" := (f_div x y) : fl_scope.
Notation "- x" := (f_opp x) : fl_scope.
Notation "x <? y" := (f_ltb x y) : fl_scope.
Notation "x <=? y" := (f_leb x y) : fl_scope.
Notation "x >? y" := (f_ltb y x) (only parsing) : fl_scope.
Notation "x >=? y" := (f_leb y x) (only parsing) : fl_scope.

Definition fzero {F} `{Arith F} : F := f_lit 0 1.
Definition fone {F} `{Arith F} : F := f_lit 1 1.

(** ** The [int] type and the option monad of undefined behaviour *)

Definition INT_MIN : Z := - 2 ^ 31.
Definition INT_MAX : Z := 2 ^ 31 - 1.

Definition in_int (z : Z) : bool := (INT_MIN <=? z)%Z && (z <=? INT_MAX)%Z.

(** An [int] result: [None] on signed overflow. *)
Definition int_ok (z : Z) : option Z := if in_int z then Some z else None.

(** [a % b] on [int]: truncated remainder, undefined for [b = 0]. *)
Definition int_rem (a b : Z) : option Z :=
  if (b =? 0)%Z then None else Some (Z.rem a b).

Definition bind {A B} (x : option A) (k : A -> option B) : option B :=
  match x with
  | Some a => k a
  | None => None
  end.

Notation "x <- e ;; k" := (bind e (fun x => k))
  (at level 61, e at next level, right associativity).
Notation "' p <- e ;; k" := (bind e (fun p => k))
  (at level 61, p pattern, e at next level, right associativity).

(** ** [std::vector<float>] and [std::array] as lists *)

Fixpoint upd {A} (n : nat) (x : A) (l : list A) : list A :=
  match l, n with
  | [], _ => []
  | _ :: t, O => x :: t
  | h :: t, S k => h :: upd k x t
  end.

(** [size v] is [static_cast<int>(v.size())]. *)
Definition size {A} (v : list A) : Z := Z.of_nat (length v).

(** [v[static_cast<size_t>(i)]]: a negative [i] wraps to a huge index. *)
Definition vec_get {A} (v : list A) (i : Z) : option A :=
  if (0 <=? i)%Z then nth_error v (Z.to_nat i) else None.

(** [v[static_cast<size_t>(i)] = x]. *)
Definition vec_set {A} (v : list A) (i : Z) (x : A) : option (list A) :=
  if ((0 <=? i) && (i <? size v))%Z then Some (upd (Z.to_nat i) x v) else None.

(** [std::fill(v.begin(), v.end(), x)]. *)
Definition fill {A} (v : list A) (x : A) : list A := repeat x (length v).

(** [std::array<std::array<T, C>, R>]: [g[ch][i]] and
    [g[ch][i] = f (g[ch][i])]. *)
Definition grid_get {A} (g : list (list A)) (ch i : Z) : option A :=
  match vec_get g ch with
  | Some row => vec_get row i
  | None => None
  end.

Definition grid_update {A} (g : list (list A)) (ch i : Z) (f : A -> A)
  : option (list (list A)) :=
  match vec_get g ch with
  | Some row =>
      match vec_get row i with
      | Some a =>
          match vec_set row i (f a) with
          | Some row' => vec_set g ch row'
          | None => None
          end
      | None => None
      end
  | None => None
  end.

(** ** JUCE helpers: [jlimit], [jmin], [jmax] *)

Definition jlimit {F} `{Arith F} (lowerLimit upperLimit v : F) : F :=
  if (v <? lowerLimit)%fl then lowerLimit
  else if (upperLimit <? v)%fl then upperLimit else v.

Definition jmax {F} `{Arith F} (a b : F) : F := if (a <? b)%fl then b else a.

Definition jlimit_int (lowerLimit upperLimit v : Z) : Z :=
  if (v <? lowerLimit)%Z then lowerLimit
  else if (upperLimit <? v)%Z then upperLimit else v.

Definition jmin_int (a b : Z) : Z := if (b <? a)%Z then b else a.

(** ** Instance: IEEE-754 binary32 and binary64 *)

Record binary32 : Type := B32 { b32 : spec_float }.
Record binary64 : Type := B64 { b64 : spec_float }.

Section IEEE.
Variables prec emax : Z.

Definition sf_lit (n : Z) (d : positive) : spec_float :=
  match n with
  | Z0 => S754_zero false
  | Zpos p => SFdiv prec emax (S754_finite false p 0) (S754_finite false d 0)
  | Zneg p => SFdiv prec emax (S754_finite true p 0) (S754_finite false d 0)
  end.

Definition sf_of_int (z : Z) : spec_float :=
  binary_normalize prec emax z 0 false.

(** Truncation toward zero; NaN, infinities and values outside [int] are
    undefined. *)
Definition sf_to_int (x : spec_float) : option Z :=
  match x with
  | S754_zero _ => Some 0%Z
  | S754_finite s m e =>
      let a := match e with
               | Z0 => Zpos m
               | Zpos _ => Z.shiftl (Zpos m) e
               | Zneg k => Z.shiftr (Zpos m) (Zpos k)
               end in
      int_ok (if s then (- a)%Z else a)
  | _ => None
  end.

(** Re-rounding a value to this format (float <-> double conversion). *)
Definition sf_round (x : spec_float) : spec_float :=
  match x with
  | S754_finite s m e => binary_normalize prec emax (cond_Zopp s (Zpos m)) e s
  | _ => x
  end.
End IEEE.

#[export] Instance binary32_arith : Arith binary32 := {
  f_lit n d := B32 (sf_lit 24 128 n d);
  f_add x y := B32 (SFadd 24 128 (b32 x) (b32 y));
  f_sub x y := B32 (SFsub 24 128 (b32 x) (b32 y));
  f_mul x y := B32 (SFmul 24 128 (b32 x) (b32 y));
  f_div x y := B32 (SFdiv 24 128 (b32 x) (b32 y));
  f_opp x := B32 (SFopp (b32 x));
  f_abs x := B32 (SFabs (b32 x));
  f_ltb x y := SFltb (b32 x) (b32 y);
  f_leb x y := SFleb (b32 x) (b32 y);
  f_of_int z := B32 (sf_of_int 24 128 z);
  f_to_int x := sf_to_int (b32 x)
}.

#[export] Instance binary64_arith : Arith binary64 := {
  f_lit n d := B64 (sf_lit 53 1024 n d);
  f_add x y := B64 (SFadd 53 1024 (b64 x) (b64 y));
  f_sub x y := B64 (SFsub 53 1024 (b64 x) (b64 y));
  f_mul x y := B64 (SFmul 53 1024 (b64 x) (b64 y));
  f_div x y := B64 (SFdiv 53 1024 (b64 x) (b64 y));
  f_opp x := B64 (SFopp (b64 x));
  f_abs x := B64 (SFabs (b64 x));
  f_ltb x y := SFltb (b64 x) (b64 y);
  f_leb x y := SFleb (b64 x) (b64 y);
  f_of_int z := B64 (sf_of_int 53 1024 z);
  f_to_int x := sf_to_int (b64 x)
}.

#[export] Instance ieee_conv : Conv binary32 binary64 := {
  to_double x := B64 (sf_round 53 1024 (b32 x));
  to_float x := B32 (sf_round 24 128 (b64 x))
}.

(** ** Instance: exact rationals *)

Definition Q_to_int (q : Q) : option Z :=
  int_ok (Z.quot (Qnum q) (Zpos (Qden q))).

#[export] Instance Q_arith : Arith Q := {
  f_lit n d := Qmake n d;
  f_add := Qplus;
  f_sub := Qminus;
  f_mul := Qmult;
  f_div := Qdiv;
  f_opp := Qopp;
  f_abs := Qabs;
  f_ltb x y := if Qlt_le_dec x y then true else false;
  f_leb x y := if Qlt_le_dec y x then false else true;
  f_of_int := inject_Z;
  f_to_int := Q_to_int
}.

#[export] Instance Q_conv : Conv Q Q := {
  to_double x := x;
  to_float x := x
}.

(** ** Loops *)

(** [for (int i = i0; i < i0 + n; ++i) body], threading the state. *)
Fixpoint for_from {S} (i : Z) (n : nat) (body : Z -> S -> option S) (s : S)
  : option S :=
  match n with
  | O => Some s
  | Datatypes.S k => s' <- body i s ;; for_from (i + 1) k body s'
  end.

Definition for_loop {S} (n : nat) (body : Z -> S -> option S) (s : S)
  : option S := for_from 0 n body s.

(** ** Interpolated delay line, as the specification words it (sections
    3 and 4.1)

    [write] stores at the write index and advances it modulo the buffer
    length; [readInterpolated] takes the fractional position
    [writeIndex - delaySamples], wrapped into range, and interpolates
    linearly between the two neighbouring samples.  The read index is
    always wrapped into range before the buffer is read: both neighbours
    are taken modulo the buffer length. *)
Module DelayLine.
Section Defs.
Context {F : Type} {AF : Arith F}.

Definition readInterpolated (buf : list F) (writeIndex : Z) (delaySamples : F)
  : option F :=
  let pos := (f_of_int writeIndex - delaySamples)%fl in
  let pos := if (pos <? fzero)%fl then (pos + f_of_int (size buf))%fl else pos in
  whole <- f_to_int pos ;;
  let frac := (pos - f_of_int whole)%fl in
  a <- vec_get buf (whole mod size buf) ;;
  b <- vec_get buf ((whole + 1) mod size buf) ;;
  Some (a * (fone - frac) + b * frac)%fl.

Definition write (buf : list F) (writeIndex : Z) (sample : F)
  : option (list F * Z) :=
  buf' <- vec_set buf writeIndex sample ;;
  Some (buf', ((writeIndex + 1) mod size buf)%Z).
End Defs.
End DelayLine.

(** ** CombFilter.h *)
Module CombFilter.
Section Defs.
Context {F D : Type} {AF : Arith F} {AD : Arith D}.

Record t : Type := mk {
  buffer : list F;
  writeIndex : Z;
  maxDelay : Z;
  currentDelay : F;
  feedback : F;
  damping : F;
  filterState : F;
  sampleRate : D
}.

(** Default member initialisers. *)
Definition init : t :=
  mk [] 0 0 (f_lit 1000 1) (f_lit 7 10) (f_lit 3 10) fzero (f_lit 44100 1).

Definition prepare (c : t) (sr : D) (maxDelaySamples : Z) : t :=
  mk (repeat fzero (Z.to_nat (maxDelaySamples + 4))) 0 maxDelaySamples
     (currentDelay c) (feedback c) (damping c) fzero sr.

Definition reset (c : t) : t :=
  mk (fill (buffer c) fzero) 0 (maxDelay c)
     (currentDelay c) (feedback c) (damping c) fzero (sampleRate c).

Definition setDelayTime (c : t) (delaySamples : F) : t :=
  mk (buffer c) (writeIndex c) (maxDelay c)
     (jlimit fone (f_of_int (maxDelay c)) delaySamples)
     (feedback c) (damping c) (filterState c) (sampleRate c).

Definition setFeedback (c : t) (fb : F) : t :=
  mk (buffer c) (writeIndex c) (maxDelay c) (currentDelay c)
     (jlimit fzero (f_lit 999 1000) fb)
     (damping c) (filterState c) (sampleRate c).

Definition setDamping (c : t) (damp : F) : t :=
  mk (buffer c) (writeIndex c) (maxDelay c) (currentDelay c) (feedback c)
     (jlimit fzero (f_lit 999 1000) damp)
     (filterState c) (sampleRate c).

Definition process (c : t) (input : F) : option (F * t) :=
  let readPos := (f_of_int (writeIndex c) - currentDelay c)%fl in
  let readPos := if (readPos <? fzero)%fl
                 then (readPos + f_of_int (size (buffer c)))%fl
                 else readPos in
  readIndex0 <- f_to_int readPos ;;
  next <- int_ok (readIndex0 + 1) ;;
  readIndex1 <- int_rem next (size (buffer c)) ;;
  let frac := (readPos - f_of_int readIndex0)%fl in
  b0 <- vec_get (buffer c) readIndex0 ;;
  b1 <- vec_get (buffer c) readIndex1 ;;
  let delayed := (b0 * (fone - frac) + b1 * frac)%fl in
  let filterState' :=
    (delayed * (fone - damping c) + filterState c * damping c)%fl in
  buffer' <- vec_set (buffer c) (writeIndex c)
                     (input + filterState' * feedback c)%fl ;;
  w <- int_ok (writeIndex c + 1) ;;
  writeIndex' <- int_rem w (size (buffer c)) ;;
  Some (delayed,
        mk buffer' writeIndex' (maxDelay c) (currentDelay c) (feedback c)
           (damping c) filterState' (sampleRate c)).

Definition processModulated (c : t) (input modOffset : F) : option (F * t) :=
  let modulatedDelay := (currentDelay c + modOffset)%fl in
  let modulatedDelay := jlimit fone (f_of_int (maxDelay c)) modulatedDelay in
  let readPos := (f_of_int (writeIndex c) - modulatedDelay)%fl in
  let readPos := if (readPos <? fzero)%fl
                 then (readPos + f_of_int (size (buffer c)))%fl
                 else readPos in
  readIndex0 <- f_to_int readPos ;;
  next <- int_ok (readIndex0 + 1) ;;
  readIndex1 <- int_rem next (size (buffer c)) ;;
  let frac := (readPos - f_of_int readIndex0)%fl in
  b0 <- vec_get (buffer c) readIndex0 ;;
  b1 <- vec_get (buffer c) readIndex1 ;;
  let delayed := (b0 * (fone - frac) + b1 * frac)%fl in
  let filterState' :=
    (delayed * (fone - damping c) + filterState c * damping c)%fl in
  buffer' <- vec_set (buffer c) (writeIndex c)
                     (input + filterState' * feedback c)%fl ;;
  w <- int_ok (writeIndex c + 1) ;;
  writeIndex' <- int_rem w (size (buffer c)) ;;
  Some (delayed,
        mk buffer' writeIndex' (maxDelay c) (currentDelay c) (feedback c)
           (damping c) filterState' (sampleRate c)).

(** The state with another [currentDelay]; used to state what
    [processModulated] leaves alone. *)
Definition with_delay (c : t) (d : F) : t :=
  mk (buffer c) (writeIndex c) (maxDelay c) d (feedback c) (damping c)
     (filterState c) (sampleRate c).

(** [readIndex0] of [process]: the index of the cell it reads first. *)
Definition readIndex0 (c : t) : option Z :=
  let readPos := (f_of_int (writeIndex c) - currentDelay c)%fl in
  let readPos := if (readPos <? fzero)%fl
                 then (readPos + f_of_int (size (buffer c)))%fl
                 else readPos in
  f_to_int readPos.

(** Section 4.3 of the specification, step by step over [DelayLine]. *)
Definition spec_process (c : t) (input : F) : option (F * t) :=
  delayed <- DelayLine.readInterpolated (buffer c) (writeIndex c)
                                        (currentDelay c) ;;
  let fs := (delayed * (fone - damping c) + filterState c * damping c)%fl in
  ' (buf, w) <- DelayLine.write (buffer c) (writeIndex c)
                                (input + fs * feedback c)%fl ;;
  Some (delayed,
        mk buf w (maxDelay c) (currentDelay c) (feedback c) (damping c) fs
           (sampleRate c)).
End Defs.
End CombFilter.

(** ** AllpassFilter.h *)
Module AllpassFilter.
Section Defs.
Context {F D : Type} {AF : Arith F} {AD : Arith D}.

Record t : Type := mk {
  buffer : list F;
  writeIndex : Z;
  maxDelay : Z;
  currentDelay : F;
  feedback : F;
  sampleRate : D
}.

Definition init : t :=
  mk [] 0 0 (f_lit 100 1) (f_lit 5 10) (f_lit 44100 1).

Definition prepare (a : t) (sr : D) (maxDelaySamples : Z) : t :=
  mk (repeat fzero (Z.to_nat (maxDelaySamples + 4))) 0 maxDelaySamples
     (currentDelay a) (feedback a) sr.

Definition reset (a : t) : t :=
  mk (fill (buffer a) fzero) 0 (maxDelay a) (currentDelay a) (feedback a)
     (sampleRate a).

Definition setDelayTime (a : t) (delaySamples : F) : t :=
  mk (buffer a) (writeIndex a) (maxDelay a)
     (jlimit fone (f_of_int (maxDelay a)) delaySamples)
     (feedback a) (sampleRate a).

Definition setFeedback (a : t) (fb : F) : t :=
  mk (buffer a) (writeIndex a) (maxDelay a) (currentDelay a)
     (jlimit (f_lit (-99) 100) (f_lit 99 100) fb) (sampleRate a).

Definition process (a : t) (input : F) : option (F * t) :=
  let readPos := (f_of_int (writeIndex a) - currentDelay a)%fl in
  let readPos := if (readPos <? fzero)%fl
                 then (readPos + f_of_int (size (buffer a)))%fl
                 else readPos in
  readIndex0 <- f_to_int readPos ;;
  next <- int_ok (readIndex0 + 1) ;;
  readIndex1 <- int_rem next (size (buffer a)) ;;
  let frac := (readPos - f_of_int readIndex0)%fl in
  b0 <- vec_get (buffer a) readIndex0 ;;
  b1 <- vec_get (buffer a) readIndex1 ;;
  let delayed := (b0 * (fone - frac) + b1 * frac)%fl in
  let output := (- feedback a * input + delayed)%fl in
  buffer' <- vec_set (buffer a) (writeIndex a)
                     (input + feedback a * delayed)%fl ;;
  w <- int_ok (writeIndex a + 1) ;;
  writeIndex' <- int_rem w (size (buffer a)) ;;
  Some (output,
        mk buffer' writeIndex' (maxDelay a) (currentDelay a) (feedback a)
           (sampleRate a)).

Definition processModulated (a : t) (input modOffset : F) : option (F * t) :=
  let modulatedDelay := (currentDelay a + modOffset)%fl in
  let modulatedDelay := jlimit fone (f_of_int (maxDelay a)) modulatedDelay in
  let readPos := (f_of_int (writeIndex a) - modulatedDelay)%fl in
  let readPos := if (readPos <? fzero)%fl
                 then (readPos + f_of_int (size (buffer a)))%fl
                 else readPos in
  readIndex0 <- f_to_int readPos ;;
  next <- int_ok (readIndex0 + 1) ;;
  readIndex1 <- int_rem next (size (buffer a)) ;;
  let frac := (readPos - f_of_int readIndex0)%fl in
  b0 <- vec_get (buffer a) readIndex0 ;;
  b1 <- vec_get (buffer a) readIndex1 ;;
  let delayed := (b0 * (fone - frac) + b1 * frac)%fl in
  let output := (- feedback a * input + delayed)%fl in
  buffer' <- vec_set (buffer a) (writeIndex a)
                     (input + feedback a * delayed)%fl ;;
  w <- int_ok (writeIndex a + 1) ;;
  writeIndex' <- int_rem w (size (buffer a)) ;;
  Some (output,
        mk buffer' writeIndex' (maxDelay a) (currentDelay a) (feedback a)
           (sampleRate a)).

Definition with_delay (a : t) (d : F) : t :=
  mk (buffer a) (writeIndex a) (maxDelay a) d (feedback a) (sampleRate a).
End Defs.
End AllpassFilter.

(** ** What lies outside the repository

    [std::pow], [std::sin] and the random source are libm and the C++
    standard library; the IIR filter, its coefficient designers and
    [Decibels::decibelsToGain] are JUCE.  They are taken as parameters. *)

Class Libm (F : Type) : Type := {
  powf : F -> F -> F;
  sinf : F -> F;
  (* the k-th value drawn from uniform_real_distribution(lo, hi) over a
     generator seeded by std::random_device *)
  uniform : F -> F -> nat -> F
}.

Class JuceDSP (F D : Type) : Type := {
  Coefficients : Type;
  IIRFilter : Type;                      (* the registers of one IIR::Filter *)
  iir_default : Coefficients;
  iir_cleared : IIRFilter;               (* after prepare() or reset() *)
  makeLowPass : D -> F -> F -> Coefficients;
  makeHighPass : D -> F -> F -> Coefficients;
  makeBandPass : D -> F -> F -> Coefficients;
  makeLowShelf : D -> F -> F -> F -> Coefficients;
  iir_process : Coefficients -> IIRFilter -> list F -> IIRFilter * list F;
  decibelsToGain : F -> F
}.

(** [juce::AudioBuffer<float>]: [numSamples] samples in each channel. *)
Record AudioBuffer (F : Type) : Type := mkBuf {
  numSamples : nat;
  chans : list (list F)
}.

Section AudioBufferOps.
Context {F : Type} {AF : Arith F}.

Definition getNumChannels (b : AudioBuffer F) : Z := size (chans b).

Definition getSample (b : AudioBuffer F) (ch i : Z) : option F :=
  c <- vec_get (chans b) ch ;; vec_get c i.

Definition setSample (b : AudioBuffer F) (ch i : Z) (x : F)
  : option (AudioBuffer F) :=
  c <- vec_get (chans b) ch ;;
  c' <- vec_set c i x ;;
  cs <- vec_set (chans b) ch c' ;;
  Some (mkBuf (numSamples b) cs).

(** [AudioBuffer<float> b (numChannels, n); b.clear();] *)
Definition cleared (numChannels n : nat) : AudioBuffer F :=
  mkBuf n (repeat (repeat fzero n) numChannels).

(** [dst.copyFrom (ch, 0, src, ch, 0, dst.getNumSamples())]. *)
Definition copyFrom (dst : AudioBuffer F) (ch : Z) (src : AudioBuffer F)
  : option (AudioBuffer F) :=
  c <- vec_get (chans src) ch ;;
  cs <- vec_set (chans dst) ch c ;;
  Some (mkBuf (numSamples dst) cs).
End AudioBufferOps.

(** [juce::dsp::ProcessorDuplicator]: one set of coefficients shared by one
    filter per channel. *)
Module Duplicator.
Section Defs.
Context {F D : Type} {J : JuceDSP F D}.

Record t : Type := mk {
  state : Coefficients;
  processors : list IIRFilter
}.

Definition init : t := mk iir_default [].

Definition prepare (d : t) (numChannels : nat) : t :=
  mk (state d) (repeat iir_cleared numChannels).

Definition reset (d : t) : t :=
  mk (state d) (fill (processors d) iir_cleared).

Definition setState (d : t) (c : Coefficients) : t := mk c (processors d).

Fixpoint run (c : Coefficients) (ps : list IIRFilter) (chs : list (list F))
  : option (list IIRFilter * list (list F)) :=
  match chs, ps with
  | [], _ => Some (ps, [])
  | ch :: chs', p :: ps' =>
      let (p', o) := iir_process c p ch in
      ' (ps'', os) <- run c ps' chs' ;;
      Some (p' :: ps'', o :: os)
  | _ :: _, [] => None
  end.

(** Filters the block in place, channel [i] through processor [i]. *)
Definition process (d : t) (b : AudioBuffer F) : option (t * AudioBuffer F) :=
  ' (ps, cs) <- run (state d) (processors d) (chans b) ;;
  Some (mk (state d) ps, mkBuf (numSamples b) cs).
End Defs.
End Duplicator.

(** ** ModulationEngine.h *)
Module ModulationEngine.
Section Defs.
Context {F D : Type} {AF : Arith F} {AD : Arith D} {CV : Conv F D}
        {LM : Libm F}.

Definition NumLFOs : Z := 6.
Definition NumOutputs : Z := 8.

Definition twoPi : F := f_lit 6283185307179586 1000000000000000.
Definition pi : F := f_lit 3141592653589793 1000000000000000.
Definition goldenRatio : F := f_lit 1618033988749895 1000000000000000.

Record t : Type := mk {
  sampleRate : D;
  chaosAmount : F;
  maxDepthSamples : F;
  lfoPhases : list F;           (* std::array<float, NumLFOs> *)
  lfoFrequencies : list F;      (* std::array<float, NumLFOs> *)
  driftValues : list F;         (* std::array<float, NumOutputs> *)
  driftTargets : list F;        (* std::array<float, NumOutputs> *)
  smoothedOutputs : list F;     (* std::array<float, NumOutputs> *)
  driftCounter : Z;
  entropy : nat                 (* ghost: values drawn so far *)
}.

Definition init : t :=
  mk (f_lit 44100 1) (f_lit 3 10) (f_lit 40 1)
     (repeat fzero 6) (repeat fzero 6)
     (repeat fzero 8) (repeat fzero 8) (repeat fzero 8) 0 0.

Definition updateDriftTargets (m : t) : option t :=
  targets <- for_loop 8 (fun i ts =>
      vec_set ts i (uniform (- fone)%fl fone (entropy m + Z.to_nat i)))
    (driftTargets m) ;;
  Some (mk (sampleRate m) (chaosAmount m) (maxDepthSamples m) (lfoPhases m)
           (lfoFrequencies m) (driftValues m) targets (smoothedOutputs m)
           (driftCounter m) (entropy m + 8)).

Definition prepare (m : t) (sr : D) : option t :=
  let baseFreq := f_lit 23 100 in
  ' (freqs, phases) <- for_loop 6 (fun i '(fs, ps) =>
      let freqMultiplier := powf goldenRatio (f_of_int i * f_lit 7 10)%fl in
      fs' <- vec_set fs i (baseFreq * freqMultiplier)%fl ;;
      let ph := (f_of_int i * f_lit 37 100)%fl in
      let ph := (ph + uniform fzero twoPi (entropy m + Z.to_nat i)
                      * f_lit 3 10)%fl in
      ps' <- vec_set ps i ph ;;
      Some (fs', ps'))
    (lfoFrequencies m, lfoPhases m) ;;
  drift <- for_loop 8 (fun i '(vs, ts) =>
      vs' <- vec_set vs i fzero ;;
      ts' <- vec_set ts i fzero ;;
      Some (vs', ts'))
    (driftValues m, driftTargets m) ;;
  updateDriftTargets
    (mk sr (chaosAmount m) (maxDepthSamples m) phases freqs
        (fst drift) (snd drift) (smoothedOutputs m) (driftCounter m)
        (entropy m + 6)).

Definition reset (m : t) : option t :=
  phases <- for_loop 6 (fun i ps =>
      vec_set ps i (f_of_int i * f_lit 37 100)%fl)
    (lfoPhases m) ;;
  ' (vs, ts, outs) <- for_loop 8 (fun i '(vs, ts, outs) =>
      vs' <- vec_set vs i fzero ;;
      ts' <- vec_set ts i fzero ;;
      outs' <- vec_set outs i fzero ;;
      Some (vs', ts', outs'))
    (driftValues m, driftTargets m, smoothedOutputs m) ;;
  Some (mk (sampleRate m) (chaosAmount m) (maxDepthSamples m) phases
           (lfoFrequencies m) vs ts outs (driftCounter m) (entropy m)).

Definition setChaos (m : t) (chaos : F) : option t :=
  let chaosAmount' := jlimit fzero fone chaos in
  let baseFreq := (f_lit 15 100 + chaosAmount' * f_lit 5 10)%fl in
  freqs <- for_loop 6 (fun i fs =>
      let freqMultiplier := powf goldenRatio (f_of_int i * f_lit 7 10)%fl in
      vec_set fs i (baseFreq * freqMultiplier)%fl)
    (lfoFrequencies m) ;;
  Some (mk (sampleRate m) chaosAmount'
           (f_lit 20 1 + chaosAmount' * f_lit 60 1)%fl
           (lfoPhases m) freqs (driftValues m) (driftTargets m)
           (smoothedOutputs m) (driftCounter m) (entropy m)).

Definition getModulation (m : t) (outputIndex : Z) : option F :=
  if ((outputIndex <? 0) || (outputIndex >=? NumOutputs))%Z then Some fzero
  else vec_get (smoothedOutputs m) outputIndex.

Definition getLFOValue (m : t) (lfoIndex : Z) : option F :=
  phase <- vec_get (lfoPhases m) lfoIndex ;;
  r <- int_rem lfoIndex 4 ;;
  Some (match r with
        | 0%Z => sinf phase
        | 1%Z =>
            let tri := if (phase <? pi)%fl
                       then (f_lit 2 1 * phase / pi - fone)%fl
                       else (f_lit 3 1 - f_lit 2 1 * phase / pi)%fl in
            (tri * tri * tri * f_lit 5 10 + tri * f_lit 5 10)%fl
        | 2%Z =>
            (sinf phase * f_lit 7 10 + sinf (phase * f_lit 2 1) * f_lit 2 10
             + sinf (phase * f_lit 3 1) * f_lit 1 10)%fl
        | 3%Z =>
            let s := sinf phase in
            (s * (fone + f_lit 3 10 * s * s))%fl
        | _ => sinf phase
        end).

Definition primes : list Z := [7; 11; 13; 17; 19; 23; 29; 31]%Z.

Definition getMixWeight (outputIndex lfoIndex : Z) : option F :=
  k <- int_rem outputIndex 8 ;;
  p <- vec_get primes k ;;
  seed <- int_ok (p * (lfoIndex + 1) + outputIndex) ;;
  r <- int_rem seed 100 ;;
  let weight := (f_of_int r / f_lit 100 1 - f_lit 5 10)%fl in
  Some (weight * (fone - f_of_int lfoIndex * f_lit 12 100))%fl.

Definition processSample (m : t) : option t :=
  (* Update LFO phases *)
  phases <- for_loop 6 (fun i ps =>
      fq <- vec_get (lfoFrequencies m) i ;;
      let phaseIncrement := (fq / to_float (sampleRate m))%fl in
      p <- vec_get ps i ;;
      let p := (p + phaseIncrement * twoPi)%fl in
      let p := if (p >? twoPi)%fl then (p - twoPi)%fl else p in
      vec_set ps i p)
    (lfoPhases m) ;;
  (* Update drift *)
  counter <- int_ok (driftCounter m + 1) ;;
  period <- f_to_int (sampleRate m * f_lit 2 1)%fl ;;
  m1 <- (if (counter >? period)%Z
         then m' <- updateDriftTargets m ;;
              Some (mk (sampleRate m') (chaosAmount m') (maxDepthSamples m')
                       phases (lfoFrequencies m') (driftValues m')
                       (driftTargets m') (smoothedOutputs m') 0 (entropy m'))
         else Some (mk (sampleRate m) (chaosAmount m) (maxDepthSamples m)
                       phases (lfoFrequencies m) (driftValues m)
                       (driftTargets m) (smoothedOutputs m) counter
                       (entropy m))) ;;
  (* Smooth drift towards targets *)
  let driftSmooth := f_lit 9999 10000 in
  drifts <- for_loop 8 (fun i vs =>
      v <- vec_get vs i ;;
      tg <- vec_get (driftTargets m1) i ;;
      vec_set vs i (v * driftSmooth + tg * (fone - driftSmooth))%fl)
    (driftValues m1) ;;
  (* Calculate output modulations by mixing LFOs *)
  outs <- for_loop 8 (fun out so =>
      modValue <- for_loop 6 (fun lfo acc =>
          weight <- getMixWeight out lfo ;;
          lfoValue <- getLFOValue m1 lfo ;;
          Some (acc + lfoValue * weight)%fl)
        fzero ;;
      dv <- vec_get drifts out ;;
      let modValue := (modValue + dv * chaosAmount m1 * f_lit 3 10)%fl in
      let modValue := (modValue * maxDepthSamples m1)%fl in
      let smoothCoeff := f_lit 995 1000 in
      s <- vec_get so out ;;
      vec_set so out (s * smoothCoeff + modValue * (fone - smoothCoeff))%fl)
    (smoothedOutputs m1) ;;
  Some (mk (sampleRate m1) (chaosAmount m1) (maxDepthSamples m1)
           (lfoPhases m1) (lfoFrequencies m1) drifts (driftTargets m1) outs
           (driftCounter m1) (entropy m1)).
End Defs.
End ModulationEngine.

(** ** DiffusionNetwork.h *)
Module DiffusionNetwork.
Section Defs.
Context {F D : Type} {AF : Arith F} {AD : Arith D} {CV : Conv F D}
        {J : JuceDSP F D}.

Definition NumStages : Z := 8.
Definition NumChannels : Z := 2.

Record t : Type := mk {
  allpassFilters : list (list (@AllpassFilter.t F D));
    (* std::array<std::array<AllpassFilter, NumStages>, NumChannels> *)
  lowMidFilter : @Duplicator.t F D J;
  sampleRate : D;
  thrustAmount : F
}.

Definition init : t :=
  mk (repeat (repeat AllpassFilter.init 8) 2) Duplicator.init
     (f_lit 44100 1) (f_lit 5 10).

Definition updateThrustFilter (d : t) : t :=
  let boostDb := (thrustAmount d * f_lit 6 1)%fl in
  mk (allpassFilters d)
     (Duplicator.setState (lowMidFilter d)
        (makeLowShelf (sampleRate d) (f_lit 400 1) (f_lit 7 10)
                      (decibelsToGain boostDb)))
     (sampleRate d) (thrustAmount d).

Definition delayTimesMs : list F :=
  [f_lit 13 10; f_lit 21 10; f_lit 34 10; f_lit 55 10;
   f_lit 89 10; f_lit 144 10; f_lit 233 10; f_lit 377 10].

Definition prepare (d : t) (sr : D) (maxBlockSize : Z) : option t :=
  fs <- for_loop 2 (fun ch fs =>
      for_loop 8 (fun i fs =>
          let offset := if (ch =? 0)%Z then fzero else f_lit 7 100 in
          ms <- vec_get delayTimesMs i ;;
          delaySamples <-
            f_to_int (to_double (ms + offset)%fl * sr / f_lit 1000 1)%fl ;;
          maxDelaySamples <- int_ok (delaySamples + 100) ;;
          grid_update fs ch i (fun a =>
            AllpassFilter.setFeedback
              (AllpassFilter.setDelayTime
                 (AllpassFilter.prepare a sr maxDelaySamples)
                 (f_of_int delaySamples))
              (f_lit 5 10)))
        fs)
    (allpassFilters d) ;;
  Some (updateThrustFilter
          (mk fs (Duplicator.prepare (lowMidFilter d) 2) sr
              (thrustAmount d))).

Definition reset (d : t) : option t :=
  fs <- for_loop 2 (fun ch fs =>
      for_loop 8 (fun i fs => grid_update fs ch i AllpassFilter.reset) fs)
    (allpassFilters d) ;;
  Some (mk fs (Duplicator.reset (lowMidFilter d)) (sampleRate d)
           (thrustAmount d)).

Definition setThrust (d : t) (thrust : F) : option t :=
  let thrustAmount' := jlimit fzero fone thrust in
  let baseFeedback := (f_lit 3 10 + thrustAmount' * f_lit 45 100)%fl in
  fs <- for_loop 2 (fun ch fs =>
      for_loop 8 (fun i fs =>
          let stageFeedback :=
            (baseFeedback
             + (f_of_int i / f_of_int NumStages) * f_lit 1 10)%fl in
          grid_update fs ch i (fun a =>
            AllpassFilter.setFeedback a
              (jlimit fzero (f_lit 75 100) stageFeedback)))
        fs)
    (allpassFilters d) ;;
  Some (updateThrustFilter
          (mk fs (lowMidFilter d) (sampleRate d) thrustAmount')).

Definition getActiveStages (d : t) : option Z :=
  f_to_int (f_of_int 2 + thrustAmount d * f_of_int (NumStages - 2))%fl.

(** [sample = allpassFilters[ch][stage].process (sample)]. *)
Definition stage_step (ch stage : Z)
           (st : list (list (@AllpassFilter.t F D)) * F)
  : option (list (list (@AllpassFilter.t F D)) * F) :=
  let '(fs, sample) := st in
  row <- vec_get fs ch ;;
  a <- vec_get row stage ;;
  ' (sample', a') <- AllpassFilter.process a sample ;;
  row' <- vec_set row stage a' ;;
  fs' <- vec_set fs ch row' ;;
  Some (fs', sample').

(** One sample of channel [ch] through stages [0 .. activeStages-1]. *)
Definition process_sample (activeStages : nat) (ch : Z)
           (st : list (list (@AllpassFilter.t F D)) * F)
  : option (list (list (@AllpassFilter.t F D)) * F) :=
  for_loop activeStages (stage_step ch) st.

Definition process (d : t) (buffer : AudioBuffer F)
  : option (t * AudioBuffer F) :=
  activeStages <- getActiveStages d ;;
  ' (fs, buf) <- for_loop
      (Z.to_nat (jmin_int (getNumChannels buffer) NumChannels))
      (fun ch st =>
         for_loop (numSamples buffer) (fun i '(fs, buf) =>
             sample <- getSample buf ch i ;;
             ' (fs', sample') <-
                process_sample (Z.to_nat activeStages) ch (fs, sample) ;;
             buf' <- setSample buf ch i sample' ;;
             Some (fs', buf'))
           st)
      (allpassFilters d, buffer) ;;
  if (thrustAmount d >? f_lit 1 100)%fl
  then ' (lm, buf') <- Duplicator.process (lowMidFilter d) buf ;;
       Some (mk fs lm (sampleRate d) (thrustAmount d), buf')
  else Some (mk fs (lowMidFilter d) (sampleRate d) (thrustAmount d), buf).

(** Section 4.4 of the specification, in its words: for each channel
    and sample, pass serially through the first [activeStages] units in
    fixed order; then, if engaged, run the shelf filter over the full
    block.  A channel's units are a list here, and so are its samples. *)
Fixpoint through_stages (activeStages : nat)
         (units : list (@AllpassFilter.t F D)) (sample : F)
  : option (list (@AllpassFilter.t F D) * F) :=
  match activeStages, units with
  | O, _ => Some (units, sample)
  | Datatypes.S k, a :: rest =>
      ' (sample', a') <- AllpassFilter.process a sample ;;
      ' (rest', out) <- through_stages k rest sample' ;;
      Some (a' :: rest', out)
  | Datatypes.S _, [] => None
  end.

Fixpoint through_block (activeStages : nat)
         (units : list (@AllpassFilter.t F D)) (samples : list F)
  : option (list (@AllpassFilter.t F D) * list F) :=
  match samples with
  | [] => Some (units, [])
  | x :: rest =>
      ' (units1, y) <- through_stages activeStages units x ;;
      ' (units2, ys) <- through_block activeStages units1 rest ;;
      Some (units2, y :: ys)
  end.

(** Channel by channel, as far as there are both units and channels. *)
Fixpoint through_channels (activeStages : nat)
         (fs : list (list (@AllpassFilter.t F D))) (channels : list (list F))
  : option (list (list (@AllpassFilter.t F D)) * list (list F)) :=
  match fs, channels with
  | units :: fs', c :: channels' =>
      ' (units', c') <- through_block activeStages units c ;;
      ' (fs'', channels'') <- through_channels activeStages fs' channels' ;;
      Some (units' :: fs'', c' :: channels'')
  | _, _ => Some (fs, channels)
  end.

Definition spec_process (activeStages : nat) (d : t) (buffer : AudioBuffer F)
  : option (t * AudioBuffer F) :=
  ' (fs, channels) <-
     through_channels activeStages (allpassFilters d) (chans buffer) ;;
  let buf := mkBuf (numSamples buffer) channels in
  if (thrustAmount d >? f_lit 1 100)%fl
  then ' (lm, buf') <- Duplicator.process (lowMidFilter d) buf ;;
       Some (mk fs lm (sampleRate d) (thrustAmount d), buf')
  else Some (mk fs (lowMidFilter d) (sampleRate d) (thrustAmount d), buf).
End Defs.
End DiffusionNetwork.

(** ** AlgorithmicReverb.h *)
Module AlgorithmicReverb.
Section Defs.
Context {F D : Type} {AF : Arith F} {AD : Arith D} {CV : Conv F D}
        {LM : Libm F} {J : JuceDSP F D}.

Definition NumCombFilters : Z := 8.

Record t : Type := mk {
  sampleRate : D;
  blockSize : Z;
  preDelayBuffer : list (list F);   (* std::array<std::vector<float>, 2> *)
  preDelayWriteIndex : Z;
  preDelaySamples : Z;
  diffusionNetwork : @DiffusionNetwork.t F D J;
  combFilters : list (list (@CombFilter.t F D));
    (* std::array<std::array<CombFilter, NumCombFilters>, 2> *)
  modulationEngine : @ModulationEngine.t F D;
  highCutFilter : @Duplicator.t F D J;
  lowCutFilter : @Duplicator.t F D J;
  decayTime : F;
  highCutFreq : F;
  lowCutFreq : F;
  width : F;
  decayEnvelope : F
}.

Definition init : t :=
  mk (f_lit 44100 1) 512 [[]; []] 0 0 DiffusionNetwork.init
     (repeat (repeat CombFilter.init 8) 2) ModulationEngine.init
     Duplicator.init Duplicator.init
     (f_lit 5 1) (f_lit 12000 1) (f_lit 80 1) fone fzero.

Definition set_combFilters (r : t) (cs : list (list (@CombFilter.t F D)))
  : t :=
  mk (sampleRate r) (blockSize r) (preDelayBuffer r) (preDelayWriteIndex r)
     (preDelaySamples r) (diffusionNetwork r) cs (modulationEngine r)
     (highCutFilter r) (lowCutFilter r) (decayTime r) (highCutFreq r)
     (lowCutFreq r) (width r) (decayEnvelope r).

Definition delayTimesMs : list F :=
  [f_lit 297 10; f_lit 371 10; f_lit 411 10; f_lit 437 10;
   f_lit 473 10; f_lit 530 10; f_lit 593 10; f_lit 671 10].

(** The feedback [updateDecay] derives for unit [i] of channel [ch]. *)
Definition decay_feedback (decayTime : F) (ch : Z) (delayTimeMs : F) : F :=
  let delayMs :=
    (delayTimeMs + (if (ch =? 0)%Z then fzero else f_lit 17 10))%fl in
  let delaySeconds := (delayMs / f_lit 1000 1)%fl in
  let feedback :=
    powf (f_lit 10 1) (f_lit (-3) 1 * delaySeconds / decayTime)%fl in
  jlimit fzero (f_lit 998 1000) feedback.

Definition decay_damping (highCutFreq : F) : F :=
  let dampingAmount :=
    (fone - (highCutFreq - f_lit 1000 1) / f_lit 19000 1)%fl in
  jlimit fzero (f_lit 7 10) (dampingAmount * f_lit 7 10)%fl.

Definition updateDecay (r : t) : option t :=
  cs <- for_loop 2 (fun ch cs =>
      for_loop 8 (fun i cs =>
          ms <- vec_get delayTimesMs i ;;
          grid_update cs ch i (fun c =>
            CombFilter.setDamping
              (CombFilter.setFeedback c (decay_feedback (decayTime r) ch ms))
              (decay_damping (highCutFreq r))))
        cs)
    (combFilters r) ;;
  Some (set_combFilters r cs).

Definition updateFilters (r : t) : t :=
  mk (sampleRate r) (blockSize r) (preDelayBuffer r) (preDelayWriteIndex r)
     (preDelaySamples r) (diffusionNetwork r) (combFilters r)
     (modulationEngine r)
     (Duplicator.setState (highCutFilter r)
        (makeLowPass (sampleRate r) (highCutFreq r) (f_lit 707 1000)))
     (Duplicator.setState (lowCutFilter r)
        (makeHighPass (sampleRate r) (lowCutFreq r) (f_lit 707 1000)))
     (decayTime r) (highCutFreq r) (lowCutFreq r) (width r)
     (decayEnvelope r).

Definition prepare (r : t) (sr : D) (maxBlockSize : Z) : option t :=
  maxPreDelaySamples <- f_to_int (f_lit 5 10 * sr)%fl ;;
  let pdb := repeat (repeat fzero (Z.to_nat maxPreDelaySamples)) 2 in
  dn <- DiffusionNetwork.prepare (diffusionNetwork r) sr maxBlockSize ;;
  cs <- for_loop 2 (fun ch cs =>
      for_loop 8 (fun i cs =>
          let offset := if (ch =? 0)%Z then fzero else f_lit 17 10 in
          ms <- vec_get delayTimesMs i ;;
          delaySamples <-
            f_to_int (to_double (ms + offset)%fl * sr / f_lit 1000 1)%fl ;;
          maxDelaySamples <- int_ok (delaySamples + 200) ;;
          grid_update cs ch i (fun c =>
            CombFilter.setDelayTime
              (CombFilter.prepare c sr maxDelaySamples)
              (f_of_int delaySamples)))
        cs)
    (combFilters r) ;;
  me <- ModulationEngine.prepare (modulationEngine r) sr ;;
  updateDecay
    (updateFilters
       (mk sr maxBlockSize pdb 0 (preDelaySamples r) dn cs me
           (Duplicator.prepare (highCutFilter r) 2)
           (Duplicator.prepare (lowCutFilter r) 2)
           (decayTime r) (highCutFreq r) (lowCutFreq r) (width r)
           (decayEnvelope r))).

Definition reset (r : t) : option t :=
  ' (pdb, cs) <- for_loop 2 (fun ch '(pdb, cs) =>
      b <- vec_get pdb ch ;;
      pdb' <- vec_set pdb ch (fill b fzero) ;;
      cs' <- for_loop 8 (fun i cs => grid_update cs ch i CombFilter.reset)
               cs ;;
      Some (pdb', cs'))
    (preDelayBuffer r, combFilters r) ;;
  dn <- DiffusionNetwork.reset (diffusionNetwork r) ;;
  me <- ModulationEngine.reset (modulationEngine r) ;;
  Some (mk (sampleRate r) (blockSize r) pdb 0 (preDelaySamples r) dn cs me
           (Duplicator.reset (highCutFilter r))
           (Duplicator.reset (lowCutFilter r))
           (decayTime r) (highCutFreq r) (lowCutFreq r) (width r)
           (decayEnvelope r)).

Definition setDecay (r : t) (decaySeconds : F) : option t :=
  updateDecay
    (mk (sampleRate r) (blockSize r) (preDelayBuffer r)
        (preDelayWriteIndex r) (preDelaySamples r) (diffusionNetwork r)
        (combFilters r) (modulationEngine r) (highCutFilter r)
        (lowCutFilter r)
        (jlimit (f_lit 5 10) (f_lit 30 1) decaySeconds)
        (highCutFreq r) (lowCutFreq r) (width r) (decayEnvelope r)).

Definition setPreDelay (r : t) (preDelayMs : F) : option t :=
  samples <- f_to_int (to_double preDelayMs * sampleRate r / f_lit 1000 1)%fl ;;
  b <- vec_get (preDelayBuffer r) 0 ;;
  hi <- int_ok (size b - 1) ;;
  Some (mk (sampleRate r) (blockSize r) (preDelayBuffer r)
           (preDelayWriteIndex r) (jlimit_int 0 hi samples)
           (diffusionNetwork r) (combFilters r) (modulationEngine r)
           (highCutFilter r) (lowCutFilter r) (decayTime r) (highCutFreq r)
           (lowCutFreq r) (width r) (decayEnvelope r)).

Definition setHighCut (r : t) (freqHz : F) : t :=
  updateFilters
    (mk (sampleRate r) (blockSize r) (preDelayBuffer r)
        (preDelayWriteIndex r) (preDelaySamples r) (diffusionNetwork r)
        (combFilters r) (modulationEngine r) (highCutFilter r)
        (lowCutFilter r) (decayTime r)
        (jlimit (f_lit 1000 1) (f_lit 20000 1) freqHz)
        (lowCutFreq r) (width r) (decayEnvelope r)).

Definition setLowCut (r : t) (freqHz : F) : t :=
  updateFilters
    (mk (sampleRate r) (blockSize r) (preDelayBuffer r)
        (preDelayWriteIndex r) (preDelaySamples r) (diffusionNetwork r)
        (combFilters r) (modulationEngine r) (highCutFilter r)
        (lowCutFilter r) (decayTime r) (highCutFreq r)
        (jlimit (f_lit 20 1) (f_lit 500 1) freqHz)
        (width r) (decayEnvelope r)).

Definition setWidth (r : t) (w : F) : t :=
  mk (sampleRate r) (blockSize r) (preDelayBuffer r) (preDelayWriteIndex r)
     (preDelaySamples r) (diffusionNetwork r) (combFilters r)
     (modulationEngine r) (highCutFilter r) (lowCutFilter r) (decayTime r)
     (highCutFreq r) (lowCutFreq r)
     (jlimit fzero (f_lit 2 1) w) (decayEnvelope r).

Definition setDiffusionThrust (r : t) (thrust : F) : option t :=
  dn <- DiffusionNetwork.setThrust (diffusionNetwork r) thrust ;;
  Some (mk (sampleRate r) (blockSize r) (preDelayBuffer r)
           (preDelayWriteIndex r) (preDelaySamples r) dn (combFilters r)
           (modulationEngine r) (highCutFilter r) (lowCutFilter r)
           (decayTime r) (highCutFreq r) (lowCutFreq r) (width r)
           (decayEnvelope r)).

Definition setModulationChaos (r : t) (chaos : F) : option t :=
  me <- ModulationEngine.setChaos (modulationEngine r) chaos ;;
  Some (mk (sampleRate r) (blockSize r) (preDelayBuffer r)
           (preDelayWriteIndex r) (preDelaySamples r) (diffusionNetwork r)
           (combFilters r) me (highCutFilter r) (lowCutFilter r)
           (decayTime r) (highCutFreq r) (lowCutFreq r) (width r)
           (decayEnvelope r)).

(** What [updateDecay] makes of unit [i] of channel [ch]. *)
Definition decay_cell (r : t) (ch i : Z) (c : @CombFilter.t F D)
  : @CombFilter.t F D :=
  CombFilter.setDamping
    (CombFilter.setFeedback c
       (decay_feedback (decayTime r) ch
          (nth (Z.to_nat i) delayTimesMs fzero)))
    (decay_damping (highCutFreq r)).

Definition getDecayEnvelope (r : t) : F := decayEnvelope r.

(** Step 5 of [process] on one sample pair. *)
Definition widen (width left right : F) : F * F :=
  let mid := ((left + right) * f_lit 5 10)%fl in
  let side := ((left - right) * f_lit 5 10 * width)%fl in
  ((mid + side)%fl, (mid - side)%fl).

(** Step 5 of [process] on the wet block of [numSamples] samples. *)
Definition apply_width (width : F) (numSamples : nat) (wetBuffer : AudioBuffer F)
  : option (AudioBuffer F) :=
  if (f_abs (width - fone)%fl >? f_lit 1 100)%fl
  then for_loop numSamples (fun sample wet =>
      left <- getSample wet 0 sample ;;
      right <- getSample wet 1 sample ;;
      let (l', r') := widen width left right in
      wet1 <- setSample wet 0 sample l' ;;
      setSample wet1 1 sample r')
    wetBuffer
  else Some wetBuffer.

(** One iteration of the first sample loop of [process]: modulation
    engine, then the pre-delay line. *)
Definition predelay_step (preDelaySamples : Z) (buffer : AudioBuffer F)
           (numChannels : Z) (sample : Z)
           (st : @ModulationEngine.t F D * list (list F) * Z * AudioBuffer F)
  : option (@ModulationEngine.t F D * list (list F) * Z * AudioBuffer F) :=
  let '(me, pdb, pdw, wet) := st in
  (* Update modulation engine *)
  me' <- ModulationEngine.processSample me ;;
  (* Read from pre-delay *)
  pd0 <- vec_get pdb 0 ;;
  diff <- int_ok (pdw - preDelaySamples) ;;
  preDelayReadIndex <-
    (if (diff <? 0)%Z then int_ok (diff + size pd0) else Some diff) ;;
  leftIn <- (if (numChannels >? 0)%Z then getSample buffer 0 sample
             else Some fzero) ;;
  rightIn <- (if (numChannels >? 1)%Z then getSample buffer 1 sample
              else Some leftIn) ;;
  (* Write to pre-delay *)
  pd0' <- vec_set pd0 pdw leftIn ;;
  pdb1 <- vec_set pdb 0 pd0' ;;
  pd1 <- vec_get pdb1 1 ;;
  pd1' <- vec_set pd1 pdw rightIn ;;
  pdb2 <- vec_set pdb1 1 pd1' ;;
  next <- int_ok (pdw + 1) ;;
  pdw' <- int_rem next (size pd0') ;;
  (* Read from pre-delay *)
  leftDelayed <- vec_get pd0' preDelayReadIndex ;;
  rightDelayed <- vec_get pd1' preDelayReadIndex ;;
  wet1 <- setSample wet 0 sample leftDelayed ;;
  wet2 <- setSample wet1 1 sample rightDelayed ;;
  Some (me', pdb2, pdw', wet2).

(** Comb unit [i] of channel [ch] in the bank sum. *)
Definition comb_step (me : @ModulationEngine.t F D) (ch : Z) (input : F)
           (i : Z) (st : list (list (@CombFilter.t F D)) * F)
  : option (list (list (@CombFilter.t F D)) * F) :=
  let '(cs, combSum) := st in
  (* Get modulation for this comb filter *)
  modOffset <- ModulationEngine.getModulation me i ;;
  (* Process with modulation *)
  row <- vec_get cs ch ;;
  c <- vec_get row i ;;
  ' (combOut, c') <-
     CombFilter.processModulated c
       (input / f_of_int NumCombFilters)%fl modOffset ;;
  row' <- vec_set row i c' ;;
  cs' <- vec_set cs ch row' ;;
  (* Apply Hadamard-style mixing (alternating signs) *)
  k <- int_rem (i + ch) 2 ;;
  let sign := if (k =? 0)%Z then fone else (- fone)%fl in
  Some (cs', (combSum + combOut * sign)%fl).

(** One sample of one channel through the comb bank. *)
Definition comb_channel (me : @ModulationEngine.t F D) (sample ch : Z)
           (st : list (list (@CombFilter.t F D)) * AudioBuffer F)
  : option (list (list (@CombFilter.t F D)) * AudioBuffer F) :=
  let '(cs, wet) := st in
  input <- getSample wet ch sample ;;
  (* Sum outputs from all comb filters *)
  ' (cs', combSum) <- for_loop 8 (comb_step me ch input) (cs, fzero) ;;
  wet' <- setSample wet ch sample combSum ;;
  Some (cs', wet').

(** The peak of the wet block. *)
Definition block_peak (n : nat) (wet : AudioBuffer F) : option F :=
  for_loop (Z.to_nat (getNumChannels wet)) (fun ch mx =>
      for_loop n (fun sample mx =>
          x <- getSample wet ch sample ;;
          Some (jmax mx (f_abs x)))
        mx)
    fzero.

Definition process (r : t) (buffer : AudioBuffer F)
  : option (t * AudioBuffer F) :=
  let n := numSamples buffer in
  let numChannels := jmin_int (getNumChannels buffer) 2 in
  (* Create wet buffer *)
  let wetBuffer := cleared 2 n in
  ' (me, pdb, pdw, wet) <-
     for_loop n (predelay_step (preDelaySamples r) buffer numChannels)
       (modulationEngine r, preDelayBuffer r, preDelayWriteIndex r,
        wetBuffer) ;;
  (* Apply diffusion network (Stage 1) *)
  ' (dn, wet) <- DiffusionNetwork.process (diffusionNetwork r) wet ;;
  (* Process through comb filter bank with modulation *)
  ' (cs, wet) <- for_loop n (fun sample st =>
                     for_loop 2 (comb_channel me sample) st)
                   (combFilters r, wet) ;;
  (* Apply frequency-dependent damping *)
  ' (hc, wet) <- Duplicator.process (highCutFilter r) wet ;;
  ' (lc, wet) <- Duplicator.process (lowCutFilter r) wet ;;
  (* Apply stereo width *)
  wet <- apply_width (width r) n wet ;;
  (* Update decay envelope for visualization *)
  maxSample <- block_peak n wet ;;
  let decayEnvelope' :=
    (decayEnvelope r * f_lit 99 100 + maxSample * f_lit 1 100)%fl in
  (* Copy wet signal back to buffer *)
  out <- for_loop (Z.to_nat numChannels) (fun ch out => copyFrom out ch wet)
           buffer ;;
  Some (mk (sampleRate r) (blockSize r) pdb pdw (preDelaySamples r) dn cs me
           hc lc (decayTime r) (highCutFreq r) (lowCutFreq r) (width r)
           decayEnvelope',
        out).
End Defs.
End AlgorithmicReverb.

(** ** FairingSeparation.h

    The state machine of the effect: tempo, phase, envelope and sweep
    direction.  The audio path of [process] (band-pass sweep, widening
    delay, gain) reads these fields and never writes them; it is left
    out, together with the filter and the delay buffers it owns. *)
Module FairingSeparation.
Section Defs.
Context {F D : Type} {AF : Arith F} {AD : Arith D} {CV : Conv F D}.

Record t : Type := mk {
  sampleRate : D;
  currentBPM : D;
  syncBeats : F;
  isActive : bool;
  currentPhase : F;
  gainEnvelope : F;
  sweepDirection : Z;
  lastSweepDirection : Z
}.

Definition init : t :=
  mk (f_lit 44100 1) (f_lit 120 1) (f_lit 4 1) false fzero fzero 1 (-1).

Definition prepare (s : t) (sr : D) : t :=
  mk sr (currentBPM s) (syncBeats s) (isActive s) (currentPhase s)
     (gainEnvelope s) (sweepDirection s) (lastSweepDirection s).

Definition reset (s : t) : t :=
  mk (sampleRate s) (currentBPM s) (syncBeats s) false fzero fzero
     (sweepDirection s) (lastSweepDirection s).

Definition setSyncBeats (s : t) (beats : F) : t :=
  mk (sampleRate s) (currentBPM s) (jlimit fone (f_lit 8 1) beats)
     (isActive s) (currentPhase s) (gainEnvelope s) (sweepDirection s)
     (lastSweepDirection s).

Definition setBPM (s : t) (bpm : D) : t :=
  mk (sampleRate s) (jmax (f_lit 20 1) bpm) (syncBeats s) (isActive s)
     (currentPhase s) (gainEnvelope s) (sweepDirection s)
     (lastSweepDirection s).

Definition trigger (s : t) : t :=
  if isActive s then s
  else
    let dir := if (lastSweepDirection s >? 0)%Z then (-1)%Z else 1%Z in
    mk (sampleRate s) (currentBPM s) (syncBeats s) true fzero
       (gainEnvelope s) dir dir.

Definition release (s : t) : t := s.

Definition getIsActive (s : t) : bool := isActive s.

Definition getIntensity (s : t) : F := gainEnvelope s.

(** The block constants computed at the top of [process]. *)
Definition durationSamples (s : t) : D :=
  let beatsPerSecond := (currentBPM s / f_lit 60 1)%fl in
  let durationSeconds := (to_double (syncBeats s) / beatsPerSecond)%fl in
  (durationSeconds * sampleRate s)%fl.

Definition phaseIncrement (s : t) : F :=
  (fone / to_float (durationSamples s))%fl.

(** The phase update at the top of the sample loop, on
    [(currentPhase, isActive)]. *)
Definition phase_step (phaseIncrement : F) (st : F * bool) : F * bool :=
  let '(currentPhase, isActive) := st in
  if isActive then
    let p := (currentPhase + phaseIncrement)%fl in
    if (p >=? fone)%fl then (fone, false) else (p, true)
  else (currentPhase, false).

(** The part of the state the phase update works on. *)
Definition phase_of (s : t) : F * bool := (currentPhase s, isActive s).

(** One iteration of the sample loop: phase, then envelope. *)
Definition advance (phaseIncrement : F) (s : t) : t :=
  (* Update phase *)
  let '(phase, active) :=
    phase_step phaseIncrement (currentPhase s, isActive s) in
  (* Calculate envelope (attack-sustain-release shape) *)
  let targetEnvelope :=
    if active then
      if (phase <? f_lit 1 10)%fl then (phase / f_lit 1 10)%fl
      else if (phase <? f_lit 7 10)%fl then fone
      else ((fone - phase) / f_lit 3 10)%fl
    else fzero in
  (* Smooth envelope *)
  let env := (gainEnvelope s * f_lit 999 1000
              + targetEnvelope * f_lit 1 1000)%fl in
  mk (sampleRate s) (currentBPM s) (syncBeats s) active phase env
     (sweepDirection s) (lastSweepDirection s).

(** Whether the effect is active before each of the next [n] updates. *)
Fixpoint stays_active (n : nat) (phaseIncrement : F) (st : F * bool) : bool :=
  match n with
  | O => true
  | Datatypes.S k =>
      snd st && stays_active k phaseIncrement (phase_step phaseIncrement st)
  end.

(** [process] on a block of [n] samples, as far as this state goes. *)
Definition process (s : t) (n : nat) : t :=
  if negb (isActive s) && (gainEnvelope s <? f_lit 1 1000)%fl then s
  else Nat.iter n (advance (phaseIncrement s)) s.

(** Successive blocks. *)
Definition process_blocks (s : t) (blocks : list nat) : t :=
  fold_left process blocks s.
End Defs.
End FairingSeparation.

(** ** Parameters.h: the tempo divisions offered to the host *)
Module FairingSync.
Section Defs.
Context {F : Type} {AF : Arith F}.

Definition getBeats (index : Z) : F :=
  match index with
  | 0%Z => f_lit 1 1
  | 1%Z => f_lit 2 1
  | 2%Z => f_lit 4 1
  | 3%Z => f_lit 8 1
  | _ => f_lit 4 1
  end.
End Defs.
End FairingSync.

(** ** Predicates used in the statements *)

Definition is_nan (x : spec_float) : bool :=
  match x with
  | S754_nan => true
  | _ => false
  end.

Definition nan32 (x : binary32) : bool := is_nan (b32 x).

(** A grid of [R] rows of [C] cells: the shape of
    [std::array<std::array<T, C>, R>]. *)
Definition grid_shape {A} (R C : nat) (g : list (list A)) : Prop :=
  length g = R /\ forall row, In row g -> length row = C.

(** In the row-major order of the nested loops, cell [(ch', i')] comes
    before [(ch, i)]. *)
Definition before (ch i ch' i' : Z) : bool :=
  ((ch' <? ch) || ((ch' =? ch) && (i' <? i)))%Z.

(** ** Stand-ins for the external libraries

    Used to run the model on concrete inputs: a transposed direct-form-II
    biquad with fixed coefficients for the JUCE filter, constants for
    libm. *)
Section StandIns.
Context {F D : Type} {AF : Arith F}.

Record biquad : Type := mkBiquad { bq0 : F; bq1 : F; bq2 : F; aq1 : F; aq2 : F }.

Definition biquad_step (c : biquad) (st : F * F) (x : F) : (F * F) * F :=
  let y := (bq0 c * x + fst st)%fl in
  let s1 := (bq1 c * x - aq1 c * y + snd st)%fl in
  let s2 := (bq2 c * x - aq2 c * y)%fl in
  ((s1, s2), y).

Fixpoint biquad_run (c : biquad) (st : F * F) (xs : list F)
  : (F * F) * list F :=
  match xs with
  | [] => (st, [])
  | x :: xs' =>
      let (st1, y) := biquad_step c st x in
      let (st2, ys) := biquad_run c st1 xs' in
      (st2, y :: ys)
  end.

Definition smoothing : biquad :=
  mkBiquad (f_lit 1 4) (f_lit 1 2) (f_lit 1 4) fzero fzero.

Definition stand_in_juce : JuceDSP F D := {|
  Coefficients := biquad;
  IIRFilter := (F * F)%type;
  iir_default := mkBiquad fone fzero fzero fzero fzero;
  iir_cleared := (fzero, fzero);
  makeLowPass := fun _ _ _ => smoothing;
  makeHighPass := fun _ _ _ => smoothing;
  makeBandPass := fun _ _ _ => smoothing;
  makeLowShelf := fun _ _ _ _ => smoothing;
  iir_process := biquad_run;
  decibelsToGain := fun x => (fone + x / f_lit 20 1)%fl
|}.

Definition stand_in_libm : Libm F := {|
  powf := fun _ _ => f_lit 1 2;
  sinf := fun _ => f_lit 1 2;
  uniform := fun lo _ _ => lo
|}.
End StandIns.

(** The stand-ins at the two sets of instances. *)
Definition libm32 : Libm binary32 := stand_in_libm.
Definition juce32 : JuceDSP binary32 binary64 := stand_in_juce.
Definition libmQ : Libm Q := stand_in_libm.
Definition juceQ : JuceDSP Q Q := stand_in_juce.

(** The specification's [round]: to the nearest integer, halves upwards. *)
Definition round_nearest (q : Q) : Z := Qfloor (q + (1 # 2)).

(** ** Shapes *)

Section Shapes.
Context {F D : Type} {AF : Arith F} {AD : Arith D} {CV : Conv F D}
        {LM : Libm F} {J : JuceDSP F D}.

(** The sizes fixed by the [std::array] types of the reverb. *)
Definition modulation_shape (m : @ModulationEngine.t F D) : Prop :=
  length (ModulationEngine.lfoPhases m) = 6%nat /\
  length (ModulationEngine.lfoFrequencies m) = 6%nat /\
  length (ModulationEngine.driftValues m) = 8%nat /\
  length (ModulationEngine.driftTargets m) = 8%nat /\
  length (ModulationEngine.smoothedOutputs m) = 8%nat.

Definition reverb_shape (r : @AlgorithmicReverb.t F D J) : Prop :=
  length (AlgorithmicReverb.preDelayBuffer r) = 2%nat /\
  grid_shape 2 8 (AlgorithmicReverb.combFilters r) /\
  grid_shape 2 8
    (DiffusionNetwork.allpassFilters (AlgorithmicReverb.diffusionNetwork r)) /\
  modulation_shape (AlgorithmicReverb.modulationEngine r).
End Shapes.

(** ** Concrete runs in binary32 *)
Section Examples32.
#[local] Existing Instance libm32.
#[local] Existing Instance juce32.

(** A stereo block of [n] samples: a unit impulse on the left. *)
Definition impulse (n : nat) : AudioBuffer binary32 :=
  mkBuf n [f_lit 1 1 :: repeat fzero (n - 1); repeat fzero n].

(** prepare (8000 Hz), process one block holding an impulse, reset; the
    decay envelope read afterwards. *)
Definition envelope_after_reset : option binary32 :=
  r0 <- AlgorithmicReverb.prepare AlgorithmicReverb.init (f_lit 8000 1) 512 ;;
  ' (r1, _) <- AlgorithmicReverb.process r0 (impulse 260) ;;
  r2 <- AlgorithmicReverb.reset r1 ;;
  Some (AlgorithmicReverb.getDecayEnvelope r2).

(** The fairing effect at 120 BPM and 4 beats, triggered. *)
Definition fairing_at (sr : Z) : @FairingSeparation.t binary32 binary64 :=
  FairingSeparation.trigger
    (FairingSeparation.setSyncBeats
       (FairingSeparation.setBPM
          (FairingSeparation.prepare FairingSeparation.init (f_of_int sr))
          (f_lit 120 1))
       (f_lit 4 1)).

(** A comb unit of 16 + 4 cells with a delay of 3 + 2^-22 samples, after
    three calls of [process], on the samples 1, 2 and 3. *)
Definition comb_after_three : option (@CombFilter.t binary32 binary64) :=
  let c0 := CombFilter.setDelayTime
              (CombFilter.prepare CombFilter.init (f_lit 44100 1) 16)
              (f_lit 12582913 4194304) in
  ' (_, c1) <- CombFilter.process c0 (f_lit 1 1) ;;
  ' (_, c2) <- CombFilter.process c1 (f_lit 2 1) ;;
  ' (_, c3) <- CombFilter.process c2 (f_lit 3 1) ;;
  Some c3.



(** prepare (1000 Hz), then one block of 40 samples holding an impulse
    (were a call undefined, the reverb as constructed would stand in). *)
Definition reverb_played : @AlgorithmicReverb.t binary32 binary64 juce32 :=
  match (r0 <- AlgorithmicReverb.prepare AlgorithmicReverb.init
                 (f_lit 1000 1) 512 ;;
         AlgorithmicReverb.process r0 (impulse 40)) with
  | Some (r1, _) => r1
  | None => AlgorithmicReverb.init
  end.

(** The phase of oscillator 1 after [reset] of a fresh reverb. *)
Definition phase1_after_reset : option binary32 :=
  r <- AlgorithmicReverb.reset AlgorithmicReverb.init ;;
  vec_get (ModulationEngine.lfoPhases (AlgorithmicReverb.modulationEngine r)) 1.
End Examples32.

(** ** Silence: a zero block after [reset], in exact arithmetic

    The predicates below describe a reverb as [prepare] and the setters
    leave it ([_ready]) and as [reset] leaves it ([_silent]).  Samples
    are rationals; a sample is silent when it is [== 0]. *)

Definition all_zero (l : list Q) : Prop := Forall (fun x => x == 0) l.

(** Every cell of the grid satisfies [P]. *)
Definition grid_all {A} (P : A -> Prop) (g : list (list A)) : Prop :=
  forall row, In row g -> forall a, In a row -> P a.

(** A prepared allpass unit: the buffer has [maxDelay + 4] cells and the
    delay lies within [1, maxDelay], where [setDelayTime] puts it. *)
Definition allpass_ready (a : @AllpassFilter.t Q Q) : Prop :=
  (1 <= AllpassFilter.maxDelay a)%Z /\
  size (AllpassFilter.buffer a) = (AllpassFilter.maxDelay a + 4)%Z /\
  (size (AllpassFilter.buffer a) < INT_MAX)%Z /\
  1 <= AllpassFilter.currentDelay a /\
  AllpassFilter.currentDelay a <= inject_Z (AllpassFilter.maxDelay a).

(** A prepared allpass unit that holds silence. *)
Definition allpass_silent (a : @AllpassFilter.t Q Q) : Prop :=
  allpass_ready a /\
  (0 <= AllpassFilter.writeIndex a < size (AllpassFilter.buffer a))%Z /\
  all_zero (AllpassFilter.buffer a).

(** A prepared comb unit: the buffer has [maxDelay + 4] cells. *)
Definition comb_ready (c : @CombFilter.t Q Q) : Prop :=
  (1 <= CombFilter.maxDelay c)%Z /\
  size (CombFilter.buffer c) = (CombFilter.maxDelay c + 4)%Z /\
  (size (CombFilter.buffer c) < INT_MAX)%Z.

(** A prepared comb unit that holds silence. *)
Definition comb_silent (c : @CombFilter.t Q Q) : Prop :=
  comb_ready c /\
  (0 <= CombFilter.writeIndex c < size (CombFilter.buffer c))%Z /\
  all_zero (CombFilter.buffer c) /\
  CombFilter.filterState c == 0.

(** A block of [k] channels of [n] samples of silence. *)
Definition silent_block (k n : nat) (b : AudioBuffer Q) : Prop :=
  numSamples b = n /\ length (chans b) = k /\
  forall c, In c (chans b) -> length c = n /\ all_zero c.

(** The two pre-delay lines, [P] cells of silence each. *)
Definition predelay_silent (P : nat) (pdb : list (list Q)) : Prop :=
  length pdb = 2%nat /\ forall b, In b pdb -> length b = P /\ all_zero b.

Section ModulationReady.
Context {F D : Type} {AF : Arith F} {AD : Arith D} {CV : Conv F D}.

(** The engine between two calls of [processSample]: the arrays at their
    sizes, the drift period an [int] below [INT_MAX], and room for one
    more count of the drift counter. *)
Definition modulation_ready (m : @ModulationEngine.t F D) : Prop :=
  modulation_shape m /\
  exists period,
    f_to_int (ModulationEngine.sampleRate m * f_lit 2 1)%fl = Some period /\
    (period < INT_MAX)%Z /\
    (INT_MIN <= ModulationEngine.driftCounter m + 1 <= INT_MAX)%Z.
End ModulationReady.

Section ReverbReady.
Context {LM : Libm Q} {J : JuceDSP Q Q}.

(** What is taken from the JUCE filter: from cleared registers, a channel
    of silence comes out as a channel of silence of the same length. *)
Definition iir_keeps_silence : Prop :=
  forall (c : Coefficients) (xs : list Q),
    all_zero xs ->
    length (snd (iir_process c iir_cleared xs)) = length xs /\
    all_zero (snd (iir_process c iir_cleared xs)).

(** A duplicator prepared for stereo. *)
Definition duplicator_ready (d : @Duplicator.t Q Q J) : Prop :=
  (2 <= length (Duplicator.processors d))%nat.

(** A duplicator prepared for stereo, its registers cleared. *)
Definition duplicator_cleared (d : @Duplicator.t Q Q J) : Prop :=
  (forall p, In p (Duplicator.processors d) -> p = iir_cleared) /\
  duplicator_ready d.

(** The diffusion network as [prepare] and [setThrust] leave it. *)
Definition diffusion_ready (d : @DiffusionNetwork.t Q Q J) : Prop :=
  grid_shape 2 8 (DiffusionNetwork.allpassFilters d) /\
  grid_all allpass_ready (DiffusionNetwork.allpassFilters d) /\
  0 <= DiffusionNetwork.thrustAmount d /\
  DiffusionNetwork.thrustAmount d <= 1 /\
  duplicator_ready (DiffusionNetwork.lowMidFilter d).

(** The diffusion network after [reset]. *)
Definition diffusion_silent (d : @DiffusionNetwork.t Q Q J) : Prop :=
  grid_shape 2 8 (DiffusionNetwork.allpassFilters d) /\
  grid_all allpass_silent (DiffusionNetwork.allpassFilters d) /\
  0 <= DiffusionNetwork.thrustAmount d /\
  DiffusionNetwork.thrustAmount d <= 1 /\
  duplicator_cleared (DiffusionNetwork.lowMidFilter d).

(** The reverb as [prepare] and the setters leave it: both pre-delay
    lines of one length [P], the pre-delay within [0, P - 1] where
    [setPreDelay] puts it, every unit prepared. *)
Definition reverb_ready (r : @AlgorithmicReverb.t Q Q J) : Prop :=
  (exists P : nat,
     length (AlgorithmicReverb.preDelayBuffer r) = 2%nat /\
     (forall b, In b (AlgorithmicReverb.preDelayBuffer r) -> length b = P) /\
     (0 <= AlgorithmicReverb.preDelaySamples r < Z.of_nat P)%Z /\
     (Z.of_nat P < INT_MAX)%Z) /\
  grid_shape 2 8 (AlgorithmicReverb.combFilters r) /\
  grid_all comb_ready (AlgorithmicReverb.combFilters r) /\
  diffusion_ready (AlgorithmicReverb.diffusionNetwork r) /\
  duplicator_ready (AlgorithmicReverb.highCutFilter r) /\
  duplicator_ready (AlgorithmicReverb.lowCutFilter r) /\
  modulation_ready (AlgorithmicReverb.modulationEngine r).

(** The reverb after [reset]. *)
Definition reverb_silent (r : @AlgorithmicReverb.t Q Q J) : Prop :=
  (exists P : nat,
     predelay_silent P (AlgorithmicReverb.preDelayBuffer r) /\
     (0 <= AlgorithmicReverb.preDelayWriteIndex r < Z.of_nat P)%Z /\
     (0 <= AlgorithmicReverb.preDelaySamples r < Z.of_nat P)%Z /\
     (Z.of_nat P < INT_MAX)%Z) /\
  grid_shape 2 8 (AlgorithmicReverb.combFilters r) /\
  grid_all comb_silent (AlgorithmicReverb.combFilters r) /\
  diffusion_silent (AlgorithmicReverb.diffusionNetwork r) /\
  duplicator_cleared (AlgorithmicReverb.highCutFilter r) /\
  duplicator_cleared (AlgorithmicReverb.lowCutFilter r) /\
  modulation_ready (AlgorithmicReverb.modulationEngine r).
End ReverbReady.

(** The readiness predicates, decided. *)
Definition comb_readyb (c : @CombFilter.t Q Q) : bool :=
  ((1 <=? CombFilter.maxDelay c)
   && (size (CombFilter.buffer c) =? CombFilter.maxDelay c + 4)
   && (size (CombFilter.buffer c) <? INT_MAX))%Z.

Definition allpass_readyb (a : @AllpassFilter.t Q Q) : bool :=
  ((1 <=? AllpassFilter.maxDelay a)
   && (size (AllpassFilter.buffer a) =? AllpassFilter.maxDelay a + 4)
   && (size (AllpassFilter.buffer a) <? INT_MAX))%Z
  && Qle_bool 1 (AllpassFilter.currentDelay a)
  && Qle_bool (AllpassFilter.currentDelay a)
              (inject_Z (AllpassFilter.maxDelay a)).

Definition grid_readyb {A} (p : A -> bool) (g : list (list A)) : bool :=
  (length g =? 2)%nat
  && forallb (fun row => (length row =? 8)%nat && forallb p row) g.

Definition modulation_readyb (m : @ModulationEngine.t Q Q) : bool :=
  (length (ModulationEngine.lfoPhases m) =? 6)%nat
  && (length (ModulationEngine.lfoFrequencies m) =? 6)%nat
  && (length (ModulationEngine.driftValues m) =? 8)%nat
  && (length (ModulationEngine.driftTargets m) =? 8)%nat
  && (length (ModulationEngine.smoothedOutputs m) =? 8)%nat
  && match f_to_int (ModulationEngine.sampleRate m * f_lit 2 1)%fl with
     | Some period =>
         ((period <? INT_MAX)
          && (INT_MIN <=? ModulationEngine.driftCounter m + 1)
          && (ModulationEngine.driftCounter m + 1 <=? INT_MAX))%Z
     | None => false
     end.

Definition reverb_readyb {J : JuceDSP Q Q} (r : @AlgorithmicReverb.t Q Q J)
  : bool :=
  match AlgorithmicReverb.preDelayBuffer r with
  | [b0; b1] =>
      (length b1 =? length b0)%nat
      && ((0 <=? AlgorithmicReverb.preDelaySamples r)
          && (AlgorithmicReverb.preDelaySamples r <? size b0)
          && (size b0 <? INT_MAX))%Z
  | _ => false
  end
  && grid_readyb comb_readyb (AlgorithmicReverb.combFilters r)
  && grid_readyb allpass_readyb
       (DiffusionNetwork.allpassFilters (AlgorithmicReverb.diffusionNetwork r))
  && Qle_bool 0 (DiffusionNetwork.thrustAmount
                   (AlgorithmicReverb.diffusionNetwork r))
  && Qle_bool (DiffusionNetwork.thrustAmount
                 (AlgorithmicReverb.diffusionNetwork r)) 1
  && (2 <=? length (Duplicator.processors
                      (DiffusionNetwork.lowMidFilter
                         (AlgorithmicReverb.diffusionNetwork r))))%nat
  && (2 <=? length (Duplicator.processors
                      (AlgorithmicReverb.highCutFilter r)))%nat
  && (2 <=? length (Duplicator.processors
                      (AlgorithmicReverb.lowCutFilter r)))%nat
  && modulation_readyb (AlgorithmicReverb.modulationEngine r).

Section ExamplesQ.
#[local] Existing Instance libmQ.
#[local] Existing Instance juceQ.

(** prepare (1000 Hz), then a pre-delay of 20 ms, a decay of 2 s, full
    thrust and a width of 1.5, in exact arithmetic; the default reverb
    should a step be undefined. *)
Definition tuned_reverb : @AlgorithmicReverb.t Q Q juceQ :=
  match
    r <- AlgorithmicReverb.prepare AlgorithmicReverb.init (f_lit 1000 1) 64 ;;
    r <- AlgorithmicReverb.setPreDelay r (f_lit 20 1) ;;
    r <- AlgorithmicReverb.setDecay r (f_lit 2 1) ;;
    r <- AlgorithmicReverb.setDiffusionThrust r fone ;;
    Some (AlgorithmicReverb.setWidth r (f_lit 3 2))
  with
  | Some r => r
  | None => AlgorithmicReverb.init
  end.
End ExamplesQ.

(** ** Running state: what every call of [process] needs and keeps

    Exact arithmetic.  A unit is running when it is prepared and its
    write index lies within its buffer. *)

Definition comb_running (c : @CombFilter.t Q Q) : Prop :=
  comb_ready c /\
  (0 <= CombFilter.writeIndex c < size (CombFilter.buffer c))%Z.

Definition allpass_running (a : @AllpassFilter.t Q Q) : Prop :=
  allpass_ready a /\
  (0 <= AllpassFilter.writeIndex a < size (AllpassFilter.buffer a))%Z.

(** Successive calls of [processModulated] on one comb unit, a sample
    and a modulation offset per call, and of [process] on one allpass
    unit. *)
Fixpoint comb_calls {F D : Type} {AF : Arith F} {AD : Arith D}
         (c : @CombFilter.t F D) (xs : list (F * F))
  : option (list F * @CombFilter.t F D) :=
  match xs with
  | [] => Some ([], c)
  | (x, off) :: xs' =>
      ' (y, c1) <- CombFilter.processModulated c x off ;;
      ' (ys, c2) <- comb_calls c1 xs' ;;
      Some (y :: ys, c2)
  end.

Fixpoint allpass_calls {F D : Type} {AF : Arith F} {AD : Arith D}
         (a : @AllpassFilter.t F D) (xs : list F)
  : option (list F * @AllpassFilter.t F D) :=
  match xs with
  | [] => Some ([], a)
  | x :: xs' =>
      ' (y, a1) <- AllpassFilter.process a x ;;
      ' (ys, a2) <- allpass_calls a1 xs' ;;
      Some (y :: ys, a2)
  end.

(** A block of [k] channels of [n] samples each. *)
Definition block_shape {F : Type} (k n : nat) (b : AudioBuffer F) : Prop :=
  numSamples b = n /\ length (chans b) = k /\
  forall c, In c (chans b) -> length c = n.

Section Running.
Context {LM : Libm Q} {J : JuceDSP Q Q}.

(** What is taken from the JUCE filter: it filters a channel in place,
    so as many samples come out as went in. *)
Definition iir_keeps_length : Prop :=
  forall (c : Coefficients) (p : IIRFilter) (xs : list Q),
    length (snd (iir_process c p xs)) = length xs.

Definition diffusion_running (d : @DiffusionNetwork.t Q Q J) : Prop :=
  grid_shape 2 8 (DiffusionNetwork.allpassFilters d) /\
  grid_all allpass_running (DiffusionNetwork.allpassFilters d) /\
  0 <= DiffusionNetwork.thrustAmount d /\
  DiffusionNetwork.thrustAmount d <= 1 /\
  duplicator_ready (DiffusionNetwork.lowMidFilter d).

(** The reverb between two blocks: both pre-delay lines of one length
    [P], the pre-delay write index and the pre-delay within [0, P - 1],
    every unit running. *)
Definition reverb_running (r : @AlgorithmicReverb.t Q Q J) : Prop :=
  (exists P : nat,
     length (AlgorithmicReverb.preDelayBuffer r) = 2%nat /\
     (forall b, In b (AlgorithmicReverb.preDelayBuffer r) -> length b = P) /\
     (0 <= AlgorithmicReverb.preDelayWriteIndex r < Z.of_nat P)%Z /\
     (0 <= AlgorithmicReverb.preDelaySamples r < Z.of_nat P)%Z /\
     (Z.of_nat P < INT_MAX)%Z) /\
  grid_shape 2 8 (AlgorithmicReverb.combFilters r) /\
  grid_all comb_running (AlgorithmicReverb.combFilters r) /\
  diffusion_running (AlgorithmicReverb.diffusionNetwork r) /\
  duplicator_ready (AlgorithmicReverb.highCutFilter r) /\
  duplicator_ready (AlgorithmicReverb.lowCutFilter r) /\
  modulation_ready (AlgorithmicReverb.modulationEngine r).
End Running.

(** The running state, decided. *)
Definition comb_indexb (c : @CombFilter.t Q Q) : bool :=
  ((0 <=? CombFilter.writeIndex c)
   && (CombFilter.writeIndex c <? size (CombFilter.buffer c)))%Z.

Definition allpass_indexb (a : @AllpassFilter.t Q Q) : bool :=
  ((0 <=? AllpassFilter.writeIndex a)
   && (AllpassFilter.writeIndex a <? size (AllpassFilter.buffer a)))%Z.

Definition reverb_runningb {J : JuceDSP Q Q} (r : @AlgorithmicReverb.t Q Q J)
  : bool :=
  reverb_readyb r
  && forallb (fun b => (0 <=? AlgorithmicReverb.preDelayWriteIndex r)%Z
                       && (AlgorithmicReverb.preDelayWriteIndex r <? size b)%Z)
             (AlgorithmicReverb.preDelayBuffer r)
  && forallb (forallb comb_indexb) (AlgorithmicReverb.combFilters r)
  && forallb (forallb allpass_indexb)
       (DiffusionNetwork.allpassFilters (AlgorithmicReverb.diffusionNetwork r)).

(** ** PluginProcessor.cpp: the reverb section of [processBlock]

    [processBlock] reads the parameters from the host, scales the
    percentages, hands them to the reverb through its seven setters and
    calls [process] (lines 117-170).  The parameter values as they reach
    the setters: *)
Module PluginProcessor.
Section Defs.
Context {F D : Type} {AF : Arith F} {AD : Arith D} {CV : Conv F D}
        {LM : Libm F} {J : JuceDSP F D}.

Record ReverbParams : Type := mkParams {
  decay : F;
  preDelay : F;
  highCut : F;
  lowCut : F;
  width : F;
  diffusionThrust : F;
  modulationChaos : F
}.

(** Update reverb parameters *)
Definition updateReverb (r : @AlgorithmicReverb.t F D J) (p : ReverbParams)
  : option (@AlgorithmicReverb.t F D J) :=
  r <- AlgorithmicReverb.setDecay r (decay p) ;;
  r <- AlgorithmicReverb.setPreDelay r (preDelay p) ;;
  let r := AlgorithmicReverb.setHighCut r (highCut p) in
  let r := AlgorithmicReverb.setLowCut r (lowCut p) in
  let r := AlgorithmicReverb.setWidth r (width p) in
  r <- AlgorithmicReverb.setDiffusionThrust r (diffusionThrust p) ;;
  AlgorithmicReverb.setModulationChaos r (modulationChaos p).

(** Update reverb parameters, then process reverb. *)
Definition processReverb (r : @AlgorithmicReverb.t F D J) (p : ReverbParams)
           (buffer : AudioBuffer F)
  : option (@AlgorithmicReverb.t F D J * AudioBuffer F) :=
  r <- updateReverb r p ;;
  AlgorithmicReverb.process r buffer.

(** Successive host blocks, each with the parameter values read for it. *)
Fixpoint processReverb_blocks (r : @AlgorithmicReverb.t F D J)
         (blocks : list (ReverbParams * AudioBuffer F))
  : option (@AlgorithmicReverb.t F D J * list (AudioBuffer F)) :=
  match blocks with
  | [] => Some (r, [])
  | (p, buffer) :: rest =>
      ' (r1, out) <- processReverb r p buffer ;;
      ' (r2, outs) <- processReverb_blocks r1 rest ;;
      Some (r2, out :: outs)
  end.
End Defs.
End PluginProcessor.

From Stdlib Require String.
Import String.StringSyntax.

(** ** The calls a host makes on the fairing effect *)

Section FairingCalls.
Context {F D : Type} {AF : Arith F} {AD : Arith D} {CV : Conv F D}.

Inductive fairing_call : Type :=
| CallPrepare (sr : D)
| CallReset
| CallSetSyncBeats (beats : F)
| CallSetBPM (bpm : D)
| CallTrigger
| CallRelease
| CallProcess (numSamples : nat).

Definition fairing_do (s : @FairingSeparation.t F D) (c : fairing_call)
  : @FairingSeparation.t F D :=
  match c with
  | CallPrepare sr => FairingSeparation.prepare s sr
  | CallReset => FairingSeparation.reset s
  | CallSetSyncBeats beats => FairingSeparation.setSyncBeats s beats
  | CallSetBPM bpm => FairingSeparation.setBPM s bpm
  | CallTrigger => FairingSeparation.trigger s
  | CallRelease => FairingSeparation.release s
  | CallProcess n => FairingSeparation.process s n
  end.

(** A freshly constructed effect after the calls, in order. *)
Definition fairing_after (calls : list fairing_call)
  : @FairingSeparation.t F D :=
  fold_left fairing_do calls FairingSeparation.init.

(** A sample rate handed to [prepare] is positive. *)
Definition call_ok (positive : D -> Prop) (c : fairing_call) : Prop :=
  match c with
  | CallPrepare sr => positive sr
  | _ => True
  end.

(** What every call keeps: the direction of the last accepted trigger
    and the direction of the sweep are each +1 or -1. *)
Definition sweep_inv (s : @FairingSeparation.t F D) : Prop :=
  (FairingSeparation.lastSweepDirection s = 1%Z \/
   FairingSeparation.lastSweepDirection s = (-1)%Z) /\
  (FairingSeparation.sweepDirection s = 1%Z \/
   FairingSeparation.sweepDirection s = (-1)%Z).
End FairingCalls.

(** What every call keeps, in exact arithmetic: a positive sample rate,
    a tempo of at least 20 BPM, between 1 and 8 beats, the phase and the
    gain envelope within [0, 1]. *)
Definition fairing_inv (s : @FairingSeparation.t Q Q) : Prop :=
  0 < FairingSeparation.sampleRate s /\
  20 <= FairingSeparation.currentBPM s /\
  (1 <= FairingSeparation.syncBeats s /\ FairingSeparation.syncBeats s <= 8) /\
  (0 <= FairingSeparation.currentPhase s /\
   FairingSeparation.currentPhase s <= 1) /\
  (0 <= FairingSeparation.gainEnvelope s /\
   FairingSeparation.gainEnvelope s <= 1).

(** ** Bounds kept by the modulation engine, in exact arithmetic *)

(** [|x| <= b]. *)
Definition within (b x : Q) : Prop := - b <= x /\ x <= b.

Section ModulationBounds.
Context {LM : Libm Q}.

(** What is taken from libm and the random source: a sine between -1
    and 1, and draws that fall inside the interval asked for. *)
Definition sine_bounded : Prop := forall x : Q, within 1 (sinf x).

Definition uniform_in_range : Prop :=
  forall (lo hi : Q) (k : nat), lo <= hi ->
    lo <= uniform lo hi k /\ uniform lo hi k <= hi.

(** The engine between two calls: ready; every phase within one turn;
    every oscillator at most as fast as the sample rate; chaos in
    [0, 1]; drift values and targets within 1; every smoothed output
    within 2.5 times the depth. *)
Definition modulation_bounded (m : @ModulationEngine.t Q Q) : Prop :=
  modulation_ready m /\
  0 < ModulationEngine.sampleRate m /\
  Forall (fun p => 0 <= p /\ p <= ModulationEngine.twoPi)
         (ModulationEngine.lfoPhases m) /\
  Forall (fun f => 0 <= f /\ f <= ModulationEngine.sampleRate m)
         (ModulationEngine.lfoFrequencies m) /\
  (0 <= ModulationEngine.chaosAmount m /\
   ModulationEngine.chaosAmount m <= 1) /\
  0 <= ModulationEngine.maxDepthSamples m /\
  Forall (within 1) (ModulationEngine.driftValues m) /\
  Forall (within 1) (ModulationEngine.driftTargets m) /\
  Forall (within ((25 # 10) * ModulationEngine.maxDepthSamples m))
         (ModulationEngine.smoothedOutputs m).

(** The same with a cap [b] on the depth in place of the depth itself:
    the depth changes with [setChaos] while the outputs still carry the
    depth of before. *)
Definition modulation_capped (b : Q) (m : @ModulationEngine.t Q Q) : Prop :=
  modulation_ready m /\
  0 < ModulationEngine.sampleRate m /\
  Forall (fun p => 0 <= p /\ p <= ModulationEngine.twoPi)
         (ModulationEngine.lfoPhases m) /\
  Forall (fun f => 0 <= f /\ f <= ModulationEngine.sampleRate m)
         (ModulationEngine.lfoFrequencies m) /\
  (0 <= ModulationEngine.chaosAmount m /\
   ModulationEngine.chaosAmount m <= 1) /\
  (0 <= ModulationEngine.maxDepthSamples m /\
   ModulationEngine.maxDepthSamples m <= b) /\
  Forall (within 1) (ModulationEngine.driftValues m) /\
  Forall (within 1) (ModulationEngine.driftTargets m) /\
  Forall (within ((25 # 10) * b)) (ModulationEngine.smoothedOutputs m).

(** What is taken from [std::pow]: the six powers of the golden ratio
    that set the oscillator frequencies lie between 0 and 6 (the largest
    one is 1.618 ^ 3.5, about 5.39). *)
Definition golden_powers_bounded : Prop :=
  forall i : Z, (0 <= i < 6)%Z ->
    0 <= powf ModulationEngine.goldenRatio (inject_Z i * (7 # 10)) /\
    powf ModulationEngine.goldenRatio (inject_Z i * (7 # 10)) <= 6.
End ModulationBounds.

(** The calls the reverb makes on its engine: [prepare] from its own
    [prepare], [reset] from [reset], [setChaos] from [setModulationChaos]
    and [processSample] once for every sample. *)
Section EngineCalls.
Context {F D : Type} {AF : Arith F} {AD : Arith D} {CV : Conv F D}
        {LM : Libm F}.

Inductive engine_call : Type :=
| EnginePrepare (sr : D)
| EngineReset
| EngineSetChaos (chaos : F)
| EngineProcessSample.

Definition engine_do (m : @ModulationEngine.t F D) (c : engine_call)
  : option (@ModulationEngine.t F D) :=
  match c with
  | EnginePrepare sr => ModulationEngine.prepare m sr
  | EngineReset => ModulationEngine.reset m
  | EngineSetChaos chaos => ModulationEngine.setChaos m chaos
  | EngineProcessSample => ModulationEngine.processSample m
  end.

Fixpoint engine_after (m : @ModulationEngine.t F D) (calls : list engine_call)
  : option (@ModulationEngine.t F D) :=
  match calls with
  | [] => Some m
  | c :: rest => m' <- engine_do m c ;; engine_after m' rest
  end.
End EngineCalls.

(** A call the bounds below cover: [prepare] with a sample rate between
    4 Hz and 2^30 - 1 Hz; the other calls always. *)
Definition engine_call_ok (c : @engine_call Q Q) : Prop :=
  match c with
  | EnginePrepare sr => 4 <= sr /\ sr <= inject_Z (2 ^ 30 - 1)
  | _ => True
  end.

(** What every such call keeps: the bounds with the depth capped at 80
    samples, a sample rate of 4 Hz or more, oscillators no faster than
    4 Hz. *)
Definition engine_inv (m : @ModulationEngine.t Q Q) : Prop :=
  modulation_capped 80 m /\
  4 <= ModulationEngine.sampleRate m /\
  Forall (fun f => f <= 4) (ModulationEngine.lfoFrequencies m).

(** [n] successive calls of [processSample]. *)
Definition processSamples {F D : Type} {AF : Arith F} {AD : Arith D}
           {CV : Conv F D} {LM : Libm F}
           (n : nat) (m : @ModulationEngine.t F D)
  : option (@ModulationEngine.t F D) :=
  for_loop n (fun _ m => ModulationEngine.processSample m) m.
(** ** The pre-delay ring *)

(** How many writes ago cell [i] of a ring of [N] cells was written,
    the next write going to cell [w]. *)
Definition cell_age (N w i : Z) : Z :=
  if (i <? w)%Z then (w - 1 - i)%Z else (w - 1 - i + N)%Z.
(** ** PluginProcessor.cpp: the fairing section of [processBlock]

    Lines 172-194: on a rising edge of the enable parameter the tempo of
    the play head, if there is one, is handed over, then the sync
    division, and the effect is triggered; the effect then processes the
    block. *)
Section ProcessBlockFairing.
Context {F D : Type} {AF : Arith F} {AD : Arith D} {CV : Conv F D}.

Record FairingHost : Type := mkFairingHost {
  fairingSeparation : @FairingSeparation.t F D;
  prevFairingEnabled : bool
}.

(** What a block brings: the enable parameter ([> 0.5]), the tempo of
    the play head when the host gives one, the sync choice, the block
    length. *)
Record FairingBlock : Type := mkFairingBlock {
  fairingEnabled : bool;
  playHeadBpm : option D;
  fairingSync : Z;
  blockSamples : nat
}.

Definition processBlock_fairing (h : FairingHost) (b : FairingBlock)
  : FairingHost :=
  let fs := fairingSeparation h in
  let fs :=
    if fairingEnabled b && negb (prevFairingEnabled h) then
      (* Rising edge - trigger effect *)
      let fs := match playHeadBpm b with
                | Some bpm => FairingSeparation.setBPM fs bpm
                | None => fs
                end in
      FairingSeparation.trigger
        (FairingSeparation.setSyncBeats fs
           (FairingSync.getBeats (fairingSync b)))
    else fs in
  mkFairingHost (FairingSeparation.process fs (blockSamples b))
                (fairingEnabled b).

(** Successive blocks. *)
Definition processBlocks_fairing (h : FairingHost)
           (blocks : list FairingBlock) : FairingHost :=
  fold_left processBlock_fairing blocks h.

(** Whether the enable parameter goes from off to on somewhere in the
    blocks, [prev] being its value in the block before them. *)
Fixpoint has_rising_edge (prev : bool) (blocks : list FairingBlock) : bool :=
  match blocks with
  | [] => false
  | b :: rest =>
      (fairingEnabled b && negb prev) || has_rising_edge (fairingEnabled b) rest
  end.
End ProcessBlockFairing.
(** ** UI/DecayCurveDisplay.h: the history behind the decay curve *)
Module DecayCurveDisplay.
Section Defs.
Context {F : Type} {AF : Arith F}.

Definition HistorySize : Z := 128.

Record t : Type := mk {
  history : list F;              (* std::array<float, HistorySize> *)
  currentEnvelope : F;
  decayTimeSeconds : F
}.

(** The constructor: [history.fill (0.0f)] and the member initialisers. *)
Definition init : t := mk (repeat fzero 128) fzero (f_lit 5 1).

Definition setDecayEnvelope (d : t) (envelope : F) : t :=
  mk (history d) (jlimit fzero fone envelope) (decayTimeSeconds d).

Definition setDecayTime (d : t) (seconds : F) : t :=
  mk (history d) (currentEnvelope d) (jmax (f_lit 1 10) seconds).

Definition timerCallback (d : t) : option t :=
  (* Shift history *)
  h <- for_loop (Z.to_nat (HistorySize - 1)) (fun i h =>
      next <- int_ok (i + 1) ;;
      x <- vec_get h next ;;
      vec_set h i x)
    (history d) ;;
  (* Add current value *)
  h' <- vec_set h (HistorySize - 1) (currentEnvelope d) ;;
  Some (mk h' (currentEnvelope d) (decayTimeSeconds d)).

(** The editor's timer hands over one envelope value, then the display's
    timer ticks; once per value. *)
Fixpoint feed (d : t) (envelopes : list F) : option t :=
  match envelopes with
  | [] => Some d
  | e :: rest =>
      d' <- timerCallback (setDecayEnvelope d e) ;;
      feed d' rest
  end.
End Defs.
End DecayCurveDisplay.
(** ** Utils/Parameters.h: the nebula presets *)
Module NebulaPresets.
Section Defs.
Context {F : Type} {AF : Arith F}.
#[local] Open Scope string_scope.

(** The description texts, shown in the selector only, are left out. *)
Record NebulaCharacter : Type := mkNebula {
  name : String.string;
  decay : F;           (* seconds *)
  diffusion : F;       (* 0-100% *)
  chaos : F;           (* 0-100% *)
  highCut : F;         (* Hz *)
  lowCut : F;          (* Hz *)
  width : F;           (* 0-200% *)
  preDelay : F         (* ms *)
}.

Definition presets : list NebulaCharacter :=
  [ mkNebula "Manual"
      (f_lit 5 1) (f_lit 50 1) (f_lit 30 1) (f_lit 12000 1) (f_lit 80 1)
      (f_lit 100 1) (f_lit 20 1);
    mkNebula "Pillars of Creation"
      (f_lit 15 1) (f_lit 75 1) (f_lit 25 1) (f_lit 8000 1) (f_lit 40 1)
      (f_lit 140 1) (f_lit 80 1);
    mkNebula "Crab Nebula"
      (f_lit 8 1) (f_lit 60 1) (f_lit 85 1) (f_lit 16000 1) (f_lit 100 1)
      (f_lit 160 1) (f_lit 15 1);
    mkNebula "Orion Nebula"
      (f_lit 12 1) (f_lit 80 1) (f_lit 40 1) (f_lit 10000 1) (f_lit 60 1)
      (f_lit 180 1) (f_lit 40 1);
    mkNebula "Helix Nebula"
      (f_lit 6 1) (f_lit 55 1) (f_lit 20 1) (f_lit 14000 1) (f_lit 120 1)
      (f_lit 90 1) (f_lit 25 1);
    mkNebula "Horsehead Nebula"
      (f_lit 18 1) (f_lit 70 1) (f_lit 35 1) (f_lit 6000 1) (f_lit 50 1)
      (f_lit 120 1) (f_lit 100 1);
    mkNebula "Ring Nebula"
      (f_lit 7 1) (f_lit 65 1) (f_lit 30 1) (f_lit 11000 1) (f_lit 90 1)
      (f_lit 100 1) (f_lit 30 1);
    mkNebula "Carina Nebula"
      (f_lit 20 1) (f_lit 90 1) (f_lit 55 1) (f_lit 9000 1) (f_lit 45 1)
      (f_lit 200 1) (f_lit 60 1);
    mkNebula "Lagoon Nebula"
      (f_lit 10 1) (f_lit 75 1) (f_lit 45 1) (f_lit 13000 1) (f_lit 70 1)
      (f_lit 150 1) (f_lit 35 1);
    mkNebula "Veil Nebula"
      (f_lit 14 1) (f_lit 95 1) (f_lit 50 1) (f_lit 15000 1) (f_lit 100 1)
      (f_lit 170 1) (f_lit 50 1);
    mkNebula "Cat's Eye Nebula"
      (f_lit 5 1) (f_lit 45 1) (f_lit 60 1) (f_lit 18000 1) (f_lit 150 1)
      (f_lit 80 1) (f_lit 10 1);
    mkNebula "Tarantula Nebula"
      (f_lit 25 1) (f_lit 85 1) (f_lit 75 1) (f_lit 7000 1) (f_lit 35 1)
      (f_lit 200 1) (f_lit 120 1) ].

Definition getNumPresets : Z := size presets.

Definition getPreset (index : Z) : option NebulaCharacter :=
  hi <- int_ok (size presets - 1) ;;
  vec_get presets (jlimit_int 0 hi index).
End Defs.
End NebulaPresets.

(** The default values and the ranges of the parameters. *)
Module Defaults.
Section Defs.
Context {F : Type} {AF : Arith F}.
Definition decay : F := f_lit 5 1.
Definition preDelay : F := f_lit 20 1.
Definition highCut : F := f_lit 12000 1.
Definition lowCut : F := f_lit 80 1.
Definition mix : F := f_lit 35 1.
Definition width : F := f_lit 100 1.
Definition diffusionThrust : F := f_lit 50 1.
Definition modulationChaos : F := f_lit 30 1.
End Defs.
End Defaults.

Module Ranges.
Section Defs.
Context {F : Type} {AF : Arith F}.
Definition decayMin : F := f_lit 5 10.
Definition decayMax : F := f_lit 30 1.
Definition preDelayMin : F := f_lit 0 1.
Definition preDelayMax : F := f_lit 500 1.
Definition highCutMin : F := f_lit 1000 1.
Definition highCutMax : F := f_lit 20000 1.
Definition lowCutMin : F := f_lit 20 1.
Definition lowCutMax : F := f_lit 500 1.
End Defs.
End Ranges.

(** ** PluginProcessor.cpp: the preset section of [processBlock]

    Lines 109-123.  [applyNebulaPreset] writes the host's parameters; of
    it only the index it is called with is kept. *)
Definition processBlock_preset (lastNebulaPreset currentNebulaPreset : Z)
  : option Z * Z :=
  if (negb (currentNebulaPreset =? lastNebulaPreset)
      && (currentNebulaPreset >? 0))%Z
  then (Some currentNebulaPreset, currentNebulaPreset)
  else if (currentNebulaPreset =? 0)%Z then (None, 0%Z)
       else (None, lastNebulaPreset).

(** Successive blocks: the presets applied, block by block, and the
    value of [lastNebulaPreset] at the end. *)
Fixpoint processBlocks_preset (lastNebulaPreset : Z) (selections : list Z)
  : list (option Z) * Z :=
  match selections with
  | [] => ([], lastNebulaPreset)
  | c :: rest =>
      let '(applied, last1) := processBlock_preset lastNebulaPreset c in
      let '(applieds, last2) := processBlocks_preset last1 rest in
      (applied :: applieds, last2)
  end.

(** ** The shape of the reverb, decided *)

Definition reverb_shapeb {F D : Type} {AF : Arith F} {AD : Arith D}
           {CV : Conv F D} {LM : Libm F} {J : JuceDSP F D}
           (r : @AlgorithmicReverb.t F D J) : bool :=
  (length (AlgorithmicReverb.preDelayBuffer r) =? 2)%nat
  && grid_readyb (fun _ => true) (AlgorithmicReverb.combFilters r)
  && grid_readyb (fun _ => true)
       (DiffusionNetwork.allpassFilters (AlgorithmicReverb.diffusionNetwork r))
  && ((length (ModulationEngine.lfoPhases
                 (AlgorithmicReverb.modulationEngine r)) =? 6)%nat
      && (length (ModulationEngine.lfoFrequencies
                    (AlgorithmicReverb.modulationEngine r)) =? 6)%nat
      && (length (ModulationEngine.driftValues
                    (AlgorithmicReverb.modulationEngine r)) =? 8)%nat
      && (length (ModulationEngine.driftTargets
                    (AlgorithmicReverb.modulationEngine r)) =? 8)%nat
      && (length (ModulationEngine.smoothedOutputs
                    (AlgorithmicReverb.modulationEngine r)) =? 8)%nat).

(** ** Further runs in binary32 *)

Section Examples32b.
#[local] Existing Instance libm32.
#[local] Existing Instance juce32.

(** The stages engaged after [setThrust (t)] on a new network. *)
Definition stages_at (t : binary32) : option Z :=
  d <- DiffusionNetwork.setThrust DiffusionNetwork.init t ;;
  DiffusionNetwork.getActiveStages d.

(** A network prepared at 1000 Hz with a thrust of 1/4 (were a call
    undefined, the network as constructed would stand in). *)
Definition diffusion_at_quarter
  : @DiffusionNetwork.t binary32 binary64 juce32 :=
  match (d <- DiffusionNetwork.prepare DiffusionNetwork.init
                (f_lit 1000 1) 512 ;;
         DiffusionNetwork.setThrust d (f_lit 1 4)) with
  | Some d => d
  | None => DiffusionNetwork.init
  end.
End Examples32b.
(** * Theorems *)

(** ** Comb and allpass units: shape of one call *)

Section UnitShape.
Context {F D : Type} {AF : Arith F} {AD : Arith D}.

Lemma comb_modulated_as_process (c : @CombFilter.t F D) (input off : F) :
  CombFilter.processModulated c input off =
  match CombFilter.process
          (CombFilter.with_delay c
             (jlimit fone (f_of_int (CombFilter.maxDelay c))
                     (CombFilter.currentDelay c + off)%fl)) input with
  | Some (y, c') => Some (y, CombFilter.with_delay c' (CombFilter.currentDelay c))
  | None => None
  end.
Proof.
  unfold CombFilter.processModulated, CombFilter.process,
    CombFilter.with_delay; simpl.
  destruct (f_to_int _) as [i0|]; simpl; [|reflexivity].
  destruct (int_ok (i0 + 1)) as [n0|]; simpl; [|reflexivity].
  destruct (int_rem n0 _) as [i1|]; simpl; [|reflexivity].
  destruct (vec_get (CombFilter.buffer c) i0) as [a|]; simpl; [|reflexivity].
  destruct (vec_get (CombFilter.buffer c) i1) as [b|]; simpl; [|reflexivity].
  destruct (vec_set _ _ _) as [buf|]; simpl; [|reflexivity].
  destruct (int_ok (CombFilter.writeIndex c + 1)) as [w|]; simpl;
    [|reflexivity].
  destruct (int_rem w _) as [w'|]; reflexivity.
Qed.

Lemma allpass_modulated_as_process (a : @AllpassFilter.t F D)
      (input off : F) :
  AllpassFilter.processModulated a input off =
  match AllpassFilter.process
          (AllpassFilter.with_delay a
             (jlimit fone (f_of_int (AllpassFilter.maxDelay a))
                     (AllpassFilter.currentDelay a + off)%fl)) input with
  | Some (y, a') =>
      Some (y, AllpassFilter.with_delay a' (AllpassFilter.currentDelay a))
  | None => None
  end.
Proof.
  unfold AllpassFilter.processModulated, AllpassFilter.process,
    AllpassFilter.with_delay; simpl.
  destruct (f_to_int _) as [i0|]; simpl; [|reflexivity].
  destruct (int_ok (i0 + 1)) as [n0|]; simpl; [|reflexivity].
  destruct (int_rem n0 _) as [i1|]; simpl; [|reflexivity].
  destruct (vec_get (AllpassFilter.buffer a) i0) as [x|]; simpl;
    [|reflexivity].
  destruct (vec_get (AllpassFilter.buffer a) i1) as [y|]; simpl;
    [|reflexivity].
  destruct (vec_set _ _ _) as [buf|]; simpl; [|reflexivity].
  destruct (int_ok (AllpassFilter.writeIndex a + 1)) as [w|]; simpl;
    [|reflexivity].
  destruct (int_rem w _) as [w'|]; reflexivity.
Qed.

Lemma comb_process_frame (c c' : @CombFilter.t F D) (input y : F) :
  CombFilter.process c input = Some (y, c') ->
  CombFilter.currentDelay c' = CombFilter.currentDelay c /\
  CombFilter.feedback c' = CombFilter.feedback c /\
  CombFilter.damping c' = CombFilter.damping c /\
  CombFilter.maxDelay c' = CombFilter.maxDelay c.
Proof.
  unfold CombFilter.process.
  destruct (f_to_int _) as [i0|]; simpl; [|discriminate].
  destruct (int_ok (i0 + 1)) as [n0|]; simpl; [|discriminate].
  destruct (int_rem n0 _) as [i1|]; simpl; [|discriminate].
  destruct (vec_get (CombFilter.buffer c) i0) as [a|]; simpl; [|discriminate].
  destruct (vec_get (CombFilter.buffer c) i1) as [b|]; simpl; [|discriminate].
  destruct (vec_set _ _ _) as [buf|]; simpl; [|discriminate].
  destruct (int_ok (CombFilter.writeIndex c + 1)) as [w|]; simpl;
    [|discriminate].
  destruct (int_rem w _) as [w'|]; simpl; [|discriminate].
  intros E; inversion E; subst; simpl; auto.
Qed.

Lemma allpass_process_frame (a a' : @AllpassFilter.t F D) (input y : F) :
  AllpassFilter.process a input = Some (y, a') ->
  AllpassFilter.currentDelay a' = AllpassFilter.currentDelay a /\
  AllpassFilter.feedback a' = AllpassFilter.feedback a /\
  AllpassFilter.maxDelay a' = AllpassFilter.maxDelay a.
Proof.
  unfold AllpassFilter.process.
  destruct (f_to_int _) as [i0|]; simpl; [|discriminate].
  destruct (int_ok (i0 + 1)) as [n0|]; simpl; [|discriminate].
  destruct (int_rem n0 _) as [i1|]; simpl; [|discriminate].
  destruct (vec_get (AllpassFilter.buffer a) i0) as [x|]; simpl;
    [|discriminate].
  destruct (vec_get (AllpassFilter.buffer a) i1) as [z|]; simpl;
    [|discriminate].
  destruct (vec_set _ _ _) as [buf|]; simpl; [|discriminate].
  destruct (int_ok (AllpassFilter.writeIndex a + 1)) as [w|]; simpl;
    [|discriminate].
  destruct (int_rem w _) as [w'|]; simpl; [|discriminate].
  intros E; inversion E; subst; simpl; auto.
Qed.

(** C8.  [processModulated] of both units is [process] run with
    [clamp (currentDelay + offset, 1, maxDelay)] in place of
    [currentDelay], after which the stored [currentDelay] is what it
    was; [feedback], [maxDelay] and the comb's [damping] are not
    written either. *)
Theorem processModulated_uses_clamped_delay_once :
  (forall (c : @CombFilter.t F D) (input off : F),
      CombFilter.processModulated c input off =
      match CombFilter.process
              (CombFilter.with_delay c
                 (jlimit fone (f_of_int (CombFilter.maxDelay c))
                         (CombFilter.currentDelay c + off)%fl)) input with
      | Some (y, c') =>
          Some (y, CombFilter.with_delay c' (CombFilter.currentDelay c))
      | None => None
      end /\
      match CombFilter.processModulated c input off with
      | Some (_, c') =>
          CombFilter.currentDelay c' = CombFilter.currentDelay c /\
          CombFilter.feedback c' = CombFilter.feedback c /\
          CombFilter.damping c' = CombFilter.damping c /\
          CombFilter.maxDelay c' = CombFilter.maxDelay c
      | None => True
      end) /\
  (forall (a : @AllpassFilter.t F D) (input off : F),
      AllpassFilter.processModulated a input off =
      match AllpassFilter.process
              (AllpassFilter.with_delay a
                 (jlimit fone (f_of_int (AllpassFilter.maxDelay a))
                         (AllpassFilter.currentDelay a + off)%fl)) input with
      | Some (y, a') =>
          Some (y, AllpassFilter.with_delay a' (AllpassFilter.currentDelay a))
      | None => None
      end /\
      match AllpassFilter.processModulated a input off with
      | Some (_, a') =>
          AllpassFilter.currentDelay a' = AllpassFilter.currentDelay a /\
          AllpassFilter.feedback a' = AllpassFilter.feedback a /\
          AllpassFilter.maxDelay a' = AllpassFilter.maxDelay a
      | None => True
      end).
Proof.
  split; intros u input off.
  - split; [apply comb_modulated_as_process|].
    rewrite comb_modulated_as_process.
    destruct (CombFilter.process _ input) as [[y c']|] eqn:E; [|exact I].
    apply comb_process_frame in E. simpl in *. tauto.
  - split; [apply allpass_modulated_as_process|].
    rewrite allpass_modulated_as_process.
    destruct (AllpassFilter.process _ input) as [[y a']|] eqn:E; [|exact I].
    apply allpass_process_frame in E. simpl in *. tauto.
Qed.
End UnitShape.

(** ** Lists, loops and the monad *)

Lemma upd_length {A} (n : nat) (x : A) (l : list A) :
  length (upd n x l) = length l.
Proof.
  revert n; induction l as [|h t IH]; intros [|n]; simpl; auto.
Qed.

Lemma vec_set_length {A} (v v' : list A) (i : Z) (x : A) :
  vec_set v i x = Some v' -> length v' = length v.
Proof.
  unfold vec_set. destruct (_ && _); [|discriminate].
  intros E; inversion E. apply upd_length.
Qed.

Lemma vec_set_some {A} (v : list A) (i : Z) (x : A) :
  (0 <= i < size v)%Z -> vec_set v i x = Some (upd (Z.to_nat i) x v).
Proof.
  intros [H0 H1]. unfold vec_set.
  apply Z.leb_le in H0. apply Z.ltb_lt in H1. rewrite H0, H1. reflexivity.
Qed.

Lemma vec_get_some {A} (v : list A) (i : Z) :
  (0 <= i < size v)%Z -> exists x, vec_get v i = Some x /\ In x v.
Proof.
  intros [H0 H1]. unfold vec_get, size in *.
  apply Z.leb_le in H0 as E0. rewrite E0.
  destruct (nth_error v (Z.to_nat i)) as [x|] eqn:E.
  - exists x; split; [reflexivity|]. eapply nth_error_In; eauto.
  - apply nth_error_None in E. lia.
Qed.

Lemma vec_get_In {A} (v : list A) (i : Z) (x : A) :
  vec_get v i = Some x -> In x v.
Proof.
  unfold vec_get. destruct (0 <=? i)%Z; [|discriminate].
  apply nth_error_In.
Qed.

Lemma vec_get_nth {A} (v : list A) (i : Z) (d : A) :
  (0 <= i < size v)%Z -> vec_get v i = Some (nth (Z.to_nat i) v d).
Proof.
  intros [H0 H1]. unfold vec_get, size in *.
  apply Z.leb_le in H0 as E0. rewrite E0.
  apply nth_error_nth'. lia.
Qed.

Lemma In_upd {A} (n : nat) (x y : A) (l : list A) :
  In y (upd n x l) -> y = x \/ In y l.
Proof.
  revert n; induction l as [|h t IH]; intros [|n]; simpl; auto.
  - intros [E|H]; auto.
  - intros [E|H]; auto. destruct (IH _ H); auto.
Qed.

Lemma nth_error_upd_same {A} (n : nat) (x : A) (l : list A) :
  (n < length l)%nat -> nth_error (upd n x l) n = Some x.
Proof.
  revert n; induction l as [|h t IH]; intros [|n]; simpl; intros H;
    try lia; auto.
  apply IH; lia.
Qed.

Lemma nth_error_upd_other {A} (n k : nat) (x : A) (l : list A) :
  n <> k -> nth_error (upd n x l) k = nth_error l k.
Proof.
  revert n k; induction l as [|h t IH]; intros [|n] [|k]; simpl; intros H;
    auto; try congruence.
Qed.

(** A loop whose body keeps an invariant and cannot fail under it runs to
    completion and keeps the invariant. *)
Lemma for_from_total {S} (P : S -> Prop) (body : Z -> S -> option S) :
  forall (n : nat) (i : Z) (s : S),
    P s ->
    (forall j s, (i <= j < i + Z.of_nat n)%Z -> P s ->
                 exists s', body j s = Some s' /\ P s') ->
    exists s', for_from i n body s = Some s' /\ P s'.
Proof.
  induction n as [|n IH]; intros i s Hs Hbody; simpl.
  - exists s; auto.
  - destruct (Hbody i s) as (s1 & E & H1); [lia|assumption|].
    rewrite E; simpl. apply IH; [assumption|].
    intros j s2 Hj. apply Hbody. lia.
Qed.

(** Whatever a loop returns satisfies every invariant of its body. *)
Lemma for_from_inv {S} (P : S -> Prop) (body : Z -> S -> option S) :
  forall (n : nat) (i : Z) (s s' : S),
    P s ->
    (forall j s s', (i <= j < i + Z.of_nat n)%Z -> P s ->
                    body j s = Some s' -> P s') ->
    for_from i n body s = Some s' -> P s'.
Proof.
  induction n as [|n IH]; intros i s s' Hs Hbody; simpl.
  - intros E; inversion E; subst; assumption.
  - destruct (body i s) as [s1|] eqn:E1; simpl; [|discriminate].
    apply IH.
    + eapply Hbody; eauto. lia.
    + intros j s2 s3 Hj. apply Hbody. lia.
Qed.

Lemma bind_some {A B} (x : option A) (k : A -> option B) (b : B) :
  bind x k = Some b -> exists a, x = Some a /\ k a = Some b.
Proof.
  destruct x as [a|]; simpl; [|discriminate]. intros H; exists a; auto.
Qed.

Ltac bind_inv H :=
  lazymatch type of H with
  | bind ?x ?k = Some _ =>
      let a := fresh "v" in
      let E := fresh "E" in
      let K := fresh "K" in
      destruct (bind_some H) as (a & E & K); clear H; cbv beta in K;
      bind_inv K
  | (let '(_, _) := ?p in _) = Some _ => destruct p; bind_inv H
  | Some _ = Some _ => inversion H; subst; clear H
  | _ => idtac
  end.

(** ** Modulation engine: the output registers *)

Section ModulationRegisters.
Context {F D : Type} {AF : Arith F} {AD : Arith D} {CV : Conv F D}
        {LM : Libm F}.

(** C10.  [getModulation] answers for every [int]: [0.0f] outside
    [0, 8), the smoothed register otherwise; with the eight registers of
    [std::array<float, NumOutputs>] no read is out of range.  The
    function returns a value only, so the engine is left as it was. *)
Theorem getModulation_total (m : @ModulationEngine.t F D) (i : Z) :
  length (ModulationEngine.smoothedOutputs m) = 8%nat ->
  ModulationEngine.getModulation m i =
  Some (if ((i <? 0) || (8 <=? i))%Z then fzero
        else nth (Z.to_nat i) (ModulationEngine.smoothedOutputs m) fzero).
Proof.
  intros L. unfold ModulationEngine.getModulation, ModulationEngine.NumOutputs.
  rewrite Z.geb_leb.
  destruct (i <? 0)%Z eqn:E0; simpl; [reflexivity|].
  destruct (8 <=? i)%Z eqn:E1; simpl; [reflexivity|].
  apply Z.ltb_ge in E0. apply Z.leb_gt in E1.
  apply vec_get_nth. unfold size. rewrite L. lia.
Qed.
End ModulationRegisters.

Lemma getModulation_total_witness :
  length (ModulationEngine.smoothedOutputs
            (@ModulationEngine.init binary32 binary64 _ _)) = 8%nat /\
  ModulationEngine.getModulation
    (@ModulationEngine.init binary32 binary64 _ _) 11 = Some fzero.
Proof.
  split; [reflexivity|].
  exact (@getModulation_total binary32 binary64 _
           (@ModulationEngine.init binary32 binary64 _ _) 11 eq_refl).
Defined.
(** ** Order and NaN facts of the IEEE instances *)

Ltac cmp_cases :=
  change (Pos.compare_cont Eq) with Pos.compare in *;
  repeat match goal with
         | |- context [(?a ?= ?b)%Z] => destruct (Z.compare_spec a b)
         | H : context [(?a ?= ?b)%Z] |- _ => destruct (Z.compare_spec a b)
         | |- context [(?a ?= ?b)%positive] => destruct (Pos.compare_spec a b)
         | H : context [(?a ?= ?b)%positive] |- _ =>
             destruct (Pos.compare_spec a b)
         end;
  simpl in *; try discriminate; try reflexivity; try lia.

Lemma SFcompare_antisym (x y : spec_float) :
  SFcompare y x = option_map CompOpp (SFcompare x y).
Proof.
  destruct x as [s|s| |s m e], y as [s'|s'| |s' m' e']; simpl;
    try reflexivity;
    repeat match goal with b : bool |- _ => destruct b end; simpl;
    try reflexivity; cmp_cases.
Qed.

Lemma SFcompare_some (x y : spec_float) :
  is_nan x = false -> is_nan y = false -> exists c, SFcompare x y = Some c.
Proof.
  destruct x, y; simpl; intros; try discriminate; eauto.
Qed.

Lemma SFltb_false_leb (x y : spec_float) :
  is_nan x = false -> is_nan y = false ->
  SFltb x y = false -> SFleb y x = true.
Proof.
  intros Hx Hy. unfold SFltb, SFleb. rewrite (SFcompare_antisym x y).
  destruct (SFcompare_some Hx Hy) as (c & E). rewrite E. simpl.
  destruct c; simpl; auto; discriminate.
Qed.

Lemma SFleb_ltb_false (x y : spec_float) :
  SFleb x y = true -> SFltb y x = false.
Proof.
  unfold SFltb, SFleb. rewrite (SFcompare_antisym x y).
  destruct (SFcompare x y) as [[]|]; simpl; auto; discriminate.
Qed.

Lemma SFleb_not_nan (x y : spec_float) :
  SFleb x y = true -> is_nan x = false /\ is_nan y = false.
Proof.
  unfold SFleb. destruct x, y; simpl; auto; discriminate.
Qed.

Lemma SFleb_ltb_trans (x y z : spec_float) :
  SFleb x y = true -> SFltb y z = true -> SFltb x z = true.
Proof.
  unfold SFleb, SFltb.
  destruct x as [s|s| |s m e], y as [s'|s'| |s' m' e'], z as [t|t| |t n k];
    simpl; try discriminate; try reflexivity;
    repeat match goal with b : bool |- _ => destruct b end; simpl;
    try discriminate; try reflexivity; cmp_cases.
Qed.

Lemma SFleb_trans (x y z : spec_float) :
  SFleb x y = true -> SFleb y z = true -> SFleb x z = true.
Proof.
  unfold SFleb.
  destruct x as [s|s| |s m e], y as [s'|s'| |s' m' e'], z as [t|t| |t n k];
    simpl; try discriminate; try reflexivity;
    repeat match goal with b : bool |- _ => destruct b end; simpl;
    try discriminate; try reflexivity; cmp_cases.
Qed.

Lemma shr_1_nonneg (mrs : shr_record) :
  (0 <= shr_m mrs)%Z -> (0 <= shr_m (shr_1 mrs))%Z.
Proof.
  destruct mrs as [m r s]; simpl.
  destruct m as [|p|p]; simpl; intros H; try lia;
    destruct p; simpl; lia.
Qed.

Lemma iter_pos_shr_1_nonneg (p : positive) :
  forall mrs, (0 <= shr_m mrs)%Z -> (0 <= shr_m (iter_pos shr_1 p mrs))%Z.
Proof.
  induction p as [p IH|p IH|]; simpl; intros mrs H.
  - apply IH, IH, shr_1_nonneg, H.
  - apply IH, IH, H.
  - apply shr_1_nonneg, H.
Qed.

Lemma shr_fexp_nonneg (prec emax m e : Z) (l : location) :
  (0 <= m)%Z -> (0 <= shr_m (fst (shr_fexp prec emax m e l)))%Z.
Proof.
  intros H. unfold shr_fexp, shr.
  assert (H0 : (0 <= shr_m (shr_record_of_loc m l))%Z).
  { destruct l as [|[]]; simpl; exact H. }
  destruct (fexp prec emax (Zdigits2 m + e) - e)%Z; simpl; auto.
  apply iter_pos_shr_1_nonneg, H0.
Qed.

Lemma round_nearest_even_nonneg (m : Z) (l : location) :
  (0 <= m)%Z -> (0 <= round_nearest_even m l)%Z.
Proof.
  intros H. unfold round_nearest_even.
  destruct l as [|[]]; try lia. destruct (Z.even m); lia.
Qed.

Lemma binary_round_aux_not_nan (prec emax : Z) (s : bool) (m e : Z)
      (l : location) :
  (0 <= m)%Z -> is_nan (binary_round_aux prec emax s m e l) = false.
Proof.
  intros H. unfold binary_round_aux.
  pose proof (@shr_fexp_nonneg prec emax m e l H) as H1.
  destruct (shr_fexp prec emax m e l) as [mrs' e']. simpl in H1.
  pose proof (@shr_fexp_nonneg prec emax
                (round_nearest_even (shr_m mrs') (loc_of_shr_record mrs'))
                e' loc_Exact (@round_nearest_even_nonneg _ (loc_of_shr_record mrs') H1)) as H2.
  destruct (shr_fexp prec emax _ e' loc_Exact) as [mrs'' e'']. simpl in H2.
  destruct (shr_m mrs'') as [|p|p]; simpl; try reflexivity; [|lia].
  destruct (e'' <=? emax - prec)%Z; reflexivity.
Qed.

Lemma SFdiv_finite_not_nan (prec emax : Z) (s s' : bool) (m m' : positive)
      (e e' : Z) :
  is_nan (SFdiv prec emax (S754_finite s m e) (S754_finite s' m' e')) = false.
Proof.
  unfold SFdiv, SFdiv_core_binary.
  set (k := (e - e' - _)%Z).
  set (n := match k with Z0 => Zpos m | Zpos _ => Z.shiftl (Zpos m) k
                    | Zneg _ => 0%Z end).
  assert (Hn : (0 <= n)%Z).
  { subst n. destruct k; try lia. apply Z.shiftl_nonneg. lia. }
  pose proof (Z.div_eucl_eq n (Zpos m') ltac:(lia)) as Hq.
  pose proof (Z_div_mod n (Zpos m') ltac:(lia)) as Hr.
  destruct (Z.div_eucl n (Zpos m')) as [q r].
  apply binary_round_aux_not_nan.
  destruct Hr as [_ Hr]. nia.
Qed.

(** ** Nested loops over a grid of units *)

(** A loop with an invariant that follows the index. *)
Lemma for_from_ind {S} (P : Z -> S -> Prop) (body : Z -> S -> option S) :
  forall (n : nat) (i : Z) (s : S),
    P i s ->
    (forall j s, (i <= j < i + Z.of_nat n)%Z -> P j s ->
                 exists s', body j s = Some s' /\ P (j + 1)%Z s') ->
    exists s', for_from i n body s = Some s' /\ P (i + Z.of_nat n)%Z s'.
Proof.
  induction n as [|n IH]; intros i s Hs Hbody; simpl for_from.
  - exists s. rewrite Z.add_0_r. auto.
  - destruct (Hbody i s) as (s1 & E & H1); [lia|assumption|].
    rewrite E; simpl.
    destruct (IH (i + 1)%Z s1 H1) as (s2 & E2 & H2).
    { intros j s2 Hj. apply Hbody. lia. }
    exists s2. split; [assumption|].
    replace (i + Z.pos (Pos.of_succ_nat n))%Z with (i + 1 + Z.of_nat n)%Z
      by lia.
    exact H2.
Qed.

Lemma vec_get_upd {A} (v : list A) (i j : Z) (x : A) :
  (0 <= i < size v)%Z ->
  vec_get (upd (Z.to_nat i) x v) j = if (j =? i)%Z then Some x else vec_get v j.
Proof.
  intros [H0 H1]. unfold vec_get, size in *.
  destruct (0 <=? j)%Z eqn:Ej; [|destruct (j =? i)%Z eqn:E; [|reflexivity]].
  - apply Z.leb_le in Ej.
    destruct (j =? i)%Z eqn:E.
    + apply Z.eqb_eq in E; subst j. apply nth_error_upd_same. lia.
    + apply Z.eqb_neq in E. apply nth_error_upd_other. lia.
  - apply Z.eqb_eq in E. apply Z.leb_gt in Ej. lia.
Qed.

Lemma grid_update_spec {A} (R C : nat) (g : list (list A)) (ch i : Z)
      (f : A -> A) :
  grid_shape R C g -> (0 <= ch < Z.of_nat R)%Z -> (0 <= i < Z.of_nat C)%Z ->
  exists a g',
    grid_get g ch i = Some a /\
    grid_update g ch i f = Some g' /\
    grid_shape R C g' /\
    forall ch' i',
      grid_get g' ch' i' =
      if ((ch' =? ch) && (i' =? i))%Z then Some (f a) else grid_get g ch' i'.
Proof.
  intros [HR HC] Hch Hi.
  destruct (@vec_get_some _ g ch) as (row & Er & Hin); [unfold size; lia|].
  pose proof (HC _ Hin) as Lr.
  destruct (@vec_get_some _ row i) as (a & Ea & _); [unfold size; lia|].
  exists a, (upd (Z.to_nat ch) (upd (Z.to_nat i) (f a) row) g).
  unfold grid_get, grid_update. rewrite Er, Ea.
  rewrite (@vec_set_some _ row i) by (unfold size; lia).
  rewrite (@vec_set_some _ g ch) by (unfold size; lia).
  split; [reflexivity|]. split; [reflexivity|]. split.
  - split; [rewrite upd_length; exact HR|].
    intros r Hr. apply In_upd in Hr. destruct Hr as [->|Hr]; [|auto].
    rewrite upd_length. exact Lr.
  - intros ch' i'. rewrite vec_get_upd by (unfold size; lia).
    destruct (ch' =? ch)%Z eqn:Ec; simpl.
    + apply Z.eqb_eq in Ec; subst ch'.
      rewrite vec_get_upd by (unfold size; lia). rewrite Er.
      destruct (i' =? i)%Z; reflexivity.
    + reflexivity.
Qed.

Lemma grid_loops {A} (R C : nat) (f : Z -> Z -> A -> A)
      (body : Z -> Z -> list (list A) -> option (list (list A)))
      (g : list (list A)) :
  grid_shape R C g ->
  (forall ch i g', (0 <= ch < Z.of_nat R)%Z -> (0 <= i < Z.of_nat C)%Z ->
                   grid_shape R C g' ->
                   body ch i g' = grid_update g' ch i (f ch i)) ->
  exists g',
    for_loop R (fun ch g => for_loop C (fun i g => body ch i g) g) g = Some g' /\
    grid_shape R C g' /\
    forall ch i, (0 <= ch < Z.of_nat R)%Z -> (0 <= i < Z.of_nat C)%Z ->
      exists a, grid_get g ch i = Some a /\ grid_get g' ch i = Some (f ch i a).
Proof.
  intros Hg Hbody.
  set (P := fun (ch i : Z) (g' : list (list A)) =>
              grid_shape R C g' /\
              forall ch' i', (0 <= ch' < Z.of_nat R)%Z ->
                             (0 <= i' < Z.of_nat C)%Z ->
                exists a, grid_get g ch' i' = Some a /\
                          grid_get g' ch' i' =
                          Some (if before ch i ch' i' then f ch' i' a else a)).
  assert (H0 : P 0%Z 0%Z g).
  { split; [assumption|]. intros ch' i' Hc Hi.
    destruct (@grid_update_spec _ R C g ch' i' (fun a => a) Hg Hc Hi)
      as (a & _ & Ea & _).
    exists a. split; [assumption|]. rewrite Ea.
    unfold before. replace (ch' <? 0)%Z with false by (symmetry; apply Z.ltb_ge; lia).
    replace (i' <? 0)%Z with false by (symmetry; apply Z.ltb_ge; lia).
    rewrite andb_false_r. reflexivity. }
  destruct (@for_from_ind _ (fun ch g' => P ch 0%Z g')
              (fun ch g => for_loop C (fun i g => body ch i g) g) R 0%Z g H0)
    as (g' & E & Hshape & Hcells).
  - intros ch g1 Hch H1.
    destruct (@for_from_ind _ (fun i g' => P ch i g')
                (fun i g => body ch i g) C 0%Z g1 H1) as (g2 & E2 & H2).
    + intros i g2 Hi [Hs2 Hc2].
      rewrite Hbody by (assumption || lia).
      destruct (@grid_update_spec _ R C g2 ch i (f ch i) Hs2) as (a & g3 & Ea & Eu & Hs3 & Hc3);
        [lia|lia|].
      exists g3. split; [assumption|]. split; [assumption|].
      intros ch' i' Hc' Hi'. rewrite Hc3.
      destruct (Hc2 ch' i' Hc' Hi') as (a' & Ea' & Eg).
      exists a'. split; [assumption|].
      destruct ((ch' =? ch) && (i' =? i))%Z eqn:Eq.
      * apply andb_true_iff in Eq. destruct Eq as [E1 E2].
        apply Z.eqb_eq in E1, E2. subst ch' i'.
        rewrite Ea in Eg. unfold before in *.
        rewrite Z.ltb_irrefl, Z.eqb_refl in *. simpl in *.
        rewrite Z.ltb_irrefl in Eg.
        replace (i <? i + 1)%Z with true by (symmetry; apply Z.ltb_lt; lia).
        inversion Eg; subst. reflexivity.
      * rewrite Eg. f_equal. unfold before.
        destruct (ch' <? ch)%Z; simpl; [reflexivity|].
        destruct (ch' =? ch)%Z eqn:E1; simpl; [|reflexivity].
        simpl in Eq. apply Z.eqb_neq in Eq.
        destruct (i' <? i)%Z eqn:E3, (i' <? i + 1)%Z eqn:E4; try reflexivity;
          try (apply Z.ltb_lt in E3); try (apply Z.ltb_ge in E3);
          try (apply Z.ltb_lt in E4); try (apply Z.ltb_ge in E4); lia.
    + exists g2. split; [exact E2|]. destruct H2 as [Hs2 Hc2].
      split; [assumption|].
      intros ch' i' Hc' Hi'. destruct (Hc2 ch' i' Hc' Hi') as (a & Ea & Eg).
      exists a. split; [assumption|]. rewrite Eg. f_equal.
      unfold before.
      replace (i' <? 0 + Z.of_nat C)%Z with true by (symmetry; apply Z.ltb_lt; lia).
      replace (i' <? 0)%Z with false by (symmetry; apply Z.ltb_ge; lia).
      rewrite andb_true_r, andb_false_r, orb_false_r.
      destruct (ch' <? ch)%Z eqn:E3, (ch' =? ch)%Z eqn:E4,
               (ch' <? ch + 1)%Z eqn:E5; try reflexivity;
        try (apply Z.ltb_lt in E3); try (apply Z.ltb_ge in E3);
        try (apply Z.eqb_eq in E4); try (apply Z.eqb_neq in E4);
        try (apply Z.ltb_lt in E5); try (apply Z.ltb_ge in E5); lia.
  - exists g'. split; [exact E|]. split; [assumption|].
    intros ch i Hc Hi. destruct (Hcells ch i Hc Hi) as (a & Ea & Eg).
    exists a. split; [assumption|]. rewrite Eg. f_equal.
    unfold before.
    replace (ch <? 0 + Z.of_nat R)%Z with true by (symmetry; apply Z.ltb_lt; lia).
    reflexivity.
Qed.


(** ** Comb feedback after [setDecay] *)

Lemma SFltb_leb (x y : spec_float) : SFltb x y = true -> SFleb x y = true.
Proof.
  unfold SFltb, SFleb. destruct (SFcompare x y) as [[]|]; auto.
Qed.

Lemma SFltb_not_nan (x y : spec_float) :
  SFltb x y = true -> is_nan x = false /\ is_nan y = false.
Proof.
  intros H. apply SFleb_not_nan, SFltb_leb, H.
Qed.

(** Below an upper limit [hi < c], a clamped number is below [c]. *)
Lemma jlimit32_below (lo hi c x : binary32) :
  nan32 x = false -> nan32 hi = false ->
  (lo <? c)%fl = true -> (hi <? c)%fl = true ->
  (jlimit lo hi x <? c)%fl = true.
Proof.
  unfold jlimit, nan32; simpl. intros Hx Hhi Hlo Hc.
  destruct (SFltb (b32 x) (b32 lo)); [assumption|].
  destruct (SFltb (b32 hi) (b32 x)) eqn:E; [assumption|].
  eapply SFleb_ltb_trans; [|exact Hc].
  apply SFltb_false_leb; assumption.
Qed.

(** Clamping again to a wider interval changes nothing. *)
Lemma jlimit32_widen (lo hi hi' x : binary32) :
  (lo <? lo)%fl = false -> (hi' <? lo)%fl = false -> (hi <? lo)%fl = false ->
  (hi <? hi')%fl = true ->
  jlimit lo hi' (jlimit lo hi x) = jlimit lo hi x.
Proof.
  unfold jlimit; simpl. intros Hll Hhl Hhl' Hh.
  destruct (SFltb (b32 x) (b32 lo)) eqn:E1.
  - rewrite Hll, Hhl. reflexivity.
  - destruct (SFltb (b32 hi) (b32 x)) eqn:E2.
    + rewrite Hhl'. rewrite (SFleb_ltb_false (SFltb_leb Hh)). reflexivity.
    + rewrite E1.
      destruct (SFltb (b32 hi') (b32 x)) eqn:E3; [|reflexivity].
      exfalso.
      destruct (SFltb_not_nan E3) as [_ Nx].
      destruct (SFltb_not_nan Hh) as [Nh _].
      pose proof (SFltb_false_leb Nh Nx E2) as L.
      pose proof (SFleb_ltb_trans L Hh) as L'.
      pose proof (SFleb_ltb_false (SFltb_leb L')) as L''.
      congruence.
Qed.

Lemma lit32_half : b32 (f_lit 5 10) = S754_finite false 8388608 (-24).
Proof. vm_compute. reflexivity. Qed.

Lemma lit32_30 : b32 (f_lit 30 1) = S754_finite false 15728640 (-19).
Proof. vm_compute. reflexivity. Qed.

(** A decay time within [0.5, 30] is a positive finite number. *)
Lemma decay_in_range_finite (d : binary32) :
  (f_lit 5 10 <=? d)%fl = true -> (d <=? f_lit 30 1)%fl = true ->
  exists m e, b32 d = S754_finite false m e.
Proof.
  intros H1 H2.
  change (SFleb (b32 (f_lit 5 10)) (b32 d) = true) in H1.
  change (SFleb (b32 d) (b32 (f_lit 30 1)) = true) in H2.
  rewrite lit32_half in H1. rewrite lit32_30 in H2.
  destruct d as [[s|s| |s m e]];
    cbv beta iota delta [SFleb SFcompare b32] in H1, H2 |- *;
    try discriminate.
  - destruct s; discriminate.
  - destruct s; try discriminate. eauto.
Qed.

Section DecayFeedback.
Context {LM : Libm binary32} {J : JuceDSP binary32 binary64}.

(** [std::pow (10.0f, y)] is a number whenever [y] is one. *)
Hypothesis pow10_number :
  forall y : binary32, nan32 y = false -> nan32 (powf (f_lit 10 1) y) = false.

Lemma decay_exponent_number (ch i : Z) (ms d : binary32) :
  (0 <= i < 8)%Z ->
  vec_get (AlgorithmicReverb.delayTimesMs (F:=binary32)) i = Some ms ->
  (f_lit 5 10 <=? d)%fl = true -> (d <=? f_lit 30 1)%fl = true ->
  nan32 (f_lit (-3) 1
         * ((ms + (if (ch =? 0)%Z then fzero else f_lit 17 10))
            / f_lit 1000 1) / d)%fl = false.
Proof.
  intros Hi Ems H1 H2.
  destruct (decay_in_range_finite H1 H2) as (m & e & Ed).
  destruct d as [d]. cbn [b32] in Ed. subst d. unfold nan32.
  assert (Hi' : (i = 0 \/ i = 1 \/ i = 2 \/ i = 3 \/ i = 4 \/ i = 5
                 \/ i = 6 \/ i = 7)%Z) by lia.
  assert (exists s' m' e',
             SFmul 24 128 (b32 (f_lit (-3) 1))
               (SFdiv 24 128
                  (b32 (ms + (if (ch =? 0)%Z then fzero else f_lit 17 10))%fl)
                  (b32 (f_lit 1000 1))) = S754_finite s' m' e')
    as (s' & m' & e' & E).
  { destruct (ch =? 0)%Z;
      repeat (destruct Hi' as [->|Hi']); try subst i;
      vm_compute in Ems; inversion Ems; subst ms;
      vm_compute; eauto. }
  change (is_nan (SFdiv 24 128
                    (SFmul 24 128 (b32 (f_lit (-3) 1))
                       (SFdiv 24 128
                          (b32 (ms + (if (ch =? 0)%Z then fzero
                                      else f_lit 17 10))%fl)
                          (b32 (f_lit 1000 1))))
                    (S754_finite false m e)) = false).
  rewrite E. apply SFdiv_finite_not_nan.
Qed.

Lemma updateDecay_cells (r : @AlgorithmicReverb.t binary32 binary64 J) :
  grid_shape 2 8 (AlgorithmicReverb.combFilters r) ->
  exists cs,
    AlgorithmicReverb.updateDecay r =
      Some (AlgorithmicReverb.set_combFilters r cs) /\
    grid_shape 2 8 cs /\
    forall ch i, (0 <= ch < 2)%Z -> (0 <= i < 8)%Z ->
      exists c, grid_get (AlgorithmicReverb.combFilters r) ch i = Some c /\
                grid_get cs ch i = Some (AlgorithmicReverb.decay_cell r ch i c).
Proof.
  intros Hs. unfold AlgorithmicReverb.updateDecay.
  destruct (@grid_loops _ 2 8 (AlgorithmicReverb.decay_cell r)
              (fun ch i cs =>
                 ms <- vec_get AlgorithmicReverb.delayTimesMs i ;;
                 grid_update cs ch i (fun c =>
                   CombFilter.setDamping
                     (CombFilter.setFeedback c
                        (AlgorithmicReverb.decay_feedback
                           (AlgorithmicReverb.decayTime r) ch ms))
                     (AlgorithmicReverb.decay_damping
                        (AlgorithmicReverb.highCutFreq r))))
              (AlgorithmicReverb.combFilters r) Hs)
    as (cs & E & Hcs & Hcells).
  - intros ch i g' Hch Hi _.
    rewrite (@vec_get_nth _ AlgorithmicReverb.delayTimesMs i fzero)
      by (unfold size; simpl; lia).
    reflexivity.
  - exists cs. rewrite E. simpl. auto.
Qed.

Lemma lit32_cmp :
  (fzero <? fzero)%fl = false /\ (f_lit 999 1000 <? fzero)%fl = false /\
  (f_lit 998 1000 <? fzero)%fl = false /\
  (f_lit 998 1000 <? f_lit 999 1000)%fl = true /\
  (fzero <? fone)%fl = true /\ (f_lit 998 1000 <? fone)%fl = true /\
  nan32 (f_lit 998 1000) = false.
Proof. vm_compute. repeat split; reflexivity. Qed.

(** C1.  After [setDecay] with a decay time in [0.5, 30], every comb
    unit of both channels stores the feedback
    [10^(-3 * delaySeconds / decayTime)] clamped to [0, 0.998] (the
    wider clamp of [setFeedback] leaves it alone), and that is strictly
    below 1.  The other setters do not write the comb units, so the
    bound stays. *)
Theorem setDecay_feedback_below_one :
  (forall (r : @AlgorithmicReverb.t binary32 binary64 J)
          (decaySeconds : binary32),
      grid_shape 2 8 (AlgorithmicReverb.combFilters r) ->
      (f_lit 5 10 <=? decaySeconds)%fl = true ->
      (decaySeconds <=? f_lit 30 1)%fl = true ->
      exists r',
        AlgorithmicReverb.setDecay r decaySeconds = Some r' /\
        forall ch i, (0 <= ch < 2)%Z -> (0 <= i < 8)%Z ->
          exists c ms,
            grid_get (AlgorithmicReverb.combFilters r') ch i = Some c /\
            vec_get AlgorithmicReverb.delayTimesMs i = Some ms /\
            CombFilter.feedback c =
              jlimit fzero (f_lit 998 1000)
                (powf (f_lit 10 1)
                   (f_lit (-3) 1
                    * ((ms + (if (ch =? 0)%Z then fzero else f_lit 17 10))
                       / f_lit 1000 1) / decaySeconds)%fl) /\
            (CombFilter.feedback c <? fone)%fl = true) /\
  (forall (r : @AlgorithmicReverb.t binary32 binary64 J) (x : binary32),
      AlgorithmicReverb.combFilters (AlgorithmicReverb.setHighCut r x) =
        AlgorithmicReverb.combFilters r /\
      AlgorithmicReverb.combFilters (AlgorithmicReverb.setLowCut r x) =
        AlgorithmicReverb.combFilters r /\
      AlgorithmicReverb.combFilters (AlgorithmicReverb.setWidth r x) =
        AlgorithmicReverb.combFilters r /\
      (forall r', AlgorithmicReverb.setPreDelay r x = Some r' ->
                  AlgorithmicReverb.combFilters r' =
                    AlgorithmicReverb.combFilters r) /\
      (forall r', AlgorithmicReverb.setDiffusionThrust r x = Some r' ->
                  AlgorithmicReverb.combFilters r' =
                    AlgorithmicReverb.combFilters r) /\
      (forall r', AlgorithmicReverb.setModulationChaos r x = Some r' ->
                  AlgorithmicReverb.combFilters r' =
                    AlgorithmicReverb.combFilters r)).
Proof.
  destruct lit32_cmp as (C1 & C2 & C3 & C4 & C5 & C6 & C7).
  split.
  - intros r d Hs H1 H2.
    assert (Ed : jlimit (f_lit 5 10) (f_lit 30 1) d = d).
    { unfold jlimit.
      change (f_ltb d (f_lit 5 10)) with (SFltb (b32 d) (b32 (f_lit 5 10))).
      change (f_ltb (f_lit 30 1) d) with (SFltb (b32 (f_lit 30 1)) (b32 d)).
      rewrite (SFleb_ltb_false H1), (SFleb_ltb_false H2). reflexivity. }
    unfold AlgorithmicReverb.setDecay. rewrite Ed.
    match goal with
    | |- context [AlgorithmicReverb.updateDecay ?r0] => set (r1 := r0)
    end.
    destruct (@updateDecay_cells r1 Hs) as (cs & E & Hcs & Hcells).
    exists (AlgorithmicReverb.set_combFilters r1 cs). split; [exact E|].
    intros ch i Hch Hi.
    destruct (Hcells ch i Hch Hi) as (c & Ec & Ec').
    exists (AlgorithmicReverb.decay_cell r1 ch i c),
           (nth (Z.to_nat i) AlgorithmicReverb.delayTimesMs fzero).
    split; [exact Ec'|].
    assert (Ems : vec_get (AlgorithmicReverb.delayTimesMs (F:=binary32)) i =
                  Some (nth (Z.to_nat i) AlgorithmicReverb.delayTimesMs fzero)).
    { apply vec_get_nth. unfold size; simpl; lia. }
    split; [exact Ems|].
    pose proof (pow10_number (@decay_exponent_number ch i _ d Hi Ems H1 H2))
      as Hp.
    set (fb := jlimit fzero (f_lit 998 1000) _).
    assert (Efb : CombFilter.feedback (AlgorithmicReverb.decay_cell r1 ch i c) = fb).
    { unfold AlgorithmicReverb.decay_cell, CombFilter.setDamping, CombFilter.setFeedback.
      cbn [CombFilter.feedback]. subst r1. cbn [AlgorithmicReverb.decayTime].
      unfold AlgorithmicReverb.decay_feedback.
      apply jlimit32_widen; assumption. }
    split; [exact Efb|]. rewrite Efb. subst fb.
    apply jlimit32_below; assumption.
  - intros r x. repeat split.
    + intros r'. unfold AlgorithmicReverb.setPreDelay. intros H.
      bind_inv H. reflexivity.
    + intros r'. unfold AlgorithmicReverb.setDiffusionThrust. intros H.
      bind_inv H. reflexivity.
    + intros r'. unfold AlgorithmicReverb.setModulationChaos. intros H.
      bind_inv H. reflexivity.
Qed.
End DecayFeedback.

Lemma init_comb_shape {F D : Type} {AF : Arith F} {AD : Arith D}
      {CV : Conv F D} {LM : Libm F} {J : JuceDSP F D} :
  grid_shape 2 8
    (AlgorithmicReverb.combFilters (@AlgorithmicReverb.init F D AF AD J)).
Proof.
  split; [reflexivity|].
  intros row [<-|[<-|[]]]; reflexivity.
Qed.

Section Run32.
#[local] Existing Instance libm32.
#[local] Existing Instance juce32.

Lemma setDecay_feedback_below_one_witness :
(f_lit 5 10 <=? (f_lit 5 1 : binary32))%fl = true /\
((f_lit 5 1 : binary32) <=? f_lit 30 1)%fl = true /\
exists r',
  AlgorithmicReverb.setDecay AlgorithmicReverb.init (f_lit 5 1) = Some r' /\
  forall ch i, (0 <= ch < 2)%Z -> (0 <= i < 8)%Z ->
    exists c ms,
      grid_get (AlgorithmicReverb.combFilters r') ch i = Some c /\
      vec_get AlgorithmicReverb.delayTimesMs i = Some ms /\
      CombFilter.feedback c =
        jlimit fzero (f_lit 998 1000)
          (powf (f_lit 10 1)
             (f_lit (-3) 1
              * ((ms + (if (ch =? 0)%Z then fzero else f_lit 17 10))
                 / f_lit 1000 1) / f_lit 5 1)%fl) /\
      (CombFilter.feedback c <? fone)%fl = true.
Proof.
split; [vm_compute; reflexivity|].
split; [vm_compute; reflexivity|].
apply (proj1 (@setDecay_feedback_below_one libm32 juce32
                (fun y _ => eq_refl))).
- apply (@init_comb_shape _ _ _ _ _ libm32).
- vm_compute; reflexivity.
- vm_compute; reflexivity.
Defined.
End Run32.

(** ** Fairing separation: the tempo division *)








(** ** Exact arithmetic: clamps and truncation *)

Lemma Q_ltb_true (x y : Q) : (x <? y)%fl = true <-> x < y.
Proof.
  unfold f_ltb; simpl. destruct (Qlt_le_dec x y) as [H|H]; split; intros H';
    auto; try discriminate. exfalso. lra.
Qed.

Lemma Q_ltb_false (x y : Q) : (x <? y)%fl = false <-> y <= x.
Proof.
  unfold f_ltb; simpl. destruct (Qlt_le_dec x y) as [H|H]; split; intros H';
    auto; try discriminate. exfalso. lra.
Qed.

Lemma Q_jlimit_bounds (lo hi x : Q) :
  lo <= hi -> lo <= jlimit lo hi x /\ jlimit lo hi x <= hi.
Proof.
  intros H. unfold jlimit.
  destruct (x <? lo)%fl eqn:E1; [lra|apply Q_ltb_false in E1].
  destruct (hi <? x)%fl eqn:E2; [lra|apply Q_ltb_false in E2]. lra.
Qed.

Lemma Q_jlimit_id (lo hi x : Q) : lo <= x -> x <= hi -> jlimit lo hi x = x.
Proof.
  intros H1 H2. unfold jlimit.
  destruct (x <? lo)%fl eqn:E1; [apply Q_ltb_true in E1; lra|].
  destruct (hi <? x)%fl eqn:E2; [apply Q_ltb_true in E2; lra|]. reflexivity.
Qed.

(** [static_cast<int>] of a non-negative rational is its floor. *)
Lemma Q_to_int_nonneg (q : Q) :
  0 <= q -> (Qfloor q <= INT_MAX)%Z -> f_to_int q = Some (Qfloor q).
Proof.
  intros H0 Hmax. unfold f_to_int; simpl. unfold Q_to_int.
  destruct q as [n d]. unfold Qfloor. simpl in *.
  assert (Hn : (0 <= n)%Z).
  { unfold Qle in H0; simpl in H0. lia. }
  rewrite Z.quot_div_nonneg by lia.
  unfold int_ok, in_int.
  assert (0 <= n / Zpos d)%Z by (apply Z.div_pos; lia).
  replace (INT_MIN <=? n / Zpos d)%Z with true
    by (symmetry; apply Z.leb_le; unfold INT_MIN; lia).
  replace (n / Zpos d <=? INT_MAX)%Z with true
    by (symmetry; apply Z.leb_le; exact Hmax).
  reflexivity.
Qed.

Lemma Qfloor_bounds (q : Q) (a b : Z) :
  inject_Z a <= q -> q <= inject_Z b -> (a <= Qfloor q <= b)%Z.
Proof.
  intros H1 H2. split.
  - rewrite <- (Qfloor_Z a). apply Qfloor_resp_le. exact H1.
  - rewrite <- (Qfloor_Z b). apply Qfloor_resp_le. exact H2.
Qed.

(** ** Diffusion network: the engaged stages *)

Section DiffusionStages.
Context {F D : Type} {AF : Arith F} {AD : Arith D} {CV : Conv F D}
        {J : JuceDSP F D}.

Lemma cell_set_other {A} (g g' : list (list A)) (row row' : list A)
      (ch i : Z) (a : A) :
  vec_get g ch = Some row -> vec_set row i a = Some row' ->
  vec_set g ch row' = Some g' ->
  forall ch' k, k <> i -> grid_get g' ch' k = grid_get g ch' k.
Proof.
  intros Er Es Eg ch' k Hk. unfold grid_get.
  unfold vec_set in Eg, Es.
  destruct ((0 <=? ch) && (ch <? size g))%Z eqn:Ec; [|discriminate].
  destruct ((0 <=? i) && (i <? size row))%Z eqn:Ei; [|discriminate].
  inversion Eg; subst g'. inversion Es; subst row'.
  apply andb_true_iff in Ec, Ei.
  destruct Ec as [C0 C1], Ei as [I0 I1].
  apply Z.leb_le in C0, I0. apply Z.ltb_lt in C1, I1.
  rewrite vec_get_upd by lia.
  destruct (ch' =? ch)%Z eqn:E; [|reflexivity].
  apply Z.eqb_eq in E; subst ch'. rewrite Er.
  rewrite vec_get_upd by lia.
  destruct (k =? i)%Z eqn:E'; [apply Z.eqb_eq in E'; lia|reflexivity].
Qed.

Lemma process_sample_frame (n : nat) (ch : Z)
      (fs fs' : list (list (@AllpassFilter.t F D))) (x x' : F) :
  DiffusionNetwork.process_sample n ch (fs, x) = Some (fs', x') ->
  forall ch' k, (Z.of_nat n <= k)%Z -> grid_get fs' ch' k = grid_get fs ch' k.
Proof.
  unfold DiffusionNetwork.process_sample, for_loop. intros H.
  refine (@for_from_inv _
            (fun st => forall ch' k, (Z.of_nat n <= k)%Z ->
                                     grid_get (fst st) ch' k = grid_get fs ch' k)
            _ n 0%Z (fs, x) (fs', x') _ _ H).
  - intros; reflexivity.
  - intros j [g y] [g' y'] Hj Hinv Hb ch' k Hk. simpl in *.
    bind_inv Hb.
    rewrite <- (Hinv ch' k Hk). eapply cell_set_other; eauto. lia.
Qed.
End DiffusionStages.

Section DiffusionProcess.
Context {F D : Type} {AF : Arith F} {AD : Arith D} {CV : Conv F D}
        {J : JuceDSP F D}.

(** [process] only writes the allpass units of the stages below
    [activeStages]. *)
Lemma diffusion_process_frame (d d' : @DiffusionNetwork.t F D J)
      (buf buf' : AudioBuffer F) (n : Z) :
  DiffusionNetwork.getActiveStages d = Some n ->
  DiffusionNetwork.process d buf = Some (d', buf') ->
  forall ch k, (0 <= n <= k)%Z ->
    grid_get (DiffusionNetwork.allpassFilters d') ch k =
    grid_get (DiffusionNetwork.allpassFilters d) ch k.
Proof.
  intros En H ch k Hk. unfold DiffusionNetwork.process in H.
  rewrite En in H. simpl in H.
  apply bind_some in H. destruct H as ([fs b1] & Eloop & H).
  assert (Hfs : forall ch' k', (n <= k')%Z ->
                  grid_get fs ch' k' =
                  grid_get (DiffusionNetwork.allpassFilters d) ch' k').
  { refine (@for_from_inv _
              (fun st => forall ch' k', (n <= k')%Z ->
                 grid_get (fst st) ch' k' =
                 grid_get (DiffusionNetwork.allpassFilters d) ch' k')
              _ _ 0%Z _ (fs, b1) _ _ Eloop).
    - intros; reflexivity.
    - intros c st st' _ Hst Hin.
      refine (@for_from_inv _
                (fun st => forall ch' k', (n <= k')%Z ->
                   grid_get (fst st) ch' k' =
                   grid_get (DiffusionNetwork.allpassFilters d) ch' k')
                _ _ 0%Z _ st' Hst _ Hin).
      intros i [g b] [g' b'] _ Hg Hb ch' k' Hk'. simpl in *.
      bind_inv Hb.
      rewrite <- (Hg ch' k' Hk').
      eapply process_sample_frame; eauto. lia. }
  destruct (f_ltb (f_lit 1 100) (DiffusionNetwork.thrustAmount d)).
  - bind_inv H. simpl. apply Hfs. lia.
  - inversion H; subst. simpl. apply Hfs. lia.
Qed.
End DiffusionProcess.

Lemma for_from_snoc {S} (body : Z -> S -> option S) (n : nat) :
  forall (i : Z) (s : S),
    for_from i (Datatypes.S n) body s =
    (s' <- for_from i n body s ;; body (i + Z.of_nat n)%Z s').
Proof.
  induction n as [|n IH]; intros i s.
  - simpl. rewrite Z.add_0_r. destruct (body i s); reflexivity.
  - change (for_from i (Datatypes.S (Datatypes.S n)) body s)
      with (s1 <- body i s ;; for_from (i + 1) (Datatypes.S n) body s1).
    change (for_from i (Datatypes.S n) body s)
      with (s1 <- body i s ;; for_from (i + 1) n body s1).
    destruct (body i s) as [s1|]; cbn [bind]; [|reflexivity].
    rewrite IH.
    replace (i + 1 + Z.of_nat n)%Z with (i + Z.of_nat (Datatypes.S n))%Z
      by lia.
    reflexivity.
Qed.

Lemma setThrust_amount {F D : Type} {AF : Arith F} {AD : Arith D}
      {CV : Conv F D} {J : JuceDSP F D}
      (d d' : @DiffusionNetwork.t F D J) (t : F) :
  DiffusionNetwork.setThrust d t = Some d' ->
  DiffusionNetwork.thrustAmount d' = jlimit fzero fone t.
Proof.
  unfold DiffusionNetwork.setThrust. intros H. bind_inv H. reflexivity.
Qed.

(** C4 as stated fails: a thrust of 0.25 engages 3 stages, and
    [round (2 + 0.25 * 6)] is 4. *)
Lemma quarter_thrust_engages_three :
  match DiffusionNetwork.setThrust
          (@DiffusionNetwork.init binary32 binary64 _ _ juce32) (f_lit 1 4) with
  | Some d => DiffusionNetwork.getActiveStages d
  | None => None
  end = Some 3%Z /\
  round_nearest (2 + (1 # 4) * 6) = 4%Z.
Proof.
  split; vm_compute; reflexivity.
Qed.

(** ** Reset *)

Lemma for_from_ext {S} (body body' : Z -> S -> option S) :
  forall (n : nat) (i : Z) (s : S),
    (forall j s, (i <= j < i + Z.of_nat n)%Z -> body j s = body' j s) ->
    for_from i n body s = for_from i n body' s.
Proof.
  induction n as [|n IH]; intros i s H; [reflexivity|].
  change (for_from i (Datatypes.S n) body s)
    with (s1 <- body i s ;; for_from (i + 1) n body s1).
  change (for_from i (Datatypes.S n) body' s)
    with (s1 <- body' i s ;; for_from (i + 1) n body' s1).
  rewrite H by lia. destruct (body' i s) as [s1|]; [|reflexivity].
  cbn [bind]. apply IH. intros j s2 Hj. apply H. lia.
Qed.

(** A loop over a pair whose halves do not look at each other is the
    two loops one after the other. *)
Lemma for_from_pair {A B} (fa : Z -> A -> option A) (fb : Z -> B -> option B) :
  forall (n : nat) (i : Z) (a : A) (b : B),
    for_from i n (fun j '(a, b) =>
                    a' <- fa j a ;; b' <- fb j b ;; Some (a', b')) (a, b) =
    (a' <- for_from i n fa a ;; b' <- for_from i n fb b ;; Some (a', b')).
Proof.
  induction n as [|n IH]; intros i a b; [reflexivity|].
  change (for_from i (Datatypes.S n) fa a)
    with (s1 <- fa i a ;; for_from (i + 1) n fa s1).
  change (for_from i (Datatypes.S n) fb b)
    with (s1 <- fb i b ;; for_from (i + 1) n fb s1).
  match goal with
  | |- for_from i (Datatypes.S n) ?body (a, b) = _ =>
      change (for_from i (Datatypes.S n) body (a, b))
        with (s1 <- body i (a, b) ;; for_from (i + 1) n body s1)
  end.
  cbv beta iota.
  destruct (fa i a) as [a1|]; cbn [bind]; [|reflexivity].
  destruct (fb i b) as [b1|]; cbn [bind].
  - apply IH.
  - destruct (for_from (i + 1) n fa a1); reflexivity.
Qed.

(** [for i: v[i] = g (i)] fills a vector of the right length. *)
Lemma set_loop {A} (g : Z -> A) (n : nat) (v : list A) :
  length v = n ->
  exists v',
    for_loop n (fun i v => vec_set v i (g i)) v = Some v' /\
    length v' = n /\
    forall k, (0 <= k < Z.of_nat n)%Z -> vec_get v' k = Some (g k).
Proof.
  intros L.
  destruct (@for_from_ind _
              (fun i v' => length v' = n /\
                           forall k, (0 <= k < i)%Z -> vec_get v' k = Some (g k))
              (fun i v => vec_set v i (g i)) n 0%Z v) as (v' & E & L' & H').
  - split; [exact L|]. intros k Hk. lia.
  - intros j s Hj [Ls Hs].
    exists (upd (Z.to_nat j) (g j) s). split.
    + apply vec_set_some. unfold size. lia.
    + split; [rewrite upd_length; exact Ls|].
      intros k Hk. rewrite vec_get_upd by (unfold size; lia).
      destruct (k =? j)%Z eqn:E.
      * apply Z.eqb_eq in E. subst k. reflexivity.
      * apply Z.eqb_neq in E. apply Hs. lia.
  - exists v'. split; [exact E|]. split; [exact L'|].
    intros k Hk. apply H'. lia.
Qed.

(** [for i: v[i] = f (v[i])] maps a vector of the right length. *)
Lemma map_loop {A} (f : A -> A) (n : nat) (v : list A) :
  length v = n ->
  exists v',
    for_loop n (fun i v => a <- vec_get v i ;; vec_set v i (f a)) v = Some v' /\
    length v' = n /\
    forall k a, vec_get v k = Some a -> vec_get v' k = Some (f a).
Proof.
  intros L.
  destruct (@for_from_ind _
              (fun i v' => length v' = n /\
                           forall k, vec_get v' k =
                                     if (k <? i)%Z
                                     then option_map f (vec_get v k)
                                     else vec_get v k)
              (fun i v => a <- vec_get v i ;; vec_set v i (f a)) n 0%Z v)
    as (v' & E & L' & H').
  - split; [exact L|]. intros k.
    destruct (k <? 0)%Z eqn:E; [|reflexivity].
    apply Z.ltb_lt in E. unfold vec_get.
    replace (0 <=? k)%Z with false by (symmetry; apply Z.leb_gt; lia).
    reflexivity.
  - intros j s Hj [Ls Hs].
    destruct (@vec_get_some _ s j) as (a & Ea & _); [unfold size; lia|].
    exists (upd (Z.to_nat j) (f a) s). split.
    + rewrite Ea. cbn [bind]. apply vec_set_some. unfold size. lia.
    + split; [rewrite upd_length; exact Ls|].
      intros k. rewrite vec_get_upd by (unfold size; lia).
      pose proof (Hs j) as Hj'. rewrite Z.ltb_irrefl in Hj'.
      destruct (k =? j)%Z eqn:E.
      * apply Z.eqb_eq in E. subst k.
        replace (j <? j + 1)%Z with true by (symmetry; apply Z.ltb_lt; lia).
        rewrite <- Hj', Ea. reflexivity.
      * apply Z.eqb_neq in E. rewrite Hs.
        destruct (k <? j)%Z eqn:E1, (k <? j + 1)%Z eqn:E2; try reflexivity;
          try (apply Z.ltb_lt in E1); try (apply Z.ltb_ge in E1);
          try (apply Z.ltb_lt in E2); try (apply Z.ltb_ge in E2); lia.
  - exists v'. split; [exact E|]. split; [exact L'|].
    intros k a Ea. rewrite H'.
    assert (0 <= k < Z.of_nat n)%Z.
    { unfold vec_get in Ea. destruct (0 <=? k)%Z eqn:E0; [|discriminate].
      apply Z.leb_le in E0. split; [exact E0|].
      assert (Z.to_nat k < length v)%nat
        by (apply nth_error_Some; rewrite Ea; discriminate).
      lia. }
    replace (k <? 0 + Z.of_nat n)%Z with true by (symmetry; apply Z.ltb_lt; lia).
    rewrite Ea. reflexivity.
Qed.

Section Reset.
Context {F D : Type} {AF : Arith F} {AD : Arith D} {CV : Conv F D}
        {LM : Libm F} {J : JuceDSP F D}.

Lemma modulation_reset_spec (m : @ModulationEngine.t F D) :
  modulation_shape m ->
  exists m',
    ModulationEngine.reset m = Some m' /\
    modulation_shape m' /\
    (forall k, (0 <= k < 6)%Z ->
       vec_get (ModulationEngine.lfoPhases m') k =
         Some (f_of_int k * f_lit 37 100)%fl) /\
    (forall k, (0 <= k < 8)%Z ->
       vec_get (ModulationEngine.driftValues m') k = Some fzero /\
       vec_get (ModulationEngine.driftTargets m') k = Some fzero /\
       vec_get (ModulationEngine.smoothedOutputs m') k = Some fzero) /\
    ModulationEngine.lfoFrequencies m' = ModulationEngine.lfoFrequencies m /\
    ModulationEngine.chaosAmount m' = ModulationEngine.chaosAmount m /\
    ModulationEngine.maxDepthSamples m' = ModulationEngine.maxDepthSamples m /\
    ModulationEngine.sampleRate m' = ModulationEngine.sampleRate m /\
    ModulationEngine.driftCounter m' = ModulationEngine.driftCounter m.
Proof.
  intros (L1 & L2 & L3 & L4 & L5). unfold ModulationEngine.reset.
  destruct (@set_loop _ (fun i => (f_of_int i * f_lit 37 100)%fl) 6
              (ModulationEngine.lfoPhases m) L1) as (ps & Eps & Lps & Hps).
  rewrite Eps. cbn [bind].
  destruct (@for_from_ind _
              (fun i (st : list F * list F * list F) =>
                 let '(vs, ts, outs) := st in
                 length vs = 8%nat /\ length ts = 8%nat /\
                 length outs = 8%nat /\
                 forall k, (0 <= k < i)%Z ->
                   vec_get vs k = Some fzero /\ vec_get ts k = Some fzero /\
                   vec_get outs k = Some fzero)
              (fun i '(vs, ts, outs) =>
                 vs' <- vec_set vs i fzero ;;
                 ts' <- vec_set ts i fzero ;;
                 outs' <- vec_set outs i fzero ;;
                 Some (vs', ts', outs'))
              8 0%Z
              (ModulationEngine.driftValues m, ModulationEngine.driftTargets m,
               ModulationEngine.smoothedOutputs m))
    as ([[vs ts] outs] & E & Lv & Lt & Lo & Hz).
  - repeat split; try assumption; lia.
  - intros j [[vs ts] outs] Hj (Lv & Lt & Lo & Hz).
    exists (upd (Z.to_nat j) fzero vs, upd (Z.to_nat j) fzero ts,
            upd (Z.to_nat j) fzero outs).
    rewrite !vec_set_some by (unfold size; lia). cbn [bind].
    split; [reflexivity|]. rewrite !upd_length.
    repeat split; try assumption;
      rewrite vec_get_upd by (unfold size; lia);
      (destruct (k =? j)%Z eqn:Ek;
       [reflexivity|apply Z.eqb_neq in Ek; apply Hz; lia]).
  - unfold for_loop. rewrite E. cbn [bind]. eexists. split; [reflexivity|].
    cbn. repeat split; try assumption; try (apply Hps; assumption);
      apply Hz; lia.
Qed.

Lemma diffusion_reset_spec (d : @DiffusionNetwork.t F D J) :
  grid_shape 2 8 (DiffusionNetwork.allpassFilters d) ->
  exists d',
    DiffusionNetwork.reset d = Some d' /\
    grid_shape 2 8 (DiffusionNetwork.allpassFilters d') /\
    (forall ch i, (0 <= ch < 2)%Z -> (0 <= i < 8)%Z ->
       exists a, grid_get (DiffusionNetwork.allpassFilters d) ch i = Some a /\
                 grid_get (DiffusionNetwork.allpassFilters d') ch i =
                   Some (AllpassFilter.reset a)) /\
    DiffusionNetwork.lowMidFilter d' =
      Duplicator.reset (DiffusionNetwork.lowMidFilter d) /\
    DiffusionNetwork.thrustAmount d' = DiffusionNetwork.thrustAmount d /\
    DiffusionNetwork.sampleRate d' = DiffusionNetwork.sampleRate d.
Proof.
  intros Hs. unfold DiffusionNetwork.reset.
  destruct (@grid_loops _ 2 8 (fun _ _ => AllpassFilter.reset)
              (fun ch i fs => grid_update fs ch i AllpassFilter.reset)
              (DiffusionNetwork.allpassFilters d) Hs) as (fs & E & Hfs & Hc).
  - reflexivity.
  - rewrite E. cbn [bind]. eexists. split; [reflexivity|]. cbn. auto.
Qed.
End Reset.

Section ReverbReset.
Context {F D : Type} {AF : Arith F} {AD : Arith D} {CV : Conv F D}
        {LM : Libm F} {J : JuceDSP F D}.

Lemma reverb_reset_loops (pdb : list (list F))
      (cs : list (list (@CombFilter.t F D))) :
  length pdb = 2%nat -> grid_shape 2 8 cs ->
  exists pdb' cs',
    for_loop 2 (fun ch '(pdb, cs) =>
        b <- vec_get pdb ch ;;
        pdb' <- vec_set pdb ch (fill b fzero) ;;
        cs' <- for_loop 8 (fun i cs => grid_update cs ch i CombFilter.reset)
                 cs ;;
        Some (pdb', cs'))
      (pdb, cs) = Some (pdb', cs') /\
    length pdb' = 2%nat /\
    (forall ch b, vec_get pdb ch = Some b ->
                  vec_get pdb' ch = Some (fill b fzero)) /\
    grid_shape 2 8 cs' /\
    (forall ch i, (0 <= ch < 2)%Z -> (0 <= i < 8)%Z ->
       exists c, grid_get cs ch i = Some c /\
                 grid_get cs' ch i = Some (CombFilter.reset c)).
Proof.
  intros Lp Hcs. unfold for_loop at 1.
  rewrite (@for_from_ext _ _
             (fun j '(a, b) =>
                a' <- (x <- vec_get a j ;; vec_set a j (fill x fzero)) ;;
                b' <- for_loop 8
                        (fun i cs => grid_update cs j i CombFilter.reset) b ;;
                Some (a', b'))).
  2:{ intros j [a b] _. destruct (vec_get a j); [|reflexivity]. cbn [bind].
      destruct (vec_set a j _); reflexivity. }
  rewrite (@for_from_pair _ _
             (fun j a => x <- vec_get a j ;; vec_set a j (fill x fzero))
             (fun j b => for_loop 8
                           (fun i cs => grid_update cs j i CombFilter.reset) b)).
  destruct (@map_loop _ (fun b : list F => fill b fzero) 2 pdb Lp)
    as (pdb' & E1 & L1 & H1).
  unfold for_loop in E1 at 1. rewrite E1. cbn [bind].
  destruct (@grid_loops _ 2 8 (fun _ _ => CombFilter.reset)
              (fun ch i g => grid_update g ch i CombFilter.reset) cs Hcs)
    as (cs' & E2 & Hs2 & Hc2); [reflexivity|].
  unfold for_loop in E2 at 1. rewrite E2. cbn [bind].
  exists pdb', cs'. auto.
Qed.

(** C5, amended.  [reset] keeps every size and parameter and clears the
    signal memory: each pre-delay, comb and allpass buffer is filled with
    zeros at its length, the write indices and the comb filter states are
    zero, the registers of the three IIR filters are cleared, and the
    drift values, drift targets and smoothed outputs of the modulation
    engine are zero.  The LFO phases are not zeroed: oscillator [k]
    restarts at [k * 0.37].  Kept are the delay, feedback, damping,
    maximal delay and sample rate of every unit, the coefficients of the
    three IIR filters, the decay time, the cut-off frequencies, the
    width, the pre-delay, the sample rate and the block size of the
    reverb, the thrust of the diffusion network, and the chaos amount,
    depth, LFO frequencies, sample rate and drift counter of the
    modulation engine. *)
Theorem reset_clears_signal_memory (r : @AlgorithmicReverb.t F D J) :
  reverb_shape r ->
  exists r',
    AlgorithmicReverb.reset r = Some r' /\
    reverb_shape r' /\
    AlgorithmicReverb.preDelayWriteIndex r' = 0%Z /\
    (forall ch b, vec_get (AlgorithmicReverb.preDelayBuffer r) ch = Some b ->
       vec_get (AlgorithmicReverb.preDelayBuffer r') ch =
         Some (repeat fzero (length b))) /\
    (forall ch i, (0 <= ch < 2)%Z -> (0 <= i < 8)%Z ->
       exists c c',
         grid_get (AlgorithmicReverb.combFilters r) ch i = Some c /\
         grid_get (AlgorithmicReverb.combFilters r') ch i = Some c' /\
         CombFilter.buffer c' = repeat fzero (length (CombFilter.buffer c)) /\
         CombFilter.writeIndex c' = 0%Z /\
         CombFilter.filterState c' = fzero /\
         CombFilter.currentDelay c' = CombFilter.currentDelay c /\
         CombFilter.feedback c' = CombFilter.feedback c /\
         CombFilter.damping c' = CombFilter.damping c /\
         CombFilter.maxDelay c' = CombFilter.maxDelay c /\
         CombFilter.sampleRate c' = CombFilter.sampleRate c) /\
    (forall ch i, (0 <= ch < 2)%Z -> (0 <= i < 8)%Z ->
       exists a a',
         grid_get (DiffusionNetwork.allpassFilters
                     (AlgorithmicReverb.diffusionNetwork r)) ch i = Some a /\
         grid_get (DiffusionNetwork.allpassFilters
                     (AlgorithmicReverb.diffusionNetwork r')) ch i = Some a' /\
         AllpassFilter.buffer a' =
           repeat fzero (length (AllpassFilter.buffer a)) /\
         AllpassFilter.writeIndex a' = 0%Z /\
         AllpassFilter.currentDelay a' = AllpassFilter.currentDelay a /\
         AllpassFilter.feedback a' = AllpassFilter.feedback a /\
         AllpassFilter.maxDelay a' = AllpassFilter.maxDelay a /\
         AllpassFilter.sampleRate a' = AllpassFilter.sampleRate a) /\
    Duplicator.processors (AlgorithmicReverb.highCutFilter r') =
      repeat iir_cleared
        (length (Duplicator.processors (AlgorithmicReverb.highCutFilter r))) /\
    Duplicator.processors (AlgorithmicReverb.lowCutFilter r') =
      repeat iir_cleared
        (length (Duplicator.processors (AlgorithmicReverb.lowCutFilter r))) /\
    Duplicator.processors
      (DiffusionNetwork.lowMidFilter (AlgorithmicReverb.diffusionNetwork r')) =
      repeat iir_cleared
        (length (Duplicator.processors
                   (DiffusionNetwork.lowMidFilter
                      (AlgorithmicReverb.diffusionNetwork r)))) /\
    (forall k, (0 <= k < 8)%Z ->
       vec_get (ModulationEngine.driftValues
                  (AlgorithmicReverb.modulationEngine r')) k = Some fzero /\
       vec_get (ModulationEngine.driftTargets
                  (AlgorithmicReverb.modulationEngine r')) k = Some fzero /\
       vec_get (ModulationEngine.smoothedOutputs
                  (AlgorithmicReverb.modulationEngine r')) k = Some fzero) /\
    (forall k, (0 <= k < 6)%Z ->
       vec_get (ModulationEngine.lfoPhases
                  (AlgorithmicReverb.modulationEngine r')) k =
         Some (f_of_int k * f_lit 37 100)%fl) /\
    AlgorithmicReverb.decayTime r' = AlgorithmicReverb.decayTime r /\
    AlgorithmicReverb.width r' = AlgorithmicReverb.width r /\
    AlgorithmicReverb.preDelaySamples r' = AlgorithmicReverb.preDelaySamples r /\
    AlgorithmicReverb.highCutFreq r' = AlgorithmicReverb.highCutFreq r /\
    AlgorithmicReverb.lowCutFreq r' = AlgorithmicReverb.lowCutFreq r /\
    AlgorithmicReverb.sampleRate r' = AlgorithmicReverb.sampleRate r /\
    AlgorithmicReverb.blockSize r' = AlgorithmicReverb.blockSize r /\
    Duplicator.state (AlgorithmicReverb.highCutFilter r') =
      Duplicator.state (AlgorithmicReverb.highCutFilter r) /\
    Duplicator.state (AlgorithmicReverb.lowCutFilter r') =
      Duplicator.state (AlgorithmicReverb.lowCutFilter r) /\
    Duplicator.state
      (DiffusionNetwork.lowMidFilter (AlgorithmicReverb.diffusionNetwork r')) =
      Duplicator.state
        (DiffusionNetwork.lowMidFilter (AlgorithmicReverb.diffusionNetwork r)) /\
    DiffusionNetwork.thrustAmount (AlgorithmicReverb.diffusionNetwork r') =
      DiffusionNetwork.thrustAmount (AlgorithmicReverb.diffusionNetwork r) /\
    DiffusionNetwork.sampleRate (AlgorithmicReverb.diffusionNetwork r') =
      DiffusionNetwork.sampleRate (AlgorithmicReverb.diffusionNetwork r) /\
    ModulationEngine.chaosAmount (AlgorithmicReverb.modulationEngine r') =
      ModulationEngine.chaosAmount (AlgorithmicReverb.modulationEngine r) /\
    ModulationEngine.maxDepthSamples (AlgorithmicReverb.modulationEngine r') =
      ModulationEngine.maxDepthSamples (AlgorithmicReverb.modulationEngine r) /\
    ModulationEngine.lfoFrequencies (AlgorithmicReverb.modulationEngine r') =
      ModulationEngine.lfoFrequencies (AlgorithmicReverb.modulationEngine r) /\
    ModulationEngine.sampleRate (AlgorithmicReverb.modulationEngine r') =
      ModulationEngine.sampleRate (AlgorithmicReverb.modulationEngine r) /\
    ModulationEngine.driftCounter (AlgorithmicReverb.modulationEngine r') =
      ModulationEngine.driftCounter (AlgorithmicReverb.modulationEngine r).
Proof.
  intros (Lp & Hcs & Hfs & Hm). unfold AlgorithmicReverb.reset.
  destruct (reverb_reset_loops Lp Hcs) as (pdb & cs & E & Lp' & Hp & Hcs' & Hc).
  rewrite E. cbn [bind].
  destruct (diffusion_reset_spec Hfs)
    as (dn & Ed & Hfs' & Ha & Elm & Etr & Edsr).
  rewrite Ed. cbn [bind].
  destruct (modulation_reset_spec Hm)
    as (me & Em & Hm' & Hph & Hdr & Mfq & Mch & Mdp & Msr & Mdc).
  rewrite Em. cbn [bind].
  eexists. split; [reflexivity|].
  cbn [AlgorithmicReverb.preDelayWriteIndex AlgorithmicReverb.preDelayBuffer
       AlgorithmicReverb.combFilters AlgorithmicReverb.diffusionNetwork
       AlgorithmicReverb.highCutFilter AlgorithmicReverb.lowCutFilter
       AlgorithmicReverb.modulationEngine AlgorithmicReverb.decayTime
       AlgorithmicReverb.width AlgorithmicReverb.preDelaySamples
       AlgorithmicReverb.highCutFreq AlgorithmicReverb.lowCutFreq
       AlgorithmicReverb.sampleRate AlgorithmicReverb.blockSize].
  split; [exact (conj Lp' (conj Hcs' (conj Hfs' Hm')))|].
  split; [reflexivity|].
  split; [exact Hp|].
  split.
  { intros ch i Hch Hi. destruct (Hc ch i Hch Hi) as (c & Ec & Ec').
    exists c, (CombFilter.reset c). repeat split; assumption. }
  split.
  { intros ch i Hch Hi. destruct (Ha ch i Hch Hi) as (a & Ea & Ea').
    exists a, (AllpassFilter.reset a). repeat split; assumption. }
  rewrite Elm, Etr, Edsr, Mfq, Mch, Mdp, Msr, Mdc.
  repeat split; try reflexivity; try (apply Hdr; assumption).
  apply Hph.
Qed.
End ReverbReset.

Lemma reset_keeps_envelope {F D : Type} {AF : Arith F} {AD : Arith D}
      {CV : Conv F D} {LM : Libm F} {J : JuceDSP F D}
      (r r' : @AlgorithmicReverb.t F D J) :
  AlgorithmicReverb.reset r = Some r' ->
  AlgorithmicReverb.getDecayEnvelope r' = AlgorithmicReverb.getDecayEnvelope r.
Proof.
  unfold AlgorithmicReverb.reset. intros H. bind_inv H. reflexivity.
Qed.

Lemma init_reverb_shape {F D : Type} {AF : Arith F} {AD : Arith D}
      {CV : Conv F D} {LM : Libm F} {J : JuceDSP F D} :
  reverb_shape (@AlgorithmicReverb.init F D AF AD J).
Proof.
  split; [reflexivity|]. split; [|split].
  - split; [reflexivity|]. intros row [<-|[<-|[]]]; reflexivity.
  - split; [reflexivity|]. intros row [<-|[<-|[]]]; reflexivity.
  - repeat split.
Qed.

(** C5 as stated fails: after preparing at 8 kHz, processing a block that
    holds an impulse and calling [reset], [getDecayEnvelope] is positive;
    and [reset] puts the phase of oscillator 1 at 0.37, not at zero. *)
Lemma reset_leaves_envelope_and_phase :
  match envelope_after_reset with
  | Some e => (fzero <? e)%fl
  | None => false
  end = true /\
  phase1_after_reset = Some (f_of_int 1 * f_lit 37 100)%fl /\
  (fzero <? (f_of_int 1 * f_lit 37 100 : binary32))%fl = true.
Proof.
  split; [vm_compute; reflexivity|].
  split; vm_compute; reflexivity.
Qed.

(** ** Stereo width *)

Section WidthStep.
Context {F D : Type} {AF : Arith F} {AD : Arith D} {CV : Conv F D}
        {LM : Libm F} {J : JuceDSP F D}.

Lemma getSample_left (n : nat) (A B : list F) (i : Z) :
  getSample (mkBuf n [A; B]) 0 i = vec_get A i.
Proof. reflexivity. Qed.

Lemma getSample_right (n : nat) (A B : list F) (i : Z) :
  getSample (mkBuf n [A; B]) 1 i = vec_get B i.
Proof. reflexivity. Qed.

Lemma setSample_left (n : nat) (A B : list F) (i : Z) (x : F) :
  (0 <= i < size A)%Z ->
  setSample (mkBuf n [A; B]) 0 i x = Some (mkBuf n [upd (Z.to_nat i) x A; B]).
Proof.
  intros H. unfold setSample. cbn [chans numSamples].
  change (vec_get [A; B] 0) with (Some A). cbn [bind].
  rewrite (vec_set_some x H). reflexivity.
Qed.

Lemma setSample_right (n : nat) (A B : list F) (i : Z) (x : F) :
  (0 <= i < size B)%Z ->
  setSample (mkBuf n [A; B]) 1 i x = Some (mkBuf n [A; upd (Z.to_nat i) x B]).
Proof.
  intros H. unfold setSample. cbn [chans numSamples].
  change (vec_get [A; B] 1) with (Some B). cbn [bind].
  rewrite (vec_set_some x H). reflexivity.
Qed.

(** Step 5 on a stereo block: every sample pair is replaced by its
    widened pair when [|width - 1| > 0.01]; otherwise nothing is done. *)
Lemma apply_width_block (w : F) (n : nat) (L R : list F) :
  length L = n -> length R = n ->
  exists L' R',
    AlgorithmicReverb.apply_width w n (mkBuf n [L; R]) =
      Some (mkBuf n [L'; R']) /\
    length L' = n /\ length R' = n /\
    forall k l r, vec_get L k = Some l -> vec_get R k = Some r ->
      vec_get L' k =
        Some (if (f_abs (w - fone)%fl >? f_lit 1 100)%fl
              then fst (AlgorithmicReverb.widen w l r) else l) /\
      vec_get R' k =
        Some (if (f_abs (w - fone)%fl >? f_lit 1 100)%fl
              then snd (AlgorithmicReverb.widen w l r) else r).
Proof.
  intros HL HR. unfold AlgorithmicReverb.apply_width.
  destruct (f_ltb (f_lit 1 100) (f_abs (w - fone)%fl)).
  2:{ exists L, R. repeat split; auto. }
  destruct (@for_from_ind _
              (fun i wet =>
                 exists A B, wet = mkBuf n [A; B] /\
                   length A = n /\ length B = n /\
                   forall k l r, vec_get L k = Some l -> vec_get R k = Some r ->
                     vec_get A k =
                       Some (if (k <? i)%Z
                             then fst (AlgorithmicReverb.widen w l r) else l) /\
                     vec_get B k =
                       Some (if (k <? i)%Z
                             then snd (AlgorithmicReverb.widen w l r) else r))
              (fun sample wet =>
                 left <- getSample wet 0 sample ;;
                 right <- getSample wet 1 sample ;;
                 let (l', r') := AlgorithmicReverb.widen w left right in
                 wet1 <- setSample wet 0 sample l' ;;
                 setSample wet1 1 sample r')
              n 0%Z (mkBuf n [L; R])) as (out & E & A & B & -> & LA & LB & H).
  - exists L, R. repeat split; auto;
      (replace (k <? 0)%Z with false; [assumption|]);
      symmetry; apply Z.ltb_ge; unfold vec_get in *;
      destruct (0 <=? k)%Z eqn:E0; try discriminate; apply Z.leb_le; exact E0.
  - intros j wet Hj (A & B & -> & LA & LB & H).
    destruct (@vec_get_some _ L j) as (l & El & _); [unfold size; lia|].
    destruct (@vec_get_some _ R j) as (r & Er & _); [unfold size; lia|].
    destruct (H j l r El Er) as [EA EB]. rewrite Z.ltb_irrefl in EA, EB.
    rewrite getSample_left, getSample_right, EA, EB. cbn [bind].
    destruct (AlgorithmicReverb.widen w l r) as [l' r'] eqn:Ew.
    rewrite setSample_left by (unfold size; lia). cbn [bind].
    rewrite setSample_right by (unfold size; lia).
    eexists. split; [reflexivity|].
    exists (upd (Z.to_nat j) l' A), (upd (Z.to_nat j) r' B).
    split; [reflexivity|]. rewrite !upd_length.
    split; [exact LA|]. split; [exact LB|].
    intros k l0 r0 El0 Er0.
    rewrite !vec_get_upd by (unfold size; lia).
    destruct (k =? j)%Z eqn:Ek.
    + apply Z.eqb_eq in Ek. subst k.
      replace (j <? j + 1)%Z with true by (symmetry; apply Z.ltb_lt; lia).
      rewrite El in El0. rewrite Er in Er0.
      inversion El0; inversion Er0; subst. rewrite Ew. auto.
    + apply Z.eqb_neq in Ek. destruct (H k l0 r0 El0 Er0) as [HA HB].
      rewrite HA, HB.
      destruct (k <? j)%Z eqn:E1, (k <? j + 1)%Z eqn:E2; auto;
        try (apply Z.ltb_lt in E1); try (apply Z.ltb_ge in E1);
        try (apply Z.ltb_lt in E2); try (apply Z.ltb_ge in E2); lia.
  - unfold for_loop. rewrite E. exists A, B.
    split; [reflexivity|]. split; [exact LA|]. split; [exact LB|].
    intros k l r El Er. destruct (H k l r El Er) as [HA HB].
    assert (0 <= k < Z.of_nat n)%Z.
    { unfold vec_get in El. destruct (0 <=? k)%Z eqn:E0; [|discriminate].
      apply Z.leb_le in E0. split; [exact E0|].
      assert (Z.to_nat k < length L)%nat
        by (apply nth_error_Some; rewrite El; discriminate).
      lia. }
    replace (k <? 0 + Z.of_nat n)%Z with true in HA, HB
      by (symmetry; apply Z.ltb_lt; lia).
    auto.
Qed.
End WidthStep.

Lemma Q_widen_formula (w L R : Q) :
  fst (AlgorithmicReverb.widen w L R) == (L + R) / 2 + (L - R) / 2 * w /\
  snd (AlgorithmicReverb.widen w L R) == (L + R) / 2 - (L - R) / 2 * w.
Proof.
  unfold AlgorithmicReverb.widen; cbn [fst snd].
  change (f_lit 5 10 : Q) with (5 # 10).
  change (@f_add Q _) with Qplus. change (@f_sub Q _) with Qminus.
  change (@f_mul Q _) with Qmult.
  split; field.
Qed.

(** C6 as stated fails: with width 1.005 the step is skipped, so the
    pair (1, 0) stays (1, 0), while [mid + side] is not 1. *)
Lemma width_near_one_is_bypassed :
  AlgorithmicReverb.apply_width
    (AlgorithmicReverb.width
       (AlgorithmicReverb.setWidth
          (@AlgorithmicReverb.init binary32 binary64 _ _ juce32)
          (f_lit 1005 1000)))
    1 (mkBuf 1 [[fone]; [fzero]]) = Some (mkBuf 1 [[fone]; [fzero]]) /\
  fst (AlgorithmicReverb.widen
         (AlgorithmicReverb.width
            (AlgorithmicReverb.setWidth
               (@AlgorithmicReverb.init binary32 binary64 _ _ juce32)
               (f_lit 1005 1000)))
         fone fzero) <> fone /\
  fst (AlgorithmicReverb.widen (1005 # 1000 : Q) 1 0) == 1 + (5 # 2000).
Proof.
  split; [vm_compute; reflexivity|].
  split; [vm_compute; intros H; discriminate H|].
  vm_compute; reflexivity.
Qed.

(** C6, amended.  Step 5 replaces each pair (L, R) of the wet block by
    (mid + side, mid - side) with mid = (L + R) / 2 and
    side = (L - R) / 2 * width only when |width - 1| > 0.01; for a width
    within 0.01 of 1 the step is skipped and the block is left as it is.
    In exact arithmetic: width 0 makes both channels mid, width 1 is the
    identity (and is skipped), width 2 doubles the side signal. *)
Theorem width_step_outside_bypass :
  (forall (F D : Type) (AF : Arith F) (AD : Arith D) (J : JuceDSP F D)
          (r : @AlgorithmicReverb.t F D J) (w : F) (n : nat) (L R : list F),
      length L = n -> length R = n ->
      AlgorithmicReverb.width (AlgorithmicReverb.setWidth r w) =
        jlimit fzero (f_lit 2 1) w /\
      exists L' R',
        AlgorithmicReverb.apply_width (jlimit fzero (f_lit 2 1) w) n
          (mkBuf n [L; R]) = Some (mkBuf n [L'; R']) /\
        length L' = n /\ length R' = n /\
        forall k l r, vec_get L k = Some l -> vec_get R k = Some r ->
          vec_get L' k =
            Some (if (f_abs (jlimit fzero (f_lit 2 1) w - fone)%fl
                      >? f_lit 1 100)%fl
                  then fst (AlgorithmicReverb.widen
                              (jlimit fzero (f_lit 2 1) w) l r)
                  else l) /\
          vec_get R' k =
            Some (if (f_abs (jlimit fzero (f_lit 2 1) w - fone)%fl
                      >? f_lit 1 100)%fl
                  then snd (AlgorithmicReverb.widen
                              (jlimit fzero (f_lit 2 1) w) l r)
                  else r)) /\
  (forall w L R : Q,
      fst (AlgorithmicReverb.widen w L R) == (L + R) / 2 + (L - R) / 2 * w /\
      snd (AlgorithmicReverb.widen w L R) == (L + R) / 2 - (L - R) / 2 * w) /\
  (forall L R : Q,
      fst (AlgorithmicReverb.widen 0 L R) == (L + R) / 2 /\
      snd (AlgorithmicReverb.widen 0 L R) == (L + R) / 2) /\
  (forall L R : Q,
      fst (AlgorithmicReverb.widen 1 L R) == L /\
      snd (AlgorithmicReverb.widen 1 L R) == R) /\
  (forall L R : Q,
      (fst (AlgorithmicReverb.widen 2 L R)
       - snd (AlgorithmicReverb.widen 2 L R)) / 2 == 2 * ((L - R) / 2)) /\
  (forall w : Q,
      (f_abs (w - fone)%fl >? f_lit 1 100)%fl = true <->
      (w < 99 # 100 \/ 101 # 100 < w)) /\
  ((f_abs ((fzero : binary32) - fone)%fl >? f_lit 1 100)%fl = true /\
   (f_abs ((fone : binary32) - fone)%fl >? f_lit 1 100)%fl = false /\
   (f_abs ((f_lit 2 1 : binary32) - fone)%fl >? f_lit 1 100)%fl = true).
Proof.
  split; [|split; [|split; [|split; [|split; [|split]]]]].
  - intros F D AF AD J r w n L R HL HR. split; [reflexivity|].
    apply apply_width_block; assumption.
  - apply Q_widen_formula.
  - intros L R. destruct (Q_widen_formula 0 L R) as [H1 H2].
    rewrite H1, H2. split; field.
  - intros L R. destruct (Q_widen_formula 1 L R) as [H1 H2].
    rewrite H1, H2. split; field.
  - intros L R. destruct (Q_widen_formula 2 L R) as [H1 H2].
    rewrite H1, H2. field.
  - intros w. rewrite Q_ltb_true.
    change (f_abs (w - fone)%fl) with (Qabs (w - 1)).
    change (f_lit 1 100 : Q) with (1 # 100).
    split.
    + intros H. destruct (Qlt_le_dec w (99 # 100)) as [H1|H1]; [auto|].
      right. destruct (Qlt_le_dec (101 # 100) w) as [H2|H2]; [auto|].
      exfalso. assert (Qabs (w - 1) <= 1 # 100) by (apply Qabs_Qle_condition; lra).
      lra.
    + intros H. apply Qnot_le_lt. intros Hc.
      apply Qabs_Qle_condition in Hc. lra.
  - vm_compute. auto.
Qed.

Lemma width_step_outside_bypass_witness :
  exists L' R',
    AlgorithmicReverb.apply_width (jlimit fzero (f_lit 2 1) (0 : Q)) 1
      (mkBuf 1 [[1]; [0]]) = Some (mkBuf 1 [L'; R']) /\
    length L' = 1%nat /\ length R' = 1%nat.
Proof.
  destruct (proj1 width_step_outside_bypass Q Q _ _ juceQ
              AlgorithmicReverb.init 0 1%nat [1] [0] eq_refl eq_refl)
    as (_ & L' & R' & E & H1 & H2 & _).
  exists L', R'. auto.
Defined.


(** ** Fairing separation: how long the effect stays active *)

Section FairingPhase.
Context {F D : Type} {AF : Arith F} {AD : Arith D} {CV : Conv F D}.


Lemma advance_phase (inc : F) (s : @FairingSeparation.t F D) :
  FairingSeparation.phase_of (FairingSeparation.advance inc s) =
  FairingSeparation.phase_step inc (FairingSeparation.phase_of s).
Proof.
  unfold FairingSeparation.advance, FairingSeparation.phase_of.
  destruct (FairingSeparation.phase_step inc _) as [p a]. reflexivity.
Qed.

Lemma advance_increment (inc : F) (s : @FairingSeparation.t F D) :
  FairingSeparation.phaseIncrement (FairingSeparation.advance inc s) =
  FairingSeparation.phaseIncrement s.
Proof.
  unfold FairingSeparation.advance.
  destruct (FairingSeparation.phase_step inc _) as [p a]. reflexivity.
Qed.

Lemma iter_advance (inc : F) (n : nat) (s : @FairingSeparation.t F D) :
  FairingSeparation.phase_of (Nat.iter n (FairingSeparation.advance inc) s) =
    Nat.iter n (FairingSeparation.phase_step inc) (FairingSeparation.phase_of s) /\
  FairingSeparation.phaseIncrement
    (Nat.iter n (FairingSeparation.advance inc) s) =
    FairingSeparation.phaseIncrement s.
Proof.
  induction n as [|n [IH1 IH2]]; [split; reflexivity|].
  change (Nat.iter (Datatypes.S n) (FairingSeparation.advance inc) s)
    with (FairingSeparation.advance inc
            (Nat.iter n (FairingSeparation.advance inc) s)).
  change (Nat.iter (Datatypes.S n) (FairingSeparation.phase_step inc)
            (FairingSeparation.phase_of s))
    with (FairingSeparation.phase_step inc
            (Nat.iter n (FairingSeparation.phase_step inc) (FairingSeparation.phase_of s))).
  rewrite advance_phase, advance_increment, IH1, IH2.
  split; reflexivity.
Qed.

Lemma phase_step_inactive (inc : F) (n : nat) (p : F) :
  snd (Nat.iter n (FairingSeparation.phase_step inc) (p, false)) = false.
Proof.
  assert (H : Nat.iter n (FairingSeparation.phase_step inc) (p, false)
              = (p, false)).
  { induction n as [|n IH]; [reflexivity|].
    change (Nat.iter (Datatypes.S n) (FairingSeparation.phase_step inc)
              (p, false))
      with (FairingSeparation.phase_step inc
              (Nat.iter n (FairingSeparation.phase_step inc) (p, false))).
    rewrite IH. reflexivity. }
  rewrite H. reflexivity.
Qed.

Lemma iter_shift {A} (f : A -> A) (n : nat) (x : A) :
  Nat.iter (Datatypes.S n) f x = Nat.iter n f (f x).
Proof.
  induction n as [|n IH]; [reflexivity|].
  change (Nat.iter (Datatypes.S (Datatypes.S n)) f x)
    with (f (Nat.iter (Datatypes.S n) f x)).
  rewrite IH. reflexivity.
Qed.

Lemma iter_plus {A} (f : A -> A) (n m : nat) (x : A) :
  Nat.iter (n + m) f x = Nat.iter m f (Nat.iter n f x).
Proof.
  revert x; induction n as [|n IH]; intros x; [reflexivity|].
  change (Datatypes.S n + m)%nat with (Datatypes.S (n + m)).
  rewrite !iter_shift. apply IH.
Qed.

(** [isActive] after any sequence of blocks only depends on how many
    samples were processed. *)
Lemma process_blocks_active (blocks : list nat) :
  forall s : @FairingSeparation.t F D,
    FairingSeparation.getIsActive (FairingSeparation.process_blocks s blocks) =
    snd (Nat.iter (list_sum blocks)
           (FairingSeparation.phase_step (FairingSeparation.phaseIncrement s))
           (FairingSeparation.phase_of s)).
Proof.
  induction blocks as [|b bs IH]; intros s; [reflexivity|].
  cbn [FairingSeparation.process_blocks fold_left list_sum fold_right].
  change (fold_left FairingSeparation.process bs (FairingSeparation.process s b))
    with (FairingSeparation.process_blocks (FairingSeparation.process s b) bs).
  change (fold_right Nat.add 0%nat bs) with (list_sum bs).
  rewrite IH, iter_plus.
  unfold FairingSeparation.process.
  destruct (negb (FairingSeparation.isActive s) && _) eqn:E.
  - apply andb_true_iff in E. destruct E as [E _].
    apply negb_true_iff in E.
    unfold FairingSeparation.phase_of. rewrite E.
    destruct (Nat.iter b _ (FairingSeparation.currentPhase s, false))
      as [p a] eqn:Hb.
    pose proof (phase_step_inactive (FairingSeparation.phaseIncrement s) b
                  (FairingSeparation.currentPhase s)) as Ha.
    rewrite Hb in Ha. simpl in Ha. subst a.
    rewrite !phase_step_inactive. reflexivity.
  - destruct (iter_advance (FairingSeparation.phaseIncrement s) b s)
      as [H1 H2].
    rewrite H1, H2. reflexivity.
Qed.

Lemma stays_active_spec (inc : F) (n : nat) :
  forall st,
    FairingSeparation.stays_active n inc st = true ->
    forall k, (k < n)%nat ->
      snd (Nat.iter k (FairingSeparation.phase_step inc) st) = true.
Proof.
  induction n as [|n IH]; intros st H k Hk; [lia|].
  cbn [FairingSeparation.stays_active] in H.
  apply andb_true_iff in H. destruct H as [H0 H1].
  destruct k as [|k]; [exact H0|].
  rewrite iter_shift. apply IH; [exact H1|lia].
Qed.

(** Active before each of the first [n] updates and not after them:
    active after [k] updates exactly when [k < n]. *)
Lemma active_until (inc : F) (n : nat) (st : F * bool) :
  FairingSeparation.stays_active n inc st = true ->
  snd (Nat.iter n (FairingSeparation.phase_step inc) st) = false ->
  forall k, snd (Nat.iter k (FairingSeparation.phase_step inc) st) =
            (k <? n)%nat.
Proof.
  intros H1 H2 k. destruct (k <? n)%nat eqn:E.
  - apply Nat.ltb_lt in E. eapply stays_active_spec; eauto.
  - apply Nat.ltb_ge in E.
    replace k with (n + (k - n))%nat by lia. rewrite iter_plus.
    destruct (Nat.iter n (FairingSeparation.phase_step inc) st) as [p a].
    simpl in H2. subst a. apply phase_step_inactive.
Qed.
End FairingPhase.

(** In exact arithmetic an increment of [1 / N] keeps the effect active
    for exactly [N] updates. *)
Lemma Q_phase_exact (N : positive) (inc : Q) :
  inc == 1 / inject_Z (Zpos N) ->
  forall k : nat,
    ((k < Pos.to_nat N)%nat ->
     exists p, Nat.iter k (FairingSeparation.phase_step inc) (0, true)
               = (p, true) /\ p == inject_Z (Z.of_nat k) * inc) /\
    ((Pos.to_nat N <= k)%nat ->
     snd (Nat.iter k (FairingSeparation.phase_step inc) (0, true)) = false).
Proof.
  intros Hinc.
  assert (HN : 0 < inject_Z (Zpos N)) by (unfold Qlt; simpl; lia).
  induction k as [|k [IH1 IH2]].
  - split.
    + intros _. exists 0. split; [reflexivity|]. simpl. ring.
    + intros H. pose proof (Pos2Nat.is_pos N). lia.
  - change (Nat.iter (Datatypes.S k) (FairingSeparation.phase_step inc)
              (0, true))
      with (FairingSeparation.phase_step inc
              (Nat.iter k (FairingSeparation.phase_step inc) (0, true))).
    destruct (Nat.lt_ge_cases k (Pos.to_nat N)) as [Hk|Hk].
    + destruct (IH1 Hk) as (p & E & Hp). rewrite E.
      unfold FairingSeparation.phase_step.
      change (f_add p inc) with (p + inc).
      change (f_leb fone (p + inc))
        with (if Qlt_le_dec (p + inc) 1 then false else true).
      assert (Hp' : p + inc == inject_Z (Z.of_nat (Datatypes.S k)) * inc).
      { rewrite Hp. rewrite Nat2Z.inj_succ. unfold Z.succ.
        rewrite inject_Z_plus. ring. }
      assert (Hv : p + inc ==
                   inject_Z (Z.of_nat (Datatypes.S k)) / inject_Z (Zpos N)).
      { rewrite Hp', Hinc. field. lra. }
      split.
      * intros Hk'. destruct (Qlt_le_dec (p + inc) 1) as [Hlt|Hge].
        -- exists (p + inc). split; [reflexivity|exact Hp'].
        -- exfalso. rewrite Hv in Hge.
           apply (Qmult_le_r _ _ _ HN) in Hge.
           assert (E1 : inject_Z (Z.of_nat (Datatypes.S k)) / inject_Z (Zpos N)
                        * inject_Z (Zpos N)
                        == inject_Z (Z.of_nat (Datatypes.S k)))
             by (field; lra).
           rewrite E1, Qmult_1_l in Hge. rewrite <- Zle_Qle in Hge. lia.
      * intros Hk'. destruct (Qlt_le_dec (p + inc) 1) as [Hlt|Hge];
          [|reflexivity].
        exfalso. rewrite Hv in Hlt.
        apply (Qmult_lt_r _ _ _ HN) in Hlt.
        assert (E1 : inject_Z (Z.of_nat (Datatypes.S k)) / inject_Z (Zpos N)
                     * inject_Z (Zpos N)
                     == inject_Z (Z.of_nat (Datatypes.S k)))
          by (field; lra).
        rewrite E1, Qmult_1_l in Hlt. rewrite <- Zlt_Qlt in Hlt. lia.
    + split; [intros; lia|]. intros _.
      pose proof (IH2 Hk) as H.
      destruct (Nat.iter k _ _) as [p a]. simpl in H. subst a. reflexivity.
Qed.

Lemma Q_phase_count (N : positive) (inc : Q) (k : nat) :
  inc == 1 / inject_Z (Zpos N) ->
  snd (Nat.iter k (FairingSeparation.phase_step inc) (0, true)) =
  (k <? Pos.to_nat N)%nat.
Proof.
  intros Hinc. destruct (Q_phase_exact Hinc k) as [H1 H2].
  destruct (k <? Pos.to_nat N)%nat eqn:E.
  - apply Nat.ltb_lt in E. destruct (H1 E) as (p & Ep & _).
    rewrite Ep. reflexivity.
  - apply Nat.ltb_ge in E. apply H2, E.
Qed.

Lemma Q_trigger_duration (s : @FairingSeparation.t Q Q) (R : positive)
      (blocks : list nat) :
  FairingSeparation.isActive s = false ->
  FairingSeparation.currentBPM s == 120 ->
  FairingSeparation.syncBeats s == 4 ->
  FairingSeparation.sampleRate s == inject_Z (Zpos R) ->
  FairingSeparation.getIsActive
    (FairingSeparation.process_blocks (FairingSeparation.trigger s) blocks) =
  (list_sum blocks <? Pos.to_nat (2 * R))%nat.
Proof.
  intros Ha Hbpm Hsb Hsr. rewrite process_blocks_active.
  unfold FairingSeparation.trigger. rewrite Ha.
  unfold FairingSeparation.phase_of. cbn [FairingSeparation.currentPhase FairingSeparation.isActive].
  apply Q_phase_count.
  unfold FairingSeparation.phaseIncrement, FairingSeparation.durationSamples.
  cbn [FairingSeparation.currentBPM FairingSeparation.syncBeats
       FairingSeparation.sampleRate].
  change (fone / to_float
            (to_double (FairingSeparation.syncBeats s)
             / (FairingSeparation.currentBPM s / f_lit 60 1)
             * FairingSeparation.sampleRate s))%fl
    with (1 / (FairingSeparation.syncBeats s
               / (FairingSeparation.currentBPM s / 60)
               * FairingSeparation.sampleRate s)).
  rewrite Hbpm, Hsb, Hsr.
  change (Zpos (2 * R)) with (2 * Zpos R)%Z. rewrite inject_Z_mult.
  assert (0 < inject_Z (Zpos R)) by (unfold Qlt; simpl; lia).
  change (inject_Z 2) with 2. field. lra.
Qed.

Lemma process_active {F D : Type} {AF : Arith F} {AD : Arith D}
      {CV : Conv F D} (s : @FairingSeparation.t F D) (n : nat) :
  FairingSeparation.getIsActive (FairingSeparation.process s n) =
  snd (Nat.iter n
         (FairingSeparation.phase_step (FairingSeparation.phaseIncrement s))
         (FairingSeparation.phase_of s)).
Proof.
  pose proof (process_blocks_active [n] s) as H.
  cbn [FairingSeparation.process_blocks fold_left list_sum fold_right] in H.
  rewrite Nat.add_0_r in H. exact H.
Qed.

(** C3 as stated fails: at 44.1 kHz, 120 BPM, 4 beats the effect is still
    active after 88201 processed samples, one more than [2 * sampleRate]
    allows in either reading of the claim (and up to 88273). *)
Lemma fairing_still_active_after_two_seconds :
  FairingSeparation.getIsActive
    (FairingSeparation.process (fairing_at 44100) (Z.to_nat 88201)) = true /\
  FairingSeparation.getIsActive
    (FairingSeparation.process (fairing_at 44100) (Z.to_nat 88273)) = true.
Proof.
  rewrite !process_active. split; vm_compute; reflexivity.
Qed.

(** C3, amended.  After [trigger ()] at 120 BPM and 4 beats,
    [getIsActive ()] is true as long as fewer than a threshold of samples
    have been processed since the trigger, in blocks of any sizes, and
    false from then on.  In exact arithmetic the threshold is
    [2 * sampleRate], that is 2.0 s.  The code accumulates the phase in
    binary32, which moves it: to 88274 samples at 44.1 kHz and to 95904
    at 48 kHz. *)
Theorem fairing_active_duration :
  (forall (s : @FairingSeparation.t Q Q) (R : positive) (blocks : list nat),
      FairingSeparation.isActive s = false ->
      FairingSeparation.currentBPM s == 120 ->
      FairingSeparation.syncBeats s == 4 ->
      FairingSeparation.sampleRate s == inject_Z (Zpos R) ->
      FairingSeparation.getIsActive
        (FairingSeparation.process_blocks (FairingSeparation.trigger s) blocks)
      = (list_sum blocks <? Pos.to_nat (2 * R))%nat) /\
  (forall blocks : list nat,
      FairingSeparation.getIsActive
        (FairingSeparation.process_blocks (fairing_at 44100) blocks)
      = (list_sum blocks <? Z.to_nat 88274)%nat) /\
  (forall blocks : list nat,
      FairingSeparation.getIsActive
        (FairingSeparation.process_blocks (fairing_at 48000) blocks)
      = (list_sum blocks <? Z.to_nat 95904)%nat).
Proof.
  split; [exact Q_trigger_duration|]. split.
  - intros blocks. rewrite process_blocks_active.
    apply active_until; vm_compute; reflexivity.
  - intros blocks. rewrite process_blocks_active.
    apply active_until; vm_compute; reflexivity.
Qed.

Lemma fairing_active_duration_witness :
  FairingSeparation.getIsActive
    (FairingSeparation.process_blocks
       (FairingSeparation.trigger
          (FairingSeparation.prepare (@FairingSeparation.init Q Q _ _)
             (inject_Z 8)))
       [5; 6; 7]%nat) = (list_sum [5; 6; 7] <? Pos.to_nat (2 * 8))%nat.
Proof.
  apply (proj1 fairing_active_duration); reflexivity.
Defined.

(** ** Silence after [reset] *)

(** The operations of the interface, read at [Q]. *)
Ltac q_norm :=
  change (@f_add Q Q_arith) with Qplus in *;
  change (@f_sub Q Q_arith) with Qminus in *;
  change (@f_mul Q Q_arith) with Qmult in *;
  change (@f_div Q Q_arith) with Qdiv in *;
  change (@f_opp Q Q_arith) with Qopp in *;
  change (@f_abs Q Q_arith) with Qabs in *;
  change (@f_of_int Q Q_arith) with inject_Z in *;
  change (@fzero Q Q_arith) with 0 in *;
  change (@fone Q Q_arith) with 1 in *.

Lemma all_zero_repeat (n : nat) : all_zero (repeat fzero n).
Proof.
  induction n as [|n IH]; constructor; [reflexivity|exact IH].
Qed.

Lemma all_zero_upd (l : list Q) (i : nat) (x : Q) :
  all_zero l -> x == 0 -> all_zero (upd i x l).
Proof.
  unfold all_zero. rewrite !Forall_forall. intros H Hx y Hy.
  apply In_upd in Hy. destruct Hy as [->|Hy]; auto.
Qed.

Lemma all_zero_get (l : list Q) (i : Z) (x : Q) :
  all_zero l -> vec_get l i = Some x -> x == 0.
Proof.
  unfold all_zero. rewrite Forall_forall. intros H E.
  apply H. eapply vec_get_In; eauto.
Qed.

Lemma Q_to_int_range (q : Q) (n : Z) :
  0 <= q -> q < inject_Z n -> (n <= INT_MAX)%Z ->
  exists i, f_to_int q = Some i /\ (0 <= i < n)%Z.
Proof.
  intros H0 H1 Hn. exists (Qfloor q).
  assert (B : (0 <= Qfloor q < n)%Z).
  { split.
    - rewrite <- (Qfloor_Z 0). apply Qfloor_resp_le. exact H0.
    - apply Z.lt_nge. intros Hc. rewrite Zle_Qle in Hc.
      pose proof (Qfloor_le q). lra. }
  split; [|exact B]. apply Q_to_int_nonneg; [exact H0|lia].
Qed.

(** The two read indices of the interpolated read are inside the
    buffer. *)
Lemma read_indices (w maxDelay : Z) (d : Q) (n : Z) :
  (1 <= maxDelay)%Z -> n = (maxDelay + 4)%Z -> (n < INT_MAX)%Z ->
  (0 <= w < n)%Z -> 1 <= d -> d <= inject_Z maxDelay ->
  exists i0 i1,
    f_to_int (if (f_of_int w - d <? fzero)%fl
              then (f_of_int w - d + f_of_int n)%fl
              else (f_of_int w - d)%fl) = Some i0 /\
    int_ok (i0 + 1) = Some (i0 + 1)%Z /\
    int_rem (i0 + 1) n = Some i1 /\
    (0 <= i0 < n)%Z /\ (0 <= i1 < n)%Z.
Proof.
  intros Hm Hn Hmax Hw Hd1 Hd2.
  change (f_of_int w - d)%fl with (inject_Z w - d).
  change (f_of_int w - d + f_of_int n)%fl with (inject_Z w - d + inject_Z n).
  assert (Hw0 : 0 <= inject_Z w)
    by (change 0 with (inject_Z 0); rewrite <- Zle_Qle; lia).
  assert (Hw1 : inject_Z w < inject_Z n) by (rewrite <- Zlt_Qlt; lia).
  assert (Hn4 : inject_Z n == inject_Z maxDelay + 4).
  { subst n. rewrite inject_Z_plus. reflexivity. }
  assert (E : exists i0, f_to_int (if (inject_Z w - d <? fzero)%fl
                                   then inject_Z w - d + inject_Z n
                                   else inject_Z w - d) = Some i0 /\
                         (0 <= i0 < n)%Z).
  { destruct (inject_Z w - d <? fzero)%fl eqn:E.
    - apply Q_ltb_true in E. q_norm.
      apply Q_to_int_range; [lra|lra|lia].
    - apply Q_ltb_false in E. q_norm.
      apply Q_to_int_range; [lra|lra|lia]. }
  destruct E as (i0 & E0 & B0).
  exists i0, (Z.rem (i0 + 1) n). split; [exact E0|].
  split.
  { unfold int_ok, in_int.
    replace (INT_MIN <=? i0 + 1)%Z with true
      by (symmetry; apply Z.leb_le; unfold INT_MIN; lia).
    replace (i0 + 1 <=? INT_MAX)%Z with true
      by (symmetry; apply Z.leb_le; lia).
    reflexivity. }
  split.
  { unfold int_rem. replace (n =? 0)%Z with false
      by (symmetry; apply Z.eqb_neq; lia). reflexivity. }
  split; [exact B0|].
  rewrite Z.rem_mod_nonneg by lia. apply Z.mod_pos_bound. lia.
Qed.

Lemma size_upd {A} (i : nat) (x : A) (l : list A) : size (upd i x l) = size l.
Proof. unfold size. rewrite upd_length. reflexivity. Qed.

Lemma next_index (w n : Z) :
  (0 <= w < n)%Z -> (n < INT_MAX)%Z ->
  exists w', (w0 <- int_ok (w + 1) ;; int_rem w0 n) = Some w' /\
             (0 <= w' < n)%Z.
Proof.
  intros Hw Hn. exists (Z.rem (w + 1) n).
  unfold int_ok, in_int.
  replace (INT_MIN <=? w + 1)%Z with true
    by (symmetry; apply Z.leb_le; unfold INT_MIN; lia).
  replace (w + 1 <=? INT_MAX)%Z with true by (symmetry; apply Z.leb_le; lia).
  cbn [andb bind]. unfold int_rem.
  replace (n =? 0)%Z with false by (symmetry; apply Z.eqb_neq; lia).
  split; [reflexivity|].
  rewrite Z.rem_mod_nonneg by lia. apply Z.mod_pos_bound. lia.
Qed.

(** A silent allpass unit fed silence returns silence and stays
    silent. *)
Lemma allpass_process_silent (a : @AllpassFilter.t Q Q) (x : Q) :
  allpass_silent a -> x == 0 ->
  exists y a',
    AllpassFilter.process a x = Some (y, a') /\ y == 0 /\ allpass_silent a'.
Proof.
  intros ((Hm & Hs & Hmax & Hd1 & Hd2) & Hw & Hz) Hx.
  unfold AllpassFilter.process.
  destruct (@read_indices (AllpassFilter.writeIndex a)
              (AllpassFilter.maxDelay a) (AllpassFilter.currentDelay a)
              (size (AllpassFilter.buffer a)) Hm Hs Hmax Hw Hd1 Hd2)
    as (i0 & i1 & E0 & E1 & E2 & B0 & B1).
  rewrite E0. cbn [bind]. rewrite E1. cbn [bind]. rewrite E2. cbn [bind].
  destruct (@vec_get_some _ (AllpassFilter.buffer a) i0 B0) as (b0 & G0 & _).
  destruct (@vec_get_some _ (AllpassFilter.buffer a) i1 B1) as (b1 & G1 & _).
  rewrite G0, G1. cbn [bind].
  rewrite vec_set_some by exact Hw. cbn [bind].
  destruct (@next_index (AllpassFilter.writeIndex a)
              (size (AllpassFilter.buffer a)) Hw Hmax) as (w' & Ew & Bw).
  unfold bind in Ew.
  destruct (int_ok (AllpassFilter.writeIndex a + 1)) as [w0|];
    [|discriminate Ew].
  cbn [bind]. rewrite Ew. cbn [bind].
  pose proof (all_zero_get Hz G0) as Z0.
  pose proof (all_zero_get Hz G1) as Z1.
  eexists. eexists. split; [reflexivity|].
  q_norm. split.
  - rewrite Z0, Z1, Hx. ring.
  - unfold allpass_silent, allpass_ready.
    cbn [AllpassFilter.maxDelay AllpassFilter.buffer AllpassFilter.writeIndex
         AllpassFilter.currentDelay].
    rewrite size_upd. repeat split; try assumption; try lia.
    apply all_zero_upd; [exact Hz|]. rewrite Z0, Z1, Hx. ring.
Qed.

(** A silent comb unit fed silence returns silence and stays silent,
    whatever the modulation offset. *)
Lemma comb_modulated_silent (c : @CombFilter.t Q Q) (x off : Q) :
  comb_silent c -> x == 0 ->
  exists y c',
    CombFilter.processModulated c x off = Some (y, c') /\ y == 0 /\
    comb_silent c'.
Proof.
  intros ((Hm & Hs & Hmax) & Hw & Hz & Hf) Hx.
  unfold CombFilter.processModulated.
  assert (H1m : 1 <= inject_Z (CombFilter.maxDelay c)).
  { change 1 with (inject_Z 1). rewrite <- Zle_Qle. exact Hm. }
  destruct (@Q_jlimit_bounds 1 (inject_Z (CombFilter.maxDelay c))
              (CombFilter.currentDelay c + off) H1m) as [Hd1 Hd2].
  destruct (@read_indices (CombFilter.writeIndex c)
              (CombFilter.maxDelay c)
              (jlimit 1 (inject_Z (CombFilter.maxDelay c))
                      (CombFilter.currentDelay c + off))
              (size (CombFilter.buffer c)) Hm Hs Hmax Hw Hd1 Hd2)
    as (i0 & i1 & E0 & E1 & E2 & B0 & B1).
  q_norm. q_norm.
  change (@f_of_int Q Q_arith) with inject_Z in E0.
  rewrite E0. cbn [bind]. rewrite E1. cbn [bind]. rewrite E2. cbn [bind].
  destruct (@vec_get_some _ (CombFilter.buffer c) i0 B0) as (b0 & G0 & _).
  destruct (@vec_get_some _ (CombFilter.buffer c) i1 B1) as (b1 & G1 & _).
  rewrite G0, G1. cbn [bind].
  rewrite vec_set_some by exact Hw. cbn [bind].
  destruct (@next_index (CombFilter.writeIndex c)
              (size (CombFilter.buffer c)) Hw Hmax) as (w' & Ew & Bw).
  unfold bind in Ew.
  destruct (int_ok (CombFilter.writeIndex c + 1)) as [w0|];
    [|discriminate Ew].
  cbn [bind]. rewrite Ew. cbn [bind].
  pose proof (all_zero_get Hz G0) as Z0.
  pose proof (all_zero_get Hz G1) as Z1.
  eexists. eexists. split; [reflexivity|].
  split.
  - rewrite Z0, Z1. ring.
  - unfold comb_silent, comb_ready.
    cbn [CombFilter.maxDelay CombFilter.buffer CombFilter.writeIndex
         CombFilter.filterState].
    rewrite size_upd. repeat split; try assumption; try lia.
    + apply all_zero_upd; [exact Hz|]. rewrite Z0, Z1, Hx, Hf. ring.
    + rewrite Z0, Z1, Hf. ring.
Qed.

Lemma grid_put {A} (P : A -> Prop) (R C : nat) (g : list (list A))
      (row : list A) (i j : nat) (a : A) :
  grid_shape R C g -> grid_all P g -> In row g -> P a ->
  grid_shape R C (upd i (upd j a row) g) /\
  grid_all P (upd i (upd j a row) g).
Proof.
  intros [HR HC] Hall Hrow Ha. split.
  - split; [rewrite upd_length; exact HR|].
    intros r Hr. apply In_upd in Hr. destruct Hr as [->|Hr]; [|auto].
    rewrite upd_length. auto.
  - intros r Hr x Hx. apply In_upd in Hr. destruct Hr as [->|Hr].
    + apply In_upd in Hx. destruct Hx as [->|Hx]; [exact Ha|].
      eapply Hall; eauto.
    + eapply Hall; eauto.
Qed.

(** Reading cell [(ch, i)] of a grid of the right shape. *)
Lemma grid_cell {A} (R C : nat) (g : list (list A)) (ch i : Z) :
  grid_shape R C g -> (0 <= ch < Z.of_nat R)%Z -> (0 <= i < Z.of_nat C)%Z ->
  exists row a,
    vec_get g ch = Some row /\ In row g /\ vec_get row i = Some a /\
    In a row /\ (0 <= ch < size g)%Z /\ (0 <= i < size row)%Z.
Proof.
  intros [HR HC] Hch Hi.
  destruct (@vec_get_some _ g ch) as (row & Er & Hin); [unfold size; lia|].
  pose proof (HC _ Hin) as Lr.
  destruct (@vec_get_some _ row i) as (a & Ea & Hina); [unfold size; lia|].
  exists row, a. unfold size. repeat split; try assumption; lia.
Qed.

(** A sample of silence through [n] silent allpass stages. *)
Lemma process_sample_silent (n : nat) (ch : Z)
      (fs : list (list (@AllpassFilter.t Q Q))) (x : Q) :
  grid_shape 2 8 fs -> grid_all allpass_silent fs ->
  (0 <= ch < 2)%Z -> (n <= 8)%nat -> x == 0 ->
  exists fs' y,
    DiffusionNetwork.process_sample n ch (fs, x) = Some (fs', y) /\
    y == 0 /\ grid_shape 2 8 fs' /\ grid_all allpass_silent fs'.
Proof.
  intros Hs Ha Hch Hn Hx. unfold DiffusionNetwork.process_sample, for_loop.
  destruct (@for_from_total _
              (fun st : list (list (@AllpassFilter.t Q Q)) * Q =>
                 grid_shape 2 8 (fst st) /\ grid_all allpass_silent (fst st) /\
                 snd st == 0)
              (DiffusionNetwork.stage_step ch) n 0%Z (fs, x))
    as ([fs' y] & E & Hs' & Ha' & Hy).
  - simpl. auto.
  - intros j [g z] Hj (Hg & Hall & Hz). simpl in Hg, Hall, Hz.
    destruct (@grid_cell _ 2 8 g ch j Hg) as (row & a & Er & Hin & Ea & Hina
                                              & Bc & Bj); [lia|lia|].
    unfold DiffusionNetwork.stage_step. rewrite Er. cbn [bind].
    rewrite Ea. cbn [bind].
    destruct (@allpass_process_silent a z (Hall _ Hin _ Hina) Hz)
      as (y' & a' & Ep & Hy' & Ha'').
    rewrite Ep. cbn [bind].
    rewrite (@vec_set_some _ row j) by exact Bj. cbn [bind].
    rewrite (@vec_set_some _ g ch) by exact Bc. cbn [bind].
    eexists. split; [reflexivity|]. simpl.
    destruct (@grid_put _ allpass_silent 2 8 g row (Z.to_nat ch) (Z.to_nat j)
                a' Hg Hall Hin Ha'') as [S1 S2].
    auto.
  - exists fs', y. simpl in *. auto.
Qed.

(** A sample of silence into the eight silent combs of a channel. *)
Lemma comb_bank_silent (me : @ModulationEngine.t Q Q) (ch : Z)
      (cs : list (list (@CombFilter.t Q Q))) (input : Q) :
  length (ModulationEngine.smoothedOutputs me) = 8%nat ->
  grid_shape 2 8 cs -> grid_all comb_silent cs -> (0 <= ch < 2)%Z ->
  input == 0 ->
  exists cs' sum,
    for_loop 8 (AlgorithmicReverb.comb_step me ch input) (cs, fzero) =
      Some (cs', sum) /\
    sum == 0 /\ grid_shape 2 8 cs' /\ grid_all comb_silent cs'.
Proof.
  intros Hme Hs Ha Hch Hx. unfold for_loop.
  destruct (@for_from_total _
              (fun st : list (list (@CombFilter.t Q Q)) * Q =>
                 grid_shape 2 8 (fst st) /\
                 grid_all comb_silent (fst st) /\ snd st == 0)
              (AlgorithmicReverb.comb_step me ch input) 8 0%Z (cs, fzero))
    as ([cs' y] & E & Hs' & Ha' & Hy).
  - simpl. split; [exact Hs|]. split; [exact Ha|]. reflexivity.
  - intros j [g z] Hj (Hg & Hall & Hz). simpl in Hg, Hall, Hz.
    unfold AlgorithmicReverb.comb_step.
    destruct (@vec_get_some _ (ModulationEngine.smoothedOutputs me) j)
      as (m & Em & _); [unfold size; lia|].
    unfold ModulationEngine.getModulation, ModulationEngine.NumOutputs.
    replace ((j <? 0) || (j >=? 8))%Z with false
      by (symmetry; apply orb_false_iff; split;
          [apply Z.ltb_ge|rewrite Z.geb_leb; apply Z.leb_gt]; lia).
    rewrite Em. cbn [bind].
    destruct (@grid_cell _ 2 8 g ch j Hg) as (row & c & Er & Hin & Ec & Hinc
                                              & Bc & Bj); [lia|lia|].
    rewrite Er. cbn [bind]. rewrite Ec. cbn [bind].
    assert (Hin0 : (input / f_of_int AlgorithmicReverb.NumCombFilters)%fl == 0).
    { q_norm. rewrite Hx. reflexivity. }
    destruct (@comb_modulated_silent c _ m (Hall _ Hin _ Hinc) Hin0)
      as (y' & c' & Ep & Hy' & Hc').
    rewrite Ep. cbn [bind].
    rewrite (@vec_set_some _ row j) by exact Bj. cbn [bind].
    rewrite (@vec_set_some _ g ch) by exact Bc. cbn [bind].
    unfold int_rem. cbn [Z.eqb bind].
    eexists. split; [reflexivity|]. cbn [fst snd].
    destruct (@grid_put _ comb_silent 2 8 g row (Z.to_nat ch) (Z.to_nat j)
                c' Hg Hall Hin Hc') as [S1 S2].
    split; [exact S1|]. split; [exact S2|].
    q_norm. rewrite Hz, Hy'. ring.
  - exists cs', y. simpl in *. auto.
Qed.

Lemma silent_get (k n : nat) (b : AudioBuffer Q) (ch i : Z) :
  silent_block k n b -> (0 <= ch < Z.of_nat k)%Z -> (0 <= i < Z.of_nat n)%Z ->
  exists x, getSample b ch i = Some x /\ x == 0.
Proof.
  intros (Hn & Hk & Hc) Hch Hi. unfold getSample.
  destruct (@vec_get_some _ (chans b) ch) as (c & Ec & Hin);
    [unfold size; lia|].
  destruct (Hc _ Hin) as [Lc Zc].
  destruct (@vec_get_some _ c i) as (x & Ex & Hx); [unfold size; lia|].
  rewrite Ec. cbn [bind]. exists x. split; [exact Ex|].
  eapply all_zero_get; eauto.
Qed.

Lemma silent_set (k n : nat) (b : AudioBuffer Q) (ch i : Z) (x : Q) :
  silent_block k n b -> (0 <= ch < Z.of_nat k)%Z -> (0 <= i < Z.of_nat n)%Z ->
  x == 0 ->
  exists b', setSample b ch i x = Some b' /\ silent_block k n b'.
Proof.
  intros (Hn & Hk & Hc) Hch Hi Hx. unfold setSample.
  destruct (@vec_get_some _ (chans b) ch) as (c & Ec & Hin);
    [unfold size; lia|].
  destruct (Hc _ Hin) as [Lc Zc].
  rewrite Ec. cbn [bind].
  rewrite (@vec_set_some _ c i) by (unfold size; lia). cbn [bind].
  rewrite (@vec_set_some _ (chans b) ch) by (unfold size; lia). cbn [bind].
  eexists. split; [reflexivity|].
  split; [exact Hn|]. cbn [chans]. split; [rewrite upd_length; exact Hk|].
  intros c' Hc'. apply In_upd in Hc'. destruct Hc' as [->|Hc']; [|auto].
  rewrite upd_length. split; [exact Lc|]. apply all_zero_upd; assumption.
Qed.

Lemma silent_cleared (k n : nat) : silent_block k n (cleared k n).
Proof.
  unfold cleared, silent_block; cbn [numSamples chans].
  split; [reflexivity|]. split; [apply repeat_length|].
  intros c Hc. apply repeat_spec in Hc. subst c.
  split; [apply repeat_length|apply all_zero_repeat].
Qed.

(** Step 5 keeps a silent stereo block silent. *)
Lemma apply_width_silent (w : Q) (n : nat) (b : AudioBuffer Q) :
  silent_block 2 n b ->
  exists b', AlgorithmicReverb.apply_width w n b = Some b' /\
             silent_block 2 n b'.
Proof.
  intros Hb. unfold AlgorithmicReverb.apply_width.
  destruct (f_ltb _ _); [|exists b; auto].
  apply for_from_total; [exact Hb|].
  intros j s Hj Hs.
  destruct (@silent_get 2 n s 0 j Hs) as (l & El & Zl); [lia|lia|].
  destruct (@silent_get 2 n s 1 j Hs) as (r & Er & Zr); [lia|lia|].
  rewrite El, Er. cbn [bind].
  destruct (Q_widen_formula w l r) as [F1 F2].
  destruct (AlgorithmicReverb.widen w l r) as [l' r'] eqn:Ew.
  cbn [fst snd] in F1, F2.
  assert (Zl' : l' == 0) by (rewrite F1, Zl, Zr; field).
  assert (Zr' : r' == 0) by (rewrite F2, Zl, Zr; field).
  destruct (@silent_set 2 n s 0 j l' Hs) as (s1 & E1 & H1);
    [lia|lia|exact Zl'|].
  rewrite E1. cbn [bind].
  apply silent_set; [exact H1|lia|lia|exact Zr'].
Qed.

(** The peak detector runs over a silent stereo block. *)
Lemma peak_loop_total (n : nat) (b : AudioBuffer Q) :
  silent_block 2 n b ->
  exists mx, AlgorithmicReverb.block_peak n b = Some mx.
Proof.
  intros Hb. destruct Hb as (Hn & Hk & Hc).
  unfold AlgorithmicReverb.block_peak, getNumChannels, size. rewrite Hk.
  change (Z.to_nat (Z.of_nat 2)) with 2%nat.
  destruct (@for_from_total _ (fun _ : Q => True)
              (fun ch mx =>
                 for_loop n (fun sample mx =>
                     x <- getSample b ch sample ;;
                     Some (jmax mx (f_abs x)))
                   mx) 2 0%Z fzero I) as (mx & E & _).
  - intros ch mx Hch _.
    destruct (@for_from_total _ (fun _ : Q => True)
                (fun sample mx =>
                   x <- getSample b ch sample ;;
                   Some (jmax mx (f_abs x))) n 0%Z mx I) as (mx' & E & _).
    + intros j s Hj _.
      destruct (@silent_get 2 n b ch j (conj Hn (conj Hk Hc)))
        as (x & Ex & _); [lia|lia|].
      rewrite Ex. cbn [bind]. eauto.
    + exists mx'. auto.
  - exists mx. exact E.
Qed.

Lemma active_stages_range {J : JuceDSP Q Q} (d : @DiffusionNetwork.t Q Q J) :
  0 <= DiffusionNetwork.thrustAmount d ->
  DiffusionNetwork.thrustAmount d <= 1 ->
  exists k, DiffusionNetwork.getActiveStages d = Some k /\ (2 <= k <= 8)%Z.
Proof.
  unfold DiffusionNetwork.getActiveStages.
  generalize (DiffusionNetwork.thrustAmount d). intros t H0 H1.
  exists (Qfloor (inject_Z 2 + t * inject_Z 6)).
  assert (B : (2 <= Qfloor (inject_Z 2 + t * inject_Z 6) <= 8)%Z).
  { apply Qfloor_bounds; change (inject_Z 2) with 2;
      change (inject_Z 6) with 6; change (inject_Z 8) with 8; lra. }
  split; [|exact B].
  apply Q_to_int_nonneg.
  - q_norm. change (inject_Z 2) with 2. change (inject_Z 6) with 6. lra.
  - q_norm. unfold INT_MAX. lia.
Qed.

Lemma int_ok_some (z : Z) :
  (INT_MIN <= z <= INT_MAX)%Z -> int_ok z = Some z.
Proof.
  intros [H1 H2]. unfold int_ok, in_int.
  replace (INT_MIN <=? z)%Z with true by (symmetry; apply Z.leb_le; exact H1).
  replace (z <=? INT_MAX)%Z with true by (symmetry; apply Z.leb_le; exact H2).
  reflexivity.
Qed.

(** A loop that stores into cell [i] at step [i] keeps the length. *)
Lemma store_loop {A} (g : Z -> list A -> option A) (n : nat) (v : list A) :
  length v = n ->
  (forall i w, (0 <= i < Z.of_nat n)%Z -> length w = n ->
               exists x, g i w = Some x) ->
  exists v',
    for_loop n (fun i w => x <- g i w ;; vec_set w i x) v = Some v' /\
    length v' = n.
Proof.
  intros L Hg. unfold for_loop. apply for_from_total; [exact L|].
  intros j w Hj Lw. destruct (Hg j w Hj Lw) as (x & E). rewrite E.
  cbn [bind]. rewrite vec_set_some by (unfold size; lia).
  eexists. split; [reflexivity|]. rewrite upd_length. exact Lw.
Qed.

Section ModulationStep.
Context {F D : Type} {AF : Arith F} {AD : Arith D} {CV : Conv F D}
        {LM : Libm F}.

Lemma getMixWeight_total (out lfo : Z) :
  (0 <= out < 8)%Z -> (0 <= lfo < 6)%Z ->
  exists w : F, ModulationEngine.getMixWeight out lfo = Some w.
Proof.
  intros Ho Hl. unfold ModulationEngine.getMixWeight.
  unfold int_rem at 1. cbn [Z.eqb bind].
  assert (Hk : (0 <= Z.rem out 8 < 8)%Z).
  { rewrite Z.rem_mod_nonneg by lia. apply Z.mod_pos_bound. lia. }
  destruct (@vec_get_some _ ModulationEngine.primes (Z.rem out 8))
    as (p & Ep & Hp); [exact Hk|].
  rewrite Ep. cbn [bind].
  assert (Bp : (0 <= p <= 31)%Z).
  { unfold ModulationEngine.primes in Hp. simpl in Hp. lia. }
  rewrite int_ok_some by (unfold INT_MIN, INT_MAX; nia).
  cbn [bind]. unfold int_rem. cbn [Z.eqb bind]. eauto.
Qed.

Lemma getLFOValue_total (m : @ModulationEngine.t F D) (lfo : Z) :
  length (ModulationEngine.lfoPhases m) = 6%nat -> (0 <= lfo < 6)%Z ->
  exists v, ModulationEngine.getLFOValue m lfo = Some v.
Proof.
  intros L Hl. unfold ModulationEngine.getLFOValue.
  destruct (@vec_get_some _ (ModulationEngine.lfoPhases m) lfo)
    as (ph & E & _); [unfold size; lia|].
  rewrite E. cbn [bind]. unfold int_rem. cbn [Z.eqb bind]. eauto.
Qed.

Lemma updateDriftTargets_total (m : @ModulationEngine.t F D) :
  modulation_shape m ->
  exists m',
    ModulationEngine.updateDriftTargets m = Some m' /\
    modulation_shape m' /\
    ModulationEngine.sampleRate m' = ModulationEngine.sampleRate m.
Proof.
  intros (L1 & L2 & L3 & L4 & L5). unfold ModulationEngine.updateDriftTargets.
  destruct (@store_loop _
              (fun i _ => Some (uniform (- fone)%fl fone
                                  (ModulationEngine.entropy m + Z.to_nat i)))
              8 (ModulationEngine.driftTargets m) L4) as (ts & E & Lt).
  { intros; eauto. }
  cbn [bind] in E. rewrite E. cbn [bind].
  eexists. split; [reflexivity|]. split; [|reflexivity].
  repeat split; assumption.
Qed.

(** [processSample] reads and writes within its arrays and leaves the
    engine ready for the next call. *)
Lemma processSample_ready (m : @ModulationEngine.t F D) :
  modulation_ready m ->
  exists m', ModulationEngine.processSample m = Some m' /\
             modulation_ready m'.
Proof.
  intros (Hs & period & Ep & Hp & Hc).
  pose proof Hs as (L1 & L2 & L3 & L4 & L5).
  unfold ModulationEngine.processSample.
  unfold for_loop at 1.
  match goal with
  | |- exists m', bind (for_from 0 6 ?body ?init) _ = _ /\ _ =>
      destruct (@for_from_total _ (fun ps : list F => length ps = 6%nat)
                  body 6 0%Z init L1) as (phases & E1 & Lph)
  end.
  { intros j ps Hj Lps.
    destruct (@vec_get_some _ (ModulationEngine.lfoFrequencies m) j)
      as (fq & Efq & _); [unfold size; lia|].
    destruct (@vec_get_some _ ps j) as (p & Epj & _); [unfold size; lia|].
    rewrite Efq. cbn [bind]. rewrite Epj. cbn [bind].
    rewrite vec_set_some by (unfold size; lia).
    eexists. split; [reflexivity|]. rewrite upd_length. exact Lps. }
  rewrite E1. cbn [bind].
  rewrite (int_ok_some Hc). cbn [bind]. rewrite Ep. cbn [bind].
  match goal with
  | |- exists m', bind ?e _ = _ /\ _ =>
      assert (H1 : exists m1, e = Some m1 /\ modulation_shape m1 /\
                     ModulationEngine.sampleRate m1 =
                       ModulationEngine.sampleRate m /\
                     (INT_MIN <= ModulationEngine.driftCounter m1 + 1
                      <= INT_MAX)%Z)
  end.
  { destruct (ModulationEngine.driftCounter m + 1 >? period)%Z eqn:Ec.
    - destruct (updateDriftTargets_total Hs) as (m' & Eu & Hs' & Esr).
      rewrite Eu. cbn [bind]. eexists. split; [reflexivity|].
      destruct Hs' as (M1 & M2 & M3 & M4 & M5).
      cbn. split; [repeat split; assumption|]. split; [exact Esr|].
      unfold INT_MIN, INT_MAX in *. lia.
    - eexists. split; [reflexivity|]. cbn.
      split; [repeat split; assumption|]. split; [reflexivity|].
      rewrite Z.gtb_ltb in Ec. apply Z.ltb_ge in Ec.
      unfold INT_MIN, INT_MAX in *. lia. }
  destruct H1 as (m1 & Em1 & (M1 & M2 & M3 & M4 & M5) & Esr & Hc1).
  rewrite Em1. cbn [bind].
  unfold for_loop at 1.
  match goal with
  | |- exists m', bind (for_from 0 8 ?body ?init) _ = _ /\ _ =>
      destruct (@for_from_total _ (fun vs : list F => length vs = 8%nat)
                  body 8 0%Z init M3) as (drifts & E2 & Ldr)
  end.
  { intros j vs Hj Lvs.
    destruct (@vec_get_some _ vs j) as (v & Ev & _); [unfold size; lia|].
    destruct (@vec_get_some _ (ModulationEngine.driftTargets m1) j)
      as (tg & Etg & _); [unfold size; lia|].
    rewrite Ev. cbn [bind]. rewrite Etg. cbn [bind].
    rewrite vec_set_some by (unfold size; lia).
    eexists. split; [reflexivity|]. rewrite upd_length. exact Lvs. }
  rewrite E2. cbn [bind].
  unfold for_loop at 1.
  match goal with
  | |- exists m', bind (for_from 0 8 ?body ?init) _ = _ /\ _ =>
      destruct (@for_from_total _ (fun so : list F => length so = 8%nat)
                  body 8 0%Z init M5) as (outs & E3 & Lo)
  end.
  { intros j so Hj Lso.
    destruct (@for_from_total _ (fun _ : F => True)
                (fun lfo acc =>
                   weight <- ModulationEngine.getMixWeight j lfo ;;
                   lfoValue <- ModulationEngine.getLFOValue m1 lfo ;;
                   Some (acc + lfoValue * weight)%fl)
                6 0%Z fzero I) as (mv & Emv & _).
    { intros lfo acc Hl _.
      destruct (@getMixWeight_total j lfo) as (w & Ew); [lia|lia|].
      destruct (@getLFOValue_total m1 lfo M1) as (v & Ev); [lia|].
      rewrite Ew. cbn [bind]. rewrite Ev. cbn [bind]. eauto. }
    unfold for_loop. rewrite Emv. cbn [bind].
    destruct (@vec_get_some _ drifts j) as (dv & Edv & _);
      [unfold size; lia|].
    destruct (@vec_get_some _ so j) as (s & Es & _); [unfold size; lia|].
    rewrite Edv. cbn [bind]. rewrite Es. cbn [bind].
    rewrite vec_set_some by (unfold size; lia).
    eexists. split; [reflexivity|]. rewrite upd_length. exact Lso. }
  rewrite E3. cbn [bind]. eexists. split; [reflexivity|].
  split; [cbn; repeat split; assumption|].
  exists period. cbn. rewrite Esr. auto.
Qed.
End ModulationStep.

Lemma In_vec_get {A} (v : list A) (x : A) :
  In x v -> exists i, (0 <= i < size v)%Z /\ vec_get v i = Some x.
Proof.
  intros H. apply In_nth_error in H. destruct H as [k E].
  assert (Hk : (k < length v)%nat) by (apply nth_error_Some; congruence).
  exists (Z.of_nat k). split; [unfold size; lia|].
  unfold vec_get.
  replace (0 <=? Z.of_nat k)%Z with true by (symmetry; apply Z.leb_le; lia).
  rewrite Nat2Z.id. exact E.
Qed.

(** A grid rewritten cell by cell with [f] satisfies [P'] wherever the
    old cells satisfied [P] and [f] leads from [P] to [P']. *)
Lemma grid_all_map {A} (P P' : A -> Prop) (f : A -> A) (R C : nat)
      (g g' : list (list A)) :
  grid_shape R C g' -> grid_all P g -> (forall a, P a -> P' (f a)) ->
  (forall ch i, (0 <= ch < Z.of_nat R)%Z -> (0 <= i < Z.of_nat C)%Z ->
     exists a, grid_get g ch i = Some a /\ grid_get g' ch i = Some (f a)) ->
  grid_all P' g'.
Proof.
  intros [HR HC] Hall Hf Hcells row Hrow a Ha.
  destruct (In_vec_get Hrow) as (ch & Bch & Ech).
  destruct (In_vec_get Ha) as (i & Bi & Ei).
  destruct (Hcells ch i) as (a0 & E0 & E1).
  { unfold size in Bch. lia. }
  { rewrite <- (HC _ Hrow). unfold size in Bi. lia. }
  unfold grid_get in E1. rewrite Ech, Ei in E1. inversion E1; subst a.
  apply Hf. unfold grid_get in E0.
  destruct (vec_get g ch) as [row0|] eqn:Er; [|discriminate].
  eapply Hall; eapply vec_get_In; eauto.
Qed.

Lemma size_fill {A} (v : list A) (x : A) : size (fill v x) = size v.
Proof. unfold size, fill. rewrite repeat_length. reflexivity. Qed.

Lemma comb_reset_silent (c : @CombFilter.t Q Q) :
  comb_ready c -> comb_silent (CombFilter.reset c).
Proof.
  intros (Hm & Hs & Hmax). unfold comb_silent, comb_ready, CombFilter.reset.
  cbn [CombFilter.maxDelay CombFilter.buffer CombFilter.writeIndex
       CombFilter.filterState].
  rewrite size_fill.
  repeat split; try assumption; try lia; try reflexivity.
  apply all_zero_repeat.
Qed.

Lemma allpass_reset_silent (a : @AllpassFilter.t Q Q) :
  allpass_ready a -> allpass_silent (AllpassFilter.reset a).
Proof.
  intros (Hm & Hs & Hmax & Hd1 & Hd2).
  unfold allpass_silent, allpass_ready, AllpassFilter.reset.
  cbn [AllpassFilter.maxDelay AllpassFilter.buffer AllpassFilter.writeIndex
       AllpassFilter.currentDelay].
  rewrite size_fill.
  repeat split; try assumption; try lia.
  apply all_zero_repeat.
Qed.

Lemma duplicator_reset_cleared {J : JuceDSP Q Q} (d : @Duplicator.t Q Q J) :
  duplicator_ready d -> duplicator_cleared (Duplicator.reset d).
Proof.
  unfold duplicator_cleared, duplicator_ready, Duplicator.reset, fill.
  cbn [Duplicator.processors]. intros H. split.
  - intros p Hp. apply repeat_spec in Hp. exact Hp.
  - rewrite repeat_length. exact H.
Qed.

Lemma vec_get_0 {A} (x : A) (l : list A) : vec_get (x :: l) 0 = Some x.
Proof. reflexivity. Qed.

Lemma vec_get_1 {A} (x y : A) (l : list A) : vec_get (x :: y :: l) 1 = Some y.
Proof. reflexivity. Qed.

Lemma vec_set_0 {A} (x z : A) (l : list A) :
  vec_set (x :: l) 0 z = Some (z :: l).
Proof. rewrite vec_set_some; [reflexivity|]. unfold size. simpl length. lia. Qed.

Lemma vec_set_1 {A} (x y z : A) (l : list A) :
  vec_set (x :: y :: l) 1 z = Some (x :: z :: l).
Proof. rewrite vec_set_some; [reflexivity|]. unfold size. simpl length. lia. Qed.

(** A channel of a silent block replaced by a channel of silence. *)
Lemma copy_back_silent (k n : nat) (buffer wet : AudioBuffer Q) :
  (k <= 2)%nat -> silent_block k n buffer -> silent_block 2 n wet ->
  exists out,
    for_loop k (fun ch out => copyFrom out ch wet) buffer = Some out /\
    silent_block k n out.
Proof.
  intros Hk Hb (Wn & Wk & Wc). unfold for_loop.
  apply for_from_total; [exact Hb|].
  intros ch out Hch (On & Ok & Oc). unfold copyFrom.
  destruct (@vec_get_some _ (chans wet) ch) as (c & Ec & Hin);
    [unfold size; lia|].
  rewrite Ec. cbn [bind].
  rewrite vec_set_some by (unfold size; lia). cbn [bind].
  eexists. split; [reflexivity|].
  split; [exact On|]. cbn [chans]. split; [rewrite upd_length; exact Ok|].
  intros c' Hc'. apply In_upd in Hc'. destruct Hc' as [->|Hc']; auto.
Qed.

Section PreDelay.
Context {LM : Libm Q}.

(** One iteration of the first loop of [process] on silence. *)
Lemma predelay_step_silent (P k n : nat) (pds : Z) (buffer : AudioBuffer Q)
      (sample : Z) (me : @ModulationEngine.t Q Q) (pdb : list (list Q))
      (pdw : Z) (wet : AudioBuffer Q) :
  (1 <= k <= 2)%nat -> silent_block k n buffer ->
  (0 <= sample < Z.of_nat n)%Z ->
  (0 <= pds < Z.of_nat P)%Z -> (Z.of_nat P < INT_MAX)%Z ->
  modulation_ready me -> predelay_silent P pdb ->
  (0 <= pdw < Z.of_nat P)%Z -> silent_block 2 n wet ->
  exists me' pdb' pdw' wet',
    AlgorithmicReverb.predelay_step pds buffer (Z.of_nat k) sample
      (me, pdb, pdw, wet) = Some (me', pdb', pdw', wet') /\
    modulation_ready me' /\ predelay_silent P pdb' /\
    (0 <= pdw' < Z.of_nat P)%Z /\ silent_block 2 n wet'.
Proof.
  intros Hk Hb Hsample Hpds HP Hme (Lp & Hp) Hpdw Hwet.
  unfold AlgorithmicReverb.predelay_step.
  destruct (processSample_ready Hme) as (me' & Eme & Hme').
  rewrite Eme. cbn [bind].
  destruct pdb as [|b0 [|b1 [|b2 pdb]]]; try discriminate Lp.
  destruct (Hp b0) as [L0 Z0]; [left; reflexivity|].
  destruct (Hp b1) as [L1 Z1]; [right; left; reflexivity|].
  rewrite vec_get_0. cbn [bind].
  rewrite int_ok_some by (unfold INT_MIN, INT_MAX in *; lia). cbn [bind].
  assert (Hidx : exists idx,
             (if (pdw - pds <? 0)%Z then int_ok (pdw - pds + size b0)
              else Some (pdw - pds)%Z) = Some idx /\
             (0 <= idx < Z.of_nat P)%Z).
  { destruct (Z.ltb_spec (pdw - pds) 0).
    - rewrite int_ok_some by (unfold size, INT_MIN, INT_MAX in *; lia).
      eexists. split; [reflexivity|]. unfold size. lia.
    - eexists. split; [reflexivity|]. lia. }
  destruct Hidx as (idx & Eidx & Bidx). rewrite Eidx. cbn [bind].
  replace (Z.of_nat k >? 0)%Z with true
    by (symmetry; rewrite Z.gtb_ltb; apply Z.ltb_lt; lia).
  destruct (@silent_get k n buffer 0 sample Hb) as (x & Ex & Zx);
    [lia|lia|].
  rewrite Ex. cbn [bind].
  assert (Hy : exists y,
             (if (Z.of_nat k >? 1)%Z then getSample buffer 1 sample
              else Some x) = Some y /\ y == 0).
  { destruct (Z.of_nat k >? 1)%Z eqn:Ek.
    - rewrite Z.gtb_ltb in Ek. apply Z.ltb_lt in Ek.
      apply silent_get with (k := k) (n := n); [exact Hb|lia|lia].
    - eauto. }
  destruct Hy as (y & Ey & Zy). rewrite Ey. cbn [bind].
  rewrite (@vec_set_some _ b0 pdw) by (unfold size; lia). cbn [bind].
  rewrite vec_set_0. cbn [bind]. rewrite vec_get_1. cbn [bind].
  rewrite (@vec_set_some _ b1 pdw) by (unfold size; lia). cbn [bind].
  rewrite vec_set_1. cbn [bind].
  rewrite int_ok_some by (unfold INT_MIN, INT_MAX in *; lia). cbn [bind].
  unfold int_rem. rewrite size_upd.
  replace (size b0 =? 0)%Z with false
    by (symmetry; apply Z.eqb_neq; unfold size; lia).
  cbn [bind].
  pose proof (all_zero_upd (Z.to_nat pdw) Z0 Zx) as Z0'.
  pose proof (all_zero_upd (Z.to_nat pdw) Z1 Zy) as Z1'.
  destruct (@vec_get_some _ (upd (Z.to_nat pdw) x b0) idx)
    as (l & El & _); [rewrite size_upd; unfold size; lia|].
  destruct (@vec_get_some _ (upd (Z.to_nat pdw) y b1) idx)
    as (r & Er & _); [rewrite size_upd; unfold size; lia|].
  rewrite El. cbn [bind]. rewrite Er. cbn [bind].
  destruct (@silent_set 2 n wet 0 sample l Hwet) as (w1 & E1 & H1);
    [lia|lia|exact (all_zero_get Z0' El)|].
  rewrite E1. cbn [bind].
  destruct (@silent_set 2 n w1 1 sample r H1) as (w2 & E2 & H2);
    [lia|lia|exact (all_zero_get Z1' Er)|].
  rewrite E2. cbn [bind].
  eexists. eexists. eexists. eexists. split; [reflexivity|].
  split; [exact Hme'|]. split.
  { split; [reflexivity|].
    intros b [<-|[<-|[]]]; rewrite upd_length; auto. }
  split; [|exact H2].
  rewrite Z.rem_mod_nonneg by (unfold size; lia).
  unfold size. rewrite L0. apply Z.mod_pos_bound. lia.
Qed.

(** The first loop of [process] on a block of silence. *)
Lemma predelay_loop_silent (P k n : nat) (pds : Z) (buffer : AudioBuffer Q)
      (me : @ModulationEngine.t Q Q) (pdb : list (list Q)) (pdw : Z) :
  (1 <= k <= 2)%nat -> silent_block k n buffer ->
  (0 <= pds < Z.of_nat P)%Z -> (Z.of_nat P < INT_MAX)%Z ->
  modulation_ready me -> predelay_silent P pdb ->
  (0 <= pdw < Z.of_nat P)%Z ->
  exists me' pdb' pdw' wet',
    for_loop n (AlgorithmicReverb.predelay_step pds buffer (Z.of_nat k))
      (me, pdb, pdw, cleared 2 n) = Some (me', pdb', pdw', wet') /\
    modulation_ready me' /\ silent_block 2 n wet'.
Proof.
  intros Hk Hb Hpds HP Hme Hp Hpdw. unfold for_loop.
  destruct (@for_from_total _
              (fun st : @ModulationEngine.t Q Q * list (list Q) * Z
                        * AudioBuffer Q =>
                 let '(me, pdb, pdw, wet) := st in
                 modulation_ready me /\ predelay_silent P pdb /\
                 (0 <= pdw < Z.of_nat P)%Z /\ silent_block 2 n wet)
              (AlgorithmicReverb.predelay_step pds buffer (Z.of_nat k))
              n 0%Z (me, pdb, pdw, cleared 2 n))
    as ([[[me' pdb'] pdw'] wet'] & E & Hme' & _ & _ & Hwet').
  - exact (conj Hme (conj Hp (conj Hpdw (@silent_cleared 2 n)))).
  - intros j [[[m1 p1] w1] wet1] Hj (M1 & P1 & W1 & S1).
    destruct (@predelay_step_silent P k n pds buffer j m1 p1 w1 wet1)
      as (m2 & p2 & w2 & wet2 & E2 & H2); try assumption; try lia.
    exists (m2, p2, w2, wet2). split; [exact E2|exact H2].
  - exists me', pdb', pdw', wet'. auto.
Qed.
End PreDelay.

Section Silence.

Context {LM : Libm Q} {J : JuceDSP Q Q}.

(** What is assumed of the JUCE filter: from cleared registers it answers
    silence with as many samples of silence. *)
Hypothesis iir_silence : iir_keeps_silence.

Lemma run_silent (c : Coefficients) (n : nat) :
  forall (chs : list (list Q)) (ps : list IIRFilter),
    (forall p, In p ps -> p = iir_cleared) ->
    (length chs <= length ps)%nat ->
    (forall x, In x chs -> length x = n /\ all_zero x) ->
    exists ps' os,
      Duplicator.run c ps chs = Some (ps', os) /\
      length os = length chs /\
      forall o, In o os -> length o = n /\ all_zero o.
Proof.
  induction chs as [|ch chs IH]; intros ps Hps Hlen Hch.
  - exists ps, []. split; [destruct ps; reflexivity|].
    split; [reflexivity|]. intros o [].
  - destruct ps as [|p ps]; [simpl in Hlen; lia|].
    cbn [Duplicator.run].
    assert (Ep : p = iir_cleared) by (apply Hps; left; reflexivity).
    subst p.
    destruct (Hch ch (or_introl eq_refl)) as [Lc Zc].
    destruct (iir_silence c Zc) as [L1 Z1].
    destruct (iir_process c iir_cleared ch) as [p' o]. cbn [snd] in L1, Z1.
    destruct (IH ps) as (ps' & os & E & Los & Hos).
    + intros q Hq. apply Hps. right. exact Hq.
    + simpl in Hlen. lia.
    + intros x Hx. apply Hch. right. exact Hx.
    + rewrite E. cbn [bind]. exists (p' :: ps'), (o :: os).
      split; [reflexivity|]. split; [simpl; lia|].
      intros o' [<-|Ho]; [split; [lia|exact Z1]|auto].
Qed.

Lemma duplicator_silent (d : @Duplicator.t Q Q J) (k n : nat)
      (b : AudioBuffer Q) :
  duplicator_cleared d -> (k <= 2)%nat -> silent_block k n b ->
  exists d' b', Duplicator.process d b = Some (d', b') /\ silent_block k n b'.
Proof.
  intros [Hps Hd] Hk (Hn & Hlen & Hc). unfold Duplicator.process.
  unfold duplicator_ready in Hd.
  destruct (@run_silent (Duplicator.state d) n (chans b)
              (Duplicator.processors d) Hps ltac:(lia) Hc)
    as (ps' & os & E & Los & Hos).
  rewrite E. cbn [bind]. eexists. eexists. split; [reflexivity|].
  split; [exact Hn|]. cbn [chans]. split; [lia|exact Hos].
Qed.

Lemma diffusion_process_silent (d : @DiffusionNetwork.t Q Q J) (n : nat)
      (b : AudioBuffer Q) :
  diffusion_silent d -> silent_block 2 n b ->
  exists d' b', DiffusionNetwork.process d b = Some (d', b') /\
                silent_block 2 n b'.
Proof.
  intros (Hs & Ha & T0 & T1 & Hlm) Hb.
  unfold DiffusionNetwork.process.
  destruct (active_stages_range T0 T1) as (k & Ek & Bk). rewrite Ek.
  cbn [bind].
  assert (Hnc : Z.to_nat (jmin_int (getNumChannels b)
                                   DiffusionNetwork.NumChannels) = 2%nat).
  { destruct Hb as (_ & Hk & _). unfold getNumChannels, size. rewrite Hk.
    reflexivity. }
  rewrite Hnc.
  assert (Hnum : numSamples b = n) by (destruct Hb; assumption).
  rewrite Hnum.
  unfold for_loop at 1.
  match goal with
  | |- context [for_from 0 2 ?body ?init] =>
      destruct (@for_from_total _
                  (fun st : list (list (@AllpassFilter.t Q Q)) * AudioBuffer Q =>
                     grid_shape 2 8 (fst st) /\
                     grid_all allpass_silent (fst st) /\
                     silent_block 2 n (snd st))
                  body 2 0%Z init)
        as ([fs wet] & E & _ & _ & Hwet)
  end.
  - simpl. auto.
  - intros ch st Hch Hst. unfold for_loop.
    apply for_from_total; [exact Hst|].
    intros i [g buf] Hi (Hg & Hall & Hbuf). cbn [fst snd] in Hg, Hall, Hbuf.
    destruct (@silent_get 2 n buf ch i Hbuf) as (x & Ex & Zx); [lia|lia|].
    rewrite Ex. cbn [bind].
    destruct (@process_sample_silent (Z.to_nat k) ch g x Hg Hall)
      as (g' & y & Ep & Zy & Hg' & Hall'); [lia|lia|exact Zx|].
    rewrite Ep. cbn [bind].
    destruct (@silent_set 2 n buf ch i y Hbuf) as (buf' & Es & Hbuf');
      [lia|lia|exact Zy|].
    rewrite Es. cbn [bind]. eexists. split; [reflexivity|]. simpl. auto.
  - rewrite E. cbn [bind]. cbn [snd] in Hwet.
    destruct (f_ltb (f_lit 1 100) (DiffusionNetwork.thrustAmount d)).
    + destruct (@duplicator_silent (DiffusionNetwork.lowMidFilter d) 2 n wet
                  Hlm (le_n 2) Hwet) as (lm & wet' & El & Hwet').
      rewrite El. cbn [bind]. eauto.
    + eauto.
Qed.

(** The comb bank loop over a silent stereo block. *)
Lemma comb_loop_silent (me : @ModulationEngine.t Q Q) (n : nat)
      (cs : list (list (@CombFilter.t Q Q))) (wet : AudioBuffer Q) :
  length (ModulationEngine.smoothedOutputs me) = 8%nat ->
  grid_shape 2 8 cs -> grid_all comb_silent cs -> silent_block 2 n wet ->
  exists cs' wet',
    for_loop n (fun sample st =>
        for_loop 2 (AlgorithmicReverb.comb_channel me sample) st)
      (cs, wet) = Some (cs', wet') /\
    silent_block 2 n wet'.
Proof.
  intros Hme Hs Ha Hwet. unfold for_loop at 1.
  destruct (@for_from_total _
              (fun st : list (list (@CombFilter.t Q Q)) * AudioBuffer Q =>
                 grid_shape 2 8 (fst st) /\
                 grid_all comb_silent (fst st) /\
                 silent_block 2 n (snd st))
              (fun sample st =>
                 for_loop 2 (AlgorithmicReverb.comb_channel me sample) st)
              n 0%Z (cs, wet))
    as ([cs' wet'] & E & _ & _ & Hwet').
  - simpl. auto.
  - intros sample st Hsample Hst. unfold for_loop.
    apply for_from_total; [exact Hst|].
    intros ch [g buf] Hch (Hg & Hall & Hbuf). cbn [fst snd] in Hg, Hall, Hbuf.
    unfold AlgorithmicReverb.comb_channel.
    destruct (@silent_get 2 n buf ch sample Hbuf) as (x & Ex & Zx);
      [lia|lia|].
    rewrite Ex. cbn [bind].
    destruct (@comb_bank_silent me ch g x Hme Hg Hall)
      as (g' & sum & Eb & Zs & Hg' & Hall'); [lia|exact Zx|].
    rewrite Eb. cbn [bind].
    destruct (@silent_set 2 n buf ch sample sum Hbuf) as (buf' & Es & Hbuf');
      [lia|lia|exact Zs|].
    rewrite Es. cbn [bind]. eexists. split; [reflexivity|]. simpl. auto.
  - exists cs', wet'. auto.
Qed.

(** [reset] takes a prepared reverb to a silent one. *)
Lemma reset_silent (r : @AlgorithmicReverb.t Q Q J) :
  reverb_ready r ->
  exists r1, AlgorithmicReverb.reset r = Some r1 /\ reverb_silent r1.
Proof.
  intros ((P & Lp & Hp & Hpds & HP) & Hcs & Hcr
          & (Hfs & Har & T0 & T1 & Hlm) & Hhc & Hlc & Hme).
  unfold AlgorithmicReverb.reset.
  destruct (reverb_reset_loops Lp Hcs)
    as (pdb & cs & E & Lp' & Hp' & Hcs' & Hc).
  rewrite E. cbn [bind].
  destruct (diffusion_reset_spec Hfs) as (dn & Ed & Hfs' & Ha & Elm & Eth & _).
  rewrite Ed. cbn [bind].
  destruct Hme as (Hms & period & Eper & Hper & Hdc).
  destruct (modulation_reset_spec Hms)
    as (me & Em & Hm' & _ & _ & _ & _ & _ & Esr & Edc).
  rewrite Em. cbn [bind]. eexists. split; [reflexivity|].
  unfold reverb_silent.
  cbn [AlgorithmicReverb.preDelayWriteIndex AlgorithmicReverb.preDelayBuffer
       AlgorithmicReverb.combFilters AlgorithmicReverb.diffusionNetwork
       AlgorithmicReverb.highCutFilter AlgorithmicReverb.lowCutFilter
       AlgorithmicReverb.modulationEngine AlgorithmicReverb.preDelaySamples].
  split.
  { exists P. split; [split; [exact Lp'|]|].
    - intros b Hb. destruct (In_vec_get Hb) as (ch & Bch & Ech).
      destruct (@vec_get_some _ (AlgorithmicReverb.preDelayBuffer r) ch)
        as (b0 & E0 & Hin0); [unfold size in *; lia|].
      rewrite (Hp' ch b0 E0) in Ech. inversion Ech; subst b.
      unfold fill. rewrite repeat_length.
      split; [apply Hp; exact Hin0|apply all_zero_repeat].
    - split; [lia|]. split; assumption. }
  split; [exact Hcs'|].
  split.
  { exact (@grid_all_map _ comb_ready comb_silent CombFilter.reset 2 8
             (AlgorithmicReverb.combFilters r) cs Hcs' Hcr
             comb_reset_silent Hc). }
  split.
  { unfold diffusion_silent. rewrite Elm, Eth.
    split; [exact Hfs'|]. split.
    - exact (@grid_all_map _ allpass_ready allpass_silent AllpassFilter.reset
               2 8 _ _ Hfs' Har allpass_reset_silent Ha).
    - split; [exact T0|]. split; [exact T1|].
      apply duplicator_reset_cleared. exact Hlm. }
  split; [apply duplicator_reset_cleared; exact Hhc|].
  split; [apply duplicator_reset_cleared; exact Hlc|].
  split; [exact Hm'|]. exists period. rewrite Esr, Edc. auto.
Qed.

(** [process] takes a silent reverb and a block of silence to a block of
    silence. *)
Lemma process_silent (r : @AlgorithmicReverb.t Q Q J) (k n : nat)
      (buffer : AudioBuffer Q) :
  reverb_silent r -> (1 <= k <= 2)%nat -> silent_block k n buffer ->
  exists r' out,
    AlgorithmicReverb.process r buffer = Some (r', out) /\
    silent_block k n out.
Proof.
  intros ((P & Hp & Hpdw & Hpds & HP) & Hcs & Hca & Hdn & Hhc & Hlc & Hme)
         Hk Hb.
  unfold AlgorithmicReverb.process. cbv zeta.
  assert (En : numSamples buffer = n) by (destruct Hb; assumption).
  rewrite En.
  assert (Enc : jmin_int (getNumChannels buffer) 2 = Z.of_nat k).
  { destruct Hb as (_ & Lk & _). unfold getNumChannels, size, jmin_int.
    rewrite Lk. destruct (Z.ltb_spec 2 (Z.of_nat k)); lia. }
  rewrite Enc, Nat2Z.id.
  destruct (@predelay_loop_silent _ P k n (AlgorithmicReverb.preDelaySamples r)
              buffer (AlgorithmicReverb.modulationEngine r)
              (AlgorithmicReverb.preDelayBuffer r)
              (AlgorithmicReverb.preDelayWriteIndex r)
              Hk Hb Hpds HP Hme Hp Hpdw)
    as (me & pdb & pdw & wet1 & E1 & Hme' & Hw1).
  rewrite E1. cbn [bind].
  destruct (diffusion_process_silent Hdn Hw1) as (dn & wet2 & E2 & Hw2).
  rewrite E2. cbn [bind].
  assert (Lso : length (ModulationEngine.smoothedOutputs me) = 8%nat)
    by apply Hme'.
  destruct (comb_loop_silent Lso Hcs Hca Hw2) as (cs & wet3 & E3 & Hw3).
  rewrite E3. cbn [bind].
  destruct (duplicator_silent Hhc (le_n 2) Hw3) as (hc & wet4 & E4 & Hw4).
  rewrite E4. cbn [bind].
  destruct (duplicator_silent Hlc (le_n 2) Hw4) as (lc & wet5 & E5 & Hw5).
  rewrite E5. cbn [bind].
  destruct (apply_width_silent (AlgorithmicReverb.width r) Hw5)
    as (wet6 & E6 & Hw6).
  rewrite E6. cbn [bind].
  destruct (peak_loop_total Hw6) as (mx & E7). rewrite E7. cbn [bind].
  destruct (@copy_back_silent k n buffer wet6) as (out & E8 & Hout);
    [lia|exact Hb|exact Hw6|].
  rewrite E8. cbn [bind]. eexists. eexists. split; [reflexivity|exact Hout].
Qed.

(** In exact arithmetic, with a JUCE filter that answers silence with
    silence from cleared registers: a reverb as [prepare] and the
    setters leave it, whatever its parameters, is reset; [process] on a
    block of one or two channels of [n] zero samples then returns, and
    the block it returns has the same channels of [n] zero samples.
    This is the idealisation only: in binary32 the read position of a
    comb unit can round up onto the length of its buffer, see
    [silent_block_reads_past_buffer]. *)
Lemma silence_after_reset (r : @AlgorithmicReverb.t Q Q J) (k n : nat)
        (buffer : AudioBuffer Q) :
  reverb_ready r -> (1 <= k <= 2)%nat -> silent_block k n buffer ->
  exists r1 r2 out,
    AlgorithmicReverb.reset r = Some r1 /\
    AlgorithmicReverb.process r1 buffer = Some (r2, out) /\
    silent_block k n out.
Proof.
  intros Hr Hk Hb.
  destruct (reset_silent Hr) as (r1 & E1 & H1).
  destruct (process_silent H1 Hk Hb) as (r2 & out & E2 & Hout).
  exists r1, r2, out. auto.
Qed.
End Silence.

Lemma comb_readyb_sound (c : @CombFilter.t Q Q) :
  comb_readyb c = true -> comb_ready c.
Proof.
  unfold comb_readyb, comb_ready. rewrite !andb_true_iff.
  rewrite Z.leb_le, Z.eqb_eq, Z.ltb_lt. tauto.
Qed.

Lemma allpass_readyb_sound (a : @AllpassFilter.t Q Q) :
  allpass_readyb a = true -> allpass_ready a.
Proof.
  unfold allpass_readyb, allpass_ready. rewrite !andb_true_iff.
  rewrite Z.leb_le, Z.eqb_eq, Z.ltb_lt, !Qle_bool_iff. tauto.
Qed.

Lemma grid_readyb_sound {A} (p : A -> bool) (P : A -> Prop)
      (g : list (list A)) :
  (forall a, p a = true -> P a) ->
  grid_readyb p g = true -> grid_shape 2 8 g /\ grid_all P g.
Proof.
  intros Hp. unfold grid_readyb. rewrite andb_true_iff, Nat.eqb_eq.
  rewrite forallb_forall. intros [L H]. split; [split; [exact L|]|].
  - intros row Hrow. specialize (H row Hrow).
    apply andb_true_iff in H. apply Nat.eqb_eq. tauto.
  - intros row Hrow a Ha. specialize (H row Hrow).
    apply andb_true_iff in H. destruct H as [_ H].
    rewrite forallb_forall in H. auto.
Qed.

Lemma modulation_readyb_sound (m : @ModulationEngine.t Q Q) :
  modulation_readyb m = true -> modulation_ready m.
Proof.
  unfold modulation_readyb, modulation_ready, modulation_shape.
  rewrite !andb_true_iff, !Nat.eqb_eq.
  intros [((((L1 & L2) & L3) & L4) & L5) H].
  split; [tauto|].
  destruct (f_to_int _) as [period|]; [|discriminate].
  exists period. split; [reflexivity|].
  rewrite !andb_true_iff, Z.ltb_lt, !Z.leb_le in H. tauto.
Qed.

Lemma reverb_readyb_sound {J : JuceDSP Q Q} (r : @AlgorithmicReverb.t Q Q J) :
  reverb_readyb r = true -> reverb_ready r.
Proof.
  unfold reverb_readyb, reverb_ready, diffusion_ready, duplicator_ready.
  rewrite !andb_true_iff, !Nat.leb_le, !Qle_bool_iff.
  intros ((((((((Hp & Hc) & Ha) & T0) & T1) & D1) & D2) & D3) & Hm).
  destruct (grid_readyb_sound comb_readyb_sound Hc) as [C1 C2].
  destruct (grid_readyb_sound allpass_readyb_sound Ha) as [A1 A2].
  pose proof (modulation_readyb_sound Hm) as Hm'.
  split; [|tauto].
  destruct (AlgorithmicReverb.preDelayBuffer r) as [|b0 [|b1 [|b2 l]]];
    try discriminate Hp.
  rewrite !andb_true_iff, Nat.eqb_eq, Z.leb_le, !Z.ltb_lt in Hp.
  destruct Hp as (L & (H0 & H1) & H2). unfold size in H1, H2.
  exists (length b0). split; [reflexivity|]. split; [|tauto].
  intros b [<-|[<-|[]]]; auto.
Qed.

(** The stand-in biquad answers silence with silence. *)
Lemma biquad_run_silent (c : @biquad Q) :
  forall (xs : list Q) (st : Q * Q),
    fst st == 0 -> snd st == 0 -> all_zero xs ->
    length (snd (biquad_run c st xs)) = length xs /\
    all_zero (snd (biquad_run c st xs)).
Proof.
  induction xs as [|x xs IH]; intros [s1 s2] H1 H2 Hx; cbn [fst snd] in *.
  - split; [reflexivity|constructor].
  - inversion Hx as [|? ? Zx Zxs]; subst. cbn [biquad_run].
    unfold biquad_step. cbv zeta. cbn [fst snd].
    assert (Zy : (bq0 c * x + s1)%fl == 0) by (q_norm; rewrite Zx, H1; ring).
    match goal with
    | |- context [biquad_run c ?st xs] =>
        destruct (IH st) as [L Z];
        [cbn [fst]; q_norm; rewrite Zx, H1, H2; ring
        |cbn [snd]; q_norm; rewrite Zx, H1; ring
        |exact Zxs
        |destruct (biquad_run c st xs) as [st2 ys]]
    end.
    cbn [snd] in *. split; [simpl; lia|]. constructor; assumption.
Qed.

Lemma biquad_keeps_silence : @iir_keeps_silence juceQ.
Proof.
  intros c xs Hx. apply biquad_run_silent; [reflexivity|reflexivity|exact Hx].
Qed.

Section RunQ.
#[local] Existing Instance libmQ.
#[local] Existing Instance juceQ.

Lemma silence_after_reset_witness :
  exists r1 r2 out,
    AlgorithmicReverb.reset tuned_reverb = Some r1 /\
    AlgorithmicReverb.process r1 (cleared 2 3) = Some (r2, out) /\
    silent_block 2 3 out.
Proof.
  apply (@silence_after_reset libmQ juceQ biquad_keeps_silence
           tuned_reverb 2 3 (cleared 2 3)).
  - apply reverb_readyb_sound. vm_compute. reflexivity.
  - lia.
  - apply silent_cleared.
Defined.
End RunQ.

(** ** Memory safety of [process], in exact arithmetic *)

(** The interpolated read and the write of a delay line of [n] cells
    stay inside the buffer. *)
Lemma delay_line_access (buffer : list Q) (w : Z) (pos : Q) (i0 i1 : Z)
      (x : Q) :
  (0 <= w < size buffer)%Z -> (size buffer < INT_MAX)%Z ->
  (0 <= i0 < size buffer)%Z -> (0 <= i1 < size buffer)%Z ->
  exists b0 b1 w',
    vec_get buffer i0 = Some b0 /\ vec_get buffer i1 = Some b1 /\
    vec_set buffer w x = Some (upd (Z.to_nat w) x buffer) /\
    int_ok (w + 1) = Some (w + 1)%Z /\
    int_rem (w + 1) (size buffer) = Some w' /\
    (0 <= w' < size buffer)%Z.
Proof.
  intros Hw Hmax B0 B1.
  destruct (@vec_get_some _ buffer i0 B0) as (b0 & G0 & _).
  destruct (@vec_get_some _ buffer i1 B1) as (b1 & G1 & _).
  exists b0, b1, (Z.rem (w + 1) (size buffer)).
  split; [exact G0|]. split; [exact G1|].
  split; [apply vec_set_some; exact Hw|].
  split; [apply int_ok_some; unfold INT_MIN, INT_MAX in *; lia|].
  split.
  - unfold int_rem.
    replace (size buffer =? 0)%Z with false
      by (symmetry; apply Z.eqb_neq; lia).
    reflexivity.
  - rewrite Z.rem_mod_nonneg by lia. apply Z.mod_pos_bound. lia.
Qed.

(** A running comb unit takes one call of [processModulated]. *)
Lemma comb_modulated_running (c : @CombFilter.t Q Q) (x off : Q) :
  comb_running c ->
  exists y c',
    CombFilter.processModulated c x off = Some (y, c') /\
    comb_running c' /\
    length (CombFilter.buffer c') = length (CombFilter.buffer c).
Proof.
  intros ((Hm & Hs & Hmax) & Hw).
  unfold CombFilter.processModulated.
  assert (H1m : 1 <= inject_Z (CombFilter.maxDelay c)).
  { change 1 with (inject_Z 1). rewrite <- Zle_Qle. exact Hm. }
  destruct (@Q_jlimit_bounds 1 (inject_Z (CombFilter.maxDelay c))
              (CombFilter.currentDelay c + off) H1m) as [Hd1 Hd2].
  destruct (@read_indices (CombFilter.writeIndex c)
              (CombFilter.maxDelay c)
              (jlimit 1 (inject_Z (CombFilter.maxDelay c))
                      (CombFilter.currentDelay c + off))
              (size (CombFilter.buffer c)) Hm Hs Hmax Hw Hd1 Hd2)
    as (i0 & i1 & E0 & E1 & E2 & B0 & B1).
  q_norm. q_norm.
  change (@f_of_int Q Q_arith) with inject_Z in E0.
  rewrite E0. cbn [bind]. rewrite E1. cbn [bind]. rewrite E2. cbn [bind].
  destruct (@delay_line_access (CombFilter.buffer c) (CombFilter.writeIndex c)
              0 i0 i1 0 Hw Hmax B0 B1)
    as (b0 & b1 & w' & G0 & G1 & _ & Ew0 & Ew & Bw).
  rewrite G0, G1. cbn [bind].
  rewrite vec_set_some by exact Hw. cbn [bind].
  rewrite Ew0. cbn [bind]. rewrite Ew. cbn [bind].
  eexists. eexists. split; [reflexivity|].
  unfold comb_running, comb_ready.
  cbn [CombFilter.maxDelay CombFilter.buffer CombFilter.writeIndex].
  rewrite size_upd, upd_length. repeat split; try assumption; lia.
Qed.

(** A running allpass unit takes one call of [process]. *)
Lemma allpass_process_running (a : @AllpassFilter.t Q Q) (x : Q) :
  allpass_running a ->
  exists y a',
    AllpassFilter.process a x = Some (y, a') /\
    allpass_running a' /\
    length (AllpassFilter.buffer a') = length (AllpassFilter.buffer a).
Proof.
  intros ((Hm & Hs & Hmax & Hd1 & Hd2) & Hw).
  unfold AllpassFilter.process.
  destruct (@read_indices (AllpassFilter.writeIndex a)
              (AllpassFilter.maxDelay a) (AllpassFilter.currentDelay a)
              (size (AllpassFilter.buffer a)) Hm Hs Hmax Hw Hd1 Hd2)
    as (i0 & i1 & E0 & E1 & E2 & B0 & B1).
  rewrite E0. cbn [bind]. rewrite E1. cbn [bind]. rewrite E2. cbn [bind].
  destruct (@delay_line_access (AllpassFilter.buffer a)
              (AllpassFilter.writeIndex a) 0 i0 i1 0 Hw Hmax B0 B1)
    as (b0 & b1 & w' & G0 & G1 & _ & Ew0 & Ew & Bw).
  rewrite G0, G1. cbn [bind].
  rewrite vec_set_some by exact Hw. cbn [bind].
  rewrite Ew0. cbn [bind]. rewrite Ew. cbn [bind].
  eexists. eexists. split; [reflexivity|].
  unfold allpass_running, allpass_ready.
  cbn [AllpassFilter.maxDelay AllpassFilter.buffer AllpassFilter.writeIndex
       AllpassFilter.currentDelay].
  rewrite size_upd, upd_length. repeat split; try assumption; lia.
Qed.

Section BlockShape.
Context {F : Type} {AF : Arith F}.

Lemma shape_get (k n : nat) (b : AudioBuffer F) (ch i : Z) :
  block_shape k n b -> (0 <= ch < Z.of_nat k)%Z -> (0 <= i < Z.of_nat n)%Z ->
  exists x, getSample b ch i = Some x.
Proof.
  intros (Hn & Hk & Hc) Hch Hi. unfold getSample.
  destruct (@vec_get_some _ (chans b) ch) as (c & Ec & Hin);
    [unfold size; lia|].
  destruct (@vec_get_some _ c i) as (x & Ex & _);
    [unfold size; rewrite (Hc _ Hin); lia|].
  rewrite Ec. cbn [bind]. eauto.
Qed.

Lemma shape_set (k n : nat) (b : AudioBuffer F) (ch i : Z) (x : F) :
  block_shape k n b -> (0 <= ch < Z.of_nat k)%Z -> (0 <= i < Z.of_nat n)%Z ->
  exists b', setSample b ch i x = Some b' /\ block_shape k n b'.
Proof.
  intros (Hn & Hk & Hc) Hch Hi. unfold setSample.
  destruct (@vec_get_some _ (chans b) ch) as (c & Ec & Hin);
    [unfold size; lia|].
  pose proof (Hc _ Hin) as Lc.
  rewrite Ec. cbn [bind].
  rewrite (@vec_set_some _ c i) by (unfold size; lia). cbn [bind].
  rewrite (@vec_set_some _ (chans b) ch) by (unfold size; lia). cbn [bind].
  eexists. split; [reflexivity|].
  split; [exact Hn|]. cbn [chans]. split; [rewrite upd_length; exact Hk|].
  intros c' Hc'. apply In_upd in Hc'. destruct Hc' as [->|Hc']; [|auto].
  rewrite upd_length. exact Lc.
Qed.

Lemma shape_cleared (k n : nat) : block_shape k n (@cleared F _ k n).
Proof.
  unfold cleared, block_shape; cbn [numSamples chans].
  split; [reflexivity|]. split; [apply repeat_length|].
  intros c Hc. apply repeat_spec in Hc. subst c. apply repeat_length.
Qed.

(** Copying channels of one block over those of another of the same
    shape leaves the shape and the channels that are not copied. *)
Lemma copy_back_shape (m k n : nat) (buffer wet : AudioBuffer F) :
  (m <= k)%nat -> (m <= 2)%nat ->
  block_shape k n buffer -> block_shape 2 n wet ->
  exists out,
    for_loop m (fun ch out => copyFrom out ch wet) buffer = Some out /\
    block_shape k n out /\
    (forall ch, (0 <= ch < Z.of_nat m)%Z ->
                vec_get (chans out) ch = vec_get (chans wet) ch) /\
    (forall ch, (Z.of_nat m <= ch)%Z ->
                vec_get (chans out) ch = vec_get (chans buffer) ch).
Proof.
  intros Hm H2 Hb (Wn & Wk & Wc). unfold for_loop.
  destruct (@for_from_ind _
              (fun i (out : AudioBuffer F) =>
                 block_shape k n out /\
                 (forall ch, (0 <= ch < i)%Z ->
                             vec_get (chans out) ch = vec_get (chans wet) ch) /\
                 (forall ch, (i <= ch)%Z ->
                             vec_get (chans out) ch =
                               vec_get (chans buffer) ch))
              (fun ch out => copyFrom out ch wet) m 0%Z buffer)
    as (out & E & H).
  - split; [exact Hb|]. split; [intros; lia|reflexivity].
  - intros ch out Hch ((On & Ok & Oc) & Hlo & Hhi). unfold copyFrom.
    destruct (@vec_get_some _ (chans wet) ch) as (c & Ec & Hin);
      [unfold size; lia|].
    rewrite Ec. cbn [bind].
    rewrite vec_set_some by (unfold size; lia). cbn [bind].
    eexists. split; [reflexivity|]. unfold block_shape. cbn [chans numSamples].
    split; [split; [exact On|split; [rewrite upd_length; exact Ok|]]|].
    + intros c' Hc'. apply In_upd in Hc'. destruct Hc' as [->|Hc']; auto.
    + split; intros ch' Hch'; rewrite vec_get_upd by (unfold size; lia).
      * destruct (ch' =? ch)%Z eqn:Eq.
        -- apply Z.eqb_eq in Eq. subst ch'. symmetry. exact Ec.
        -- apply Z.eqb_neq in Eq. apply Hlo. lia.
      * destruct (ch' =? ch)%Z eqn:Eq.
        -- apply Z.eqb_eq in Eq. lia.
        -- apply Hhi. lia.
  - exists out. rewrite Z.add_0_l in H. tauto.
Qed.
End BlockShape.

Lemma apply_width_shape (w : Q) (n : nat) (b : AudioBuffer Q) :
  block_shape 2 n b ->
  exists b', AlgorithmicReverb.apply_width w n b = Some b' /\
             block_shape 2 n b'.
Proof.
  intros Hb. unfold AlgorithmicReverb.apply_width.
  destruct (f_ltb _ _); [|exists b; auto].
  apply for_from_total; [exact Hb|].
  intros j s Hj Hs.
  destruct (@shape_get _ 2 n s 0 j Hs) as (l & El); [lia|lia|].
  destruct (@shape_get _ 2 n s 1 j Hs) as (r & Er); [lia|lia|].
  rewrite El, Er. cbn [bind].
  destruct (AlgorithmicReverb.widen w l r) as [l' r'].
  destruct (@shape_set _ 2 n s 0 j l' Hs) as (s1 & E1 & H1); [lia|lia|].
  rewrite E1. cbn [bind].
  apply shape_set; [exact H1|lia|lia].
Qed.

Lemma block_peak_total (n : nat) (b : AudioBuffer Q) :
  block_shape 2 n b ->
  exists mx, AlgorithmicReverb.block_peak n b = Some mx.
Proof.
  intros Hb. pose proof Hb as (Hn & Hk & Hc).
  unfold AlgorithmicReverb.block_peak, getNumChannels, size. rewrite Hk.
  change (Z.to_nat (Z.of_nat 2)) with 2%nat.
  destruct (@for_from_total _ (fun _ : Q => True)
              (fun ch mx =>
                 for_loop n (fun sample mx =>
                     x <- getSample b ch sample ;;
                     Some (jmax mx (f_abs x)))
                   mx) 2 0%Z fzero I) as (mx & E & _).
  - intros ch mx Hch _.
    destruct (@for_from_total _ (fun _ : Q => True)
                (fun sample mx =>
                   x <- getSample b ch sample ;;
                   Some (jmax mx (f_abs x))) n 0%Z mx I) as (mx' & E & _).
    + intros j s Hj _.
      destruct (@shape_get _ 2 n b ch j Hb) as (x & Ex); [lia|lia|].
      rewrite Ex. cbn [bind]. eauto.
    + exists mx'. auto.
  - exists mx. exact E.
Qed.

(** One sample through [n] running allpass stages. *)
Lemma process_sample_running (n : nat) (ch : Z)
      (fs : list (list (@AllpassFilter.t Q Q))) (x : Q) :
  grid_shape 2 8 fs -> grid_all allpass_running fs ->
  (0 <= ch < 2)%Z -> (n <= 8)%nat ->
  exists fs' y,
    DiffusionNetwork.process_sample n ch (fs, x) = Some (fs', y) /\
    grid_shape 2 8 fs' /\ grid_all allpass_running fs'.
Proof.
  intros Hs Ha Hch Hn. unfold DiffusionNetwork.process_sample, for_loop.
  destruct (@for_from_total _
              (fun st : list (list (@AllpassFilter.t Q Q)) * Q =>
                 grid_shape 2 8 (fst st) /\ grid_all allpass_running (fst st))
              (DiffusionNetwork.stage_step ch) n 0%Z (fs, x))
    as ([fs' y] & E & Hs' & Ha').
  - simpl. auto.
  - intros j [g z] Hj (Hg & Hall). simpl in Hg, Hall.
    destruct (@grid_cell _ 2 8 g ch j Hg) as (row & a & Er & Hin & Ea & Hina
                                              & Bc & Bj); [lia|lia|].
    unfold DiffusionNetwork.stage_step. rewrite Er. cbn [bind].
    rewrite Ea. cbn [bind].
    destruct (@allpass_process_running a z (Hall _ Hin _ Hina))
      as (y' & a' & Ep & Ha'' & _).
    rewrite Ep. cbn [bind].
    rewrite (@vec_set_some _ row j) by exact Bj. cbn [bind].
    rewrite (@vec_set_some _ g ch) by exact Bc. cbn [bind].
    eexists. split; [reflexivity|]. simpl.
    exact (@grid_put _ allpass_running 2 8 g row (Z.to_nat ch) (Z.to_nat j)
             a' Hg Hall Hin Ha'').
  - exists fs', y. simpl in *. auto.
Qed.

(** The eight running combs of a channel take one sample. *)
Lemma comb_bank_running (me : @ModulationEngine.t Q Q) (ch : Z)
      (cs : list (list (@CombFilter.t Q Q))) (input : Q) :
  length (ModulationEngine.smoothedOutputs me) = 8%nat ->
  grid_shape 2 8 cs -> grid_all comb_running cs -> (0 <= ch < 2)%Z ->
  exists cs' sum,
    for_loop 8 (AlgorithmicReverb.comb_step me ch input) (cs, fzero) =
      Some (cs', sum) /\
    grid_shape 2 8 cs' /\ grid_all comb_running cs'.
Proof.
  intros Hme Hs Ha Hch. unfold for_loop.
  destruct (@for_from_total _
              (fun st : list (list (@CombFilter.t Q Q)) * Q =>
                 grid_shape 2 8 (fst st) /\ grid_all comb_running (fst st))
              (AlgorithmicReverb.comb_step me ch input) 8 0%Z (cs, fzero))
    as ([cs' y] & E & Hs' & Ha').
  - simpl. auto.
  - intros j [g z] Hj (Hg & Hall). simpl in Hg, Hall.
    unfold AlgorithmicReverb.comb_step.
    destruct (@vec_get_some _ (ModulationEngine.smoothedOutputs me) j)
      as (m & Em & _); [unfold size; lia|].
    unfold ModulationEngine.getModulation, ModulationEngine.NumOutputs.
    replace ((j <? 0) || (j >=? 8))%Z with false
      by (symmetry; apply orb_false_iff; split;
          [apply Z.ltb_ge|rewrite Z.geb_leb; apply Z.leb_gt]; lia).
    rewrite Em. cbn [bind].
    destruct (@grid_cell _ 2 8 g ch j Hg) as (row & c & Er & Hin & Ec & Hinc
                                              & Bc & Bj); [lia|lia|].
    rewrite Er. cbn [bind]. rewrite Ec. cbn [bind].
    destruct (@comb_modulated_running c
                (input / f_of_int AlgorithmicReverb.NumCombFilters)%fl m
                (Hall _ Hin _ Hinc))
      as (y' & c' & Ep & Hc' & _).
    rewrite Ep. cbn [bind].
    rewrite (@vec_set_some _ row j) by exact Bj. cbn [bind].
    rewrite (@vec_set_some _ g ch) by exact Bc. cbn [bind].
    unfold int_rem. cbn [Z.eqb bind].
    eexists. split; [reflexivity|]. cbn [fst snd].
    exact (@grid_put _ comb_running 2 8 g row (Z.to_nat ch) (Z.to_nat j)
             c' Hg Hall Hin Hc').
  - exists cs', y. simpl in *. auto.
Qed.

(** The comb bank loop over a stereo block. *)
Lemma comb_loop_running (me : @ModulationEngine.t Q Q) (n : nat)
      (cs : list (list (@CombFilter.t Q Q))) (wet : AudioBuffer Q) :
  length (ModulationEngine.smoothedOutputs me) = 8%nat ->
  grid_shape 2 8 cs -> grid_all comb_running cs -> block_shape 2 n wet ->
  exists cs' wet',
    for_loop n (fun sample st =>
        for_loop 2 (AlgorithmicReverb.comb_channel me sample) st)
      (cs, wet) = Some (cs', wet') /\
    grid_shape 2 8 cs' /\ grid_all comb_running cs' /\ block_shape 2 n wet'.
Proof.
  intros Hme Hs Ha Hwet. unfold for_loop at 1.
  destruct (@for_from_total _
              (fun st : list (list (@CombFilter.t Q Q)) * AudioBuffer Q =>
                 grid_shape 2 8 (fst st) /\
                 grid_all comb_running (fst st) /\
                 block_shape 2 n (snd st))
              (fun sample st =>
                 for_loop 2 (AlgorithmicReverb.comb_channel me sample) st)
              n 0%Z (cs, wet))
    as ([cs' wet'] & E & H).
  - simpl. auto.
  - intros sample st Hsample Hst. unfold for_loop.
    apply for_from_total; [exact Hst|].
    intros ch [g buf] Hch (Hg & Hall & Hbuf). cbn [fst snd] in Hg, Hall, Hbuf.
    unfold AlgorithmicReverb.comb_channel.
    destruct (@shape_get _ 2 n buf ch sample Hbuf) as (x & Ex); [lia|lia|].
    rewrite Ex. cbn [bind].
    destruct (@comb_bank_running me ch g x Hme Hg Hall)
      as (g' & sum & Eb & Hg' & Hall'); [lia|].
    rewrite Eb. cbn [bind].
    destruct (@shape_set _ 2 n buf ch sample sum Hbuf) as (buf' & Es & Hbuf');
      [lia|lia|].
    rewrite Es. cbn [bind]. eexists. split; [reflexivity|]. simpl. auto.
  - exists cs', wet'. auto.
Qed.

Section RunningBlocks.
Context {LM : Libm Q} {J : JuceDSP Q Q}.
Hypothesis iir_length : iir_keeps_length.

Lemma run_shape (c : Coefficients) (n : nat) :
  forall (chs : list (list Q)) (ps : list IIRFilter),
    (length chs <= length ps)%nat ->
    (forall x, In x chs -> length x = n) ->
    exists ps' os,
      Duplicator.run c ps chs = Some (ps', os) /\
      length ps' = length ps /\ length os = length chs /\
      forall o, In o os -> length o = n.
Proof.
  induction chs as [|ch chs IH]; intros ps Hlen Hch.
  - exists ps, []. split; [destruct ps; reflexivity|].
    split; [reflexivity|]. split; [reflexivity|]. intros o [].
  - destruct ps as [|p ps]; [simpl in Hlen; lia|].
    cbn [Duplicator.run].
    pose proof (iir_length c p ch) as L1.
    destruct (iir_process c p ch) as [p' o]. cbn [snd] in L1.
    destruct (IH ps) as (ps' & os & E & Lps & Los & Hos).
    + simpl in Hlen. lia.
    + intros x Hx. apply Hch. right. exact Hx.
    + rewrite E. cbn [bind]. exists (p' :: ps'), (o :: os).
      split; [reflexivity|]. split; [simpl; lia|]. split; [simpl; lia|].
      intros o' [<-|Ho]; [|auto].
      rewrite L1. apply Hch. left. reflexivity.
Qed.

Lemma duplicator_shape (d : @Duplicator.t Q Q J) (k n : nat)
      (b : AudioBuffer Q) :
  duplicator_ready d -> (k <= 2)%nat -> block_shape k n b ->
  exists d' b',
    Duplicator.process d b = Some (d', b') /\
    duplicator_ready d' /\ block_shape k n b'.
Proof.
  intros Hd Hk (Hn & Hlen & Hc). unfold Duplicator.process.
  unfold duplicator_ready in Hd.
  destruct (@run_shape (Duplicator.state d) n (chans b)
              (Duplicator.processors d) ltac:(lia) Hc)
    as (ps' & os & E & Lps & Los & Hos).
  rewrite E. cbn [bind]. eexists. eexists. split; [reflexivity|].
  split.
  - unfold duplicator_ready. cbn [Duplicator.processors]. lia.
  - split; [exact Hn|]. cbn [chans]. split; [lia|exact Hos].
Qed.

(** The diffusion network takes a block of at most two channels. *)
Lemma diffusion_process_running (d : @DiffusionNetwork.t Q Q J) (k n : nat)
      (b : AudioBuffer Q) :
  diffusion_running d -> (k <= 2)%nat -> block_shape k n b ->
  exists d' b',
    DiffusionNetwork.process d b = Some (d', b') /\
    diffusion_running d' /\ block_shape k n b' /\
    DiffusionNetwork.thrustAmount d' = DiffusionNetwork.thrustAmount d.
Proof.
  intros (Hs & Ha & T0 & T1 & Hlm) Hk Hb.
  unfold DiffusionNetwork.process.
  destruct (active_stages_range T0 T1) as (m & Em & Bm). rewrite Em.
  cbn [bind].
  assert (Hnc : Z.to_nat (jmin_int (getNumChannels b)
                                   DiffusionNetwork.NumChannels) = k).
  { destruct Hb as (_ & Lk & _).
    unfold getNumChannels, size, jmin_int, DiffusionNetwork.NumChannels.
    rewrite Lk. destruct (Z.ltb_spec 2 (Z.of_nat k)); lia. }
  rewrite Hnc.
  assert (Hnum : numSamples b = n) by (destruct Hb; assumption).
  rewrite Hnum.
  unfold for_loop at 1.
  match goal with
  | |- context [for_from 0 k ?body ?init] =>
      destruct (@for_from_total _
                  (fun st : list (list (@AllpassFilter.t Q Q)) * AudioBuffer Q =>
                     grid_shape 2 8 (fst st) /\
                     grid_all allpass_running (fst st) /\
                     block_shape k n (snd st))
                  body k 0%Z init)
        as ([fs wet] & E & Hs' & Ha' & Hwet)
  end.
  - simpl. auto.
  - intros ch st Hch Hst. unfold for_loop.
    apply for_from_total; [exact Hst|].
    intros i [g buf] Hi (Hg & Hall & Hbuf). cbn [fst snd] in Hg, Hall, Hbuf.
    destruct (@shape_get _ k n buf ch i Hbuf) as (x & Ex); [lia|lia|].
    rewrite Ex. cbn [bind].
    destruct (@process_sample_running (Z.to_nat m) ch g x Hg Hall)
      as (g' & y & Ep & Hg' & Hall'); [lia|lia|].
    rewrite Ep. cbn [bind].
    destruct (@shape_set _ k n buf ch i y Hbuf) as (buf' & Es & Hbuf');
      [lia|lia|].
    rewrite Es. cbn [bind]. eexists. split; [reflexivity|]. simpl. auto.
  - rewrite E. cbn [bind]. cbn [fst snd] in Hs', Ha', Hwet.
    destruct (f_ltb (f_lit 1 100) (DiffusionNetwork.thrustAmount d)).
    + destruct (@duplicator_shape (DiffusionNetwork.lowMidFilter d) k n wet
                  Hlm Hk Hwet) as (lm & wet' & El & Hlm' & Hwet').
      rewrite El. cbn [bind]. eexists. eexists. split; [reflexivity|].
      split; [|split; [exact Hwet'|reflexivity]].
      unfold diffusion_running.
      cbn [DiffusionNetwork.allpassFilters DiffusionNetwork.thrustAmount
           DiffusionNetwork.lowMidFilter]. auto.
    + eexists. eexists. split; [reflexivity|].
      split; [|split; [exact Hwet|reflexivity]].
      unfold diffusion_running.
      cbn [DiffusionNetwork.allpassFilters DiffusionNetwork.thrustAmount
           DiffusionNetwork.lowMidFilter]. auto.
Qed.

(** One iteration of the first loop of [process]. *)
Lemma predelay_step_running (P k n : nat) (pds : Z) (buffer : AudioBuffer Q)
      (sample : Z) (me : @ModulationEngine.t Q Q) (pdb : list (list Q))
      (pdw : Z) (wet : AudioBuffer Q) :
  block_shape k n buffer ->
  (0 <= sample < Z.of_nat n)%Z ->
  (0 <= pds < Z.of_nat P)%Z -> (Z.of_nat P < INT_MAX)%Z ->
  modulation_ready me ->
  length pdb = 2%nat -> (forall b, In b pdb -> length b = P) ->
  (0 <= pdw < Z.of_nat P)%Z -> block_shape 2 n wet ->
  exists me' pdb' pdw' wet',
    AlgorithmicReverb.predelay_step pds buffer (jmin_int (Z.of_nat k) 2)
      sample (me, pdb, pdw, wet) = Some (me', pdb', pdw', wet') /\
    modulation_ready me' /\
    length pdb' = 2%nat /\ (forall b, In b pdb' -> length b = P) /\
    (0 <= pdw' < Z.of_nat P)%Z /\ block_shape 2 n wet'.
Proof.
  intros Hb Hsample Hpds HP Hme Lp Hp Hpdw Hwet.
  unfold AlgorithmicReverb.predelay_step.
  destruct (processSample_ready Hme) as (me' & Eme & Hme').
  rewrite Eme. cbn [bind].
  destruct pdb as [|b0 [|b1 [|b2 pdb]]]; try discriminate Lp.
  pose proof (Hp b0 (or_introl eq_refl)) as L0.
  pose proof (Hp b1 (or_intror (or_introl eq_refl))) as L1.
  rewrite vec_get_0. cbn [bind].
  rewrite int_ok_some by (unfold INT_MIN, INT_MAX in *; lia). cbn [bind].
  assert (Hidx : exists idx,
             (if (pdw - pds <? 0)%Z then int_ok (pdw - pds + size b0)
              else Some (pdw - pds)%Z) = Some idx /\
             (0 <= idx < Z.of_nat P)%Z).
  { destruct (Z.ltb_spec (pdw - pds) 0).
    - rewrite int_ok_some by (unfold size, INT_MIN, INT_MAX in *; lia).
      eexists. split; [reflexivity|]. unfold size. lia.
    - eexists. split; [reflexivity|]. lia. }
  destruct Hidx as (idx & Eidx & Bidx). rewrite Eidx. cbn [bind].
  assert (Hx : exists x,
             (if (jmin_int (Z.of_nat k) 2 >? 0)%Z
              then getSample buffer 0 sample else Some fzero) = Some x).
  { destruct (jmin_int (Z.of_nat k) 2 >? 0)%Z eqn:Ek; [|eauto].
    rewrite Z.gtb_ltb in Ek. apply Z.ltb_lt in Ek.
    apply shape_get with (k := k) (n := n); [exact Hb| |lia].
    unfold jmin_int in Ek. destruct (Z.ltb_spec 2 (Z.of_nat k)); lia. }
  destruct Hx as (x & Ex). rewrite Ex. cbn [bind].
  assert (Hy : exists y,
             (if (jmin_int (Z.of_nat k) 2 >? 1)%Z
              then getSample buffer 1 sample else Some x) = Some y).
  { destruct (jmin_int (Z.of_nat k) 2 >? 1)%Z eqn:Ek; [|eauto].
    rewrite Z.gtb_ltb in Ek. apply Z.ltb_lt in Ek.
    apply shape_get with (k := k) (n := n); [exact Hb| |lia].
    unfold jmin_int in Ek. destruct (Z.ltb_spec 2 (Z.of_nat k)); lia. }
  destruct Hy as (y & Ey). rewrite Ey. cbn [bind].
  rewrite (@vec_set_some _ b0 pdw) by (unfold size; lia). cbn [bind].
  rewrite vec_set_0. cbn [bind]. rewrite vec_get_1. cbn [bind].
  rewrite (@vec_set_some _ b1 pdw) by (unfold size; lia). cbn [bind].
  rewrite vec_set_1. cbn [bind].
  rewrite int_ok_some by (unfold INT_MIN, INT_MAX in *; lia). cbn [bind].
  unfold int_rem. rewrite size_upd.
  replace (size b0 =? 0)%Z with false
    by (symmetry; apply Z.eqb_neq; unfold size; lia).
  cbn [bind].
  destruct (@vec_get_some _ (upd (Z.to_nat pdw) x b0) idx)
    as (l & El & _); [rewrite size_upd; unfold size; lia|].
  destruct (@vec_get_some _ (upd (Z.to_nat pdw) y b1) idx)
    as (r & Er & _); [rewrite size_upd; unfold size; lia|].
  rewrite El. cbn [bind]. rewrite Er. cbn [bind].
  destruct (@shape_set _ 2 n wet 0 sample l Hwet) as (w1 & E1 & H1);
    [lia|lia|].
  rewrite E1. cbn [bind].
  destruct (@shape_set _ 2 n w1 1 sample r H1) as (w2 & E2 & H2);
    [lia|lia|].
  rewrite E2. cbn [bind].
  eexists. eexists. eexists. eexists. split; [reflexivity|].
  split; [exact Hme'|]. split; [reflexivity|]. split.
  { intros b [<-|[<-|[]]]; rewrite upd_length; auto. }
  split; [|exact H2].
  rewrite Z.rem_mod_nonneg by (unfold size; lia).
  unfold size. rewrite L0. apply Z.mod_pos_bound. lia.
Qed.

(** [process] takes a running reverb and a block of [k] channels of
    [n] samples to a running reverb and a block of that shape; the
    channels from the third on are left as they were. *)
Lemma reverb_process_running (r : @AlgorithmicReverb.t Q Q J) (k n : nat)
      (buffer : AudioBuffer Q) :
  reverb_running r -> block_shape k n buffer ->
  exists r' out,
    AlgorithmicReverb.process r buffer = Some (r', out) /\
    reverb_running r' /\ block_shape k n out /\
    (forall ch, (2 <= ch)%Z ->
                vec_get (chans out) ch = vec_get (chans buffer) ch).
Proof.
  intros ((P & Lp & Hp & Hpdw & Hpds & HP) & Hcs & Hca & Hdn & Hhc & Hlc & Hme)
         Hb.
  unfold AlgorithmicReverb.process. cbv zeta.
  assert (En : numSamples buffer = n) by (destruct Hb; assumption).
  rewrite En.
  assert (Enc : getNumChannels buffer = Z.of_nat k).
  { destruct Hb as (_ & Lk & _). unfold getNumChannels, size.
    rewrite Lk. reflexivity. }
  rewrite Enc.
  unfold for_loop at 1.
  destruct (@for_from_total _
              (fun st : @ModulationEngine.t Q Q * list (list Q) * Z
                        * AudioBuffer Q =>
                 let '(me, pdb, pdw, wet) := st in
                 modulation_ready me /\ length pdb = 2%nat /\
                 (forall b, In b pdb -> length b = P) /\
                 (0 <= pdw < Z.of_nat P)%Z /\ block_shape 2 n wet)
              (AlgorithmicReverb.predelay_step
                 (AlgorithmicReverb.preDelaySamples r) buffer
                 (jmin_int (Z.of_nat k) 2))
              n 0%Z
              (AlgorithmicReverb.modulationEngine r,
               AlgorithmicReverb.preDelayBuffer r,
               AlgorithmicReverb.preDelayWriteIndex r, cleared 2 n))
    as ([[[me pdb] pdw] wet1] & E1 & Hme' & Lp' & Hp' & Hpdw' & Hw1).
  { exact (conj Hme (conj Lp (conj Hp (conj Hpdw (@shape_cleared Q _ 2 n))))). }
  { intros j [[[m1 p1] w1] wet1] Hj (M1 & LP1 & P1 & W1 & S1).
    destruct (@predelay_step_running P k n
                (AlgorithmicReverb.preDelaySamples r) buffer j m1 p1 w1 wet1)
      as (m2 & p2 & w2 & wet2 & E2 & H2); try assumption; try lia.
    exists (m2, p2, w2, wet2). split; [exact E2|exact H2]. }
  rewrite E1. cbn [bind].
  destruct (@diffusion_process_running
              (AlgorithmicReverb.diffusionNetwork r) 2 n wet1 Hdn (le_n 2) Hw1)
    as (dn & wet2 & E2 & Hdn' & Hw2 & _).
  rewrite E2. cbn [bind].
  assert (Lso : length (ModulationEngine.smoothedOutputs me) = 8%nat)
    by apply Hme'.
  destruct (comb_loop_running Lso Hcs Hca Hw2)
    as (cs & wet3 & E3 & Hcs' & Hca' & Hw3).
  rewrite E3. cbn [bind].
  destruct (duplicator_shape Hhc (le_n 2) Hw3) as (hc & wet4 & E4 & Hhc' & Hw4).
  rewrite E4. cbn [bind].
  destruct (duplicator_shape Hlc (le_n 2) Hw4) as (lc & wet5 & E5 & Hlc' & Hw5).
  rewrite E5. cbn [bind].
  destruct (apply_width_shape (AlgorithmicReverb.width r) Hw5)
    as (wet6 & E6 & Hw6).
  rewrite E6. cbn [bind].
  destruct (block_peak_total Hw6) as (mx & E7). rewrite E7. cbn [bind].
  assert (Hm : (Z.to_nat (jmin_int (Z.of_nat k) 2) <= k)%nat /\
               (Z.to_nat (jmin_int (Z.of_nat k) 2) <= 2)%nat).
  { unfold jmin_int. destruct (Z.ltb_spec 2 (Z.of_nat k)); lia. }
  destruct (@copy_back_shape Q (Z.to_nat (jmin_int (Z.of_nat k) 2)) k n
              buffer wet6 (proj1 Hm) (proj2 Hm) Hb Hw6)
    as (out & E8 & Hout & _ & Hhi).
  rewrite E8. cbn [bind]. eexists. eexists. split; [reflexivity|].
  split.
  { unfold reverb_running.
    cbn [AlgorithmicReverb.preDelayWriteIndex AlgorithmicReverb.preDelayBuffer
         AlgorithmicReverb.combFilters AlgorithmicReverb.diffusionNetwork
         AlgorithmicReverb.highCutFilter AlgorithmicReverb.lowCutFilter
         AlgorithmicReverb.modulationEngine
         AlgorithmicReverb.preDelaySamples].
    split; [exists P; exact (conj Lp' (conj Hp' (conj Hpdw' (conj Hpds HP))))|].
    exact (conj Hcs' (conj Hca' (conj Hdn' (conj Hhc' (conj Hlc' Hme'))))). }
  split; [exact Hout|].
  intros ch Hch. apply Hhi. lia.
Qed.
End RunningBlocks.

(** ** [prepare] and the setters lead to running states *)

(** A grid whose cells all satisfy [P]. *)
Lemma grid_all_cells {A} (P : A -> Prop) (R C : nat) (g : list (list A)) :
  grid_shape R C g ->
  (forall ch i, (0 <= ch < Z.of_nat R)%Z -> (0 <= i < Z.of_nat C)%Z ->
     exists a, grid_get g ch i = Some a /\ P a) ->
  grid_all P g.
Proof.
  intros [HR HC] Hcells row Hrow a Ha.
  destruct (In_vec_get Hrow) as (ch & Bch & Ech).
  destruct (In_vec_get Ha) as (i & Bi & Ei).
  destruct (Hcells ch i) as (a0 & E0 & P0).
  { unfold size in Bch. lia. }
  { rewrite <- (HC _ Hrow). unfold size in Bi. lia. }
  unfold grid_get in E0. rewrite Ech, Ei in E0. inversion E0; subst a.
  exact P0.
Qed.

(** A grid rewritten cell by cell, the rewriting of cell [(ch, i)]
    leading from [P] to [P']. *)
Lemma grid_all_remap {A} (P P' : A -> Prop) (f : Z -> Z -> A -> A)
      (R C : nat) (g g' : list (list A)) :
  grid_shape R C g' -> grid_all P g ->
  (forall ch i a, (0 <= ch < Z.of_nat R)%Z -> (0 <= i < Z.of_nat C)%Z ->
                  P a -> P' (f ch i a)) ->
  (forall ch i, (0 <= ch < Z.of_nat R)%Z -> (0 <= i < Z.of_nat C)%Z ->
     exists a, grid_get g ch i = Some a /\
               grid_get g' ch i = Some (f ch i a)) ->
  grid_all P' g'.
Proof.
  intros Hs' Hall Hf Hcells. apply (grid_all_cells Hs').
  intros ch i Hch Hi. destruct (Hcells ch i Hch Hi) as (a & E0 & E1).
  exists (f ch i a). split; [exact E1|]. apply Hf; try assumption.
  unfold grid_get in E0.
  destruct (vec_get g ch) as [row|] eqn:Er; [|discriminate].
  eapply Hall; eapply vec_get_In; eauto.
Qed.

Lemma grid_all_true {A} (g : list (list A)) : grid_all (fun _ => True) g.
Proof. intros row _ a _. exact I. Qed.

Section EngineSetters.
Context {F D : Type} {AF : Arith F} {AD : Arith D} {CV : Conv F D}
        {LM : Libm F}.

Lemma modulation_prepare_ready (m : @ModulationEngine.t F D) (sr : D)
      (period : Z) :
  modulation_shape m ->
  f_to_int (sr * f_lit 2 1)%fl = Some period -> (period < INT_MAX)%Z ->
  (INT_MIN <= ModulationEngine.driftCounter m + 1 <= INT_MAX)%Z ->
  exists m', ModulationEngine.prepare m sr = Some m' /\ modulation_ready m'.
Proof.
  intros (L1 & L2 & L3 & L4 & L5) Ep Hp Hc. unfold ModulationEngine.prepare.
  unfold for_loop at 1.
  match goal with
  | |- exists m', bind (for_from 0 6 ?body ?init) _ = _ /\ _ =>
      destruct (@for_from_total _
                  (fun st : list F * list F =>
                     length (fst st) = 6%nat /\ length (snd st) = 6%nat)
                  body 6 0%Z init (conj L2 L1)) as ([fs ps] & E1 & Lf & Lp)
  end.
  { intros j [fs ps] Hj [Lf Lp]. cbn [fst snd] in Lf, Lp.
    rewrite !vec_set_some by (unfold size; lia). cbn [bind].
    eexists. split; [reflexivity|]. cbn [fst snd]. rewrite !upd_length. auto. }
  rewrite E1. cbn [bind fst snd] in *.
  unfold for_loop at 1.
  match goal with
  | |- exists m', bind (for_from 0 8 ?body ?init) _ = _ /\ _ =>
      destruct (@for_from_total _
                  (fun st : list F * list F =>
                     length (fst st) = 8%nat /\ length (snd st) = 8%nat)
                  body 8 0%Z init (conj L3 L4)) as ([vs ts] & E2 & Lv & Lt)
  end.
  { intros j [vs ts] Hj [Lv Lt]. cbn [fst snd] in Lv, Lt.
    rewrite !vec_set_some by (unfold size; lia). cbn [bind].
    eexists. split; [reflexivity|]. cbn [fst snd]. rewrite !upd_length. auto. }
  rewrite E2. cbn [bind fst snd] in *.
  match goal with
  | |- exists m', ModulationEngine.updateDriftTargets ?m0 = _ /\ _ =>
      destruct (updateDriftTargets_total (m := m0))
        as (m' & Eu & Hs' & Esr)
  end.
  { repeat split; assumption. }
  exists m'. split; [exact Eu|]. split; [exact Hs'|].
  exists period. rewrite Esr. cbn [ModulationEngine.sampleRate].
  split; [exact Ep|]. split; [exact Hp|].
  unfold ModulationEngine.updateDriftTargets in Eu.
  bind_inv Eu. cbn [ModulationEngine.driftCounter]. exact Hc.
Qed.

Lemma modulation_setChaos_ready (m : @ModulationEngine.t F D) (chaos : F) :
  modulation_ready m ->
  exists m', ModulationEngine.setChaos m chaos = Some m' /\
             modulation_ready m' /\
             ModulationEngine.chaosAmount m' = jlimit fzero fone chaos.
Proof.
  intros ((L1 & L2 & L3 & L4 & L5) & H). unfold ModulationEngine.setChaos.
  cbv zeta.
  destruct (@store_loop _
              (fun i (_ : list F) =>
                 Some ((f_lit 15 100 + jlimit fzero fone chaos * f_lit 5 10)
                       * powf ModulationEngine.goldenRatio
                              (f_of_int i * f_lit 7 10))%fl)
              6 (ModulationEngine.lfoFrequencies m) L2) as (fs & E & Lf).
  { intros; eauto. }
  cbn [bind] in E. rewrite E. cbn [bind].
  eexists. split; [reflexivity|]. split; [|reflexivity].
  split; [repeat split; assumption|exact H].
Qed.
End EngineSetters.

(** A delay of at most 500 ms at a sample rate of at most 2^30 Hz is a
    sample count that fits an [int] with room to spare. *)
Lemma delay_samples_int (ms sr : Q) :
  0 <= ms -> ms <= 500 -> 0 <= sr -> sr <= inject_Z (2 ^ 30) ->
  exists n,
    f_to_int (to_double ms * sr / f_lit 1000 1)%fl = Some n /\
    (0 <= n <= 2 ^ 29)%Z.
Proof.
  intros M0 M1 S0 S1. cbn [to_double Q_conv]. q_norm.
  change (f_lit 1000 1) with (1000 # 1).
  change (inject_Z (2 ^ 30)) with (1073741824 # 1) in S1.
  assert (B0 : 0 <= ms * sr / (1000 # 1)).
  { apply Qle_shift_div_l; [reflexivity|]. rewrite Qmult_0_l.
    apply Qmult_le_0_compat; assumption. }
  assert (B1 : ms * sr / (1000 # 1) <= inject_Z (2 ^ 29)).
  { apply Qle_shift_div_r; [reflexivity|].
    change (inject_Z (2 ^ 29)) with (536870912 # 1).
    assert (ms * sr <= 500 * (1073741824 # 1)).
    { apply Qle_trans with (500 * sr).
      - apply Qmult_le_compat_r; assumption.
      - apply Qmult_le_l; [reflexivity|exact S1]. }
    eapply Qle_trans; [eassumption|]. vm_compute. discriminate. }
  assert (B : (0 <= Qfloor (ms * sr / (1000 # 1)) <= 2 ^ 29)%Z)
    by (apply Qfloor_bounds; assumption).
  exists (Qfloor (ms * sr / (1000 # 1))). split; [|exact B].
  apply Q_to_int_nonneg; [exact B0|]. unfold INT_MAX. lia.
Qed.

Lemma In_bounds (l : list Q) (lo hi : Q) :
  forallb (fun x => Qle_bool lo x && Qle_bool x hi) l = true ->
  forall x, In x l -> lo <= x /\ x <= hi.
Proof.
  rewrite forallb_forall. intros H x Hx. specialize (H x Hx).
  apply andb_true_iff in H. rewrite !Qle_bool_iff in H. exact H.
Qed.

Lemma grid_all_get {A} (P : A -> Prop) (g : list (list A)) (ch i : Z)
      (a : A) :
  grid_all P g -> grid_get g ch i = Some a -> P a.
Proof.
  intros Hall E. unfold grid_get in E.
  destruct (vec_get g ch) as [row|] eqn:Er; [|discriminate].
  eapply Hall; eapply vec_get_In; eauto.
Qed.

Lemma diffusion_delay_bounds (ms : Q) :
  In ms DiffusionNetwork.delayTimesMs -> 0 <= ms /\ ms <= 50.
Proof. apply In_bounds. reflexivity. Qed.

Lemma comb_delay_bounds (ms : Q) :
  In ms AlgorithmicReverb.delayTimesMs -> 0 <= ms /\ ms <= 70.
Proof. apply In_bounds. reflexivity. Qed.

(** What [prepare] makes of an allpass or a comb unit is running. *)
Lemma allpass_prepared_running (a : @AllpassFilter.t Q Q) (sr : Q) (n : Z) :
  (0 <= n <= 2 ^ 29)%Z ->
  allpass_running
    (AllpassFilter.setFeedback
       (AllpassFilter.setDelayTime (AllpassFilter.prepare a sr (n + 100))
                                   (f_of_int n))
       (f_lit 5 10)).
Proof.
  intros Hn.
  unfold allpass_running, allpass_ready, AllpassFilter.setFeedback,
    AllpassFilter.setDelayTime, AllpassFilter.prepare.
  cbn [AllpassFilter.maxDelay AllpassFilter.buffer AllpassFilter.writeIndex
       AllpassFilter.currentDelay].
  unfold size. rewrite repeat_length.
  assert (H1 : 1 <= inject_Z (n + 100)).
  { change 1 with (inject_Z 1). rewrite <- Zle_Qle. lia. }
  destruct (@Q_jlimit_bounds 1 (inject_Z (n + 100)) (inject_Z n) H1)
    as [J1 J2].
  unfold INT_MAX. repeat split; try lia; assumption.
Qed.

Lemma comb_prepared_running (c : @CombFilter.t Q Q) (sr : Q) (n : Z) :
  (0 <= n <= 2 ^ 29)%Z ->
  comb_running
    (CombFilter.setDelayTime (CombFilter.prepare c sr (n + 200))
                             (f_of_int n)).
Proof.
  intros Hn.
  unfold comb_running, comb_ready, CombFilter.setDelayTime,
    CombFilter.prepare.
  cbn [CombFilter.maxDelay CombFilter.buffer CombFilter.writeIndex].
  unfold size. rewrite repeat_length.
  unfold INT_MAX. repeat split; lia.
Qed.

(** The parameter setters of a unit leave it running. *)
Lemma comb_setFeedback_running (c : @CombFilter.t Q Q) (fb : Q) :
  comb_running c -> comb_running (CombFilter.setFeedback c fb).
Proof. intros H. exact H. Qed.

Lemma comb_setDamping_running (c : @CombFilter.t Q Q) (d : Q) :
  comb_running c -> comb_running (CombFilter.setDamping c d).
Proof. intros H. exact H. Qed.

Lemma allpass_setFeedback_running (a : @AllpassFilter.t Q Q) (fb : Q) :
  allpass_running a -> allpass_running (AllpassFilter.setFeedback a fb).
Proof. intros H. exact H. Qed.

(** Replaces a computation bound in the goal by its value, the equation
    holding up to conversion. *)
Ltac bind_value E v :=
  match goal with
  | |- context [bind ?e _] =>
      replace e with (Some v) by (symmetry; exact E)
  end.

Section PrepareRunning.
Context {LM : Libm Q} {J : JuceDSP Q Q}.

Lemma diffusion_prepare_running (d : @DiffusionNetwork.t Q Q J) (sr : Q)
      (maxBlockSize : Z) :
  grid_shape 2 8 (DiffusionNetwork.allpassFilters d) ->
  0 <= DiffusionNetwork.thrustAmount d ->
  DiffusionNetwork.thrustAmount d <= 1 ->
  0 <= sr -> sr <= inject_Z (2 ^ 30) ->
  exists d',
    DiffusionNetwork.prepare d sr maxBlockSize = Some d' /\
    diffusion_running d'.
Proof.
  intros Hs T0 T1 S0 S1. unfold DiffusionNetwork.prepare.
  set (ms := fun ch i : Z =>
         (nth (Z.to_nat i) DiffusionNetwork.delayTimesMs fzero
          + (if (ch =? 0)%Z then fzero else f_lit 7 100))%fl).
  set (dly := fun ch i : Z =>
         match f_to_int (to_double (ms ch i) * sr / f_lit 1000 1)%fl with
         | Some n => n
         | None => 0%Z
         end).
  assert (Hd : forall ch i, (0 <= ch < 2)%Z -> (0 <= i < 8)%Z ->
            f_to_int (to_double (ms ch i) * sr / f_lit 1000 1)%fl =
              Some (dly ch i) /\ (0 <= dly ch i <= 2 ^ 29)%Z).
  { intros ch i Hch Hi. unfold dly.
    destruct (@delay_samples_int (ms ch i) sr) as (n & En & Bn);
      try assumption.
    - unfold ms.
      destruct (@diffusion_delay_bounds
                  (nth (Z.to_nat i) DiffusionNetwork.delayTimesMs fzero))
        as [A0 A1]; [apply nth_In; simpl; lia|].
      q_norm. destruct (ch =? 0)%Z.
      + change fzero with 0. lra.
      + change (f_lit 7 100) with (7 # 100). lra.
    - unfold ms.
      destruct (@diffusion_delay_bounds
                  (nth (Z.to_nat i) DiffusionNetwork.delayTimesMs fzero))
        as [A0 A1]; [apply nth_In; simpl; lia|].
      q_norm. destruct (ch =? 0)%Z.
      + change fzero with 0. lra.
      + change (f_lit 7 100) with (7 # 100). lra.
    - rewrite En. auto. }
  destruct (@grid_loops _ 2 8
              (fun ch i (a : @AllpassFilter.t Q Q) =>
                 AllpassFilter.setFeedback
                   (AllpassFilter.setDelayTime
                      (AllpassFilter.prepare a sr (dly ch i + 100))
                      (f_of_int (dly ch i)))
                   (f_lit 5 10))
              (fun ch i fs =>
                 let offset := if (ch =? 0)%Z then fzero else f_lit 7 100 in
                 ms0 <- vec_get DiffusionNetwork.delayTimesMs i ;;
                 delaySamples <-
                   f_to_int (to_double (ms0 + offset)%fl * sr
                             / f_lit 1000 1)%fl ;;
                 maxDelaySamples <- int_ok (delaySamples + 100) ;;
                 grid_update fs ch i (fun a =>
                   AllpassFilter.setFeedback
                     (AllpassFilter.setDelayTime
                        (AllpassFilter.prepare a sr maxDelaySamples)
                        (f_of_int delaySamples))
                     (f_lit 5 10)))
              (DiffusionNetwork.allpassFilters d) Hs)
    as (fs & E & Hfs & Hc).
  { intros ch i g' Hch Hi _. cbv zeta.
    rewrite (@vec_get_nth _ DiffusionNetwork.delayTimesMs i fzero)
      by (unfold size; simpl; lia).
    cbn [bind]. destruct (Hd ch i Hch Hi) as [En Bn].
    unfold ms in En. rewrite En. cbn [bind].
    rewrite int_ok_some by (unfold INT_MIN, INT_MAX; lia).
    reflexivity. }
  bind_value E fs. cbn [bind]. eexists. split; [reflexivity|].
  unfold diffusion_running, DiffusionNetwork.updateThrustFilter,
    duplicator_ready, Duplicator.setState, Duplicator.prepare.
  cbn [DiffusionNetwork.allpassFilters DiffusionNetwork.thrustAmount
       DiffusionNetwork.lowMidFilter Duplicator.processors].
  split; [exact Hfs|]. split.
  - apply (grid_all_cells Hfs). intros ch i Hch Hi.
    destruct (Hc ch i Hch Hi) as (a & _ & Ea).
    eexists. split; [exact Ea|].
    apply allpass_prepared_running. apply Hd; assumption.
  - split; [exact T0|]. split; [exact T1|]. simpl. lia.
Qed.

Lemma diffusion_setThrust_running (d : @DiffusionNetwork.t Q Q J) (t : Q) :
  diffusion_running d ->
  exists d', DiffusionNetwork.setThrust d t = Some d' /\ diffusion_running d'.
Proof.
  intros (Hs & Ha & T0 & T1 & Hlm). unfold DiffusionNetwork.setThrust.
  cbv zeta.
  match goal with
  | |- context [for_loop 2 (fun ch g => for_loop 8 (fun i g0 =>
                  grid_update g0 ch i (@?f i)) g) _] =>
      destruct (@grid_loops _ 2 8 (fun (_ : Z) i => f i)
                  (fun ch i fs => grid_update fs ch i (f i))
                  (DiffusionNetwork.allpassFilters d) Hs)
        as (fs & E & Hfs & Hc); [reflexivity|]
  end.
  bind_value E fs. cbn [bind]. eexists. split; [reflexivity|].
  unfold diffusion_running, DiffusionNetwork.updateThrustFilter,
    duplicator_ready, Duplicator.setState.
  cbn [DiffusionNetwork.allpassFilters DiffusionNetwork.thrustAmount
       DiffusionNetwork.lowMidFilter Duplicator.processors].
  split; [exact Hfs|]. split.
  - apply (grid_all_cells Hfs). intros ch i Hch Hi.
    destruct (Hc ch i Hch Hi) as (a & Ea & Ea').
    eexists. split; [exact Ea'|].
    apply allpass_setFeedback_running. exact (grid_all_get Ha Ea).
  - destruct (@Q_jlimit_bounds 0 1 t) as [B0 B1]; [lra|].
    split; [exact B0|]. split; [exact B1|exact Hlm].
Qed.
End PrepareRunning.

Section ReverbFrame.
Context {F D : Type} {AF : Arith F} {AD : Arith D} {CV : Conv F D}
        {LM : Libm F} {J : JuceDSP F D}.

(** [process] writes none of the parameters. *)
Lemma process_frame (r r' : @AlgorithmicReverb.t F D J)
      (buffer out : AudioBuffer F) :
  AlgorithmicReverb.process r buffer = Some (r', out) ->
  AlgorithmicReverb.sampleRate r' = AlgorithmicReverb.sampleRate r /\
  AlgorithmicReverb.blockSize r' = AlgorithmicReverb.blockSize r /\
  AlgorithmicReverb.preDelaySamples r' = AlgorithmicReverb.preDelaySamples r /\
  AlgorithmicReverb.decayTime r' = AlgorithmicReverb.decayTime r /\
  AlgorithmicReverb.highCutFreq r' = AlgorithmicReverb.highCutFreq r /\
  AlgorithmicReverb.lowCutFreq r' = AlgorithmicReverb.lowCutFreq r /\
  AlgorithmicReverb.width r' = AlgorithmicReverb.width r.
Proof.
  unfold AlgorithmicReverb.process. cbv zeta. intros H.
  repeat (apply bind_some in H;
          let v := fresh "v" in
          destruct H as (v & _ & H);
          try (destruct v as [? ?]); try (destruct p as [? ?]);
          try (destruct p as [? ?]); cbv beta iota in H).
  inversion H; subst; clear H. cbn. repeat split; reflexivity.
Qed.

Lemma updateDecay_loops (r : @AlgorithmicReverb.t F D J) :
  grid_shape 2 8 (AlgorithmicReverb.combFilters r) ->
  exists cs,
    AlgorithmicReverb.updateDecay r =
      Some (AlgorithmicReverb.set_combFilters r cs) /\
    grid_shape 2 8 cs /\
    forall ch i, (0 <= ch < 2)%Z -> (0 <= i < 8)%Z ->
      exists c, grid_get (AlgorithmicReverb.combFilters r) ch i = Some c /\
                grid_get cs ch i = Some (AlgorithmicReverb.decay_cell r ch i c).
Proof.
  intros Hs. unfold AlgorithmicReverb.updateDecay.
  destruct (@grid_loops _ 2 8 (AlgorithmicReverb.decay_cell r)
              (fun ch i cs =>
                 ms <- vec_get AlgorithmicReverb.delayTimesMs i ;;
                 grid_update cs ch i (fun c =>
                   CombFilter.setDamping
                     (CombFilter.setFeedback c
                        (AlgorithmicReverb.decay_feedback
                           (AlgorithmicReverb.decayTime r) ch ms))
                     (AlgorithmicReverb.decay_damping
                        (AlgorithmicReverb.highCutFreq r))))
              (AlgorithmicReverb.combFilters r) Hs)
    as (cs & E & Hcs & Hc).
  { intros ch i g' Hch Hi _.
    rewrite (@vec_get_nth _ AlgorithmicReverb.delayTimesMs i fzero)
      by (unfold size; simpl; lia).
    reflexivity. }
  exists cs. split; [|split; assumption].
  bind_value E cs. reflexivity.
Qed.
End ReverbFrame.

Section ReverbSetters.
Context {LM : Libm Q} {J : JuceDSP Q Q}.

Lemma updateDecay_running (r : @AlgorithmicReverb.t Q Q J) :
  reverb_running r ->
  exists r', AlgorithmicReverb.updateDecay r = Some r' /\ reverb_running r'.
Proof.
  intros (Hpd & Hcs & Hca & Hrest).
  destruct (updateDecay_loops Hcs) as (cs & E & Hcs' & Hc).
  rewrite E. eexists. split; [reflexivity|].
  unfold reverb_running, AlgorithmicReverb.set_combFilters.
  cbn [AlgorithmicReverb.preDelayWriteIndex AlgorithmicReverb.preDelayBuffer
       AlgorithmicReverb.combFilters AlgorithmicReverb.diffusionNetwork
       AlgorithmicReverb.highCutFilter AlgorithmicReverb.lowCutFilter
       AlgorithmicReverb.modulationEngine AlgorithmicReverb.preDelaySamples].
  split; [exact Hpd|]. split; [exact Hcs'|]. split; [|exact Hrest].
  apply (grid_all_cells Hcs'). intros ch i Hch Hi.
  destruct (Hc ch i Hch Hi) as (c & Ec & Ec').
  eexists. split; [exact Ec'|].
  unfold AlgorithmicReverb.decay_cell.
  apply comb_setDamping_running, comb_setFeedback_running.
  exact (grid_all_get Hca Ec).
Qed.

Lemma setDecay_running (r : @AlgorithmicReverb.t Q Q J) (decaySeconds : Q) :
  reverb_running r ->
  exists r', AlgorithmicReverb.setDecay r decaySeconds = Some r' /\
             reverb_running r' /\
             AlgorithmicReverb.sampleRate r' = AlgorithmicReverb.sampleRate r.
Proof.
  intros Hr. unfold AlgorithmicReverb.setDecay.
  match goal with
  | |- exists r', AlgorithmicReverb.updateDecay ?r0 = _ /\ _ =>
      destruct (@updateDecay_running r0 Hr) as (r' & E & Hr');
      exists r'; split; [exact E|]; split; [exact Hr'|];
      unfold AlgorithmicReverb.updateDecay in E; bind_inv E; reflexivity
  end.
Qed.

Lemma setPreDelay_running (r : @AlgorithmicReverb.t Q Q J) (preDelayMs : Q) :
  reverb_running r ->
  0 <= preDelayMs -> preDelayMs <= 500 ->
  0 <= AlgorithmicReverb.sampleRate r ->
  AlgorithmicReverb.sampleRate r <= inject_Z (2 ^ 30) ->
  exists r', AlgorithmicReverb.setPreDelay r preDelayMs = Some r' /\
             reverb_running r' /\
             AlgorithmicReverb.sampleRate r' = AlgorithmicReverb.sampleRate r.
Proof.
  intros ((P & Lp & Hp & Hpdw & Hpds & HP) & Hrest) M0 M1 S0 S1.
  unfold AlgorithmicReverb.setPreDelay.
  destruct (@delay_samples_int preDelayMs (AlgorithmicReverb.sampleRate r)
              M0 M1 S0 S1) as (n & En & Bn).
  rewrite En. cbn [bind].
  destruct (AlgorithmicReverb.preDelayBuffer r) as [|b0 [|b1 [|b2 l]]] eqn:Eb;
    try discriminate Lp.
  rewrite vec_get_0. cbn [bind].
  pose proof (Hp b0 (or_introl eq_refl)) as L0.
  rewrite int_ok_some by (unfold size, INT_MIN, INT_MAX in *; lia).
  cbn [bind]. eexists. split; [reflexivity|]. split; [|reflexivity].
  unfold reverb_running.
  cbn [AlgorithmicReverb.preDelayWriteIndex AlgorithmicReverb.preDelayBuffer
       AlgorithmicReverb.combFilters AlgorithmicReverb.diffusionNetwork
       AlgorithmicReverb.highCutFilter AlgorithmicReverb.lowCutFilter
       AlgorithmicReverb.modulationEngine AlgorithmicReverb.preDelaySamples].
  split; [|exact Hrest].
  exists P. split; [exact Lp|]. split; [exact Hp|].
  split; [exact Hpdw|]. split; [|exact HP].
  unfold jlimit_int, size. rewrite L0.
  destruct (Z.ltb_spec n 0); [lia|].
  destruct (Z.ltb_spec (Z.of_nat P - 1) n); lia.
Qed.

Lemma updateFilters_running (r : @AlgorithmicReverb.t Q Q J) :
  reverb_running r -> reverb_running (AlgorithmicReverb.updateFilters r).
Proof. intros H. exact H. Qed.

Lemma setDiffusionThrust_running (r : @AlgorithmicReverb.t Q Q J) (t : Q) :
  reverb_running r ->
  exists r', AlgorithmicReverb.setDiffusionThrust r t = Some r' /\
             reverb_running r' /\
             AlgorithmicReverb.sampleRate r' = AlgorithmicReverb.sampleRate r.
Proof.
  intros (Hpd & Hcs & Hca & Hdn & Hrest).
  unfold AlgorithmicReverb.setDiffusionThrust.
  destruct (diffusion_setThrust_running t Hdn) as (dn & E & Hdn').
  rewrite E. cbn [bind]. eexists. split; [reflexivity|].
  split; [|reflexivity].
  exact (conj Hpd (conj Hcs (conj Hca (conj Hdn' Hrest)))).
Qed.

Lemma setModulationChaos_running (r : @AlgorithmicReverb.t Q Q J) (x : Q) :
  reverb_running r ->
  exists r', AlgorithmicReverb.setModulationChaos r x = Some r' /\
             reverb_running r' /\
             AlgorithmicReverb.sampleRate r' = AlgorithmicReverb.sampleRate r.
Proof.
  intros (Hpd & Hcs & Hca & Hdn & Hhc & Hlc & Hme).
  unfold AlgorithmicReverb.setModulationChaos.
  destruct (modulation_setChaos_ready x Hme) as (me & E & Hme' & _).
  rewrite E. cbn [bind]. eexists. split; [reflexivity|].
  split; [|reflexivity].
  exact (conj Hpd (conj Hcs (conj Hca (conj Hdn (conj Hhc (conj Hlc Hme')))))).
Qed.

(** The seven setters in the order of [processBlock]. *)
Lemma updateReverb_running (r : @AlgorithmicReverb.t Q Q J)
      (p : @PluginProcessor.ReverbParams Q) :
  reverb_running r ->
  0 <= PluginProcessor.preDelay p -> PluginProcessor.preDelay p <= 500 ->
  0 <= AlgorithmicReverb.sampleRate r ->
  AlgorithmicReverb.sampleRate r <= inject_Z (2 ^ 30) ->
  exists r', PluginProcessor.updateReverb r p = Some r' /\
             reverb_running r' /\
             AlgorithmicReverb.sampleRate r' = AlgorithmicReverb.sampleRate r.
Proof.
  intros Hr M0 M1 S0 S1. unfold PluginProcessor.updateReverb.
  destruct (setDecay_running (PluginProcessor.decay p) Hr)
    as (r1 & E1 & H1 & R1).
  rewrite E1. cbn [bind].
  destruct (@setPreDelay_running r1 (PluginProcessor.preDelay p) H1 M0 M1)
    as (r2 & E2 & H2 & R2); [rewrite R1; exact S0|rewrite R1; exact S1|].
  rewrite E2. cbn [bind]. cbv zeta.
  match goal with
  | |- context [AlgorithmicReverb.setDiffusionThrust ?r3 ?t] =>
      destruct (@setDiffusionThrust_running r3 t) as (r4 & E4 & H4 & R4);
      [exact H2|]
  end.
  rewrite E4. cbn [bind].
  destruct (setModulationChaos_running (PluginProcessor.modulationChaos p) H4)
    as (r5 & E5 & H5 & R5).
  exists r5. split; [exact E5|]. split; [exact H5|].
  rewrite R5, R4. cbn [AlgorithmicReverb.setWidth AlgorithmicReverb.setLowCut
    AlgorithmicReverb.setHighCut AlgorithmicReverb.updateFilters
    AlgorithmicReverb.sampleRate]. congruence.
Qed.

(** [prepare] sizes every buffer for the sample rate and leaves the
    reverb running. *)
Lemma prepare_reverb_running (r : @AlgorithmicReverb.t Q Q J) (sr : Q)
      (maxBlockSize : Z) :
  reverb_shape r ->
  0 <= DiffusionNetwork.thrustAmount (AlgorithmicReverb.diffusionNetwork r) ->
  DiffusionNetwork.thrustAmount (AlgorithmicReverb.diffusionNetwork r) <= 1 ->
  (INT_MIN <= ModulationEngine.driftCounter
                (AlgorithmicReverb.modulationEngine r) + 1 <= INT_MAX)%Z ->
  2 <= sr -> sr <= inject_Z (2 ^ 30 - 1) ->
  (0 <= AlgorithmicReverb.preDelaySamples r < Qfloor (f_lit 5 10 * sr))%Z ->
  exists r',
    AlgorithmicReverb.prepare r sr maxBlockSize = Some r' /\
    reverb_running r' /\ AlgorithmicReverb.sampleRate r' = sr.
Proof.
  intros (Lp & Hcs & Hfs & Hms) T0 T1 Hdc S0 S1 Hpds.
  change (inject_Z (2 ^ 30 - 1)) with (1073741823 # 1) in S1.
  assert (S2 : sr <= inject_Z (2 ^ 30))
    by (change (inject_Z (2 ^ 30)) with (1073741824 # 1); lra).
  unfold AlgorithmicReverb.prepare.
  q_norm. change (f_lit 5 10) with (5 # 10) in *.
  assert (BP : (1 <= Qfloor ((5 # 10) * sr) <= 2 ^ 29)%Z).
  { apply Qfloor_bounds.
    - change (inject_Z 1) with 1. lra.
    - change (inject_Z (2 ^ 29)) with (536870912 # 1). lra. }
  rewrite (@Q_to_int_nonneg ((5 # 10) * sr))
    by (try lra; unfold INT_MAX; lia).
  cbn [bind].
  destruct (@diffusion_prepare_running _
              (AlgorithmicReverb.diffusionNetwork r) sr maxBlockSize
              Hfs T0 T1) as (dn & Ed & Hdn); [lra|exact S2|].
  rewrite Ed. cbn [bind].
  set (ms := fun ch i : Z =>
         (nth (Z.to_nat i) AlgorithmicReverb.delayTimesMs fzero
          + (if (ch =? 0)%Z then fzero else f_lit 17 10))%fl).
  set (dly := fun ch i : Z =>
         match f_to_int (to_double (ms ch i) * sr / f_lit 1000 1)%fl with
         | Some n => n
         | None => 0%Z
         end).
  assert (Hd : forall ch i, (0 <= ch < 2)%Z -> (0 <= i < 8)%Z ->
            f_to_int (to_double (ms ch i) * sr / f_lit 1000 1)%fl =
              Some (dly ch i) /\ (0 <= dly ch i <= 2 ^ 29)%Z).
  { intros ch i Hch Hi. unfold dly.
    assert (Hms' : 0 <= ms ch i /\ ms ch i <= 500).
    { unfold ms.
      destruct (@comb_delay_bounds
                  (nth (Z.to_nat i) AlgorithmicReverb.delayTimesMs fzero))
        as [A0 A1]; [apply nth_In; simpl; lia|].
      q_norm. destruct (ch =? 0)%Z.
      - change fzero with 0. lra.
      - change (f_lit 17 10) with (17 # 10). lra. }
    destruct (@delay_samples_int (ms ch i) sr) as (n & En & Bn);
      try tauto; try lra.
    rewrite En. auto. }
  destruct (@grid_loops _ 2 8
              (fun ch i (c : @CombFilter.t Q Q) =>
                 CombFilter.setDelayTime
                   (CombFilter.prepare c sr (dly ch i + 200))
                   (f_of_int (dly ch i)))
              (fun ch i cs =>
                 let offset := if (ch =? 0)%Z then fzero else f_lit 17 10 in
                 ms0 <- vec_get AlgorithmicReverb.delayTimesMs i ;;
                 delaySamples <-
                   f_to_int (to_double (ms0 + offset)%fl * sr
                             / f_lit 1000 1)%fl ;;
                 maxDelaySamples <- int_ok (delaySamples + 200) ;;
                 grid_update cs ch i (fun c =>
                   CombFilter.setDelayTime
                     (CombFilter.prepare c sr maxDelaySamples)
                     (f_of_int delaySamples)))
              (AlgorithmicReverb.combFilters r) Hcs)
    as (cs & E & Hcs' & Hc).
  { intros ch i g' Hch Hi _. cbv zeta.
    rewrite (@vec_get_nth _ AlgorithmicReverb.delayTimesMs i fzero)
      by (unfold size; simpl; lia).
    cbn [bind]. destruct (Hd ch i Hch Hi) as [En Bn].
    unfold ms in En. rewrite En. cbn [bind].
    rewrite int_ok_some by (unfold INT_MIN, INT_MAX; lia).
    reflexivity. }
  bind_value E cs. cbn [bind].
  destruct (modulation_prepare_ready
              (m := AlgorithmicReverb.modulationEngine r) (sr := sr)
              (period := Qfloor (sr * (2 # 1))) Hms) as (me & Eme & Hme).
  { apply Q_to_int_nonneg; [q_norm; change (f_lit 2 1) with (2 # 1); lra|].
    assert (Qfloor (sr * (2 # 1)) <= 2 ^ 31 - 2)%Z; [|unfold INT_MAX; lia].
    apply Qfloor_bounds with (a := 0%Z).
    - change (inject_Z 0) with 0. lra.
    - change (inject_Z (2 ^ 31 - 2)) with (2147483646 # 1). lra. }
  { assert (Qfloor (sr * (2 # 1)) <= 2 ^ 31 - 2)%Z; [|unfold INT_MAX; lia].
    apply Qfloor_bounds with (a := 0%Z).
    - change (inject_Z 0) with 0. lra.
    - change (inject_Z (2 ^ 31 - 2)) with (2147483646 # 1). lra. }
  { exact Hdc. }
  rewrite Eme. cbn [bind].
  match goal with
  | |- exists r', AlgorithmicReverb.updateDecay ?r0 = _ /\ _ =>
      destruct (@updateDecay_running r0) as (r' & Eu & Hr');
      [|exists r'; split; [exact Eu|]; split; [exact Hr'|];
        unfold AlgorithmicReverb.updateDecay in Eu; bind_inv Eu; reflexivity]
  end.
  unfold reverb_running, AlgorithmicReverb.updateFilters, duplicator_ready,
    Duplicator.setState, Duplicator.prepare.
  cbn [AlgorithmicReverb.preDelayWriteIndex AlgorithmicReverb.preDelayBuffer
       AlgorithmicReverb.combFilters AlgorithmicReverb.diffusionNetwork
       AlgorithmicReverb.highCutFilter AlgorithmicReverb.lowCutFilter
       AlgorithmicReverb.modulationEngine AlgorithmicReverb.preDelaySamples
       Duplicator.processors].
  split.
  { exists (Z.to_nat (Qfloor ((5 # 10) * sr))).
    split; [reflexivity|]. split.
    - intros b Hb. apply repeat_spec in Hb. subst b. apply repeat_length.
    - rewrite Z2Nat.id by lia. unfold INT_MAX. lia. }
  split; [exact Hcs'|]. split.
  { apply (grid_all_cells Hcs'). intros ch i Hch Hi.
    destruct (Hc ch i Hch Hi) as (c & _ & Ec).
    eexists. split; [exact Ec|].
    apply comb_prepared_running. apply Hd; assumption. }
  split; [exact Hdn|]. split; [simpl; lia|]. split; [simpl; lia|exact Hme].
Qed.
End ReverbSetters.

Lemma grid_all_and {A} (P P' : A -> Prop) (g : list (list A)) :
  grid_all P g -> grid_all P' g -> grid_all (fun a => P a /\ P' a) g.
Proof. intros H H' row Hr a Ha. split; [eapply H|eapply H']; eauto. Qed.

Lemma grid_allb_sound {A} (p : A -> bool) (P : A -> Prop)
      (g : list (list A)) :
  (forall a, p a = true -> P a) ->
  forallb (forallb p) g = true -> grid_all P g.
Proof.
  intros Hp H row Hrow a Ha. rewrite forallb_forall in H.
  specialize (H row Hrow). rewrite forallb_forall in H. auto.
Qed.

Lemma reverb_runningb_sound {J : JuceDSP Q Q}
      (r : @AlgorithmicReverb.t Q Q J) :
  reverb_runningb r = true -> reverb_running r.
Proof.
  unfold reverb_runningb. rewrite !andb_true_iff.
  intros (((Hr & Hp) & Hc) & Ha).
  apply reverb_readyb_sound in Hr.
  destruct Hr as ((P & Lp & HP & Hpds & Hmax) & Hcs & Hcr
                  & (Hfs & Har & T0 & T1 & Hlm) & Hhc & Hlc & Hme).
  assert (Hci : grid_all
                  (fun c : @CombFilter.t Q Q =>
                     (0 <= CombFilter.writeIndex c
                      < size (CombFilter.buffer c))%Z)
                  (AlgorithmicReverb.combFilters r)).
  { apply (grid_allb_sound (p := comb_indexb)); [|exact Hc].
    intros c. unfold comb_indexb.
    rewrite andb_true_iff, Z.leb_le, Z.ltb_lt. tauto. }
  assert (Hai : grid_all
                  (fun a : @AllpassFilter.t Q Q =>
                     (0 <= AllpassFilter.writeIndex a
                      < size (AllpassFilter.buffer a))%Z)
                  (DiffusionNetwork.allpassFilters
                     (AlgorithmicReverb.diffusionNetwork r))).
  { apply (grid_allb_sound (p := allpass_indexb)); [|exact Ha].
    intros a. unfold allpass_indexb.
    rewrite andb_true_iff, Z.leb_le, Z.ltb_lt. tauto. }
  split.
  { exists P. split; [exact Lp|]. split; [exact HP|].
    split; [|split; assumption].
    destruct (AlgorithmicReverb.preDelayBuffer r) as [|b0 l];
      [discriminate Lp|].
    cbn [forallb] in Hp. apply andb_true_iff in Hp. destruct Hp as [Hp _].
    rewrite andb_true_iff, Z.leb_le, Z.ltb_lt in Hp.
    unfold size in Hp. rewrite (HP b0 (or_introl eq_refl)) in Hp. exact Hp. }
  split; [exact Hcs|].
  split; [exact (grid_all_and Hcr Hci)|].
  split; [|tauto].
  exact (conj Hfs (conj (grid_all_and Har Hai) (conj T0 (conj T1 Hlm)))).
Qed.

(** The stand-in biquad returns one sample per sample. *)
Lemma biquad_run_length (c : @biquad Q) :
  forall (xs : list Q) (st : Q * Q),
    length (snd (biquad_run c st xs)) = length xs.
Proof.
  induction xs as [|x xs IH]; intros st; [reflexivity|].
  cbn [biquad_run].
  destruct (biquad_step c st x) as [st1 y].
  specialize (IH st1). destruct (biquad_run c st1 xs) as [st2 ys].
  cbn [snd] in *. simpl. rewrite IH. reflexivity.
Qed.

Lemma biquad_keeps_length : @iir_keeps_length juceQ.
Proof. intros c p xs. apply biquad_run_length. Qed.

Section Safety.
Context {LM : Libm Q} {J : JuceDSP Q Q}.
Hypothesis iir_length : iir_keeps_length.

(** X5.  In exact arithmetic: [prepare] at a sample rate between 2 Hz
    and 2^30 - 1 Hz, on a reverb whose thrust lies in [0, 1] and whose
    stored pre-delay is below the new pre-delay length, returns and
    leaves the reverb running: both pre-delay lines have
    [floor (sr / 2)] cells, every comb and allpass buffer has
    [maxDelay + 4] cells with [maxDelay >= 1], each allpass delay lies
    in [1, maxDelay], and all write indices are zero. *)
Theorem prepare_leaves_running (r : @AlgorithmicReverb.t Q Q J) (sr : Q)
        (maxBlockSize : Z) :
  reverb_shape r ->
  0 <= DiffusionNetwork.thrustAmount (AlgorithmicReverb.diffusionNetwork r) ->
  DiffusionNetwork.thrustAmount (AlgorithmicReverb.diffusionNetwork r) <= 1 ->
  (INT_MIN <= ModulationEngine.driftCounter
                (AlgorithmicReverb.modulationEngine r) + 1 <= INT_MAX)%Z ->
  2 <= sr -> sr <= inject_Z (2 ^ 30 - 1) ->
  (0 <= AlgorithmicReverb.preDelaySamples r < Qfloor (f_lit 5 10 * sr))%Z ->
  exists r',
    AlgorithmicReverb.prepare r sr maxBlockSize = Some r' /\
    reverb_running r' /\
    AlgorithmicReverb.sampleRate r' = sr /\
    AlgorithmicReverb.preDelayWriteIndex r' = 0%Z /\
    forall b, In b (AlgorithmicReverb.preDelayBuffer r') ->
              b = repeat fzero (Z.to_nat (Qfloor (f_lit 5 10 * sr))).
Proof.
  intros Hs T0 T1 Hdc S0 S1 Hpds.
  destruct (prepare_reverb_running maxBlockSize Hs T0 T1 Hdc S0 S1 Hpds)
    as (r' & E & Hr' & Esr).
  exists r'. split; [exact E|]. split; [exact Hr'|]. split; [exact Esr|].
  unfold AlgorithmicReverb.prepare in E.
  apply bind_some in E. destruct E as (mp & Emp & E).
  assert (Emp' : mp = Qfloor (f_lit 5 10 * sr)).
  { assert (H : f_to_int (f_lit 5 10 * sr)%fl
                = Some (Qfloor (f_lit 5 10 * sr))).
    { apply Q_to_int_nonneg.
      - q_norm. change (f_lit 5 10) with (5 # 10). lra.
      - assert (Qfloor (f_lit 5 10 * sr) <= 2 ^ 29)%Z;
          [|unfold INT_MAX; lia].
        apply Qfloor_bounds with (a := 0%Z).
        + change (inject_Z 0) with 0. change (f_lit 5 10) with (5 # 10). lra.
        + change (inject_Z (2 ^ 29)) with (536870912 # 1).
          change (inject_Z (2 ^ 30 - 1)) with (1073741823 # 1) in S1.
          change (f_lit 5 10) with (5 # 10). lra. }
    q_norm. congruence. }
  subst mp. cbv zeta in E.
  apply bind_some in E. destruct E as (dn & _ & E).
  apply bind_some in E. destruct E as (cs & _ & E).
  apply bind_some in E. destruct E as (me & _ & E).
  unfold AlgorithmicReverb.updateDecay in E.
  apply bind_some in E. destruct E as (cs' & _ & E).
  inversion E; subst r'; clear E.
  cbn [AlgorithmicReverb.set_combFilters AlgorithmicReverb.updateFilters
       AlgorithmicReverb.preDelayWriteIndex AlgorithmicReverb.preDelayBuffer].
  split; [reflexivity|].
  intros b [<-|[<-|[]]]; reflexivity.
Qed.

End Safety.

Section RunQ2.
#[local] Existing Instance libmQ.
#[local] Existing Instance juceQ.

Lemma tuned_reverb_running : reverb_running tuned_reverb.
Proof. apply reverb_runningb_sound. vm_compute. reflexivity. Qed.

Lemma prepare_leaves_running_witness :
  exists r',
    AlgorithmicReverb.prepare AlgorithmicReverb.init (44100 # 1) 512 =
      Some r' /\
    reverb_running r' /\
    AlgorithmicReverb.sampleRate r' = 44100 # 1 /\
    AlgorithmicReverb.preDelayWriteIndex r' = 0%Z /\
    forall b, In b (AlgorithmicReverb.preDelayBuffer r') ->
              b = repeat fzero 22050.
Proof.
  apply (@prepare_leaves_running libmQ juceQ AlgorithmicReverb.init
           (44100 # 1) 512).
  - apply init_reverb_shape.
  - vm_compute. discriminate.
  - vm_compute. discriminate.
  - vm_compute. split; discriminate.
  - vm_compute. discriminate.
  - vm_compute. discriminate.
  - vm_compute. split; [discriminate|reflexivity].
Defined.

End RunQ2.

(** The duration in samples, in exact arithmetic. *)
Lemma Q_durationSamples (s : @FairingSeparation.t Q Q) :
  ~ FairingSeparation.currentBPM s == 0 ->
  FairingSeparation.durationSamples s ==
  FairingSeparation.syncBeats s * 60 / FairingSeparation.currentBPM s
  * FairingSeparation.sampleRate s.
Proof.
  intros Hb. unfold FairingSeparation.durationSamples.
  cbn [to_double Q_conv]. q_norm. change (f_lit 60 1) with 60.
  field. exact Hb.
Qed.

Lemma fairing_increment_pos (s : @FairingSeparation.t Q Q) :
  fairing_inv s -> 0 < FairingSeparation.phaseIncrement s.
Proof.
  intros (Hr & Hb & (B0 & B1) & _).
  unfold FairingSeparation.phaseIncrement. cbn [to_float Q_conv].
  assert (Hb0 : ~ FairingSeparation.currentBPM s == 0) by lra.
  q_norm. change fone with 1. rewrite (Q_durationSamples Hb0).
  apply Qlt_shift_div_l; [|lra].
  apply Qmult_lt_0_compat; [|exact Hr].
  apply Qlt_shift_div_l; lra.
Qed.

Lemma advance_inv (inc : Q) (s : @FairingSeparation.t Q Q) :
  0 < inc -> fairing_inv s -> fairing_inv (FairingSeparation.advance inc s).
Proof.
  intros Hinc (Hr & Hb & Hs & (P0 & P1) & (E0 & E1)).
  unfold FairingSeparation.advance, FairingSeparation.phase_step.
  destruct (FairingSeparation.isActive s).
  - q_norm. change fone with 1. change fzero with 0.
    change (f_lit 1 10) with (1 # 10). change (f_lit 7 10) with (7 # 10).
    change (f_lit 3 10) with (3 # 10).
    change (f_lit 999 1000) with (999 # 1000).
    change (f_lit 1 1000) with (1 # 1000).
    destruct (f_leb 1 (FairingSeparation.currentPhase s + inc)) eqn:Ege.
    + unfold fairing_inv.
      cbn [FairingSeparation.sampleRate FairingSeparation.currentBPM
           FairingSeparation.syncBeats FairingSeparation.currentPhase
           FairingSeparation.gainEnvelope].
      repeat split; try assumption; try lra.
    + assert (Hlt : FairingSeparation.currentPhase s + inc < 1).
      { unfold f_leb in Ege; simpl in Ege.
        destruct (Qlt_le_dec (FairingSeparation.currentPhase s + inc) 1);
          [assumption|discriminate]. }
      set (p := FairingSeparation.currentPhase s + inc) in *.
      assert (Hp0 : 0 <= p) by (unfold p; lra).
      assert (Ht : exists t,
                 (if f_ltb p (1 # 10) then p / (1 # 10)
                  else if f_ltb p (7 # 10) then 1
                  else (1 - p) / (3 # 10)) = t /\ 0 <= t /\ t <= 1).
      { destruct (f_ltb p (1 # 10)) eqn:E1a.
        - apply Q_ltb_true in E1a. eexists. split; [reflexivity|]. split.
          + apply Qle_shift_div_l; [reflexivity|]. lra.
          + apply Qle_shift_div_r; [reflexivity|]. lra.
        - destruct (f_ltb p (7 # 10)) eqn:E1b.
          + eexists. split; [reflexivity|]. lra.
          + apply Q_ltb_false in E1b. eexists. split; [reflexivity|]. split.
            * apply Qle_shift_div_l; [reflexivity|]. lra.
            * apply Qle_shift_div_r; [reflexivity|]. lra. }
      destruct Ht as (t & Et & T0 & T1). rewrite Et.
      unfold fairing_inv.
      cbn [FairingSeparation.sampleRate FairingSeparation.currentBPM
           FairingSeparation.syncBeats FairingSeparation.currentPhase
           FairingSeparation.gainEnvelope].
      repeat split; try assumption; try lra.
  - q_norm. change fzero with 0.
    change (f_lit 999 1000) with (999 # 1000).
    change (f_lit 1 1000) with (1 # 1000).
    unfold fairing_inv.
    cbn [FairingSeparation.sampleRate FairingSeparation.currentBPM
         FairingSeparation.syncBeats FairingSeparation.currentPhase
         FairingSeparation.gainEnvelope].
    repeat split; try assumption; try lra.
Qed.

Lemma iter_advance_inv (inc : Q) (n : nat) (s : @FairingSeparation.t Q Q) :
  0 < inc -> fairing_inv s ->
  fairing_inv (Nat.iter n (FairingSeparation.advance inc) s).
Proof.
  intros Hinc Hs. induction n as [|n IH]; [exact Hs|].
  cbn [Nat.iter nat_rect]. apply advance_inv; assumption.
Qed.

Lemma fairing_do_inv (s : @FairingSeparation.t Q Q)
      (c : @fairing_call Q Q) :
  call_ok (fun sr => 0 < sr) c -> fairing_inv s -> fairing_inv (fairing_do s c).
Proof.
  intros Hc Hs. pose proof Hs as (Hr & Hb & Hsb & Hp & He).
  destruct c as [sr| |beats|bpm| | |n]; cbn [fairing_do call_ok] in *.
  - exact (conj Hc (conj Hb (conj Hsb (conj Hp He)))).
  - unfold fairing_inv, FairingSeparation.reset.
    cbn [FairingSeparation.sampleRate FairingSeparation.currentBPM
         FairingSeparation.syncBeats FairingSeparation.currentPhase
         FairingSeparation.gainEnvelope].
    change fzero with 0. repeat split; try tauto; lra.
  - unfold fairing_inv, FairingSeparation.setSyncBeats.
    cbn [FairingSeparation.sampleRate FairingSeparation.currentBPM
         FairingSeparation.syncBeats FairingSeparation.currentPhase
         FairingSeparation.gainEnvelope].
    change fone with 1. change (f_lit 8 1) with 8.
    split; [exact Hr|]. split; [exact Hb|].
    split; [apply Q_jlimit_bounds; lra|]. split; assumption.
  - unfold fairing_inv, FairingSeparation.setBPM.
    cbn [FairingSeparation.sampleRate FairingSeparation.currentBPM
         FairingSeparation.syncBeats FairingSeparation.currentPhase
         FairingSeparation.gainEnvelope].
    split; [exact Hr|]. split; [|tauto].
    unfold jmax. change (f_lit 20 1) with 20.
    destruct (f_ltb 20 bpm) eqn:E; [apply Q_ltb_true in E|]; lra.
  - unfold FairingSeparation.trigger.
    destruct (FairingSeparation.isActive s); [exact Hs|].
    unfold fairing_inv.
    cbn [FairingSeparation.sampleRate FairingSeparation.currentBPM
         FairingSeparation.syncBeats FairingSeparation.currentPhase
         FairingSeparation.gainEnvelope].
    change fzero with 0. repeat split; try tauto; lra.
  - exact Hs.
  - unfold FairingSeparation.process.
    destruct (negb _ && _); [exact Hs|].
    apply iter_advance_inv; [apply fairing_increment_pos|]; exact Hs.
Qed.

Lemma fairing_init_inv : fairing_inv (@FairingSeparation.init Q Q _ _).
Proof.
  unfold fairing_inv, FairingSeparation.init.
  cbn [FairingSeparation.sampleRate FairingSeparation.currentBPM
       FairingSeparation.syncBeats FairingSeparation.currentPhase
       FairingSeparation.gainEnvelope].
  repeat split; vm_compute; try reflexivity; discriminate.
Qed.

(** X9.  In exact arithmetic (so for arguments that are numbers): once
    the effect is prepared at a sample rate of 20 Hz or more, the rate
    from which its widening delay line is not empty, whatever the host
    calls afterwards and in whatever order (prepare again at such a rate,
    reset, setSyncBeats, setBPM, trigger, release, process on blocks of
    any sizes), the intensity read by [getIntensity] lies in [0, 1], and
    so does the phase. *)
Theorem fairing_intensity_in_unit_interval
        (sr : Q) (calls : list (@fairing_call Q Q)) :
  20 <= sr ->
  Forall (call_ok (fun sr => 20 <= sr)) calls ->
  0 <= FairingSeparation.getIntensity
         (fairing_after (CallPrepare sr :: calls)) /\
  FairingSeparation.getIntensity
    (fairing_after (CallPrepare sr :: calls)) <= 1 /\
  0 <= FairingSeparation.currentPhase
         (fairing_after (CallPrepare sr :: calls)) /\
  FairingSeparation.currentPhase
    (fairing_after (CallPrepare sr :: calls)) <= 1.
Proof.
  intros Hsr Hall.
  assert (Hall' : Forall (call_ok (fun sr => 0 < sr)) (CallPrepare sr :: calls)).
  { constructor; [cbn [call_ok]; lra|].
    eapply Forall_impl; [|exact Hall].
    intros c Hc. destruct c; cbn [call_ok] in *; try exact I. lra. }
  assert (H : fairing_inv (fairing_after (CallPrepare sr :: calls))).
  { unfold fairing_after.
    generalize fairing_init_inv.
    generalize (@FairingSeparation.init Q Q _ _).
    induction Hall' as [|c cs Hc _ IH]; intros s Hs; [exact Hs|].
    cbn [fold_left]. apply IH. apply fairing_do_inv; assumption. }
  destruct H as (_ & _ & _ & (P0 & P1) & (E0 & E1)).
  unfold FairingSeparation.getIntensity. tauto.
Qed.

Lemma fairing_intensity_in_unit_interval_witness :
  0 <= FairingSeparation.getIntensity
         (fairing_after [CallPrepare 44100; CallSetBPM 300; CallTrigger;
                         CallProcess 3; CallReset; CallTrigger;
                         CallProcess 2]) /\
  FairingSeparation.getIntensity
    (fairing_after [CallPrepare 44100; CallSetBPM 300; CallTrigger;
                    CallProcess 3; CallReset; CallTrigger;
                    CallProcess 2]) <= 1 /\
  0 <= FairingSeparation.currentPhase
         (fairing_after [CallPrepare 44100; CallSetBPM 300; CallTrigger;
                         CallProcess 3; CallReset; CallTrigger;
                         CallProcess 2]) /\
  FairingSeparation.currentPhase
    (fairing_after [CallPrepare 44100; CallSetBPM 300; CallTrigger;
                    CallProcess 3; CallReset; CallTrigger;
                    CallProcess 2]) <= 1.
Proof.
  apply (@fairing_intensity_in_unit_interval 44100
           [CallSetBPM 300; CallTrigger;
            CallProcess 3; CallReset; CallTrigger; CallProcess 2]).
  - discriminate.
  - repeat constructor.
Defined.

Section SweepDirection.
Context {F D : Type} {AF : Arith F} {AD : Arith D} {CV : Conv F D}.

Lemma iter_advance_sweep (inc : F) (n : nat) (s : @FairingSeparation.t F D) :
  FairingSeparation.lastSweepDirection
    (Nat.iter n (FairingSeparation.advance inc) s) =
    FairingSeparation.lastSweepDirection s /\
  FairingSeparation.sweepDirection
    (Nat.iter n (FairingSeparation.advance inc) s) =
    FairingSeparation.sweepDirection s.
Proof.
  induction n as [|n [IH1 IH2]]; [split; reflexivity|].
  cbn [Nat.iter nat_rect]. unfold FairingSeparation.advance at 1 3.
  destruct (FairingSeparation.phase_step _ _) as [p a].
  cbn [FairingSeparation.lastSweepDirection FairingSeparation.sweepDirection].
  split; assumption.
Qed.

Lemma fairing_do_sweep (s : @FairingSeparation.t F D)
      (c : @fairing_call F D) :
  sweep_inv s -> sweep_inv (fairing_do s c).
Proof.
  intros Hs. destruct c as [sr| |beats|bpm| | |n]; cbn [fairing_do];
    try exact Hs.
  - unfold FairingSeparation.trigger.
    destruct (FairingSeparation.isActive s); [exact Hs|].
    unfold sweep_inv.
    cbn [FairingSeparation.lastSweepDirection
         FairingSeparation.sweepDirection].
    destruct (FairingSeparation.lastSweepDirection s >? 0)%Z; auto.
  - unfold FairingSeparation.process.
    destruct (negb _ && _); [exact Hs|].
    unfold sweep_inv.
    destruct (iter_advance_sweep (FairingSeparation.phaseIncrement s) n s)
      as [E1 E2].
    rewrite E1, E2. exact Hs.
Qed.

(** X10.  For every arithmetic: after any sequence of host calls on a
    freshly constructed effect, [trigger] is ignored while the effect is
    active (the state is left as it is, the phase is not restarted);
    when the effect is idle, [trigger] activates it at phase 0 with the
    sweep direction opposite to that of the previous accepted trigger,
    the first accepted trigger sweeping upwards (+1); [reset] and
    [process] never change the direction. *)
Theorem trigger_alternates_sweep (calls : list (@fairing_call F D)) :
  let s := fairing_after calls in
  (FairingSeparation.isActive s = true -> FairingSeparation.trigger s = s) /\
  (FairingSeparation.isActive s = false ->
   FairingSeparation.isActive (FairingSeparation.trigger s) = true /\
   FairingSeparation.currentPhase (FairingSeparation.trigger s) = fzero /\
   FairingSeparation.sweepDirection (FairingSeparation.trigger s) =
     (- FairingSeparation.lastSweepDirection s)%Z /\
   FairingSeparation.lastSweepDirection (FairingSeparation.trigger s) =
     (- FairingSeparation.lastSweepDirection s)%Z) /\
  FairingSeparation.sweepDirection
    (FairingSeparation.trigger (@FairingSeparation.init F D _ _)) = 1%Z /\
  (forall n,
     FairingSeparation.lastSweepDirection (FairingSeparation.process s n) =
       FairingSeparation.lastSweepDirection s /\
     FairingSeparation.lastSweepDirection (FairingSeparation.reset s) =
       FairingSeparation.lastSweepDirection s).
Proof.
  intros s.
  assert (H : sweep_inv s).
  { unfold s, fairing_after.
    assert (H0 : sweep_inv (@FairingSeparation.init F D _ _))
      by (split; [right|left]; reflexivity).
    revert H0. generalize (@FairingSeparation.init F D _ _).
    induction calls as [|c cs IH]; intros s0 Hs0; [exact Hs0|].
    cbn [fold_left]. apply IH. apply fairing_do_sweep. exact Hs0. }
  destruct H as [Hl _].
  split; [|split; [|split]].
  - intros Ha. unfold FairingSeparation.trigger. rewrite Ha. reflexivity.
  - intros Ha. unfold FairingSeparation.trigger. rewrite Ha.
    cbn [FairingSeparation.isActive FairingSeparation.currentPhase
         FairingSeparation.sweepDirection
         FairingSeparation.lastSweepDirection].
    destruct Hl as [-> | ->]; repeat split; reflexivity.
  - reflexivity.
  - intros n. split; [|reflexivity].
    unfold FairingSeparation.process.
    destruct (negb _ && _); [reflexivity|].
    apply iter_advance_sweep.
Qed.
End SweepDirection.

(** ** Modulation engine: safety and bounds *)

Lemma Forall_upd {A} (P : A -> Prop) (l : list A) (i : nat) (x : A) :
  Forall P l -> P x -> Forall P (upd i x l).
Proof.
  rewrite !Forall_forall. intros H Hx y Hy.
  apply In_upd in Hy. destruct Hy as [->|Hy]; auto.
Qed.

Lemma Forall_get {A} (P : A -> Prop) (l : list A) (i : Z) (x : A) :
  Forall P l -> vec_get l i = Some x -> P x.
Proof.
  rewrite Forall_forall. intros H E. apply H. eapply vec_get_In; eauto.
Qed.

Section ModulationFrame.
Context {F D : Type} {AF : Arith F} {AD : Arith D} {CV : Conv F D}
        {LM : Libm F}.

(** [processSample] writes neither the sample rate nor the parameters
    that [setChaos] sets. *)
Lemma processSample_frame (m m' : @ModulationEngine.t F D) :
  ModulationEngine.processSample m = Some m' ->
  ModulationEngine.sampleRate m' = ModulationEngine.sampleRate m /\
  ModulationEngine.chaosAmount m' = ModulationEngine.chaosAmount m /\
  ModulationEngine.maxDepthSamples m' = ModulationEngine.maxDepthSamples m /\
  ModulationEngine.lfoFrequencies m' = ModulationEngine.lfoFrequencies m.
Proof.
  unfold ModulationEngine.processSample. intros H.
  apply bind_some in H. destruct H as (phases & _ & H).
  apply bind_some in H. destruct H as (counter & _ & H).
  apply bind_some in H. destruct H as (period & _ & H).
  apply bind_some in H. destruct H as (m1 & E1 & H).
  apply bind_some in H. destruct H as (drifts & _ & H).
  apply bind_some in H. destruct H as (outs & _ & H).
  inversion H; subst m'; clear H.
  cbn [ModulationEngine.sampleRate ModulationEngine.chaosAmount
       ModulationEngine.maxDepthSamples ModulationEngine.lfoFrequencies].
  destruct (counter >? period)%Z.
  - apply bind_some in E1. destruct E1 as (mu & Eu & E1).
    inversion E1; subst m1; clear E1.
    unfold ModulationEngine.updateDriftTargets in Eu.
    apply bind_some in Eu. destruct Eu as (ts & _ & Eu).
    inversion Eu; subst mu; clear Eu. cbn. auto.
  - inversion E1; subst m1; clear E1. cbn. auto.
Qed.

(** X11.  For every arithmetic, binary32 included: an engine with its
    arrays at their sizes, a drift period that converts to an [int]
    below [INT_MAX] and a drift counter with room for one more count
    takes any number of calls of [processSample].  Every array access
    is in range, the counter never overflows, and the sample rate, the
    chaos amount, the depth and the oscillator frequencies are not
    written. *)
Theorem processSample_safe (n : nat) :
  forall m : @ModulationEngine.t F D,
    modulation_ready m ->
    exists m',
      processSamples n m = Some m' /\
      modulation_ready m' /\
      ModulationEngine.sampleRate m' = ModulationEngine.sampleRate m /\
      ModulationEngine.chaosAmount m' = ModulationEngine.chaosAmount m /\
      ModulationEngine.maxDepthSamples m' =
        ModulationEngine.maxDepthSamples m /\
      ModulationEngine.lfoFrequencies m' = ModulationEngine.lfoFrequencies m.
Proof.
  intros m Hm. unfold processSamples, for_loop.
  apply (@for_from_total _
           (fun m' : @ModulationEngine.t F D =>
              modulation_ready m' /\
              ModulationEngine.sampleRate m' = ModulationEngine.sampleRate m /\
              ModulationEngine.chaosAmount m' =
                ModulationEngine.chaosAmount m /\
              ModulationEngine.maxDepthSamples m' =
                ModulationEngine.maxDepthSamples m /\
              ModulationEngine.lfoFrequencies m' =
                ModulationEngine.lfoFrequencies m)).
  - auto.
  - intros j s _ (Hs & E1 & E2 & E3 & E4).
    destruct (processSample_ready Hs) as (s' & E & Hs').
    exists s'. split; [exact E|]. split; [exact Hs'|].
    destruct (processSample_frame E) as (F1 & F2 & F3 & F4).
    repeat split; congruence.
Qed.
End ModulationFrame.

Section Run32b.
#[local] Existing Instance libm32.

Lemma processSample_safe_witness :
  exists m',
    processSamples 3 (@ModulationEngine.init binary32 binary64 _ _) =
      Some m' /\
    modulation_ready m' /\
    ModulationEngine.sampleRate m' =
      ModulationEngine.sampleRate (@ModulationEngine.init binary32 binary64 _ _) /\
    ModulationEngine.chaosAmount m' =
      ModulationEngine.chaosAmount (@ModulationEngine.init binary32 binary64 _ _) /\
    ModulationEngine.maxDepthSamples m' =
      ModulationEngine.maxDepthSamples
        (@ModulationEngine.init binary32 binary64 _ _) /\
    ModulationEngine.lfoFrequencies m' =
      ModulationEngine.lfoFrequencies
        (@ModulationEngine.init binary32 binary64 _ _).
Proof.
  apply (@processSample_safe binary32 binary64 _ _ _ libm32 3
           (@ModulationEngine.init binary32 binary64 _ _)).
  split; [repeat split; reflexivity|].
  exists 88200%Z. split; [vm_compute; reflexivity|].
  split; vm_compute; [reflexivity|split; discriminate].
Defined.
End Run32b.

(** A mixing weight lies within [0.5 * (1 - 0.12 * lfo)]. *)
Lemma getMixWeight_bound (out lfo : Z) :
  (0 <= out < 8)%Z -> (0 <= lfo < 6)%Z ->
  exists w : Q, ModulationEngine.getMixWeight out lfo = Some w /\
                within ((1 # 2) * (1 - inject_Z lfo * (12 # 100))) w.
Proof.
  intros Ho Hl. unfold ModulationEngine.getMixWeight.
  unfold int_rem at 1. cbn [Z.eqb bind].
  assert (Hk : (0 <= Z.rem out 8 < 8)%Z).
  { rewrite Z.rem_mod_nonneg by lia. apply Z.mod_pos_bound. lia. }
  destruct (@vec_get_some _ ModulationEngine.primes (Z.rem out 8))
    as (p & Ep & Hp); [exact Hk|].
  rewrite Ep. cbn [bind].
  assert (Bp : (0 <= p <= 31)%Z).
  { unfold ModulationEngine.primes in Hp. simpl in Hp. lia. }
  rewrite int_ok_some by (unfold INT_MIN, INT_MAX; nia).
  cbn [bind]. unfold int_rem. cbn [Z.eqb bind].
  eexists. split; [reflexivity|].
  set (r := Z.rem (p * (lfo + 1) + out) 100).
  assert (Hr : (0 <= r < 100)%Z).
  { unfold r. rewrite Z.rem_mod_nonneg by nia. apply Z.mod_pos_bound. lia. }
  q_norm. change (f_lit 100 1) with 100.
  change (f_lit 5 10) with (5 # 10). change (f_lit 12 100) with (12 # 100).
  assert (R0 : 0 <= inject_Z r)
    by (change 0 with (inject_Z 0); rewrite <- Zle_Qle; lia).
  assert (R1 : inject_Z r <= 99)
    by (change 99 with (inject_Z 99); rewrite <- Zle_Qle; lia).
  assert (L0 : 0 <= inject_Z lfo)
    by (change 0 with (inject_Z 0); rewrite <- Zle_Qle; lia).
  assert (L1 : inject_Z lfo <= 5)
    by (change 5 with (inject_Z 5); rewrite <- Zle_Qle; lia).
  set (a := inject_Z r / 100 - (5 # 10)).
  set (b := 1 - inject_Z lfo * (12 # 100)).
  assert (A : - (1 # 2) <= a /\ a <= 1 # 2).
  { unfold a. split.
    - assert (0 <= inject_Z r / 100)
        by (apply Qle_shift_div_l; [reflexivity|]; lra). lra.
    - assert (inject_Z r / 100 <= 1)
        by (apply Qle_shift_div_r; [reflexivity|]; lra). lra. }
  assert (B : 0 <= b /\ b <= 1) by (unfold b; lra).
  unfold within. clearbody a b. clear - A B. nra.
Qed.

Lemma within_mul (a b x y : Q) :
  within a x -> within b y -> within (a * b) (x * y).
Proof. unfold within. intros [A1 A2] [B1 B2]. split; nra. Qed.

Lemma Forall_vec_set {A} (P : A -> Prop) (v v' : list A) (i : Z) (x : A) :
  Forall P v -> P x -> vec_set v i x = Some v' -> Forall P v'.
Proof.
  intros H Hx. unfold vec_set. destruct (_ && _); [|discriminate].
  intros E; inversion E. apply Forall_upd; assumption.
Qed.

Lemma twoPi_pos : 0 < @ModulationEngine.twoPi Q _.
Proof. reflexivity. Qed.

Lemma twoPi_pi : @ModulationEngine.twoPi Q _ == 2 * @ModulationEngine.pi Q _.
Proof. reflexivity. Qed.

Lemma pi_pos : 0 < @ModulationEngine.pi Q _.
Proof. reflexivity. Qed.

Section ModulationBoundsProofs.
Context {LM : Libm Q}.
Hypothesis sine : sine_bounded.
Hypothesis draws : uniform_in_range.

(** The peak of each oscillator shape: 1.3 for the asymmetric sine,
    1 for the others. *)
Lemma getLFOValue_bound (m : @ModulationEngine.t Q Q) (lfo : Z) :
  length (ModulationEngine.lfoPhases m) = 6%nat ->
  Forall (fun p => 0 <= p /\ p <= ModulationEngine.twoPi)
         (ModulationEngine.lfoPhases m) ->
  (0 <= lfo < 6)%Z ->
  exists v, ModulationEngine.getLFOValue m lfo = Some v /\
            within (if (lfo =? 3)%Z then 13 # 10 else 1) v.
Proof.
  intros L Hph Hl. unfold ModulationEngine.getLFOValue.
  destruct (@vec_get_some _ (ModulationEngine.lfoPhases m) lfo)
    as (ph & E & _); [unfold size; lia|].
  rewrite E. cbn [bind].
  pose proof (Forall_get Hph E) as [P0 P1].
  pose proof twoPi_pi as TP. pose proof pi_pos as PP.
  set (tp := ModulationEngine.twoPi) in *.
  set (pi := ModulationEngine.pi) in *.
  pose proof (sine ph) as S1.
  pose proof (sine (ph * f_lit 2 1)%fl) as S2.
  pose proof (sine (ph * f_lit 3 1)%fl) as S3.
  set (s1 := sinf ph) in *.
  set (s2 := sinf (ph * f_lit 2 1)%fl) in *.
  set (s3 := sinf (ph * f_lit 3 1)%fl) in *.
  unfold within in *.
  assert (C : (lfo = 0 \/ lfo = 1 \/ lfo = 2 \/ lfo = 3 \/ lfo = 4
               \/ lfo = 5)%Z) by lia.
  destruct C as [E0 | [E0 | [E0 | [E0 | [E0 | E0]]]]]; subst lfo;
    (eexists; split; [reflexivity|]); cbv beta iota; q_norm;
    change (f_lit 2 1) with 2; change (f_lit 3 1) with 3;
    change (f_lit 5 10) with (5 # 10); change (f_lit 7 10) with (7 # 10);
    change (f_lit 2 10) with (2 # 10); change (f_lit 1 10) with (1 # 10);
    change (f_lit 3 10) with (3 # 10);
    match goal with
    | |- context [Z.rem ?a 4] =>
        let r := eval vm_compute in (Z.rem a 4) in
        change (Z.rem a 4) with r
    end;
    match goal with
    | |- context [(?a =? 3)%Z] =>
        let r := eval vm_compute in (a =? 3)%Z in
        change (a =? 3)%Z with r
    end; cbv iota.
  - exact S1.
  - assert (Q0 : 0 <= 2 * ph / pi)
      by (apply Qle_shift_div_l; [exact PP|]; lra).
    assert (Q1 : 2 * ph / pi <= 4)
      by (apply Qle_shift_div_r; [exact PP|]; lra).
    assert (T : -1 <= (if (ph <? pi)%fl then 2 * ph / pi - 1
                       else 3 - 2 * ph / pi) /\
                (if (ph <? pi)%fl then 2 * ph / pi - 1
                 else 3 - 2 * ph / pi) <= 1).
    { unfold f_ltb, Q_arith. destruct (Qlt_le_dec ph pi) as [Lt|Ge].
      - assert (2 * ph / pi <= 2)
          by (apply Qle_shift_div_r; [exact PP|]; lra). lra.
      - assert (2 <= 2 * ph / pi)
          by (apply Qle_shift_div_l; [exact PP|]; lra). lra. }
    set (tri := if (ph <? pi)%fl then 2 * ph / pi - 1 else 3 - 2 * ph / pi)
      in *.
    clearbody tri. clear - T.
    assert (U : 0 <= tri * tri /\ tri * tri <= 1) by nra.
    set (u := tri * tri) in *. clearbody u.
    assert (W : within (1 * 1) (u * tri))
      by (apply within_mul; unfold within; lra).
    unfold within in W. lra.
  - lra.
  - clearbody s1. clear - S1.
    assert (U : 0 <= (3 # 10) * s1 * s1 /\ (3 # 10) * s1 * s1 <= 3 # 10) by nra.
    set (u := (3 # 10) * s1 * s1) in *. clearbody u.
    assert (W : within (1 * (13 # 10)) (s1 * (1 + u)))
      by (apply within_mul; unfold within; lra).
    unfold within in W. lra.
  - exact S1.
  - assert (Q0 : 0 <= 2 * ph / pi)
      by (apply Qle_shift_div_l; [exact PP|]; lra).
    assert (Q1 : 2 * ph / pi <= 4)
      by (apply Qle_shift_div_r; [exact PP|]; lra).
    assert (T : -1 <= (if (ph <? pi)%fl then 2 * ph / pi - 1
                       else 3 - 2 * ph / pi) /\
                (if (ph <? pi)%fl then 2 * ph / pi - 1
                 else 3 - 2 * ph / pi) <= 1).
    { unfold f_ltb, Q_arith. destruct (Qlt_le_dec ph pi) as [Lt|Ge].
      - assert (2 * ph / pi <= 2)
          by (apply Qle_shift_div_r; [exact PP|]; lra). lra.
      - assert (2 <= 2 * ph / pi)
          by (apply Qle_shift_div_l; [exact PP|]; lra). lra. }
    set (tri := if (ph <? pi)%fl then 2 * ph / pi - 1 else 3 - 2 * ph / pi)
      in *.
    clearbody tri. clear - T.
    assert (U : 0 <= tri * tri /\ tri * tri <= 1) by nra.
    set (u := tri * tri) in *. clearbody u.
    assert (W : within (1 * 1) (u * tri))
      by (apply within_mul; unfold within; lra).
    unfold within in W. lra.
Qed.

(** The six weighted oscillators of one output add up to at most 2.196. *)
Lemma mix_bound (m : @ModulationEngine.t Q Q) (out : Z) :
  length (ModulationEngine.lfoPhases m) = 6%nat ->
  Forall (fun p => 0 <= p /\ p <= ModulationEngine.twoPi)
         (ModulationEngine.lfoPhases m) ->
  (0 <= out < 8)%Z ->
  exists acc,
    for_loop 6 (fun lfo acc =>
        weight <- ModulationEngine.getMixWeight out lfo ;;
        lfoValue <- ModulationEngine.getLFOValue m lfo ;;
        Some (acc + lfoValue * weight)%fl) fzero = Some acc /\
    within (2196 # 1000) acc.
Proof.
  intros L Hph Ho.
  destruct (@getMixWeight_bound out 0) as (w0 & Ew0 & Bw0); [lia|lia|].
  destruct (@getMixWeight_bound out 1) as (w1 & Ew1 & Bw1); [lia|lia|].
  destruct (@getMixWeight_bound out 2) as (w2 & Ew2 & Bw2); [lia|lia|].
  destruct (@getMixWeight_bound out 3) as (w3 & Ew3 & Bw3); [lia|lia|].
  destruct (@getMixWeight_bound out 4) as (w4 & Ew4 & Bw4); [lia|lia|].
  destruct (@getMixWeight_bound out 5) as (w5 & Ew5 & Bw5); [lia|lia|].
  destruct (@getLFOValue_bound m 0 L Hph) as (v0 & Ev0 & Bv0); [lia|].
  destruct (@getLFOValue_bound m 1 L Hph) as (v1 & Ev1 & Bv1); [lia|].
  destruct (@getLFOValue_bound m 2 L Hph) as (v2 & Ev2 & Bv2); [lia|].
  destruct (@getLFOValue_bound m 3 L Hph) as (v3 & Ev3 & Bv3); [lia|].
  destruct (@getLFOValue_bound m 4 L Hph) as (v4 & Ev4 & Bv4); [lia|].
  destruct (@getLFOValue_bound m 5 L Hph) as (v5 & Ev5 & Bv5); [lia|].
  unfold for_loop. cbn [for_from].
  bind_value Ew0 w0. cbn [bind]. bind_value Ev0 v0. cbn [bind].
  bind_value Ew1 w1. cbn [bind]. bind_value Ev1 v1. cbn [bind].
  bind_value Ew2 w2. cbn [bind]. bind_value Ev2 v2. cbn [bind].
  bind_value Ew3 w3. cbn [bind]. bind_value Ev3 v3. cbn [bind].
  bind_value Ew4 w4. cbn [bind]. bind_value Ev4 v4. cbn [bind].
  bind_value Ew5 w5. cbn [bind]. bind_value Ev5 v5. cbn [bind].
  eexists. split; [reflexivity|].
  pose proof (within_mul Bv0 Bw0) as T0.
  pose proof (within_mul Bv1 Bw1) as T1.
  pose proof (within_mul Bv2 Bw2) as T2.
  pose proof (within_mul Bv3 Bw3) as T3.
  pose proof (within_mul Bv4 Bw4) as T4.
  pose proof (within_mul Bv5 Bw5) as T5.
  cbv beta iota delta [Z.eqb Pos.eqb inject_Z] in T0, T1, T2, T3, T4, T5.
  q_norm. unfold within in *.
  set (t0 := v0 * w0) in *. set (t1 := v1 * w1) in *.
  set (t2 := v2 * w2) in *. set (t3 := v3 * w3) in *.
  set (t4 := v4 * w4) in *. set (t5 := v5 * w5) in *.
  clearbody t0 t1 t2 t3 t4 t5.
  clear - T0 T1 T2 T3 T4 T5. lra.
Qed.

(** One call of [processSample] keeps the bounds, for any cap on the
    depth. *)
Lemma processSample_capped (b : Q) (m : @ModulationEngine.t Q Q) :
  modulation_capped b m ->
  exists m',
    ModulationEngine.processSample m = Some m' /\
    modulation_capped b m' /\
    ModulationEngine.maxDepthSamples m' = ModulationEngine.maxDepthSamples m.
Proof.
  intros (Hr & Hsr & Hph & Hfq & Hch & Hd & Hdv & Hdt & Hso).
  destruct (processSample_ready Hr) as (m' & E & Hr').
  exists m'. split; [exact E|].
  destruct (processSample_frame E) as (F1 & F2 & F3 & F4).
  split; [|exact F3].
  unfold modulation_capped. rewrite F1, F2, F3, F4.
  split; [exact Hr'|]. split; [exact Hsr|].
  destruct Hr as ((L1 & L2 & L3 & L4 & L5) & _).
  unfold ModulationEngine.processSample in E.
  apply bind_some in E. destruct E as (phases & Eph & E).
  apply bind_some in E. destruct E as (counter & _ & E).
  apply bind_some in E. destruct E as (period & _ & E).
  apply bind_some in E. destruct E as (m1 & E1 & E).
  apply bind_some in E. destruct E as (drifts & Edr & E).
  apply bind_some in E. destruct E as (outs & Eout & E).
  inversion E; subst m'; clear E.
  cbn [ModulationEngine.lfoPhases ModulationEngine.driftValues
       ModulationEngine.driftTargets ModulationEngine.smoothedOutputs].
  (* the new phases *)
  assert (Pph : length phases = 6%nat /\
                Forall (fun p => 0 <= p /\ p <= ModulationEngine.twoPi) phases).
  { revert Eph. unfold for_loop.
    apply (@for_from_inv _
             (fun ps : list Q =>
                length ps = 6%nat /\
                Forall (fun p => 0 <= p /\ p <= ModulationEngine.twoPi) ps)).
    - split; assumption.
    - intros j ps ps' Hj [Lps Hps] Eb.
      apply bind_some in Eb. destruct Eb as (fq & Efq & Eb).
      apply bind_some in Eb. destruct Eb as (p & Ep & Eb).
      split; [rewrite (vec_set_length Eb); exact Lps|].
      refine (Forall_vec_set Hps _ Eb).
      pose proof (Forall_get Hfq Efq) as [Q0 Q1].
      pose proof (Forall_get Hps Ep) as [P0 P1].
      pose proof twoPi_pos as TP.
      set (tp := ModulationEngine.twoPi) in *. clearbody tp.
      change (to_float (ModulationEngine.sampleRate m))
        with (ModulationEngine.sampleRate m).
      set (sr := ModulationEngine.sampleRate m) in *. clearbody sr.
      q_norm.
      assert (I0 : 0 <= fq / sr)
        by (apply Qle_shift_div_l; [exact Hsr|]; lra).
      assert (I1 : fq / sr <= 1)
        by (apply Qle_shift_div_r; [exact Hsr|]; lra).
      set (inc := fq / sr) in *. clearbody inc.
      assert (I2 : 0 <= inc * tp /\ inc * tp <= tp) by nra.
      set (d := inc * tp) in *. clearbody d.
      unfold f_ltb, Q_arith. destruct (Qlt_le_dec tp (p + d)); lra. }
  destruct Pph as [Lph Pph].
  (* the state before the drift loop *)
  assert (P1 : ModulationEngine.lfoPhases m1 = phases /\
               ModulationEngine.chaosAmount m1 = ModulationEngine.chaosAmount m /\
               ModulationEngine.maxDepthSamples m1 =
                 ModulationEngine.maxDepthSamples m /\
               ModulationEngine.driftValues m1 = ModulationEngine.driftValues m /\
               ModulationEngine.smoothedOutputs m1 =
                 ModulationEngine.smoothedOutputs m /\
               Forall (within 1) (ModulationEngine.driftTargets m1)).
  { destruct (counter >? period)%Z.
    - apply bind_some in E1. destruct E1 as (mu & Eu & E1).
      inversion E1; subst m1; clear E1.
      unfold ModulationEngine.updateDriftTargets in Eu.
      apply bind_some in Eu. destruct Eu as (ts & Ets & Eu).
      inversion Eu; subst mu; clear Eu. cbn.
      repeat (split; [reflexivity|]).
      revert Ets. unfold for_loop.
      apply (@for_from_inv _ (fun ts : list Q => Forall (within 1) ts)).
      + exact Hdt.
      + intros j s s' _ Hs Eb. refine (Forall_vec_set Hs _ Eb).
        q_norm. unfold within.
        destruct (@draws (- (1)) 1
                         (ModulationEngine.entropy m + Z.to_nat j)%nat)
          as [U0 U1];
          [lra|]. split; assumption.
    - inversion E1; subst m1; clear E1. cbn.
      repeat (split; [reflexivity|]). exact Hdt. }
  destruct P1 as (M1 & M2 & M3 & M4 & M5 & Htg).
  rewrite M1.
  (* the drift values *)
  assert (Pdr : length drifts = 8%nat /\ Forall (within 1) drifts).
  { revert Edr. unfold for_loop. rewrite M4.
    apply (@for_from_inv _
             (fun vs : list Q => length vs = 8%nat /\ Forall (within 1) vs)).
    - split; assumption.
    - intros j vs vs' _ [Lvs Hvs] Eb.
      apply bind_some in Eb. destruct Eb as (v & Ev & Eb).
      apply bind_some in Eb. destruct Eb as (tg & Etg & Eb).
      split; [rewrite (vec_set_length Eb); exact Lvs|].
      refine (Forall_vec_set Hvs _ Eb).
      pose proof (Forall_get Hvs Ev) as V.
      pose proof (Forall_get Htg Etg) as T.
      q_norm. change (f_lit 9999 10000) with (9999 # 10000).
      unfold within in *. lra. }
  destruct Pdr as [Ldr Pdr].
  split; [exact Pph|]. split; [exact Hfq|]. split; [exact Hch|].
  split; [exact Hd|]. split; [exact Pdr|]. split; [exact Htg|].
  (* the smoothed outputs *)
  revert Eout. unfold for_loop at 1. rewrite M5.
  apply (@for_from_inv _
           (fun so : list Q => Forall (within ((25 # 10) * b)) so)).
  - exact Hso.
  - intros j so so' Hj Hs Eb.
    apply bind_some in Eb. destruct Eb as (acc & Eacc & Eb).
    apply bind_some in Eb. destruct Eb as (dv & Edv & Eb).
    apply bind_some in Eb. destruct Eb as (s & Es & Eb).
    refine (Forall_vec_set Hs _ Eb).
    destruct (@mix_bound m1 j) as (acc' & Eacc' & Bacc);
      [rewrite M1; exact Lph|rewrite M1; exact Pph|cbn in Hj; lia|].
    rewrite Eacc' in Eacc. inversion Eacc; subst acc'; clear Eacc Eacc'.
    pose proof (Forall_get Pdr Edv) as Bdv.
    pose proof (Forall_get Hs Es) as Bs.
    rewrite M2, M3.
    set (ch := ModulationEngine.chaosAmount m) in *.
    set (dp := ModulationEngine.maxDepthSamples m) in *.
    clearbody ch dp.
    q_norm. change (f_lit 3 10) with (3 # 10).
    change (f_lit 995 1000) with (995 # 1000).
    assert (W1 : within (1 * 1) (dv * ch))
      by (apply within_mul; [exact Bdv|unfold within; lra]).
    unfold within in *.
    set (x := dv * ch) in *. clearbody x.
    assert (W2 : - (25 # 10) * dp <= (acc + x * (3 # 10)) * dp /\
                 (acc + x * (3 # 10)) * dp <= (25 # 10) * dp) by nra.
    set (y := (acc + x * (3 # 10)) * dp) in *. clearbody y. lra.
Qed.

Lemma bounded_capped (m : @ModulationEngine.t Q Q) :
  modulation_bounded m <->
  modulation_capped (ModulationEngine.maxDepthSamples m) m.
Proof.
  unfold modulation_bounded, modulation_capped. split.
  - intros (H1 & H2 & H3 & H4 & H5 & H6 & H7 & H8 & H9).
    repeat (split; [assumption|]). split; [|tauto].
    split; [exact H6|apply Qle_refl].
  - intros (H1 & H2 & H3 & H4 & H5 & [H6 _] & H7 & H8 & H9). tauto.
Qed.

(** One call of [processSample] keeps the bounds. *)
Lemma processSample_bounded (m : @ModulationEngine.t Q Q) :
  modulation_bounded m ->
  exists m',
    ModulationEngine.processSample m = Some m' /\
    modulation_bounded m' /\
    ModulationEngine.maxDepthSamples m' = ModulationEngine.maxDepthSamples m.
Proof.
  intros Hm. apply bounded_capped in Hm.
  destruct (processSample_capped Hm) as (m' & E & Hm' & Ed).
  exists m'. split; [exact E|]. split; [|exact Ed].
  apply bounded_capped. rewrite Ed. exact Hm'.
Qed.

(** Any number of calls keeps the bounds. *)
Lemma processSamples_bounded (n : nat) (m : @ModulationEngine.t Q Q) :
  modulation_bounded m ->
  exists m',
    processSamples n m = Some m' /\
    modulation_bounded m' /\
    ModulationEngine.maxDepthSamples m' = ModulationEngine.maxDepthSamples m.
Proof.
  intros Hm. unfold processSamples, for_loop.
  apply (@for_from_total _
           (fun m' : @ModulationEngine.t Q Q =>
              modulation_bounded m' /\
              ModulationEngine.maxDepthSamples m' =
                ModulationEngine.maxDepthSamples m)).
  - split; [exact Hm|reflexivity].
  - intros j s _ [Hs Es].
    destruct (processSample_bounded Hs) as (s' & E & Hs' & Es').
    exists s'. split; [exact E|]. split; [exact Hs'|congruence].
Qed.
End ModulationBoundsProofs.

Section ModulationOutputs.
Context {LM : Libm Q}.

(** X12.  In exact arithmetic, with a sine between -1 and 1 and random
    draws inside the interval asked for: from an engine whose phases lie
    in [0, 2 pi], whose oscillators are no faster than the sample rate,
    whose chaos amount lies in [0, 1] and whose drift values, drift
    targets and outputs are within their bounds, any number of calls of
    [processSample] keeps all of that, and [getModulation] then answers
    every index, in range or not, with a value of magnitude at most 2.5
    times [maxDepthSamples]. *)
Theorem modulation_outputs_bounded (n : nat) (m : @ModulationEngine.t Q Q) :
  sine_bounded -> uniform_in_range -> modulation_bounded m ->
  exists m',
    processSamples n m = Some m' /\
    modulation_bounded m' /\
    forall outputIndex : Z,
      exists v,
        ModulationEngine.getModulation m' outputIndex = Some v /\
        within ((25 # 10) * ModulationEngine.maxDepthSamples m) v.
Proof.
  intros sine draws Hm.
  destruct (processSamples_bounded sine draws n Hm) as (m' & E & Hm' & Ed).
  exists m'. split; [exact E|]. split; [exact Hm'|].
  intros out. unfold ModulationEngine.getModulation.
  destruct Hm' as (((_ & _ & _ & _ & L5) & _) & _ & _ & _ & _ & Hd & _ & _ & Hso).
  rewrite Ed in Hd, Hso.
  destruct ((out <? 0) || (out >=? ModulationEngine.NumOutputs))%Z eqn:C.
  - exists fzero. split; [reflexivity|]. q_norm. unfold within. lra.
  - apply orb_false_iff in C. destruct C as [C0 C1].
    apply Z.ltb_ge in C0. unfold ModulationEngine.NumOutputs in C1.
    assert (out < 8)%Z by lia.
    destruct (@vec_get_some _ (ModulationEngine.smoothedOutputs m') out)
      as (v & Ev & _); [unfold size; lia|].
    exists v. split; [exact Ev|]. exact (Forall_get Hso Ev).
Qed.
End ModulationOutputs.

Section RunQ3.
#[local] Existing Instance libmQ.
#[local] Existing Instance juceQ.

Lemma modulation_outputs_bounded_witness :
  exists m',
    processSamples 3 (AlgorithmicReverb.modulationEngine tuned_reverb) =
      Some m' /\
    modulation_bounded m' /\
    forall outputIndex : Z,
      exists v,
        ModulationEngine.getModulation m' outputIndex = Some v /\
        within ((25 # 10) *
                ModulationEngine.maxDepthSamples
                  (AlgorithmicReverb.modulationEngine tuned_reverb)) v.
Proof.
  apply (@modulation_outputs_bounded libmQ 3
           (AlgorithmicReverb.modulationEngine tuned_reverb)).
  - intros x. split; discriminate.
  - intros lo hi k H. split; [apply Qle_refl|exact H].
  - split.
    { split; [repeat split; reflexivity|].
      exists 2000%Z. split; [vm_compute; reflexivity|].
      split; vm_compute; [reflexivity|split; discriminate]. }
    split; [reflexivity|].
    vm_compute.
    repeat match goal with
           | |- _ /\ _ => split
           | |- Forall _ _ => constructor
           | |- _ => discriminate
           end.
Defined.
End RunQ3.

(** ** The modulation engine under any sequence of calls *)

Lemma engine_init_inv {LM : Libm Q} : engine_inv ModulationEngine.init.
Proof.
  pose proof twoPi_pos as TP.
  unfold engine_inv, modulation_capped. cbn.
  split; [|split; [lra|repeat constructor; q_norm; lra]].
  split; [apply modulation_readyb_sound; reflexivity|].
  split; [reflexivity|].
  split; [repeat constructor; q_norm; lra|].
  split; [repeat constructor; q_norm; try lra; discriminate|].
  split; [split; discriminate|]. split; [split; discriminate|].
  split; [repeat constructor; unfold within; q_norm; lra|].
  split; repeat constructor; unfold within; q_norm; lra.
Qed.

Section EngineInvariant.
Context {LM : Libm Q}.
Hypothesis sine : sine_bounded.
Hypothesis draws : uniform_in_range.
Hypothesis powers : golden_powers_bounded.

Lemma engine_processSample_inv (m : @ModulationEngine.t Q Q) :
  engine_inv m ->
  exists m', ModulationEngine.processSample m = Some m' /\ engine_inv m'.
Proof.
  intros (Hc & Hsr & Hf).
  destruct (processSample_capped sine draws Hc) as (m' & E & Hc' & _).
  exists m'. split; [exact E|].
  destruct (processSample_frame E) as (F1 & _ & _ & F4).
  unfold engine_inv. rewrite F1, F4. tauto.
Qed.

Lemma engine_setChaos_inv (m : @ModulationEngine.t Q Q) (chaos : Q) :
  engine_inv m ->
  exists m', ModulationEngine.setChaos m chaos = Some m' /\ engine_inv m'.
Proof.
  intros ((Hr & Hsr & Hph & Hfq & Hch & Hd & Hdv & Hdt & Hso) & Hsr4 & Hf).
  destruct (modulation_setChaos_ready chaos Hr) as (m' & E & Hr' & Ech).
  exists m'. split; [exact E|].
  unfold ModulationEngine.setChaos in E. cbv zeta in E.
  apply bind_some in E. destruct E as (freqs & Efr & E).
  inversion E; subst m'; clear E.
  destruct (@Q_jlimit_bounds 0 1 chaos) as [C0 C1]; [lra|].
  assert (Pf : Forall (fun f => 0 <= f /\ f <= 4) freqs).
  { revert Efr. unfold for_loop.
    apply (@for_from_inv _
             (fun fs : list Q => Forall (fun f => 0 <= f /\ f <= 4) fs)).
    - apply Forall_forall. intros f Hin.
      rewrite Forall_forall in Hfq, Hf.
      split; [apply (Hfq f Hin)|apply (Hf f Hin)].
    - intros j fs fs' Hj Hfs Eb. refine (Forall_vec_set Hfs _ Eb).
      destruct (powers (i := j)) as [P0 P1]; [cbn in Hj; lia|].
      q_norm. change (f_lit 7 10) with (7 # 10).
      change (f_lit 15 100) with (15 # 100).
      change (f_lit 5 10) with (5 # 10).
      set (pw := powf _ _) in *. clearbody pw.
      set (c := jlimit 0 1 chaos) in *. clearbody c. nra. }
  unfold engine_inv, modulation_capped.
  cbn [ModulationEngine.sampleRate ModulationEngine.chaosAmount
       ModulationEngine.maxDepthSamples ModulationEngine.lfoPhases
       ModulationEngine.lfoFrequencies ModulationEngine.driftValues
       ModulationEngine.driftTargets ModulationEngine.smoothedOutputs].
  split; [|split; [exact Hsr4|]].
  - split; [exact Hr'|]. split; [exact Hsr|]. split; [exact Hph|].
    split.
    { eapply Forall_impl; [|exact Pf]. cbv beta. intros f [F0 F1]. lra. }
    q_norm. split; [split; assumption|].
    split.
    { change (f_lit 20 1) with (20 # 1). change (f_lit 60 1) with (60 # 1).
      set (c := jlimit 0 1 chaos) in *. clearbody c. lra. }
    split; [exact Hdv|]. split; [exact Hdt|exact Hso].
  - eapply Forall_impl; [|exact Pf]. cbv beta. intros f [F0 F1]. exact F1.
Qed.
Lemma engine_reset_inv (m : @ModulationEngine.t Q Q) :
  engine_inv m ->
  exists m', ModulationEngine.reset m = Some m' /\ engine_inv m'.
Proof.
  intros ((Hr & Hsr & Hph & Hfq & Hch & Hd & Hdv & Hdt & Hso) & Hsr4 & Hf).
  destruct Hr as (Hs & period & Ep & Hp & Hc).
  destruct (modulation_reset_spec Hs)
    as (m' & E & Hs' & _ & _ & Efq & Ech & Edp & Esr & Edc).
  exists m'. split; [exact E|].
  unfold engine_inv, modulation_capped. rewrite Efq, Ech, Edp, Esr.
  unfold ModulationEngine.reset in E.
  apply bind_some in E. destruct E as (phases & Eph & E).
  apply bind_some in E. destruct E as ([[vs ts] outs] & Edr & E).
  inversion E; subst m'; clear E.
  cbn [ModulationEngine.lfoPhases ModulationEngine.driftValues
       ModulationEngine.driftTargets ModulationEngine.smoothedOutputs].
  assert (Pph : Forall (fun p => 0 <= p /\ p <= ModulationEngine.twoPi) phases).
  { revert Eph. unfold for_loop.
    apply (@for_from_inv _
             (fun ps : list Q =>
                Forall (fun p => 0 <= p /\ p <= ModulationEngine.twoPi) ps)).
    - exact Hph.
    - intros j ps ps' Hj Hps Eb. refine (Forall_vec_set Hps _ Eb).
      assert (J0 : 0 <= inject_Z j)
        by (change 0 with (inject_Z 0); rewrite <- Zle_Qle; lia).
      assert (J1 : inject_Z j <= 5)
        by (change 5 with (inject_Z 5); rewrite <- Zle_Qle; cbn in Hj; lia).
      q_norm. change (f_lit 37 100) with (37 # 100).
      change (@ModulationEngine.twoPi Q _)
        with (6283185307179586 # 1000000000000000).
      set (x := inject_Z j) in *. clearbody x. lra. }
  assert (Pdr : Forall (within 1) vs /\ Forall (within 1) ts /\
                Forall (within ((25 # 10) * 80)) outs).
  { revert Edr. unfold for_loop.
    apply (@for_from_inv _
             (fun st : list Q * list Q * list Q =>
                Forall (within 1) (fst (fst st)) /\
                Forall (within 1) (snd (fst st)) /\
                Forall (within ((25 # 10) * 80)) (snd st))
             _ 8 0%Z (ModulationEngine.driftValues m,
                      ModulationEngine.driftTargets m,
                      ModulationEngine.smoothedOutputs m) (vs, ts, outs)).
    - cbn [fst snd]. tauto.
    - intros j [[a b] c] st' _ (Ha & Hb & Hcc) Eb. cbn [fst snd] in *.
      apply bind_some in Eb. destruct Eb as (a' & Ea & Eb).
      apply bind_some in Eb. destruct Eb as (b' & Eb' & Eb).
      apply bind_some in Eb. destruct Eb as (c' & Ec & Eb).
      inversion Eb; subst st'; clear Eb. cbn [fst snd].
      split; [|split].
      + refine (Forall_vec_set Ha _ Ea). unfold within. q_norm. lra.
      + refine (Forall_vec_set Hb _ Eb'). unfold within. q_norm. lra.
      + refine (Forall_vec_set Hcc _ Ec). unfold within. q_norm. lra. }
  destruct Pdr as (Pv & Pt & Po).
  split; [|split; assumption].
  split.
  { split; [exact Hs'|]. exists period. rewrite Esr, Edc. tauto. }
  tauto.
Qed.

Lemma engine_prepare_inv (m : @ModulationEngine.t Q Q) (sr : Q) :
  engine_inv m -> 4 <= sr -> sr <= inject_Z (2 ^ 30 - 1) ->
  exists m', ModulationEngine.prepare m sr = Some m' /\ engine_inv m'.
Proof.
  intros ((Hr & Hsr & Hph & Hfq & Hch & Hd & Hdv & Hdt & Hso) & Hsr4 & Hf)
         S0 S1.
  change (inject_Z (2 ^ 30 - 1)) with (1073741823 # 1) in S1.
  destruct Hr as (Hs & period & Ep & Hp & Hc).
  destruct (modulation_prepare_ready
              (m := m) (sr := sr) (period := Qfloor (sr * (2 # 1))) Hs)
    as (m' & E & Hr').
  { apply Q_to_int_nonneg; [q_norm; change (f_lit 2 1) with (2 # 1); lra|].
    assert (Qfloor (sr * (2 # 1)) <= 2 ^ 31 - 2)%Z; [|unfold INT_MAX; lia].
    apply Qfloor_bounds with (a := 0%Z).
    - change (inject_Z 0) with 0. lra.
    - change (inject_Z (2 ^ 31 - 2)) with (2147483646 # 1). lra. }
  { assert (Qfloor (sr * (2 # 1)) <= 2 ^ 31 - 2)%Z; [|unfold INT_MAX; lia].
    apply Qfloor_bounds with (a := 0%Z).
    - change (inject_Z 0) with 0. lra.
    - change (inject_Z (2 ^ 31 - 2)) with (2147483646 # 1). lra. }
  { exact Hc. }
  exists m'. split; [exact E|].
  unfold ModulationEngine.prepare in E. cbv zeta in E.
  apply bind_some in E. destruct E as ([freqs phases] & Efp & E).
  apply bind_some in E. destruct E as ([vs ts] & Edr & E).
  cbn [fst snd] in E.
  unfold ModulationEngine.updateDriftTargets in E.
  cbn [ModulationEngine.sampleRate ModulationEngine.chaosAmount
       ModulationEngine.maxDepthSamples ModulationEngine.lfoPhases
       ModulationEngine.lfoFrequencies ModulationEngine.driftValues
       ModulationEngine.driftTargets ModulationEngine.smoothedOutputs
       ModulationEngine.driftCounter ModulationEngine.entropy] in E.
  apply bind_some in E. destruct E as (targets & Etg & E).
  inversion E; subst m'; clear E.
  (* frequencies and phases *)
  assert (Pfp : Forall (fun f => 0 <= f /\ f <= 4) freqs /\
                Forall (fun p => 0 <= p /\ p <= ModulationEngine.twoPi) phases).
  { revert Efp. unfold for_loop.
    apply (@for_from_inv _
             (fun st : list Q * list Q =>
                Forall (fun f => 0 <= f /\ f <= 4) (fst st) /\
                Forall (fun p => 0 <= p /\ p <= ModulationEngine.twoPi)
                       (snd st))
             _ 6 0%Z (ModulationEngine.lfoFrequencies m,
                      ModulationEngine.lfoPhases m) (freqs, phases)).
    - cbn [fst snd]. split; [|exact Hph].
      apply Forall_forall. intros f Hin.
      rewrite Forall_forall in Hfq, Hf.
      split; [apply (Hfq f Hin)|apply (Hf f Hin)].
    - intros j [fs ps] st' Hj [Hfs Hps] Eb. cbn [fst snd] in *.
      apply bind_some in Eb. destruct Eb as (fs' & Efs & Eb).
      apply bind_some in Eb. destruct Eb as (ps' & Eps & Eb).
      inversion Eb; subst st'; clear Eb. cbn [fst snd].
      split.
      + refine (Forall_vec_set Hfs _ Efs).
        destruct (powers (i := j)) as [P0 P1]; [lia|].
        q_norm. change (f_lit 7 10) with (7 # 10).
        change (f_lit 23 100) with (23 # 100).
        set (pw := powf _ _) in *. clearbody pw. lra.
      + refine (Forall_vec_set Hps _ Eps).
        assert (J0 : 0 <= inject_Z j)
          by (change 0 with (inject_Z 0); rewrite <- Zle_Qle; lia).
        assert (J1 : inject_Z j <= 5)
          by (change 5 with (inject_Z 5); rewrite <- Zle_Qle; lia).
        destruct (@draws 0 ModulationEngine.twoPi
                         (ModulationEngine.entropy m + Z.to_nat j)%nat)
          as [U0 U1]; [apply Qlt_le_weak, twoPi_pos|].
        q_norm. change (f_lit 37 100) with (37 # 100).
        change (f_lit 3 10) with (3 # 10).
        set (u := uniform _ _ _) in *. clearbody u.
        change (@ModulationEngine.twoPi Q _)
          with (6283185307179586 # 1000000000000000) in *.
        set (x := inject_Z j) in *. clearbody x. lra. }
  destruct Pfp as [Pf Pp].
  (* drift values, and the targets before they are drawn *)
  assert (Pdr : Forall (within 1) vs /\ Forall (within 1) ts).
  { revert Edr. unfold for_loop.
    apply (@for_from_inv _
             (fun st : list Q * list Q =>
                Forall (within 1) (fst st) /\ Forall (within 1) (snd st))
             _ 8 0%Z (ModulationEngine.driftValues m,
                      ModulationEngine.driftTargets m) (vs, ts)).
    - cbn [fst snd]. tauto.
    - intros j [a b] st' _ [Ha Hb] Eb. cbn [fst snd] in *.
      apply bind_some in Eb. destruct Eb as (a' & Ea & Eb).
      apply bind_some in Eb. destruct Eb as (b' & Eb' & Eb).
      inversion Eb; subst st'; clear Eb. cbn [fst snd].
      split.
      + refine (Forall_vec_set Ha _ Ea). unfold within. q_norm. lra.
      + refine (Forall_vec_set Hb _ Eb'). unfold within. q_norm. lra. }
  destruct Pdr as [Pv Pt].
  assert (Ptg : Forall (within 1) targets).
  { revert Etg. unfold for_loop.
    apply (@for_from_inv _ (fun l : list Q => Forall (within 1) l)).
    - exact Pt.
    - intros j l l' _ Hl Eb. refine (Forall_vec_set Hl _ Eb).
      q_norm. unfold within.
      destruct (@draws (- (1)) 1
                       (ModulationEngine.entropy m + 6 + Z.to_nat j)%nat)
        as [U0 U1]; [lra|]. split; assumption. }
  unfold engine_inv, modulation_capped.
  cbn [ModulationEngine.sampleRate ModulationEngine.chaosAmount
       ModulationEngine.maxDepthSamples ModulationEngine.lfoPhases
       ModulationEngine.lfoFrequencies ModulationEngine.driftValues
       ModulationEngine.driftTargets ModulationEngine.smoothedOutputs].
  split; [|split; [exact S0|]].
  - split; [exact Hr'|]. split; [lra|]. split; [exact Pp|].
    split.
    { eapply Forall_impl; [|exact Pf]. cbv beta. intros f [F0 F1]. lra. }
    tauto.
  - eapply Forall_impl; [|exact Pf]. cbv beta. intros f [F0 F1]. exact F1.
Qed.
End EngineInvariant.

Section EngineSequences.
Context {LM : Libm Q}.

Lemma engine_do_inv (m : @ModulationEngine.t Q Q) (c : engine_call) :
  sine_bounded -> uniform_in_range -> golden_powers_bounded ->
  engine_inv m -> engine_call_ok c ->
  exists m', engine_do m c = Some m' /\ engine_inv m'.
Proof.
  intros sine draws powers Hm Hc. destruct c as [sr| |chaos|]; cbn [engine_do].
  - destruct Hc as [S0 S1]. apply engine_prepare_inv; assumption.
  - apply engine_reset_inv; assumption.
  - apply engine_setChaos_inv; assumption.
  - apply engine_processSample_inv; assumption.
Qed.

Lemma engine_after_inv (calls : list engine_call) :
  sine_bounded -> uniform_in_range -> golden_powers_bounded ->
  forall m : @ModulationEngine.t Q Q,
    engine_inv m -> Forall engine_call_ok calls ->
    exists m', engine_after m calls = Some m' /\ engine_inv m'.
Proof.
  intros sine draws powers.
  induction calls as [|c rest IH]; intros m Hm Hok; cbn [engine_after].
  - exists m. split; [reflexivity|exact Hm].
  - inversion Hok as [|c' rest' Hc Hrest]; subst.
    destruct (engine_do_inv sine draws powers Hm Hc) as (m1 & E1 & Hm1).
    rewrite E1. cbn [bind]. apply IH; assumption.
Qed.

Lemma capped_getModulation (b : Q) (m : @ModulationEngine.t Q Q)
      (outputIndex : Z) :
  modulation_capped b m ->
  exists v,
    ModulationEngine.getModulation m outputIndex = Some v /\
    within ((25 # 10) * b) v.
Proof.
  intros (((_ & _ & _ & _ & L5) & _) & _ & _ & _ & _ & Hd & _ & _ & Hso).
  unfold ModulationEngine.getModulation.
  destruct ((outputIndex <? 0)
            || (outputIndex >=? ModulationEngine.NumOutputs))%Z eqn:C.
  - exists fzero. split; [reflexivity|]. q_norm. unfold within. lra.
  - apply orb_false_iff in C. destruct C as [C0 C1].
    apply Z.ltb_ge in C0. unfold ModulationEngine.NumOutputs in C1.
    assert (outputIndex < 8)%Z by lia.
    destruct (@vec_get_some _ (ModulationEngine.smoothedOutputs m) outputIndex)
      as (v & Ev & _); [unfold size; lia|].
    exists v. split; [exact Ev|]. exact (Forall_get Hso Ev).
Qed.

(** X24.  In exact arithmetic, with a sine between -1 and 1, random
    draws inside the interval asked for and the six powers of the golden
    ratio between 0 and 6: whatever sequence of [prepare] (at a sample
    rate between 4 Hz and 2^30 - 1 Hz), [reset], [setChaos] (with any
    value) and [processSample] is made on a new engine, every call
    returns, and [getModulation] then answers every index with a value of
    magnitude at most 200 samples, which is 2.5 times the largest depth
    [setChaos] can set. *)
Theorem modulation_stays_within_200_samples (calls : list engine_call) :
  sine_bounded -> uniform_in_range -> golden_powers_bounded ->
  Forall engine_call_ok calls ->
  exists m : @ModulationEngine.t Q Q,
    engine_after ModulationEngine.init calls = Some m /\
    forall outputIndex : Z,
      exists v,
        ModulationEngine.getModulation m outputIndex = Some v /\
        within 200 v.
Proof.
  intros sine draws powers Hok.
  destruct (engine_after_inv sine draws powers engine_init_inv Hok)
    as (m & E & (Hc & _)).
  exists m. split; [exact E|]. intros out.
  destruct (capped_getModulation out Hc) as (v & Ev & Bv).
  exists v. split; [exact Ev|].
  unfold within in *. lra.
Qed.
End EngineSequences.

Lemma modulation_stays_within_200_samples_witness :
  exists m : @ModulationEngine.t Q Q,
    @engine_after Q Q _ _ _ libmQ ModulationEngine.init
      [EnginePrepare 48000; EngineSetChaos 1; EngineProcessSample;
       EngineProcessSample; EngineSetChaos (-3); EngineReset;
       EngineProcessSample] = Some m /\
    forall outputIndex : Z,
      exists v,
        @ModulationEngine.getModulation Q Q _ m outputIndex = Some v /\
        within 200 v.
Proof.
  apply (@modulation_stays_within_200_samples libmQ).
  - intros x. split; discriminate.
  - intros lo hi k H. split; [apply Qle_refl|exact H].
  - intros i _. split; discriminate.
  - repeat constructor; discriminate.
Defined.

(** ** The pre-delay line delays by exactly [preDelaySamples] *)

Lemma ring_next (N w : Z) :
  (0 <= w < N)%Z ->
  Z.rem (w + 1) N = if (w + 1 =? N)%Z then 0%Z else (w + 1)%Z.
Proof.
  intros H. destruct (Z.eqb_spec (w + 1) N) as [E|E].
  - rewrite E. apply Z.rem_same. lia.
  - apply Z.rem_small. lia.
Qed.

(** The cell just written has age 0, every other cell is one write
    older. *)
Lemma cell_age_next (N w i : Z) :
  (0 <= w < N)%Z -> (0 <= i < N)%Z ->
  cell_age N (Z.rem (w + 1) N) i =
    if (i =? w)%Z then 0%Z else (cell_age N w i + 1)%Z.
Proof.
  intros Hw Hi. rewrite ring_next by exact Hw. unfold cell_age.
  destruct (Z.eqb_spec (w + 1) N); destruct (Z.eqb_spec i w);
    repeat match goal with
           | |- context [(?a <? ?b)%Z] => destruct (Z.ltb_spec a b)
           end; lia.
Qed.

(** The cell read back after the write has age [d]. *)
Lemma cell_age_read (N w d : Z) :
  (0 <= w < N)%Z -> (0 <= d <= N - 1)%Z ->
  let r := if (w - d <? 0)%Z then (w - d + N)%Z else (w - d)%Z in
  (0 <= r < N)%Z /\ cell_age N (Z.rem (w + 1) N) r = d.
Proof.
  intros Hw Hd r. subst r. rewrite ring_next by exact Hw. unfold cell_age.
  destruct (Z.eqb_spec (w + 1) N);
    repeat match goal with
           | |- context [(?a <? ?b)%Z] => destruct (Z.ltb_spec a b)
           end; lia.
Qed.

Section PreDelay.
Context {F D : Type} {AF : Arith F} {AD : Arith D} {CV : Conv F D}
        {LM : Libm F}.
#[local] Open Scope Z_scope.

(** One iteration of the first loop of [process], on a two-channel
    delay line and a two-channel wet block. *)
Lemma predelay_step_exact (n N : nat) (d : Z) (buffer : AudioBuffer F)
      (numChannels s : Z) (me : @ModulationEngine.t F D) (q0 q1 : list F)
      (pdw : Z) (wl wr : list F) (xls xrs : F) :
  modulation_ready me ->
  length q0 = N -> length q1 = N -> (Z.of_nat N < INT_MAX)%Z ->
  (0 <= pdw < Z.of_nat N)%Z -> (0 <= d <= Z.of_nat N - 1)%Z ->
  (0 <= s < Z.of_nat n)%Z -> length wl = n -> length wr = n ->
  (if (numChannels >? 0)%Z then getSample buffer 0 s else Some fzero)
    = Some xls ->
  (if (numChannels >? 1)%Z then getSample buffer 1 s else Some xls)
    = Some xrs ->
  let r := if (pdw - d <? 0)%Z then (pdw - d + Z.of_nat N)%Z
           else (pdw - d)%Z in
  exists me' ld rd,
    AlgorithmicReverb.predelay_step d buffer numChannels s
      (me, [q0; q1], pdw, mkBuf n [wl; wr]) =
    Some (me', [upd (Z.to_nat pdw) xls q0; upd (Z.to_nat pdw) xrs q1],
          Z.rem (pdw + 1) (Z.of_nat N),
          mkBuf n [upd (Z.to_nat s) ld wl; upd (Z.to_nat s) rd wr]) /\
    modulation_ready me' /\
    vec_get (upd (Z.to_nat pdw) xls q0) r = Some ld /\
    vec_get (upd (Z.to_nat pdw) xrs q1) r = Some rd.
Proof.
  intros Hme L0 L1 HN Hw Hd Hs Lwl Lwr Exl Exr r.
  destruct (processSample_ready Hme) as (me' & Eme & Hme').
  assert (Br : (0 <= r < Z.of_nat N)%Z).
  { subst r. destruct (Z.ltb_spec (pdw - d) 0); lia. }
  destruct (@vec_get_some _ (upd (Z.to_nat pdw) xls q0) r)
    as (ld & Eld & _); [rewrite size_upd; unfold size; lia|].
  destruct (@vec_get_some _ (upd (Z.to_nat pdw) xrs q1) r)
    as (rd & Erd & _); [rewrite size_upd; unfold size; lia|].
  exists me', ld, rd. split; [|auto].
  unfold AlgorithmicReverb.predelay_step.
  rewrite Eme. cbn [bind]. rewrite vec_get_0. cbn [bind].
  rewrite int_ok_some by (unfold INT_MIN, INT_MAX in *; lia). cbn [bind].
  assert (Er : (if (pdw - d <? 0)%Z then int_ok (pdw - d + size q0)
                else Some (pdw - d)%Z) = Some r).
  { subst r. unfold size. rewrite L0.
    destruct (Z.ltb_spec (pdw - d) 0); [|reflexivity].
    apply int_ok_some. unfold INT_MIN, INT_MAX in *. lia. }
  rewrite Er. cbn [bind]. rewrite Exl. cbn [bind]. rewrite Exr. cbn [bind].
  rewrite (@vec_set_some _ q0 pdw) by (unfold size; lia). cbn [bind].
  rewrite vec_set_0. cbn [bind]. rewrite vec_get_1. cbn [bind].
  rewrite (@vec_set_some _ q1 pdw) by (unfold size; lia). cbn [bind].
  rewrite vec_set_1. cbn [bind].
  rewrite int_ok_some by (unfold INT_MIN, INT_MAX in *; lia). cbn [bind].
  assert (Sq : size q0 = Z.of_nat N) by (unfold size; congruence).
  unfold int_rem. rewrite size_upd, Sq.
  replace (Z.of_nat N =? 0)%Z with false by (symmetry; apply Z.eqb_neq; lia).
  cbn [bind]. rewrite Eld. cbn [bind]. rewrite Erd. cbn [bind].
  unfold setSample. cbn [chans numSamples].
  rewrite vec_get_0. cbn [bind].
  rewrite (@vec_set_some _ wl s) by (unfold size; lia). cbn [bind].
  rewrite vec_set_0. cbn [bind chans numSamples].
  rewrite vec_get_1. cbn [bind].
  rewrite (@vec_set_some _ wr s) by (unfold size; lia). cbn [bind].
  rewrite vec_set_1. cbn [bind]. reflexivity.
Qed.

Lemma cell_age_nonneg (N w i : Z) :
  (0 <= w < N)%Z -> (0 <= i < N)%Z -> (0 <= cell_age N w i)%Z.
Proof.
  intros Hw Hi. unfold cell_age. destruct (Z.ltb_spec i w); lia.
Qed.

(** The first loop of [process], the inputs of sample [s] being
    [xl s] and [xr s]: what the delay line holds and what the wet block
    has received after [j] samples. *)
Lemma predelay_loop_exact (n N : nat) (d w0 : Z) (buffer : AudioBuffer F)
      (numChannels : Z) (me : @ModulationEngine.t F D) (p0 p1 : list F)
      (xl xr : Z -> F) :
  modulation_ready me ->
  length p0 = N -> length p1 = N -> (Z.of_nat N < INT_MAX)%Z ->
  (0 <= w0 < Z.of_nat N)%Z -> (0 <= d <= Z.of_nat N - 1)%Z ->
  (forall s, (0 <= s < Z.of_nat n)%Z ->
     (if (numChannels >? 0)%Z then getSample buffer 0 s else Some fzero)
       = Some (xl s)) ->
  (forall s, (0 <= s < Z.of_nat n)%Z ->
     (if (numChannels >? 1)%Z then getSample buffer 1 s else Some (xl s))
       = Some (xr s)) ->
  exists me' pdb' pdw' wet,
    for_loop n (AlgorithmicReverb.predelay_step d buffer numChannels)
      (me, [p0; p1], w0, cleared 2 n) = Some (me', pdb', pdw', wet) /\
    modulation_ready me' /\
    forall s, (0 <= s < Z.of_nat n)%Z ->
      getSample wet 0 s =
        (if (d <=? s)%Z then Some (xl (s - d))
         else vec_get p0 ((w0 + s - d) mod Z.of_nat N)) /\
      getSample wet 1 s =
        (if (d <=? s)%Z then Some (xr (s - d))
         else vec_get p1 ((w0 + s - d) mod Z.of_nat N)).
Proof.
  intros Hme L0 L1 HN Hw0 Hd Hxl Hxr.
  set (Inv := fun (j : Z)
      (st : @ModulationEngine.t F D * list (list F) * Z * AudioBuffer F) =>
      let '(me1, pdb, pdw, wet) := st in
      modulation_ready me1 /\
      exists q0 q1 wl wr qd,
        pdb = [q0; q1] /\ wet = mkBuf n [wl; wr] /\
        length q0 = N /\ length q1 = N /\ length wl = n /\ length wr = n /\
        (0 <= pdw < Z.of_nat N)%Z /\ (w0 + j = Z.of_nat N * qd + pdw)%Z /\
        (forall i, (0 <= i < Z.of_nat N)%Z ->
           vec_get q0 i =
             (if (cell_age (Z.of_nat N) pdw i <? j)%Z
              then Some (xl (j - 1 - cell_age (Z.of_nat N) pdw i))
              else vec_get p0 i) /\
           vec_get q1 i =
             (if (cell_age (Z.of_nat N) pdw i <? j)%Z
              then Some (xr (j - 1 - cell_age (Z.of_nat N) pdw i))
              else vec_get p1 i)) /\
        (forall t, (0 <= t < j)%Z ->
           vec_get wl t =
             (if (d <=? t)%Z then Some (xl (t - d))
              else vec_get p0 ((w0 + t - d) mod Z.of_nat N)) /\
           vec_get wr t =
             (if (d <=? t)%Z then Some (xr (t - d))
              else vec_get p1 ((w0 + t - d) mod Z.of_nat N)))).
  destruct (@for_from_ind _ Inv
              (AlgorithmicReverb.predelay_step d buffer numChannels)
              n 0%Z (me, [p0; p1], w0, cleared 2 n))
    as ([[[me' pdb'] pdw'] wet] & E & Hme' & HI).
  - (* before the first sample *)
    split; [exact Hme|].
    exists p0, p1, (repeat fzero n), (repeat fzero n), 0%Z.
    split; [reflexivity|]. split; [reflexivity|].
    split; [exact L0|]. split; [exact L1|].
    split; [apply repeat_length|]. split; [apply repeat_length|].
    split; [exact Hw0|]. split; [lia|].
    split; [|intros t Ht; lia].
    intros i Hi. pose proof (cell_age_nonneg Hw0 Hi) as Ha.
    destruct (Z.ltb_spec (cell_age (Z.of_nat N) w0 i) 0); [lia|]. auto.
  - (* one more sample *)
    intros j [[[me1 pdb] pdw] wet] Hj (Hme1 & q0 & q1 & wl & wr & qd & -> & ->
      & Lq0 & Lq1 & Lwl & Lwr & Hw & Hq & Hcont & Hwet).
    assert (Hj' : (0 <= j < Z.of_nat n)%Z) by lia.
    destruct (@predelay_step_exact n N d buffer numChannels j me1 q0 q1 pdw
                wl wr (xl j) (xr j) Hme1 Lq0 Lq1 HN Hw Hd Hj' Lwl Lwr
                (Hxl j Hj') (Hxr j Hj'))
      as (me2 & ld & rd & E & Hme2 & Eld & Erd).
    eexists. split; [exact E|].
    split; [exact Hme2|].
    assert (Hcont' : forall i, (0 <= i < Z.of_nat N)%Z ->
       vec_get (upd (Z.to_nat pdw) (xl j) q0) i =
         (if (cell_age (Z.of_nat N) (Z.rem (pdw + 1) (Z.of_nat N)) i
              <? j + 1)%Z
          then Some (xl (j + 1 - 1
                         - cell_age (Z.of_nat N)
                             (Z.rem (pdw + 1) (Z.of_nat N)) i))
          else vec_get p0 i) /\
       vec_get (upd (Z.to_nat pdw) (xr j) q1) i =
         (if (cell_age (Z.of_nat N) (Z.rem (pdw + 1) (Z.of_nat N)) i
              <? j + 1)%Z
          then Some (xr (j + 1 - 1
                         - cell_age (Z.of_nat N)
                             (Z.rem (pdw + 1) (Z.of_nat N)) i))
          else vec_get p1 i)).
    { intros i Hi.
      rewrite !vec_get_upd by (unfold size; lia).
      rewrite (cell_age_next Hw Hi).
      destruct (Hcont i Hi) as [C0 C1].
      pose proof (cell_age_nonneg Hw Hi) as Ha.
      destruct (Z.eqb_spec i pdw) as [Ei|Ei].
      - destruct (Z.ltb_spec 0 (j + 1)); [|lia].
        replace (j + 1 - 1 - 0)%Z with j by lia. auto.
      - rewrite C0, C1.
        replace (j + 1 - 1 - (cell_age (Z.of_nat N) pdw i + 1))%Z
          with (j - 1 - cell_age (Z.of_nat N) pdw i)%Z by lia.
        destruct (Z.ltb_spec (cell_age (Z.of_nat N) pdw i) j);
          destruct (Z.ltb_spec (cell_age (Z.of_nat N) pdw i + 1) (j + 1));
          try lia; auto. }
    destruct (cell_age_read Hw Hd) as [Br Ar]. cbv zeta in Br, Ar.
    set (r := if (pdw - d <? 0)%Z then (pdw - d + Z.of_nat N)%Z
              else (pdw - d)%Z) in *.
    assert (Emod : r = ((w0 + j - d) mod Z.of_nat N)%Z).
    { subst r. destruct (Z.ltb_spec (pdw - d) 0).
      - apply Z.mod_unique with (q := (qd - 1)%Z); [lia|].
        rewrite Z.mul_sub_distr_l. lia.
      - apply Z.mod_unique with (q := qd); [lia|]. lia. }
    exists (upd (Z.to_nat pdw) (xl j) q0), (upd (Z.to_nat pdw) (xr j) q1),
           (upd (Z.to_nat j) ld wl), (upd (Z.to_nat j) rd wr),
           (if (pdw + 1 =? Z.of_nat N)%Z then (qd + 1)%Z else qd).
    split; [reflexivity|]. split; [reflexivity|].
    rewrite !upd_length.
    split; [exact Lq0|]. split; [exact Lq1|].
    split; [exact Lwl|]. split; [exact Lwr|].
    split; [rewrite ring_next by exact Hw;
            destruct (Z.eqb_spec (pdw + 1) (Z.of_nat N)); lia|].
    split.
    { rewrite ring_next by exact Hw.
      destruct (Z.eqb_spec (pdw + 1) (Z.of_nat N));
        [rewrite Z.mul_add_distr_l|]; lia. }
    split; [exact Hcont'|].
    intros t Ht.
    rewrite !vec_get_upd by (unfold size; lia).
    destruct (Z.eqb_spec t j) as [Et|Et].
    + subst t. destruct (Hcont' r Br) as [C0 C1].
      rewrite Ar in C0, C1. rewrite Eld in C0. rewrite Erd in C1.
      rewrite C0, C1. rewrite <- Emod.
      replace (j + 1 - 1 - d)%Z with (j - d)%Z by lia.
      destruct (Z.ltb_spec d (j + 1)); destruct (Z.leb_spec d j);
        try lia; auto.
    + apply Hwet. lia.
  - exists me', pdb', pdw', wet. split; [exact E|]. split; [exact Hme'|].
    destruct HI as (q0 & q1 & wl & wr & qd & _ & -> & _ & _ & Lwl & Lwr & _
                    & _ & _ & Hwet).
    intros s Hs. unfold getSample. cbn [chans].
    rewrite vec_get_0, vec_get_1. cbn [bind]. apply Hwet. lia.
Qed.

(** X15.  For every arithmetic, binary32 included.  The first loop of
    [process] runs over a block of [n] samples in at least one channel,
    with a delay line of two channels of [N] cells, a write index inside
    it and [preDelaySamples = d] where [setPreDelay] clamps it, in
    [0, N - 1].  Every sample of the wet block is then defined; from
    sample [d] on it is the input of [d] samples earlier, unchanged, the
    right channel taking the left input when the block is mono; before
    sample [d] it is what the delay line held from earlier blocks. *)
Theorem predelay_delays_exactly (k n N : nat) (d w0 : Z)
        (buffer : AudioBuffer F) (me : @ModulationEngine.t F D)
        (p0 p1 : list F) :
  modulation_ready me ->
  block_shape k n buffer -> (1 <= k)%nat ->
  length p0 = N -> length p1 = N -> (Z.of_nat N < INT_MAX)%Z ->
  (0 <= w0 < Z.of_nat N)%Z -> (0 <= d <= Z.of_nat N - 1)%Z ->
  exists me' pdb' pdw' wet,
    for_loop n
      (AlgorithmicReverb.predelay_step d buffer
         (jmin_int (getNumChannels buffer) 2))
      (me, [p0; p1], w0, cleared 2 n) = Some (me', pdb', pdw', wet) /\
    forall s, (0 <= s < Z.of_nat n)%Z ->
      exists x y,
        getSample wet 0 s = Some x /\ getSample wet 1 s = Some y /\
        (d <= s ->
         getSample buffer 0 (s - d) = Some x /\
         getSample buffer (if (1 <? getNumChannels buffer)%Z then 1 else 0)
                   (s - d) = Some y) /\
        (s < d ->
         vec_get p0 ((w0 + s - d) mod Z.of_nat N) = Some x /\
         vec_get p1 ((w0 + s - d) mod Z.of_nat N) = Some y).
Proof.
  intros Hme (Hn & Hk & Hc) Hk1 L0 L1 HN Hw0 Hd.
  destruct buffer as [n' cs]. cbn [numSamples chans] in *. subst n'.
  destruct cs as [|c0 rest]; [simpl in Hk; lia|].
  assert (Lc0 : length c0 = n) by (apply Hc; left; reflexivity).
  set (xl := fun s : Z => nth (Z.to_nat s) c0 fzero).
  assert (G0 : forall s, 0 <= s < Z.of_nat n ->
                 getSample (mkBuf n (c0 :: rest)) 0 s = Some (xl s)).
  { intros s Hs. unfold getSample. cbn [chans]. rewrite vec_get_0.
    cbn [bind]. apply vec_get_nth. unfold size. lia. }
  assert (X : exists xr : Z -> F,
            (forall s, 0 <= s < Z.of_nat n ->
               (if (jmin_int (getNumChannels (mkBuf n (c0 :: rest))) 2 >? 1)
                then getSample (mkBuf n (c0 :: rest)) 1 s
                else Some (xl s)) = Some (xr s)) /\
            (forall s, 0 <= s < Z.of_nat n ->
               getSample (mkBuf n (c0 :: rest))
                 (if (1 <? getNumChannels (mkBuf n (c0 :: rest))) then 1
                  else 0) s = Some (xr s)) /\
            (jmin_int (getNumChannels (mkBuf n (c0 :: rest))) 2 >? 0) = true).
  { destruct rest as [|c1 rest'].
    - exists xl. split; [|split]; [intros s Hs; reflexivity| |reflexivity].
      intros s Hs. exact (G0 s Hs).
    - assert (Lc1 : length c1 = n) by (apply Hc; right; left; reflexivity).
      exists (fun s : Z => nth (Z.to_nat s) c1 fzero).
      assert (Hsz : 2 <= getNumChannels (mkBuf n (c0 :: c1 :: rest'))).
      { unfold getNumChannels, size. cbn [chans]. simpl length. lia. }
      assert (Ej : jmin_int (getNumChannels (mkBuf n (c0 :: c1 :: rest'))) 2
                   = 2).
      { unfold jmin_int.
        destruct (Z.ltb_spec 2
                    (getNumChannels (mkBuf n (c0 :: c1 :: rest')))); lia. }
      rewrite Ej.
      replace (1 <? getNumChannels (mkBuf n (c0 :: c1 :: rest'))) with true
        by (symmetry; apply Z.ltb_lt; lia).
      split; [|split]; [| |reflexivity];
        intros s Hs; cbn [Z.gtb Z.compare Pos.compare Pos.compare_cont];
        unfold getSample; cbn [chans]; rewrite vec_get_1; cbn [bind];
        apply vec_get_nth; unfold size; lia. }
  destruct X as (xr & Hxr & Gr & Enc).
  destruct (@predelay_loop_exact n N d w0 (mkBuf n (c0 :: rest))
              (jmin_int (getNumChannels (mkBuf n (c0 :: rest))) 2)
              me p0 p1 xl xr Hme L0 L1 HN Hw0 Hd)
    as (me' & pdb' & pdw' & wet & E & _ & Hout).
  { intros s Hs. rewrite Enc. exact (G0 s Hs). }
  { exact Hxr. }
  exists me', pdb', pdw', wet. split; [exact E|].
  intros s Hs. destruct (Hout s Hs) as [O0 O1].
  destruct (Z.leb_spec d s) as [Hds|Hds].
  - exists (xl (s - d)), (xr (s - d)).
    split; [exact O0|]. split; [exact O1|].
    split; [|intros; lia]. intros _.
    split; [apply G0; lia|apply Gr; lia].
  - assert (Bm : 0 <= (w0 + s - d) mod Z.of_nat N < Z.of_nat N)
      by (apply Z.mod_pos_bound; lia).
    destruct (@vec_get_some _ p0 ((w0 + s - d) mod Z.of_nat N))
      as (x & Ex & _); [unfold size; lia|].
    destruct (@vec_get_some _ p1 ((w0 + s - d) mod Z.of_nat N))
      as (y & Ey & _); [unfold size; lia|].
    exists x, y. rewrite O0, O1.
    split; [exact Ex|]. split; [exact Ey|].
    split; [intros; lia|]. intros _. auto.
Qed.
End PreDelay.

Section Run32c.
#[local] Existing Instance libm32.

Lemma predelay_delays_exactly_witness :
  exists me' pdb' pdw' wet,
    for_loop 3
      (AlgorithmicReverb.predelay_step 2
         (mkBuf 3 [[f_lit 1 2; f_lit 1 4; f_lit (-3) 4]])
         (jmin_int
            (getNumChannels (mkBuf 3 [[f_lit 1 2; f_lit 1 4; f_lit (-3) 4]]))
            2))
      (@ModulationEngine.init binary32 binary64 _ _,
       [[f_lit 1 1; f_lit 2 1; f_lit 3 1; f_lit 4 1];
        [f_lit 5 1; f_lit 6 1; f_lit 7 1; f_lit 8 1]],
       3%Z, cleared 2 3) = Some (me', pdb', pdw', wet) /\
    forall s, (0 <= s < Z.of_nat 3)%Z ->
      exists x y : binary32,
        getSample wet 0 s = Some x /\ getSample wet 1 s = Some y /\
        ((2 <= s)%Z ->
         getSample (mkBuf 3 [[f_lit 1 2; f_lit 1 4; f_lit (-3) 4]]) 0 (s - 2)
           = Some x /\
         getSample (mkBuf 3 [[f_lit 1 2; f_lit 1 4; f_lit (-3) 4]])
           (if (1 <? getNumChannels
                       (mkBuf 3 [[f_lit 1 2; f_lit 1 4; f_lit (-3) 4]]))%Z
            then 1 else 0) (s - 2) = Some y) /\
        ((s < 2)%Z ->
         vec_get [f_lit 1 1; f_lit 2 1; f_lit 3 1; f_lit 4 1]
                 ((3 + s - 2) mod Z.of_nat 4) = Some x /\
         vec_get [f_lit 5 1; f_lit 6 1; f_lit 7 1; f_lit 8 1]
                 ((3 + s - 2) mod Z.of_nat 4) = Some y).
Proof.
  apply (@predelay_delays_exactly binary32 binary64 _ _ _ libm32 1 3 4 2 3
           (mkBuf 3 [[f_lit 1 2; f_lit 1 4; f_lit (-3) 4]])
           (@ModulationEngine.init binary32 binary64 _ _)
           [f_lit 1 1; f_lit 2 1; f_lit 3 1; f_lit 4 1]
           [f_lit 5 1; f_lit 6 1; f_lit 7 1; f_lit 8 1]).
  - split; [repeat split; reflexivity|].
    exists 88200%Z. split; [vm_compute; reflexivity|].
    split; vm_compute; [reflexivity|split; discriminate].
  - split; [reflexivity|]. split; [reflexivity|].
    intros c [<-|[]]. reflexivity.
  - lia.
  - reflexivity.
  - reflexivity.
  - vm_compute. reflexivity.
  - lia.
  - lia.
Defined.
End Run32c.

(** ** What the parameter update of a block leaves in the filters *)

Section SetterFrames.
Context {F D : Type} {AF : Arith F} {AD : Arith D} {CV : Conv F D}
        {LM : Libm F} {J : JuceDSP F D}.

Lemma setPreDelay_frame (r r' : @AlgorithmicReverb.t F D J) (x : F) :
  AlgorithmicReverb.setPreDelay r x = Some r' ->
  AlgorithmicReverb.combFilters r' = AlgorithmicReverb.combFilters r /\
  AlgorithmicReverb.diffusionNetwork r' = AlgorithmicReverb.diffusionNetwork r /\
  AlgorithmicReverb.highCutFreq r' = AlgorithmicReverb.highCutFreq r /\
  AlgorithmicReverb.decayTime r' = AlgorithmicReverb.decayTime r.
Proof.
  unfold AlgorithmicReverb.setPreDelay. intros H. bind_inv H.
  cbn. auto.
Qed.

Lemma setDiffusionThrust_frame (r r' : @AlgorithmicReverb.t F D J) (x : F) :
  AlgorithmicReverb.setDiffusionThrust r x = Some r' ->
  AlgorithmicReverb.combFilters r' = AlgorithmicReverb.combFilters r /\
  DiffusionNetwork.setThrust (AlgorithmicReverb.diffusionNetwork r) x =
    Some (AlgorithmicReverb.diffusionNetwork r') /\
  AlgorithmicReverb.highCutFreq r' = AlgorithmicReverb.highCutFreq r /\
  AlgorithmicReverb.decayTime r' = AlgorithmicReverb.decayTime r.
Proof.
  unfold AlgorithmicReverb.setDiffusionThrust. intros H.
  apply bind_some in H. destruct H as (dn & E & H).
  inversion H; subst r'; clear H. cbn. auto.
Qed.

Lemma setModulationChaos_frame (r r' : @AlgorithmicReverb.t F D J) (x : F) :
  AlgorithmicReverb.setModulationChaos r x = Some r' ->
  AlgorithmicReverb.combFilters r' = AlgorithmicReverb.combFilters r /\
  AlgorithmicReverb.diffusionNetwork r' = AlgorithmicReverb.diffusionNetwork r /\
  AlgorithmicReverb.highCutFreq r' = AlgorithmicReverb.highCutFreq r /\
  AlgorithmicReverb.decayTime r' = AlgorithmicReverb.decayTime r.
Proof.
  unfold AlgorithmicReverb.setModulationChaos. intros H.
  apply bind_some in H. destruct H as (me & E & H).
  inversion H; subst r'; clear H. cbn. auto.
Qed.

(** The feedback [setThrust] hands to stage [i]. *)
Lemma setThrust_cells (d : @DiffusionNetwork.t F D J) (thrust : F) :
  grid_shape 2 8 (DiffusionNetwork.allpassFilters d) ->
  exists d',
    DiffusionNetwork.setThrust d thrust = Some d' /\
    forall ch i, (0 <= ch < 2)%Z -> (0 <= i < 8)%Z ->
      exists a,
        grid_get (DiffusionNetwork.allpassFilters d) ch i = Some a /\
        grid_get (DiffusionNetwork.allpassFilters d') ch i =
          Some (AllpassFilter.setFeedback a
                  (jlimit fzero (f_lit 75 100)
                     (f_lit 3 10 + jlimit fzero fone thrust * f_lit 45 100
                      + f_of_int i / f_of_int DiffusionNetwork.NumStages
                        * f_lit 1 10)%fl)).
Proof.
  intros Hs. unfold DiffusionNetwork.setThrust. cbv zeta.
  match goal with
  | |- context [for_loop 2 (fun ch g => for_loop 8 (fun i g0 =>
                  grid_update g0 ch i (@?f i)) g) _] =>
      destruct (@grid_loops _ 2 8 (fun (_ : Z) i => f i)
                  (fun ch i fs => grid_update fs ch i (f i))
                  (DiffusionNetwork.allpassFilters d) Hs)
        as (fs & E & Hfs & Hc); [reflexivity|]
  end.
  bind_value E fs. cbn [bind]. eexists. split; [reflexivity|].
  unfold DiffusionNetwork.updateThrustFilter.
  cbn [DiffusionNetwork.allpassFilters]. exact Hc.
Qed.
End SetterFrames.

Section UpdateCells.
Context {LM : Libm Q} {J : JuceDSP Q Q}.

(** The seven setters of a block: what they leave in every comb and
    allpass unit, and the high cut they store. *)
Lemma updateReverb_cells (r : @AlgorithmicReverb.t Q Q J)
      (p : @PluginProcessor.ReverbParams Q) :
  reverb_running r ->
  0 <= PluginProcessor.preDelay p -> PluginProcessor.preDelay p <= 500 ->
  0 <= AlgorithmicReverb.sampleRate r ->
  AlgorithmicReverb.sampleRate r <= inject_Z (2 ^ 30) ->
  exists r',
    PluginProcessor.updateReverb r p = Some r' /\
    reverb_running r' /\
    AlgorithmicReverb.sampleRate r' = AlgorithmicReverb.sampleRate r /\
    AlgorithmicReverb.highCutFreq r' =
      jlimit (f_lit 1000 1) (f_lit 20000 1) (PluginProcessor.highCut p) /\
    (forall ch i, (0 <= ch < 2)%Z -> (0 <= i < 8)%Z ->
       exists c,
         grid_get (AlgorithmicReverb.combFilters r) ch i = Some c /\
         grid_get (AlgorithmicReverb.combFilters r') ch i =
           Some (CombFilter.setDamping
                   (CombFilter.setFeedback c
                      (AlgorithmicReverb.decay_feedback
                         (jlimit (f_lit 5 10) (f_lit 30 1)
                                 (PluginProcessor.decay p))
                         ch (nth (Z.to_nat i)
                                 AlgorithmicReverb.delayTimesMs fzero)))
                   (AlgorithmicReverb.decay_damping
                      (AlgorithmicReverb.highCutFreq r)))) /\
    (forall ch i, (0 <= ch < 2)%Z -> (0 <= i < 8)%Z ->
       exists a,
         grid_get (DiffusionNetwork.allpassFilters
                     (AlgorithmicReverb.diffusionNetwork r)) ch i = Some a /\
         grid_get (DiffusionNetwork.allpassFilters
                     (AlgorithmicReverb.diffusionNetwork r')) ch i =
           Some (AllpassFilter.setFeedback a
                   (jlimit fzero (f_lit 75 100)
                      (f_lit 3 10
                       + jlimit fzero fone (PluginProcessor.diffusionThrust p)
                         * f_lit 45 100
                       + f_of_int i / f_of_int DiffusionNetwork.NumStages
                         * f_lit 1 10)%fl))).
Proof.
  intros Hr M0 M1 S0 S1.
  destruct (@updateReverb_running _ _ r p Hr M0 M1 S0 S1)
    as (r' & E & Hr' & Esr).
  exists r'. split; [exact E|]. split; [exact Hr'|]. split; [exact Esr|].
  unfold PluginProcessor.updateReverb in E.
  apply bind_some in E. destruct E as (r1 & E1 & E).
  apply bind_some in E. destruct E as (r2 & E2 & E).
  cbv zeta in E.
  apply bind_some in E. destruct E as (r4 & E4 & E5).
  destruct (setPreDelay_frame E2) as (A2 & B2 & C2 & D2).
  destruct (setDiffusionThrust_frame E4) as (A4 & B4 & C4 & D4).
  destruct (setModulationChaos_frame E5) as (A5 & B5 & C5 & D5).
  cbn [AlgorithmicReverb.setWidth AlgorithmicReverb.setLowCut
       AlgorithmicReverb.setHighCut AlgorithmicReverb.updateFilters
       AlgorithmicReverb.combFilters AlgorithmicReverb.diffusionNetwork
       AlgorithmicReverb.highCutFreq AlgorithmicReverb.decayTime]
    in A4, B4, C4, D4.
  destruct Hr as (_ & Hcs & _ & (Hds & _) & _).
  unfold AlgorithmicReverb.setDecay in E1.
  match type of E1 with
  | AlgorithmicReverb.updateDecay ?r0 = _ =>
      destruct (updateDecay_loops (r := r0) Hcs)
        as (cs & E1' & _ & Hc);
      rewrite E1' in E1; inversion E1; subst r1; clear E1 E1'
  end.
  cbn [AlgorithmicReverb.set_combFilters AlgorithmicReverb.combFilters
       AlgorithmicReverb.diffusionNetwork AlgorithmicReverb.highCutFreq
       AlgorithmicReverb.decayTime] in *.
  split; [rewrite C5, C4; reflexivity|].
  split.
  - rewrite A5, A4, A2. exact Hc.
  - rewrite B5.
    destruct (setThrust_cells
                (d := AlgorithmicReverb.diffusionNetwork r2)
                (PluginProcessor.diffusionThrust p))
      as (dn & Edn & Hdn); [rewrite B2; exact Hds|].
    rewrite Edn in B4. inversion B4 as [Edn']. rewrite <- Edn'.
    rewrite B2 in Hdn. exact Hdn.
Qed.
End UpdateCells.

Lemma decay_feedback_range (decayTime : Q) {LM : Libm Q} (ch : Z) (ms : Q) :
  0 <= AlgorithmicReverb.decay_feedback decayTime ch ms /\
  AlgorithmicReverb.decay_feedback decayTime ch ms <= 998 # 1000.
Proof.
  unfold AlgorithmicReverb.decay_feedback. cbv zeta.
  apply (@Q_jlimit_bounds 0 (998 # 1000)). lra.
Qed.

Lemma decay_damping_range (highCutFreq : Q) :
  0 <= AlgorithmicReverb.decay_damping highCutFreq /\
  AlgorithmicReverb.decay_damping highCutFreq <= 7 # 10.
Proof.
  unfold AlgorithmicReverb.decay_damping. cbv zeta.
  apply (@Q_jlimit_bounds 0 (7 # 10)). lra.
Qed.

Section UpdateTheorems.
Context {LM : Libm Q} {J : JuceDSP Q Q}.

(** X16.  In exact arithmetic, on a running reverb with a pre-delay
    parameter in [0, 500] ms: the parameter update of a block, the seven
    setters in the order of [processBlock], leaves in every comb unit
    the damping derived from the high cut stored before the update, not
    from the high cut of this block: [setDecay] recomputes the damping
    first and [setHighCut], called later, does not.  A second update
    with the same parameters brings the damping in line with them. *)
Theorem damping_follows_previous_high_cut (r : @AlgorithmicReverb.t Q Q J)
        (p : @PluginProcessor.ReverbParams Q) :
  reverb_running r ->
  0 <= PluginProcessor.preDelay p -> PluginProcessor.preDelay p <= 500 ->
  0 <= AlgorithmicReverb.sampleRate r ->
  AlgorithmicReverb.sampleRate r <= inject_Z (2 ^ 30) ->
  exists r1 r2,
    PluginProcessor.updateReverb r p = Some r1 /\
    PluginProcessor.updateReverb r1 p = Some r2 /\
    forall ch i, (0 <= ch < 2)%Z -> (0 <= i < 8)%Z ->
      exists c1 c2,
        grid_get (AlgorithmicReverb.combFilters r1) ch i = Some c1 /\
        grid_get (AlgorithmicReverb.combFilters r2) ch i = Some c2 /\
        CombFilter.damping c1 =
          AlgorithmicReverb.decay_damping (AlgorithmicReverb.highCutFreq r) /\
        CombFilter.damping c2 =
          AlgorithmicReverb.decay_damping
            (jlimit (f_lit 1000 1) (f_lit 20000 1)
                    (PluginProcessor.highCut p)).
Proof.
  intros Hr M0 M1 S0 S1.
  destruct (updateReverb_cells Hr M0 M1 S0 S1)
    as (r1 & E1 & Hr1 & Esr1 & Ehc1 & Hc1 & _).
  destruct (@updateReverb_cells _ _ r1 p Hr1 M0 M1)
    as (r2 & E2 & _ & _ & _ & Hc2 & _);
    [rewrite Esr1; exact S0|rewrite Esr1; exact S1|].
  exists r1, r2. split; [exact E1|]. split; [exact E2|].
  intros ch i Hch Hi.
  destruct (Hc1 ch i Hch Hi) as (c & _ & G1).
  destruct (Hc2 ch i Hch Hi) as (c' & _ & G2).
  eexists. eexists. split; [exact G1|]. split; [exact G2|].
  cbn [CombFilter.setDamping CombFilter.damping]. rewrite Ehc1.
  split; apply Q_jlimit_id;
    match goal with
    | |- context [AlgorithmicReverb.decay_damping ?h] =>
        destruct (decay_damping_range h); q_norm;
        change (f_lit 999 1000) with (999 # 1000); lra
    end.
Qed.

(** X17.  In exact arithmetic, whatever the parameter values and
    whatever [powf] returns: after the parameter update of a block every
    comb unit has its feedback in [0, 0.998] and its damping in
    [0, 0.7], and every allpass unit of the diffusion network has its
    feedback in [0.3, 0.75], so that no feedback reaches 1. *)
Theorem update_keeps_feedback_below_one (r : @AlgorithmicReverb.t Q Q J)
        (p : @PluginProcessor.ReverbParams Q) :
  reverb_running r ->
  0 <= PluginProcessor.preDelay p -> PluginProcessor.preDelay p <= 500 ->
  0 <= AlgorithmicReverb.sampleRate r ->
  AlgorithmicReverb.sampleRate r <= inject_Z (2 ^ 30) ->
  exists r',
    PluginProcessor.updateReverb r p = Some r' /\
    grid_all (fun c => (0 <= CombFilter.feedback c /\
                        CombFilter.feedback c <= 998 # 1000) /\
                       (0 <= CombFilter.damping c /\
                        CombFilter.damping c <= 7 # 10))
             (AlgorithmicReverb.combFilters r') /\
    grid_all (fun a => 3 # 10 <= AllpassFilter.feedback a /\
                       AllpassFilter.feedback a <= 3 # 4)
             (DiffusionNetwork.allpassFilters
                (AlgorithmicReverb.diffusionNetwork r')).
Proof.
  intros Hr M0 M1 S0 S1.
  destruct (updateReverb_cells Hr M0 M1 S0 S1)
    as (r' & E & Hr' & _ & _ & Hc & Ha).
  exists r'. split; [exact E|].
  destruct Hr' as (_ & Hcs & _ & (Hds & _) & _).
  split.
  - apply (grid_all_cells Hcs). intros ch i Hch Hi.
    destruct (Hc ch i Hch Hi) as (c & _ & G).
    eexists. split; [exact G|].
    cbn [CombFilter.setDamping CombFilter.setFeedback CombFilter.damping
         CombFilter.feedback].
    match goal with
    | |- context [AlgorithmicReverb.decay_feedback ?t ?c ?m] =>
        destruct (@decay_feedback_range t LM c m) as [F0 F1]
    end.
    match goal with
    | |- context [AlgorithmicReverb.decay_damping ?h] =>
        destruct (decay_damping_range h) as [D0 D1]
    end.
    rewrite (@Q_jlimit_id fzero (f_lit 999 1000)
               (AlgorithmicReverb.decay_damping
                  (AlgorithmicReverb.highCutFreq r)))
      by (q_norm; change (f_lit 999 1000) with (999 # 1000); lra).
    rewrite Q_jlimit_id
      by (q_norm; change (f_lit 999 1000) with (999 # 1000); lra).
    exact (conj (conj F0 F1) (conj D0 D1)).
  - apply (grid_all_cells Hds). intros ch i Hch Hi.
    destruct (Ha ch i Hch Hi) as (a & _ & G).
    eexists. split; [exact G|].
    cbn [AllpassFilter.setFeedback AllpassFilter.feedback].
    destruct (@Q_jlimit_bounds 0 1 (PluginProcessor.diffusionThrust p))
      as [T0 T1]; [lra|].
    q_norm. change (f_lit 75 100) with (75 # 100).
    change (f_lit 3 10) with (3 # 10). change (f_lit 45 100) with (45 # 100).
    change (f_lit 1 10) with (1 # 10).
    change (f_lit (-99) 100) with (- (99 # 100)).
    change (f_lit 99 100) with (99 # 100).
    set (t := jlimit 0 1 (PluginProcessor.diffusionThrust p)) in *.
    clearbody t.
    assert (I0 : 0 <= inject_Z i / inject_Z DiffusionNetwork.NumStages).
    { apply Qle_shift_div_l; [reflexivity|].
      assert (0 <= inject_Z i)
        by (change 0 with (inject_Z 0); rewrite <- Zle_Qle; lia). lra. }
    set (q := inject_Z i / inject_Z DiffusionNetwork.NumStages) in *.
    clearbody q.
    set (s := (3 # 10) + t * (45 # 100) + q * (1 # 10)).
    assert (S0' : 3 # 10 <= s) by (unfold s; lra).
    destruct (@Q_jlimit_bounds 0 (75 # 100) s) as [B0 B1]; [lra|].
    assert (B2 : 3 # 10 <= jlimit 0 (75 # 100) s).
    { unfold jlimit.
      destruct (s <? 0)%fl eqn:E1; [apply Q_ltb_true in E1; lra|].
      destruct ((75 # 100) <? s)%fl eqn:E2; lra. }
    rewrite Q_jlimit_id by lra. lra.
Qed.
End UpdateTheorems.

Section RunQ4.
#[local] Existing Instance libmQ.
#[local] Existing Instance juceQ.

Lemma damping_follows_previous_high_cut_witness :
  exists r1 r2,
    PluginProcessor.updateReverb tuned_reverb
      (PluginProcessor.mkParams 2 20 2000 80 1 (1 # 2) (3 # 10)) = Some r1 /\
    PluginProcessor.updateReverb r1
      (PluginProcessor.mkParams 2 20 2000 80 1 (1 # 2) (3 # 10)) = Some r2 /\
    forall ch i, (0 <= ch < 2)%Z -> (0 <= i < 8)%Z ->
      exists c1 c2,
        grid_get (AlgorithmicReverb.combFilters r1) ch i = Some c1 /\
        grid_get (AlgorithmicReverb.combFilters r2) ch i = Some c2 /\
        CombFilter.damping c1 =
          AlgorithmicReverb.decay_damping
            (AlgorithmicReverb.highCutFreq tuned_reverb) /\
        CombFilter.damping c2 =
          AlgorithmicReverb.decay_damping
            (jlimit (f_lit 1000 1) (f_lit 20000 1)
               (PluginProcessor.highCut
                  (PluginProcessor.mkParams 2 20 2000 80 1 (1 # 2)
                                            (3 # 10)))).
Proof.
  apply (@damping_follows_previous_high_cut libmQ juceQ tuned_reverb
           (PluginProcessor.mkParams 2 20 2000 80 1 (1 # 2) (3 # 10))).
  - apply tuned_reverb_running.
  - discriminate.
  - discriminate.
  - vm_compute. discriminate.
  - vm_compute. discriminate.
Defined.

Lemma update_keeps_feedback_below_one_witness :
  exists r',
    PluginProcessor.updateReverb tuned_reverb
      (PluginProcessor.mkParams 1000 20 5 9000 (- (3 # 1)) 7 (- (1 # 1)))
      = Some r' /\
    grid_all (fun c => (0 <= CombFilter.feedback c /\
                        CombFilter.feedback c <= 998 # 1000) /\
                       (0 <= CombFilter.damping c /\
                        CombFilter.damping c <= 7 # 10))
             (AlgorithmicReverb.combFilters r') /\
    grid_all (fun a => 3 # 10 <= AllpassFilter.feedback a /\
                       AllpassFilter.feedback a <= 3 # 4)
             (DiffusionNetwork.allpassFilters
                (AlgorithmicReverb.diffusionNetwork r')).
Proof.
  apply (@update_keeps_feedback_below_one libmQ juceQ tuned_reverb
           (PluginProcessor.mkParams 1000 20 5 9000 (- (3 # 1)) 7
                                     (- (1 # 1)))).
  - apply tuned_reverb_running.
  - discriminate.
  - discriminate.
  - vm_compute. discriminate.
  - vm_compute. discriminate.
Defined.
End RunQ4.

(** ** The fairing effect inside [processBlock] *)

Lemma last_cons_default {A} (l : list A) (x d d' : A) :
  last (x :: l) d = last (x :: l) d'.
Proof.
  revert x. induction l as [|y l IH]; intros x; [reflexivity|].
  change (last (y :: l) d = last (y :: l) d'). apply IH.
Qed.

Section FairingInBlocks.
Context {F D : Type} {AF : Arith F} {AD : Arith D} {CV : Conv F D}.

(** The sample loop never activates the effect. *)
Lemma iter_advance_idle (inc : F) (n : nat) (s : @FairingSeparation.t F D) :
  FairingSeparation.isActive s = false ->
  FairingSeparation.isActive (Nat.iter n (FairingSeparation.advance inc) s)
    = false.
Proof.
  intros H. induction n as [|n IH]; [exact H|].
  change (Nat.iter (S n) (FairingSeparation.advance inc) s)
    with (FairingSeparation.advance inc
            (Nat.iter n (FairingSeparation.advance inc) s)).
  unfold FairingSeparation.advance at 1.
  unfold FairingSeparation.phase_step. rewrite IH. reflexivity.
Qed.

(** The sample loop writes neither tempo, sync nor sample rate. *)
Lemma iter_advance_tempo (inc : F) (n : nat) (s : @FairingSeparation.t F D) :
  FairingSeparation.currentBPM (Nat.iter n (FairingSeparation.advance inc) s)
    = FairingSeparation.currentBPM s /\
  FairingSeparation.syncBeats (Nat.iter n (FairingSeparation.advance inc) s)
    = FairingSeparation.syncBeats s /\
  FairingSeparation.sampleRate (Nat.iter n (FairingSeparation.advance inc) s)
    = FairingSeparation.sampleRate s.
Proof.
  induction n as [|n (IH1 & IH2 & IH3)]; [repeat split; reflexivity|].
  cbn [Nat.iter nat_rect]. unfold FairingSeparation.advance at 1 3 5.
  destruct (FairingSeparation.phase_step _ _) as [p a].
  cbn [FairingSeparation.currentBPM FairingSeparation.syncBeats
       FairingSeparation.sampleRate].
  repeat split; assumption.
Qed.

(** What [process] leaves alone. *)
Lemma fairing_process_frame (s : @FairingSeparation.t F D) (n : nat) :
  FairingSeparation.sweepDirection (FairingSeparation.process s n)
    = FairingSeparation.sweepDirection s /\
  FairingSeparation.lastSweepDirection (FairingSeparation.process s n)
    = FairingSeparation.lastSweepDirection s /\
  FairingSeparation.currentBPM (FairingSeparation.process s n)
    = FairingSeparation.currentBPM s /\
  FairingSeparation.syncBeats (FairingSeparation.process s n)
    = FairingSeparation.syncBeats s /\
  (FairingSeparation.isActive s = false ->
   FairingSeparation.isActive (FairingSeparation.process s n) = false).
Proof.
  unfold FairingSeparation.process.
  destruct (negb _ && _); [repeat split; auto|].
  destruct (iter_advance_sweep (FairingSeparation.phaseIncrement s) n s)
    as [E1 E2].
  destruct (iter_advance_tempo (FairingSeparation.phaseIncrement s) n s)
    as (E3 & E4 & _).
  repeat split; try assumption. apply iter_advance_idle.
Qed.

(** X18.  For every arithmetic: over any run of blocks in which the
    enable parameter never goes from off to on, [processBlock] leaves
    the effect's tempo, sync length and both sweep directions as they
    were and never activates an idle effect; so holding the parameter on
    does not retrigger the effect once it has run out.  The flag kept
    for edge detection ends as the parameter of the last block. *)
Theorem fairing_needs_rising_edge (blocks : list (@FairingBlock D)) :
  forall h : @FairingHost F D,
    has_rising_edge (prevFairingEnabled h) blocks = false ->
    let h' := processBlocks_fairing h blocks in
    FairingSeparation.sweepDirection (fairingSeparation h')
      = FairingSeparation.sweepDirection (fairingSeparation h) /\
    FairingSeparation.lastSweepDirection (fairingSeparation h')
      = FairingSeparation.lastSweepDirection (fairingSeparation h) /\
    FairingSeparation.currentBPM (fairingSeparation h')
      = FairingSeparation.currentBPM (fairingSeparation h) /\
    FairingSeparation.syncBeats (fairingSeparation h')
      = FairingSeparation.syncBeats (fairingSeparation h) /\
    (FairingSeparation.isActive (fairingSeparation h) = false ->
     FairingSeparation.isActive (fairingSeparation h') = false) /\
    prevFairingEnabled h'
      = last (map (@fairingEnabled D) blocks) (prevFairingEnabled h).
Proof.
  induction blocks as [|b rest IH]; intros h Hr.
  - cbn. repeat split; auto.
  - cbn [has_rising_edge] in Hr. apply orb_false_iff in Hr.
    destruct Hr as [Hb Hrest].
    unfold processBlocks_fairing. cbn [fold_left].
    fold (processBlocks_fairing (processBlock_fairing h b) rest).
    assert (Eh : processBlock_fairing h b =
                 mkFairingHost
                   (FairingSeparation.process (fairingSeparation h)
                                              (blockSamples b))
                   (fairingEnabled b)).
    { unfold processBlock_fairing. cbv zeta. rewrite Hb. reflexivity. }
    specialize (IH (processBlock_fairing h b)).
    rewrite Eh in *. cbn [prevFairingEnabled fairingSeparation] in IH.
    destruct (IH Hrest) as (I1 & I2 & I3 & I4 & I5 & I6).
    destruct (fairing_process_frame (fairingSeparation h) (blockSamples b))
      as (P1 & P2 & P3 & P4 & P5).
    cbv zeta. split; [congruence|]. split; [congruence|].
    split; [congruence|]. split; [congruence|].
    split; [auto|].
    rewrite I6. cbn [map].
    destruct (map (@fairingEnabled D) rest) as [|e l]; [reflexivity|].
    change (last (e :: l) (fairingEnabled b)
            = last (e :: l) (prevFairingEnabled h)).
    apply last_cons_default.
Qed.
End FairingInBlocks.

Lemma fairing_needs_rising_edge_witness :
  let h := mkFairingHost
             (FairingSeparation.trigger
                (@FairingSeparation.init binary32 binary64 _ _)) true in
  let blocks := [mkFairingBlock true (Some (f_lit 90 1)) 3 64;
                 mkFairingBlock true None 0 64;
                 mkFairingBlock false None 1 32] in
  let h' := processBlocks_fairing h blocks in
  FairingSeparation.sweepDirection (fairingSeparation h')
    = FairingSeparation.sweepDirection (fairingSeparation h) /\
  FairingSeparation.lastSweepDirection (fairingSeparation h')
    = FairingSeparation.lastSweepDirection (fairingSeparation h) /\
  FairingSeparation.currentBPM (fairingSeparation h')
    = FairingSeparation.currentBPM (fairingSeparation h) /\
  FairingSeparation.syncBeats (fairingSeparation h')
    = FairingSeparation.syncBeats (fairingSeparation h) /\
  (FairingSeparation.isActive (fairingSeparation h) = false ->
   FairingSeparation.isActive (fairingSeparation h') = false) /\
  prevFairingEnabled h'
    = last (map (@fairingEnabled binary64) blocks) (prevFairingEnabled h).
Proof.
  exact (@fairing_needs_rising_edge binary32 binary64 _ _ _
           [mkFairingBlock true (Some (f_lit 90 1)) 3 64;
            mkFairingBlock true None 0 64;
            mkFairingBlock false None 1 32]
           (mkFairingHost
              (FairingSeparation.trigger
                 (@FairingSeparation.init binary32 binary64 _ _)) true)
           eq_refl).
Defined.

(** ** The decay curve display *)

(** Two lists of one length with the same cells are equal. *)
Lemma vec_get_ext {A} (l l' : list A) :
  length l = length l' ->
  (forall k, (0 <= k < size l)%Z -> vec_get l k = vec_get l' k) ->
  l = l'.
Proof.
  revert l'. induction l as [|x l IH]; intros [|y l'] L H;
    try discriminate L; [reflexivity|].
  assert (E0 : Some x = Some y).
  { apply (H 0%Z). unfold size. simpl length. lia. }
  inversion E0; subst y. f_equal. apply IH; [simpl in L; lia|].
  intros k Hk. specialize (H (k + 1)%Z).
  unfold vec_get, size in *. simpl length in H.
  replace (0 <=? k + 1)%Z with true in H by (symmetry; apply Z.leb_le; lia).
  replace (0 <=? k)%Z with true by (symmetry; apply Z.leb_le; lia).
  replace (Z.to_nat (k + 1)) with (S (Z.to_nat k)) in H by lia.
  apply H. lia.
Qed.

Lemma vec_get_app_last {A} (l : list A) (x : A) (k : Z) :
  (0 <= k)%Z ->
  vec_get (l ++ [x]) k =
    if (k <? size l)%Z then vec_get l k
    else if (k =? size l)%Z then Some x else None.
Proof.
  intros Hk. unfold vec_get, size.
  replace (0 <=? k)%Z with true by (symmetry; apply Z.leb_le; lia).
  destruct (Z.ltb_spec k (Z.of_nat (length l))).
  - apply nth_error_app1. lia.
  - rewrite nth_error_app2 by lia.
    destruct (Z.eqb_spec k (Z.of_nat (length l))) as [E|E].
    + replace (Z.to_nat k - length l)%nat with 0%nat by lia. reflexivity.
    + destruct (Z.to_nat k - length l)%nat as [|m] eqn:Em; [lia|].
      simpl. destruct m; reflexivity.
Qed.

Lemma vec_get_tl {A} (l : list A) (k : Z) :
  (0 <= k)%Z -> vec_get (tl l) k = vec_get l (k + 1).
Proof.
  intros Hk. unfold vec_get.
  replace (0 <=? k)%Z with true by (symmetry; apply Z.leb_le; lia).
  replace (0 <=? k + 1)%Z with true by (symmetry; apply Z.leb_le; lia).
  replace (Z.to_nat (k + 1)) with (S (Z.to_nat k)) by lia.
  destruct l as [|x l]; [destruct (Z.to_nat k); reflexivity|reflexivity].
Qed.

Section Display.
Context {F : Type} {AF : Arith F}.

(** One tick: the in-place loop moves every value one cell towards the
    front and the current envelope enters at the back. *)
Lemma timerCallback_shifts (d : @DecayCurveDisplay.t F) :
  length (DecayCurveDisplay.history d) = 128%nat ->
  DecayCurveDisplay.timerCallback d =
    Some (DecayCurveDisplay.mk
            (tl (DecayCurveDisplay.history d)
             ++ [DecayCurveDisplay.currentEnvelope d])
            (DecayCurveDisplay.currentEnvelope d)
            (DecayCurveDisplay.decayTimeSeconds d)).
Proof.
  intros L. unfold DecayCurveDisplay.timerCallback.
  set (h0 := DecayCurveDisplay.history d) in *.
  destruct (@for_from_ind _
              (fun (j : Z) (h : list F) =>
                 length h = 128%nat /\
                 forall k, (0 <= k < 128)%Z ->
                   vec_get h k =
                     vec_get h0 (if (k <? j)%Z then (k + 1)%Z else k))
              (fun i h =>
                 next <- int_ok (i + 1) ;;
                 x <- vec_get h next ;;
                 vec_set h i x)
              (Z.to_nat (DecayCurveDisplay.HistorySize - 1)) 0%Z h0)
    as (h & E & Lh & Hh).
  - split; [exact L|]. intros k Hk.
    destruct (Z.ltb_spec k 0); [lia|reflexivity].
  - intros j s Hj [Ls Hs].
    change (Z.of_nat (Z.to_nat (DecayCurveDisplay.HistorySize - 1)))
      with 127%Z in Hj.
    rewrite int_ok_some by (unfold INT_MIN, INT_MAX; lia). cbn [bind].
    destruct (@vec_get_some _ s (j + 1)%Z) as (x & Ex & _);
      [unfold size; lia|].
    rewrite Ex. cbn [bind].
    rewrite vec_set_some by (unfold size; lia).
    eexists. split; [reflexivity|].
    split; [rewrite upd_length; exact Ls|].
    intros k Hk. rewrite vec_get_upd by (unfold size; lia).
    destruct (Z.eqb_spec k j) as [Ek|Ek].
    + subst k. rewrite <- Ex. rewrite (Hs (j + 1)%Z) by lia.
      destruct (Z.ltb_spec (j + 1) j); [lia|].
      destruct (Z.ltb_spec j (j + 1)); [reflexivity|lia].
    + rewrite (Hs k Hk).
      destruct (Z.ltb_spec k j); destruct (Z.ltb_spec k (j + 1));
        try lia; reflexivity.
  - unfold for_loop. rewrite E. cbn [bind].
    change (0 + Z.of_nat (Z.to_nat (DecayCurveDisplay.HistorySize - 1)))%Z
      with 127%Z in Hh.
    change (DecayCurveDisplay.HistorySize - 1)%Z with 127%Z.
    rewrite vec_set_some by (unfold size; lia). cbn [bind].
    f_equal. f_equal.
    apply vec_get_ext.
    + rewrite upd_length, length_app, Lh. cbn [length].
      destruct h0 as [|x0 t0]; [discriminate L|].
      cbn [tl]. simpl in L. lia.
    + intros k Hk. rewrite size_upd in Hk. unfold size in Hk.
      rewrite Lh in Hk.
      rewrite vec_get_upd by (unfold size; lia).
      rewrite vec_get_app_last by lia.
      assert (St : size (tl h0) = 127%Z).
      { unfold size. destruct h0 as [|x0 t0]; [discriminate L|].
        cbn [tl]. simpl in L. lia. }
      rewrite St.
      destruct (Z.eqb_spec k 127) as [Ek|Ek].
      * subst k. reflexivity.
      * destruct (Z.ltb_spec k 127); [|lia].
        rewrite vec_get_tl by lia. rewrite (Hh k) by lia.
        destruct (Z.ltb_spec k 127); [reflexivity|lia].
Qed.

(** X19.  For every arithmetic: a display whose history has its 128
    cells, fed a list of envelope values, one [setDecayEnvelope] and one
    [timerCallback] per value, ends up showing the last 128 values of
    what it showed before followed by the values fed, each clamped as
    [setDecayEnvelope] clamps it, oldest first; the history keeps its
    128 cells and the decay time is not touched. *)
Theorem display_shows_latest_envelopes (envelopes : list F) :
  forall d : @DecayCurveDisplay.t F,
    length (DecayCurveDisplay.history d) = 128%nat ->
    exists d',
      DecayCurveDisplay.feed d envelopes = Some d' /\
      DecayCurveDisplay.history d' =
        skipn (length envelopes)
              (DecayCurveDisplay.history d
               ++ map (jlimit fzero fone) envelopes) /\
      length (DecayCurveDisplay.history d') = 128%nat /\
      DecayCurveDisplay.decayTimeSeconds d' =
        DecayCurveDisplay.decayTimeSeconds d.
Proof.
  induction envelopes as [|e rest IH]; intros d L.
  - exists d. split; [reflexivity|]. cbn [length map skipn].
    rewrite app_nil_r. auto.
  - cbn [DecayCurveDisplay.feed].
    rewrite timerCallback_shifts by exact L. cbn [bind].
    cbn [DecayCurveDisplay.setDecayEnvelope DecayCurveDisplay.history
         DecayCurveDisplay.currentEnvelope DecayCurveDisplay.decayTimeSeconds].
    match goal with
    | |- exists d', DecayCurveDisplay.feed ?d1 rest = _ /\ _ =>
        destruct (IH d1) as (d' & E & Hh & Ld & Et)
    end.
    { cbn [DecayCurveDisplay.history]. rewrite length_app. cbn [length].
      destruct (DecayCurveDisplay.history d) as [|x0 t0]; [discriminate L|].
      cbn [tl]. simpl in L. lia. }
    exists d'. split; [exact E|]. split; [|split; [exact Ld|exact Et]].
    rewrite Hh. cbn [DecayCurveDisplay.history length map].
    destruct (DecayCurveDisplay.history d) as [|x0 t0]; [discriminate L|].
    cbn [tl skipn app]. rewrite <- app_assoc. reflexivity.
Qed.
End Display.

Lemma display_shows_latest_envelopes_witness :
  exists d',
    DecayCurveDisplay.feed (@DecayCurveDisplay.init binary32 _)
      [f_lit 1 2; f_lit 3 1; f_lit (-1) 4] = Some d' /\
    DecayCurveDisplay.history d' =
      skipn (length [f_lit 1 2; f_lit 3 1; f_lit (-1) 4 : binary32])
            (DecayCurveDisplay.history (@DecayCurveDisplay.init binary32 _)
             ++ map (jlimit fzero fone)
                    [f_lit 1 2; f_lit 3 1; f_lit (-1) 4]) /\
    length (DecayCurveDisplay.history d') = 128%nat /\
    DecayCurveDisplay.decayTimeSeconds d' =
      DecayCurveDisplay.decayTimeSeconds (@DecayCurveDisplay.init binary32 _).
Proof.
  apply (@display_shows_latest_envelopes binary32 _
           [f_lit 1 2; f_lit 3 1; f_lit (-1) 4]
           (@DecayCurveDisplay.init binary32 _)).
  reflexivity.
Defined.

(** ** The nebula presets *)

(** [getPreset] answers every index with an entry of the table, the
    first one for an index of 0 or less. *)
Lemma getPreset_clamps {F : Type} {AF : Arith F} (index : Z) :
  exists p : @NebulaPresets.NebulaCharacter F,
    NebulaPresets.getPreset index = Some p /\
    In p NebulaPresets.presets /\
    ((index <= 0)%Z -> vec_get NebulaPresets.presets 0 = Some p) /\
    ((11 <= index)%Z -> vec_get NebulaPresets.presets 11 = Some p).
Proof.
  unfold NebulaPresets.getPreset.
  change (size (@NebulaPresets.presets F AF) - 1)%Z with 11%Z.
  change (int_ok 11) with (Some 11%Z). cbn [bind].
  assert (B : (0 <= jlimit_int 0 11 index <= 11)%Z).
  { unfold jlimit_int. destruct (Z.ltb_spec index 0); [lia|].
    destruct (Z.ltb_spec 11 index); lia. }
  destruct (@vec_get_some _ (@NebulaPresets.presets F AF)
              (jlimit_int 0 11 index)) as (p & E & Hin).
  { change (size (@NebulaPresets.presets F AF)) with 12%Z. lia. }
  exists p. split; [exact E|]. split; [exact Hin|]. split.
  - intros H. rewrite <- E. f_equal. unfold jlimit_int.
    destruct (Z.ltb_spec index 0); [reflexivity|].
    destruct (Z.ltb_spec 11 index); lia.
  - intros H. rewrite <- E. f_equal. unfold jlimit_int.
    destruct (Z.ltb_spec index 0); [lia|].
    destruct (Z.ltb_spec 11 index); lia.
Qed.

(** X20.  In binary32, for every index, in range or not: [getPreset]
    returns an entry of the table, the entry of the nearest valid index.
    Its values, scaled as [processBlock] scales the parameters, are
    left as they are by the clamps of [setDecay], [setHighCut],
    [setLowCut], [setWidth], [setThrust] and [setChaos], and its
    pre-delay lies in the parameter range; for an index of 0 or less the
    entry is Manual and carries the parameter defaults. *)
Theorem presets_pass_the_clamps (index : Z) :
  exists p : @NebulaPresets.NebulaCharacter binary32,
    NebulaPresets.getPreset index = Some p /\
    NebulaPresets.getPreset (jlimit_int 0 11 index) = Some p /\
    jlimit (f_lit 5 10) (f_lit 30 1) (NebulaPresets.decay p)
      = NebulaPresets.decay p /\
    jlimit (f_lit 1000 1) (f_lit 20000 1) (NebulaPresets.highCut p)
      = NebulaPresets.highCut p /\
    jlimit (f_lit 20 1) (f_lit 500 1) (NebulaPresets.lowCut p)
      = NebulaPresets.lowCut p /\
    jlimit fzero (f_lit 2 1) (NebulaPresets.width p / f_lit 100 1)%fl
      = (NebulaPresets.width p / f_lit 100 1)%fl /\
    jlimit fzero fone (NebulaPresets.diffusion p / f_lit 100 1)%fl
      = (NebulaPresets.diffusion p / f_lit 100 1)%fl /\
    jlimit fzero fone (NebulaPresets.chaos p / f_lit 100 1)%fl
      = (NebulaPresets.chaos p / f_lit 100 1)%fl /\
    jlimit Ranges.preDelayMin Ranges.preDelayMax (NebulaPresets.preDelay p)
      = NebulaPresets.preDelay p /\
    ((index <= 0)%Z ->
     NebulaPresets.decay p = Defaults.decay /\
     NebulaPresets.preDelay p = Defaults.preDelay /\
     NebulaPresets.highCut p = Defaults.highCut /\
     NebulaPresets.lowCut p = Defaults.lowCut /\
     NebulaPresets.width p = Defaults.width /\
     NebulaPresets.diffusion p = Defaults.diffusionThrust /\
     NebulaPresets.chaos p = Defaults.modulationChaos).
Proof.
  destruct (@getPreset_clamps binary32 _ index) as (p & E & Hin & H0 & _).
  exists p. split; [exact E|]. split.
  { destruct (@getPreset_clamps binary32 _ (jlimit_int 0 11 index))
      as (q & Eq & _).
    rewrite Eq. rewrite <- E. unfold NebulaPresets.getPreset in *.
    change (int_ok (size (@NebulaPresets.presets binary32 _) - 1))
      with (Some 11%Z) in *.
    cbn [bind] in *. rewrite <- Eq. f_equal.
    unfold jlimit_int.
    destruct (Z.ltb_spec index 0); [reflexivity|].
    destruct (Z.ltb_spec 11 index); [reflexivity|].
    destruct (Z.ltb_spec index 0); [lia|].
    destruct (Z.ltb_spec 11 index); [lia|reflexivity]. }
  assert (A : Forall (fun p : @NebulaPresets.NebulaCharacter binary32 =>
    jlimit (f_lit 5 10) (f_lit 30 1) (NebulaPresets.decay p)
      = NebulaPresets.decay p /\
    jlimit (f_lit 1000 1) (f_lit 20000 1) (NebulaPresets.highCut p)
      = NebulaPresets.highCut p /\
    jlimit (f_lit 20 1) (f_lit 500 1) (NebulaPresets.lowCut p)
      = NebulaPresets.lowCut p /\
    jlimit fzero (f_lit 2 1) (NebulaPresets.width p / f_lit 100 1)%fl
      = (NebulaPresets.width p / f_lit 100 1)%fl /\
    jlimit fzero fone (NebulaPresets.diffusion p / f_lit 100 1)%fl
      = (NebulaPresets.diffusion p / f_lit 100 1)%fl /\
    jlimit fzero fone (NebulaPresets.chaos p / f_lit 100 1)%fl
      = (NebulaPresets.chaos p / f_lit 100 1)%fl /\
    jlimit Ranges.preDelayMin Ranges.preDelayMax (NebulaPresets.preDelay p)
      = NebulaPresets.preDelay p) NebulaPresets.presets).
  { unfold NebulaPresets.presets.
    repeat (constructor; [vm_compute; repeat split; reflexivity|]).
    constructor. }
  rewrite Forall_forall in A.
  destruct (A p Hin) as (A1 & A2 & A3 & A4 & A5 & A6 & A7).
  repeat (split; [assumption|]).
  intros Hi. specialize (H0 Hi). change (vec_get NebulaPresets.presets 0)
    with (Some (nth 0 (@NebulaPresets.presets binary32 _)
                   (NebulaPresets.mkNebula String.EmptyString fzero fzero
                      fzero fzero fzero fzero fzero))) in H0.
  inversion H0; subst p. repeat split; reflexivity.
Qed.

(** ** Preset changes in [processBlock] *)

(** X21.  Over any run of blocks whose preset selections are not
    negative, as those of a choice parameter are: a block applies the
    selected preset exactly when the selection is not Manual (0) and
    differs from the selection of the block before, the first block
    being compared with [lastNebulaPreset]; so a preset is applied once
    when it is selected, not again while it stays selected, and again
    when it is reselected after Manual or another preset.  At the end
    [lastNebulaPreset] is the selection of the last block. *)
Theorem preset_applied_when_selection_changes (selections : list Z) :
  forall lastNebulaPreset : Z,
    Forall (fun c => (0 <= c)%Z) selections ->
    processBlocks_preset lastNebulaPreset selections =
      (map (fun pc : Z * Z =>
              if ((snd pc >? 0) && negb (snd pc =? fst pc))%Z
              then Some (snd pc) else None)
           (combine (lastNebulaPreset :: selections) selections),
       last selections lastNebulaPreset).
Proof.
  induction selections as [|c rest IH]; intros l H; [reflexivity|].
  inversion H as [|c' rest' Hc Hrest]; subst.
  cbn [processBlocks_preset combine map fst snd].
  assert (E : processBlock_preset l c =
              (if ((c >? 0) && negb (c =? l))%Z then Some c else None, c)).
  { unfold processBlock_preset.
    destruct (Z.eqb_spec c l) as [Ecl|Ecl]; cbn [negb andb];
      destruct (Z.gtb_spec c 0) as [Hc0|Hc0]; cbn [andb];
      try reflexivity.
    - destruct (Z.eqb_spec c 0); [lia|]. subst l. reflexivity.
    - destruct (Z.eqb_spec c 0); [subst; reflexivity|lia].
    - destruct (Z.eqb_spec c 0); [subst; reflexivity|lia]. }
  rewrite E. rewrite (IH c Hrest). f_equal.
  destruct rest as [|c1 rest1]; [reflexivity|].
  change (last (c1 :: rest1) c = last (c1 :: rest1) l).
  apply last_cons_default.
Qed.

Lemma preset_applied_when_selection_changes_witness :
  processBlocks_preset (-1) [3; 3; 0; 3; 5; 5]%Z =
    (map (fun pc : Z * Z =>
            if ((snd pc >? 0) && negb (snd pc =? fst pc))%Z
            then Some (snd pc) else None)
         (combine ((-1) :: [3; 3; 0; 3; 5; 5])%Z [3; 3; 0; 3; 5; 5]%Z),
     last [3; 3; 0; 3; 5; 5]%Z (-1)%Z).
Proof.
  apply (@preset_applied_when_selection_changes [3; 3; 0; 3; 5; 5]%Z (-1)%Z).
  repeat constructor; lia.
Defined.

(** ** The peak that feeds the decay envelope *)

(** X22.  In exact arithmetic, on a block of [k] channels of [n]
    samples: the peak scan of [process] returns a value that is not
    negative, is at least the magnitude of every sample of the block,
    and is 0 or the magnitude of one of the samples. *)
Theorem block_peak_is_the_largest_magnitude (k n : nat)
        (wet : AudioBuffer Q) :
  block_shape k n wet ->
  exists m,
    AlgorithmicReverb.block_peak n wet = Some m /\
    0 <= m /\
    (forall ch s, (0 <= ch < Z.of_nat k)%Z -> (0 <= s < Z.of_nat n)%Z ->
       exists x, getSample wet ch s = Some x /\ Qabs x <= m) /\
    (m = 0 \/
     exists ch s x, (0 <= ch < Z.of_nat k)%Z /\ (0 <= s < Z.of_nat n)%Z /\
                    getSample wet ch s = Some x /\ m = Qabs x).
Proof.
  intros Hb. pose proof Hb as (Hn & Hk & Hc).
  unfold AlgorithmicReverb.block_peak, getNumChannels, size. rewrite Hk.
  rewrite Nat2Z.id.
  set (attained := fun m : Q =>
         m = 0 \/
         exists ch s x, (0 <= ch < Z.of_nat k)%Z /\ (0 <= s < Z.of_nat n)%Z /\
                        getSample wet ch s = Some x /\ m = Qabs x).
  destruct (@for_from_ind _
              (fun (ch : Z) (m : Q) =>
                 0 <= m /\ attained m /\
                 forall ch' s, (0 <= ch' < ch)%Z -> (0 <= s < Z.of_nat n)%Z ->
                   exists x, getSample wet ch' s = Some x /\ Qabs x <= m)
              (fun ch mx =>
                 for_loop n (fun sample mx =>
                     x <- getSample wet ch sample ;;
                     Some (jmax mx (f_abs x)))
                   mx) k 0%Z fzero)
    as (m & E & M0 & Ma & Mall).
  - split; [q_norm; lra|]. split; [left; reflexivity|].
    intros ch' s Hch'. lia.
  - intros ch mx Hch (X0 & Xa & Xall). unfold for_loop.
    destruct (@for_from_ind _
                (fun (s : Z) (m : Q) =>
                   0 <= m /\ attained m /\
                   (forall ch' s', (0 <= ch' < ch)%Z ->
                      (0 <= s' < Z.of_nat n)%Z ->
                      exists x, getSample wet ch' s' = Some x /\ Qabs x <= m) /\
                   forall s', (0 <= s' < s)%Z ->
                     exists x, getSample wet ch s' = Some x /\ Qabs x <= m)
                (fun sample mx =>
                   x <- getSample wet ch sample ;;
                   Some (jmax mx (f_abs x)))
                n 0%Z mx)
      as (m1 & E1 & N0 & Na & Nall & Nrow).
    + split; [exact X0|]. split; [exact Xa|]. split; [exact Xall|].
      intros s' Hs'. lia.
    + intros s m0 Hs (Y0 & Ya & Yall & Yrow).
      destruct (@shape_get _ k n wet ch s Hb) as (x & Ex); [lia|lia|].
      rewrite Ex. cbn [bind]. eexists. split; [reflexivity|].
      q_norm. unfold jmax.
      pose proof (Qabs_nonneg x) as A0.
      destruct (m0 <? Qabs x)%fl eqn:C.
      * apply Q_ltb_true in C.
        split; [exact A0|]. split.
        { right. exists ch, s, x. repeat split; try lia. exact Ex. }
        split.
        { intros ch' s' H1 H2. destruct (Yall ch' s' H1 H2) as (y & Ey & By).
          exists y. split; [exact Ey|lra]. }
        intros s' Hs'. destruct (Z.eq_dec s' s) as [->|Hne].
        { exists x. split; [exact Ex|lra]. }
        destruct (Yrow s') as (y & Ey & By); [lia|].
        exists y. split; [exact Ey|lra].
      * apply Q_ltb_false in C.
        split; [exact Y0|]. split; [exact Ya|]. split; [exact Yall|].
        intros s' Hs'. destruct (Z.eq_dec s' s) as [->|Hne].
        { exists x. split; [exact Ex|exact C]. }
        apply Yrow. lia.
    + exists m1. split; [exact E1|]. split; [exact N0|].
      split; [exact Na|].
      intros ch' s H1 H2. destruct (Z.eq_dec ch' ch) as [->|Hne].
      * apply Nrow. lia.
      * apply Nall; lia.
  - exists m. split; [exact E|]. split; [exact M0|].
    split; [|exact Ma].
    intros ch s H1 H2. apply Mall; lia.
Qed.

Lemma block_peak_is_the_largest_magnitude_witness :
  exists m,
    AlgorithmicReverb.block_peak 3
      (mkBuf 3 [[1 # 2; - (3 # 4); 0]; [1 # 4; 1 # 3; - (1 # 5)]])
      = Some m /\
    0 <= m /\
    (forall ch s, (0 <= ch < Z.of_nat 2)%Z -> (0 <= s < Z.of_nat 3)%Z ->
       exists x,
         getSample (mkBuf 3 [[1 # 2; - (3 # 4); 0];
                             [1 # 4; 1 # 3; - (1 # 5)]]) ch s = Some x /\
         Qabs x <= m) /\
    (m = 0 \/
     exists ch s x, (0 <= ch < Z.of_nat 2)%Z /\ (0 <= s < Z.of_nat 3)%Z /\
                    getSample (mkBuf 3 [[1 # 2; - (3 # 4); 0];
                                        [1 # 4; 1 # 3; - (1 # 5)]]) ch s
                      = Some x /\
                    m = Qabs x).
Proof.
  apply (@block_peak_is_the_largest_magnitude 2 3
           (mkBuf 3 [[1 # 2; - (3 # 4); 0]; [1 # 4; 1 # 3; - (1 # 5)]])).
  split; [reflexivity|]. split; [reflexivity|].
  intros c [<-|[<-|[]]]; reflexivity.
Defined.

(** ** The comb unit against section 4.3 of the specification *)

Section CombAgainstSpec.
Context {F D : Type} {AF : Arith F} {AD : Arith D}.

Lemma vec_get_in_range {A} (v : list A) (i : Z) (x : A) :
  vec_get v i = Some x -> (0 <= i < size v)%Z.
Proof.
  unfold vec_get, size. destruct (0 <=? i)%Z eqn:E; [|discriminate].
  apply Z.leb_le in E. intros H.
  assert (Hn : nth_error v (Z.to_nat i) <> None) by congruence.
  apply nth_error_Some in Hn. lia.
Qed.

Lemma vec_set_in_range {A} (v v' : list A) (i : Z) (x : A) :
  vec_set v i x = Some v' -> (0 <= i < size v)%Z.
Proof.
  unfold vec_set. destruct ((0 <=? i) && (i <? size v))%Z eqn:E; [|discriminate].
  apply andb_true_iff in E. destruct E as [E0 E1].
  apply Z.leb_le in E0. apply Z.ltb_lt in E1. lia.
Qed.

(** [process] computes its read index as [readIndex0] does. *)
Lemma comb_process_reads (c : @CombFilter.t F D) (input : F) (r : F * @CombFilter.t F D) :
  CombFilter.process c input = Some r ->
  exists i0, CombFilter.readIndex0 c = Some i0 /\
             (0 <= i0 < size (CombFilter.buffer c))%Z.
Proof.
  unfold CombFilter.process, CombFilter.readIndex0. intros H.
  apply bind_some in H. destruct H as (i0 & E0 & H).
  apply bind_some in H. destruct H as (n0 & _ & H).
  apply bind_some in H. destruct H as (i1 & _ & H).
  apply bind_some in H. destruct H as (a & Ea & _).
  exists i0. split; [exact E0|]. exact (vec_get_in_range Ea).
Qed.

(** X25.  For every arithmetic: whenever [CombFilter::process] returns,
    that is whenever the cells it reads and writes lie inside its buffer,
    it does what section 4.3 of the specification says, with the read
    index wrapped into range as sections 3 and 4.1 ask: the same delayed
    value is returned, the same filter state is kept, the same sample is
    written and the write index advances the same way.  The first cell
    read is then [readIndex0], which lies inside the buffer. *)
Theorem comb_process_meets_spec (c : @CombFilter.t F D) (input : F)
        (r : F * @CombFilter.t F D) :
  CombFilter.process c input = Some r ->
  CombFilter.spec_process c input = Some r /\
  exists i0, CombFilter.readIndex0 c = Some i0 /\
             (0 <= i0 < size (CombFilter.buffer c))%Z.
Proof.
  intros H. split; [|exact (comb_process_reads H)].
  revert H. unfold CombFilter.process, CombFilter.spec_process.
  unfold DelayLine.readInterpolated, DelayLine.write. intros H.
  apply bind_some in H. destruct H as (i0 & E0 & H).
  apply bind_some in H. destruct H as (n0 & En & H).
  apply bind_some in H. destruct H as (i1 & E1 & H).
  apply bind_some in H. destruct H as (a & Ea & H).
  apply bind_some in H. destruct H as (b & Eb & H).
  apply bind_some in H. destruct H as (buf & Es & H).
  apply bind_some in H. destruct H as (w & Ew & H).
  apply bind_some in H. destruct H as (w' & Ew' & H).
  pose proof (vec_get_in_range Ea) as R0.
  pose proof (vec_set_in_range Es) as Rw.
  unfold int_ok in En, Ew.
  destruct (in_int (i0 + 1)); [|discriminate].
  destruct (in_int (CombFilter.writeIndex c + 1)); [|discriminate].
  inversion En; subst n0; clear En. inversion Ew; subst w; clear Ew.
  unfold int_rem in E1, Ew'.
  destruct (size (CombFilter.buffer c) =? 0)%Z; [discriminate|].
  inversion E1; subst i1; clear E1. inversion Ew'; subst w'; clear Ew'.
  rewrite E0. cbn [bind].
  rewrite (Z.mod_small i0) by lia. rewrite Ea. cbn [bind].
  rewrite <- (Z.rem_mod_nonneg (i0 + 1)) by lia. rewrite Eb. cbn [bind].
  rewrite Es. cbn [bind].
  rewrite <- (Z.rem_mod_nonneg (CombFilter.writeIndex c + 1)) by lia.
  exact H.
Qed.
End CombAgainstSpec.

Lemma comb_process_meets_spec_witness :
  CombFilter.spec_process
    (CombFilter.setDelayTime
       (CombFilter.prepare (@CombFilter.init binary32 binary64 _ _)
                           (f_lit 44100 1) 16)
       (f_lit 5 2))
    (f_lit 1 1) =
  Some (fzero,
        CombFilter.mk (f_lit 1 1 :: repeat fzero 19) 1 16 (f_lit 5 2)
                      (f_lit 7 10) (f_lit 3 10) fzero (f_lit 44100 1)) /\
  exists i0,
    CombFilter.readIndex0
      (CombFilter.setDelayTime
         (CombFilter.prepare (@CombFilter.init binary32 binary64 _ _)
                             (f_lit 44100 1) 16)
         (f_lit 5 2)) = Some i0 /\
    (0 <= i0 < size (CombFilter.buffer
                       (CombFilter.setDelayTime
                          (CombFilter.prepare
                             (@CombFilter.init binary32 binary64 _ _)
                             (f_lit 44100 1) 16)
                          (f_lit 5 2))))%Z.
Proof.
  apply (@comb_process_meets_spec binary32 binary64 _
           (CombFilter.setDelayTime
              (CombFilter.prepare (@CombFilter.init binary32 binary64 _ _)
                                  (f_lit 44100 1) 16)
              (f_lit 5 2))
           (f_lit 1 1) _).
  vm_compute. reflexivity.
Defined.

(** C7.  The claim is right and [CombFilter::process] misses it where
    the read position wraps: a comb unit of 20 cells with a delay of
    3 + 2^-22 samples stands at write index 3 after three samples.  The
    read position 3 - (3 + 2^-22) is negative, and adding the buffer
    length to it gives 20 - 2^-22, which binary32 rounds to 20:
    [readIndex0] is 20, the length of the buffer, and the call reads a
    cell that is not there, whatever the input.  With the read index
    wrapped into range, as the specification has it, the same call is
    defined: it reads cells 0 and 1 and returns the sample written
    three calls ago. *)
Theorem comb_process_reads_past_buffer :
  exists c : @CombFilter.t binary32 binary64,
    comb_after_three = Some c /\
    CombFilter.writeIndex c = 3%Z /\
    size (CombFilter.buffer c) = 20%Z /\
    CombFilter.readIndex0 c = Some 20%Z /\
    (forall input : binary32, CombFilter.process c input = None) /\
    (forall input : binary32,
       exists c', CombFilter.spec_process c input = Some (f_lit 1 1, c')).
Proof.
  eexists. split; [vm_compute; reflexivity|].
  split; [reflexivity|]. split; [reflexivity|].
  split; [vm_compute; reflexivity|].
  split.
  - intros input. vm_compute. reflexivity.
  - intros input. eexists. vm_compute. reflexivity.
Qed.

(** ** Silence after [reset], in binary32 *)

Section Run32d.
#[local] Existing Instance libm32.
#[local] Existing Instance juce32.

End Run32d.

(** ** [reset] on a reverb that has played *)

Lemma reverb_shapeb_sound {F D : Type} {AF : Arith F} {AD : Arith D}
      {CV : Conv F D} {LM : Libm F} {J : JuceDSP F D}
      (r : @AlgorithmicReverb.t F D J) :
  reverb_shapeb r = true -> reverb_shape r.
Proof.
  unfold reverb_shapeb, reverb_shape, modulation_shape.
  rewrite !andb_true_iff, !Nat.eqb_eq.
  intros (((Lp & Hc) & Ha) & ((((L1 & L2) & L3) & L4) & L5)).
  split; [exact Lp|].
  split; [exact (proj1 (@grid_readyb_sound _ (fun _ => true) (fun _ => True)
                          _ (fun _ _ => I) Hc))|].
  split; [exact (proj1 (@grid_readyb_sound _ (fun _ => true) (fun _ => True)
                          _ (fun _ _ => I) Ha))|].
  repeat split; assumption.
Qed.

Section Run32e.
#[local] Existing Instance libm32.
#[local] Existing Instance juce32.

Lemma reverb_played_shape : reverb_shape reverb_played.
Proof. apply reverb_shapeb_sound. vm_compute. reflexivity. Qed.

(** The reverb has played 40 samples holding an impulse; [reset] then
    returns, the first pre-delay line and the buffer of the first comb
    unit are all zeros at their lengths of 500 and 233 cells, the write
    indices are back at 0, the comb's filter state is zero, and its
    delay and the high cut are as before. *)
Lemma reset_clears_signal_memory_witness :
  AlgorithmicReverb.preDelayWriteIndex reverb_played = 40%Z /\
  (b <- vec_get (AlgorithmicReverb.preDelayBuffer reverb_played) 0 ;;
   vec_get b 0) = Some (f_lit 1 1) /\
  exists c b,
    grid_get (AlgorithmicReverb.combFilters reverb_played) 0 0 = Some c /\
    CombFilter.writeIndex c = 40%Z /\
    length (CombFilter.buffer c) = 233%nat /\
    (fzero <? CombFilter.filterState c)%fl = true /\
    vec_get (AlgorithmicReverb.preDelayBuffer reverb_played) 0 = Some b /\
    length b = 500%nat /\
    exists r' c',
      AlgorithmicReverb.reset reverb_played = Some r' /\
      AlgorithmicReverb.preDelayWriteIndex r' = 0%Z /\
      vec_get (AlgorithmicReverb.preDelayBuffer r') 0 =
        Some (repeat fzero 500) /\
      grid_get (AlgorithmicReverb.combFilters r') 0 0 = Some c' /\
      CombFilter.buffer c' = repeat fzero 233 /\
      CombFilter.writeIndex c' = 0%Z /\
      CombFilter.filterState c' = fzero /\
      CombFilter.currentDelay c' = CombFilter.currentDelay c /\
      AlgorithmicReverb.highCutFreq r' =
        AlgorithmicReverb.highCutFreq reverb_played.
Proof.
  split; [vm_compute; reflexivity|].
  split; [vm_compute; reflexivity|].
  destruct (reset_clears_signal_memory reverb_played_shape)
    as (r' & E & _ & E0 & Hp & Hc & _ & _ & _ & _ & _ & _ & _ & _ & _ & Ehc & _).
  destruct (Hc 0%Z 0%Z ltac:(lia) ltac:(lia))
    as (c & c' & Ec & Ec' & Eb & Ew & Ef & Ed & _).
  destruct (vec_get (AlgorithmicReverb.preDelayBuffer reverb_played) 0)
    as [b|] eqn:Eb0; [|vm_compute in Eb0; discriminate Eb0].
  assert (Lb : length b = 500%nat).
  { assert (X : (b <- vec_get (AlgorithmicReverb.preDelayBuffer reverb_played) 0 ;;
                 Some (length b)) = Some 500%nat) by (vm_compute; reflexivity).
    rewrite Eb0 in X. cbn [bind] in X. congruence. }
  assert (Lc : CombFilter.writeIndex c = 40%Z /\
               length (CombFilter.buffer c) = 233%nat /\
               (fzero <? CombFilter.filterState c)%fl = true).
  { assert (X : (c <- grid_get (AlgorithmicReverb.combFilters reverb_played) 0 0 ;;
                 Some (CombFilter.writeIndex c, length (CombFilter.buffer c),
                       (fzero <? CombFilter.filterState c)%fl)) =
                Some (40%Z, 233%nat, true)) by (vm_compute; reflexivity).
    rewrite Ec in X. cbn [bind] in X. inversion X. auto. }
  destruct Lc as (Lc1 & Lc2 & Lc3).
  exists c, b. split; [exact Ec|]. split; [exact Lc1|].
  split; [exact Lc2|]. split; [exact Lc3|]. split; [reflexivity|].
  split; [exact Lb|].
  exists r', c'. split; [exact E|]. split; [exact E0|].
  split; [rewrite (Hp 0%Z b Eb0), Lb; reflexivity|].
  split; [exact Ec'|]. split; [rewrite Eb, Lc2; reflexivity|].
  split; [exact Ew|]. split; [exact Ef|]. split; [exact Ed|exact Ehc].
Defined.
End Run32e.

(** ** The diffusion network against section 4.4 of the specification *)

Lemma upd_same {A} (n : nat) (x : A) (l : list A) :
  nth_error l n = Some x -> upd n x l = l.
Proof.
  revert n; induction l as [|h t IH]; intros [|n]; simpl; intros H;
    try discriminate.
  - congruence.
  - rewrite (IH n H). reflexivity.
Qed.

Lemma upd_upd {A} (n : nat) (x y : A) (l : list A) :
  upd n x (upd n y l) = upd n x l.
Proof.
  revert n; induction l as [|h t IH]; intros [|n]; simpl; auto.
  rewrite IH. reflexivity.
Qed.

Lemma upd_app {A} (pre rest : list A) (a x : A) :
  upd (length pre) x (pre ++ a :: rest) = pre ++ x :: rest.
Proof. induction pre as [|h t IH]; simpl; [reflexivity|]. rewrite IH. reflexivity. Qed.

Lemma vec_get_app {A} (pre rest : list A) :
  vec_get (pre ++ rest) (Z.of_nat (length pre)) = nth_error rest 0.
Proof.
  unfold vec_get. replace (0 <=? Z.of_nat (length pre))%Z with true
    by (symmetry; apply Z.leb_le; lia).
  rewrite Nat2Z.id. rewrite nth_error_app2 by lia.
  rewrite Nat.sub_diag. reflexivity.
Qed.

Lemma vec_get_nat {A} (v : list A) (n : nat) :
  vec_get v (Z.of_nat n) = nth_error v n.
Proof.
  unfold vec_get. replace (0 <=? Z.of_nat n)%Z with true
    by (symmetry; apply Z.leb_le; lia).
  rewrite Nat2Z.id. reflexivity.
Qed.

Lemma vec_set_nat {A} (v : list A) (n : nat) (x : A) :
  (n < length v)%nat -> vec_set v (Z.of_nat n) x = Some (upd n x v).
Proof.
  intros H. rewrite vec_set_some by (unfold size; lia).
  rewrite Nat2Z.id. reflexivity.
Qed.

Section DiffusionAgainstSpec.
Context {F D : Type} {AF : Arith F} {AD : Arith D} {CV : Conv F D}
        {J : JuceDSP F D}.

(** The stage loop from stage [k] on is [through_stages] on the units
    from [k] on. *)
Lemma stages_from (n : nat) :
  forall (k : nat) (pre rest : list (@AllpassFilter.t F D)) (x : F)
         (fs : list (list (@AllpassFilter.t F D))) (ch : nat),
    nth_error fs ch = Some (pre ++ rest) -> length pre = k ->
    for_from (Z.of_nat k) n (DiffusionNetwork.stage_step (Z.of_nat ch)) (fs, x) =
    match DiffusionNetwork.through_stages n rest x with
    | Some (rest', y) => Some (upd ch (pre ++ rest') fs, y)
    | None => None
    end.
Proof.
  induction n as [|n IH]; intros k pre rest x fs ch Hrow Hk.
  - cbn [for_from DiffusionNetwork.through_stages].
    rewrite (upd_same Hrow). reflexivity.
  - change (for_from (Z.of_nat k) (Datatypes.S n)
              (DiffusionNetwork.stage_step (Z.of_nat ch)) (fs, x))
      with (s' <- DiffusionNetwork.stage_step (Z.of_nat ch) (Z.of_nat k) (fs, x) ;;
            for_from (Z.of_nat k + 1) n
              (DiffusionNetwork.stage_step (Z.of_nat ch)) s').
    unfold DiffusionNetwork.stage_step at 1.
    rewrite vec_get_nat, Hrow. cbn [bind].
    rewrite <- Hk, vec_get_app.
    destruct rest as [|a rest0]; [reflexivity|].
    cbn [nth_error bind DiffusionNetwork.through_stages].
    destruct (AllpassFilter.process a x) as [[y a']|]; [|reflexivity].
    cbn [bind].
    rewrite vec_set_nat by (rewrite length_app; simpl; lia).
    cbn [bind]. rewrite upd_app.
    assert (Lch : (ch < length fs)%nat).
    { apply nth_error_Some. congruence. }
    rewrite vec_set_nat by exact Lch. cbn [bind].
    replace (Z.of_nat (length pre) + 1)%Z
      with (Z.of_nat (length (pre ++ [a']))) by (rewrite length_app; simpl; lia).
    rewrite (IH (length (pre ++ [a'])) (pre ++ [a']) rest0 y
                (upd ch (pre ++ a' :: rest0) fs) ch).
    + destruct (DiffusionNetwork.through_stages n rest0 y) as [[rest' z]|];
        [|reflexivity].
      rewrite upd_upd, <- app_assoc. reflexivity.
    + rewrite nth_error_upd_same by exact Lch.
      rewrite <- app_assoc. reflexivity.
    + reflexivity.
Qed.

Lemma process_sample_through (n : nat) (row : list (@AllpassFilter.t F D))
      (x : F) (fs : list (list (@AllpassFilter.t F D))) (ch : nat) :
  nth_error fs ch = Some row ->
  DiffusionNetwork.process_sample n (Z.of_nat ch) (fs, x) =
  match DiffusionNetwork.through_stages n row x with
  | Some (row', y) => Some (upd ch row' fs, y)
  | None => None
  end.
Proof.
  intros Hrow. unfold DiffusionNetwork.process_sample, for_loop.
  exact (@stages_from n 0 [] row x fs ch Hrow eq_refl).
Qed.
(** The sample loop of one channel from sample [i0] on is
    [through_block] on the samples from [i0] on. *)
Lemma samples_from (n m : nat) (ch : nat) :
  forall (todo done : list F) (row : list (@AllpassFilter.t F D))
         (fs : list (list (@AllpassFilter.t F D))) (channels : list (list F)),
    nth_error fs ch = Some row ->
    nth_error channels ch = Some (done ++ todo) ->
    for_from (Z.of_nat (length done)) (length todo)
      (fun i '(fs, buf) =>
         sample <- getSample buf (Z.of_nat ch) i ;;
         ' (fs', sample') <-
            DiffusionNetwork.process_sample n (Z.of_nat ch) (fs, sample) ;;
         buf' <- setSample buf (Z.of_nat ch) i sample' ;;
         Some (fs', buf'))
      (fs, mkBuf m channels) =
    match DiffusionNetwork.through_block n row todo with
    | Some (row', ys) =>
        Some (upd ch row' fs, mkBuf m (upd ch (done ++ ys) channels))
    | None => None
    end.
Proof.
  induction todo as [|x todo IH]; intros done row fs channels Hrow Hc.
  - cbn [length for_from DiffusionNetwork.through_block].
    rewrite (upd_same Hrow), (upd_same Hc). reflexivity.
  - cbn [length].
    match goal with
    | |- for_from ?i (Datatypes.S ?k) ?body ?st = _ =>
        change (for_from i (Datatypes.S k) body st)
          with (s' <- body i st ;; for_from (i + 1) k body s')
    end.
    cbv beta iota.
    unfold getSample at 1. cbn [chans].
    rewrite vec_get_nat, Hc. cbn [bind].
    rewrite vec_get_app. cbn [nth_error bind].
    rewrite (process_sample_through n x Hrow).
    cbn [DiffusionNetwork.through_block].
    destruct (DiffusionNetwork.through_stages n row x) as [[row1 y]|];
      [|reflexivity].
    cbn [bind].
    unfold setSample at 1. cbn [chans numSamples].
    rewrite vec_get_nat, Hc. cbn [bind].
    rewrite vec_set_nat by (rewrite length_app; simpl; lia).
    cbn [bind]. rewrite upd_app.
    assert (Lch : (ch < length channels)%nat).
    { apply nth_error_Some. congruence. }
    assert (Lfs : (ch < length fs)%nat).
    { apply nth_error_Some. congruence. }
    rewrite vec_set_nat by exact Lch. cbn [bind].
    replace (Z.of_nat (length done) + 1)%Z
      with (Z.of_nat (length (done ++ [y]))) by (rewrite length_app; simpl; lia).
    rewrite (IH (done ++ [y]) row1 (upd ch row1 fs)
                (upd ch (done ++ y :: todo) channels)).
    + destruct (DiffusionNetwork.through_block n row1 todo) as [[row' ys]|];
        [|reflexivity].
      rewrite !upd_upd, <- app_assoc. reflexivity.
    + apply nth_error_upd_same. exact Lfs.
    + rewrite nth_error_upd_same by exact Lch.
      rewrite <- app_assoc. reflexivity.
Qed.

(** One channel, all its samples. *)
Lemma channel_through (n m : nat) (ch : nat) (c : list F)
      (row : list (@AllpassFilter.t F D))
      (fs : list (list (@AllpassFilter.t F D))) (channels : list (list F)) :
  nth_error fs ch = Some row -> nth_error channels ch = Some c ->
  length c = m ->
  for_loop m
    (fun i '(fs, buf) =>
       sample <- getSample buf (Z.of_nat ch) i ;;
       ' (fs', sample') <-
          DiffusionNetwork.process_sample n (Z.of_nat ch) (fs, sample) ;;
       buf' <- setSample buf (Z.of_nat ch) i sample' ;;
       Some (fs', buf'))
    (fs, mkBuf m channels) =
  match DiffusionNetwork.through_block n row c with
  | Some (row', ys) => Some (upd ch row' fs, mkBuf m (upd ch ys channels))
  | None => None
  end.
Proof.
  intros Hrow Hc Lc. unfold for_loop. rewrite <- Lc at 1.
  exact (@samples_from n m ch c [] row fs channels Hrow Hc).
Qed.

(** [process] is section 4.4 with the stage count [getActiveStages]
    gives. *)
Lemma diffusion_process_through (d : @DiffusionNetwork.t F D J)
      (buffer : AudioBuffer F) (activeStages : Z) :
  length (DiffusionNetwork.allpassFilters d) = 2%nat ->
  (forall c, In c (chans buffer) -> length c = numSamples buffer) ->
  DiffusionNetwork.getActiveStages d = Some activeStages ->
  DiffusionNetwork.process d buffer =
  DiffusionNetwork.spec_process (Z.to_nat activeStages) d buffer.
Proof.
  intros Lfs Hc Ea.
  unfold DiffusionNetwork.process, DiffusionNetwork.spec_process.
  rewrite Ea. cbn [bind].
  destruct buffer as [m channels]. cbn [numSamples chans] in *.
  unfold getNumChannels. cbn [chans numSamples].
  destruct (DiffusionNetwork.allpassFilters d) as [|r0 [|r1 [|r2 fs]]];
    try discriminate Lfs.
  set (n := Z.to_nat activeStages).
  assert (W : forall chs : list (list F),
             (forall c, In c chs -> length c = m) ->
             for_loop (Z.to_nat (jmin_int (size chs) DiffusionNetwork.NumChannels))
               (fun ch st =>
                  for_loop m (fun i '(fs, buf) =>
                      sample <- getSample buf ch i ;;
                      ' (fs', sample') <-
                         DiffusionNetwork.process_sample n ch (fs, sample) ;;
                      buf' <- setSample buf ch i sample' ;;
                      Some (fs', buf'))
                    st)
               ([r0; r1], mkBuf m chs) =
             match DiffusionNetwork.through_channels n [r0; r1] chs with
             | Some (fs', chs') => Some (fs', mkBuf m chs')
             | None => None
             end).
  { intros chs Hl. destruct chs as [|c0 [|c1 rest]].
    - reflexivity.
    - change (Z.to_nat (jmin_int (size [c0]) DiffusionNetwork.NumChannels))
        with 1%nat.
      unfold for_loop at 1. cbn [for_from].
      pose proof (@channel_through n m 0 c0 r0 [r0; r1] [c0] eq_refl eq_refl
                    (Hl c0 (or_introl eq_refl))) as X0.
      change (Z.of_nat 0) with 0%Z in X0. rewrite X0.
      cbn [DiffusionNetwork.through_channels].
      destruct (DiffusionNetwork.through_block n r0 c0) as [[r0' ys]|];
        reflexivity.
    - assert (E2 : Z.to_nat (jmin_int (size (c0 :: c1 :: rest))
                                      DiffusionNetwork.NumChannels) = 2%nat).
      { unfold jmin_int, DiffusionNetwork.NumChannels, size. cbn [length].
        destruct (2 <? Z.of_nat (Datatypes.S (Datatypes.S (length rest))))%Z eqn:E;
          [reflexivity|].
        apply Z.ltb_ge in E. lia. }
      rewrite E2. unfold for_loop at 1. cbn [for_from].
      pose proof (@channel_through n m 0 c0 r0 [r0; r1] (c0 :: c1 :: rest)
                    eq_refl eq_refl (Hl c0 (or_introl eq_refl))) as X0.
      change (Z.of_nat 0) with 0%Z in X0. rewrite X0.
      cbn [DiffusionNetwork.through_channels].
      destruct (DiffusionNetwork.through_block n r0 c0) as [[r0' ys0]|];
        [|reflexivity].
      cbn [bind upd].
      pose proof (@channel_through n m 1 c1 r1 [r0'; r1] (ys0 :: c1 :: rest)
                    eq_refl eq_refl
                    (Hl c1 (or_intror (or_introl eq_refl)))) as X1.
      change (Z.of_nat 1) with (0 + 1)%Z in X1. rewrite X1.
      destruct (DiffusionNetwork.through_block n r1 c1) as [[r1' ys1]|];
        reflexivity. }
  rewrite (W channels Hc).
  destruct (DiffusionNetwork.through_channels n [r0; r1] channels)
    as [[fs' chs']|]; reflexivity.
Qed.
End DiffusionAgainstSpec.
(** C4, amended.  The stages engaged are [2 + t * 6] for the clamped
    thrust [t], computed in the arithmetic of the code and truncated by
    the conversion to [int], not rounded: in binary32 the thrusts 0, 1/8,
    ..., 1 engage 2, 2, 3, 4, 5, 5, 6, 7 and 8 stages, a thrust below 0
    engages 2 and one above 1 engages 8; at a thrust of 1/4 that is 3
    where rounding gives 4.  It is the single-precision sum that is
    truncated: for the thrust 0.333333313, where [2 + 6 t] is below 4,
    the sum rounds to 4 and 4 stages are engaged.  [process] is section
    4.4 of the specification with that count: every sample of a channel
    passes serially through the first units of the channel, as many as
    the count says, in their order, and then the shelf filter runs if
    the thrust is above 0.01; the units from that count on are left as
    they were. *)
Theorem active_stages_single_precision :
  (forall (F D : Type) (AF : Arith F) (AD : Arith D) (CV : Conv F D)
          (J : JuceDSP F D) (d d' : @DiffusionNetwork.t F D J) (t : F),
      DiffusionNetwork.setThrust d t = Some d' ->
      DiffusionNetwork.thrustAmount d' = jlimit fzero fone t /\
      DiffusionNetwork.getActiveStages d' =
        f_to_int (f_of_int 2 + jlimit fzero fone t * f_of_int 6)%fl) /\
  (forall (F D : Type) (AF : Arith F) (AD : Arith D) (CV : Conv F D)
          (J : JuceDSP F D) (d : @DiffusionNetwork.t F D J)
          (buffer : AudioBuffer F) (activeStages : Z),
      length (DiffusionNetwork.allpassFilters d) = 2%nat ->
      (forall c, In c (chans buffer) -> length c = numSamples buffer) ->
      DiffusionNetwork.getActiveStages d = Some activeStages ->
      DiffusionNetwork.process d buffer =
      DiffusionNetwork.spec_process (Z.to_nat activeStages) d buffer) /\
  (forall (F D : Type) (AF : Arith F) (AD : Arith D) (CV : Conv F D)
          (J : JuceDSP F D) (d d' : @DiffusionNetwork.t F D J)
          (buf buf' : AudioBuffer F) (n : Z),
      DiffusionNetwork.getActiveStages d = Some n ->
      DiffusionNetwork.process d buf = Some (d', buf') ->
      forall ch k, (0 <= n <= k)%Z ->
        grid_get (DiffusionNetwork.allpassFilters d') ch k =
        grid_get (DiffusionNetwork.allpassFilters d) ch k) /\
  map stages_at
      [f_lit 0 8; f_lit 1 8; f_lit 2 8; f_lit 3 8; f_lit 4 8; f_lit 5 8;
       f_lit 6 8; f_lit 7 8; f_lit 8 8] =
    map Some [2; 2; 3; 4; 5; 5; 6; 7; 8]%Z /\
  stages_at (f_lit (-1) 1) = Some 2%Z /\
  stages_at (f_lit 3 1) = Some 8%Z /\
  stages_at (B32 (S754_finite false 11184810 (-25))) = Some 4%Z /\
  Qfloor (2 + (11184810 # 33554432) * 6) = 3%Z.
Proof.
  split; [|split; [|split]].
  - intros F D AF AD CV J d d' t H.
    pose proof (setThrust_amount H) as Et. split; [exact Et|].
    unfold DiffusionNetwork.getActiveStages. rewrite Et. reflexivity.
  - intros F D AF AD CV J d buffer activeStages.
    apply diffusion_process_through.
  - intros F D AF AD CV J d d' buf buf' n. apply diffusion_process_frame.
  - repeat split; vm_compute; reflexivity.
Qed.

Section Run32f.
#[local] Existing Instance libm32.
#[local] Existing Instance juce32.

(** A network prepared at 1000 Hz with a thrust of 1/4 engages 3 stages,
    and [process] on a block of two channels of two samples is section
    4.4 with 3 stages; the call returns, with the first sample of the
    first channel at -0.0192. *)
Lemma active_stages_single_precision_witness :
  DiffusionNetwork.getActiveStages diffusion_at_quarter = Some 3%Z /\
  DiffusionNetwork.process diffusion_at_quarter
    (mkBuf 2 [[f_lit 1 1; fzero]; [fzero; f_lit 1 2]]) =
  DiffusionNetwork.spec_process 3 diffusion_at_quarter
    (mkBuf 2 [[f_lit 1 1; fzero]; [fzero; f_lit 1 2]]) /\
  (' (_, b) <- DiffusionNetwork.process diffusion_at_quarter
                 (mkBuf 2 [[f_lit 1 1; fzero]; [fzero; f_lit 1 2]]) ;;
   getSample b 0 0) = Some (B32 (S754_finite true 10294397 (-29))).
Proof.
  split; [vm_compute; reflexivity|].
  split.
  - apply (proj1 (proj2 active_stages_single_precision)
             binary32 binary64 _ _ _ juce32 diffusion_at_quarter
             (mkBuf 2 [[f_lit 1 1; fzero]; [fzero; f_lit 1 2]]) 3%Z).
    + vm_compute. reflexivity.
    + intros c [<-|[<-|[]]]; reflexivity.
    + vm_compute. reflexivity.
  - vm_compute. reflexivity.
Defined.
End Run32f.
